(** * Raven II joint-position discovery (homing): a shallow embedding

    This development embeds [src/raven/homing.cpp] of the Raven II control
    software: the hard-stop detector [check_homing_condition], the per-joint
    state machine [homing], the calibration routine [set_joints_known_pos]
    and the tick entry point [raven_homing].

    Conventions.
    - C [int] and [unsigned long] values are integers of [Z]; the wrap-around
      of [unsigned long] arithmetic is written out with [ulong].
    - C [float] values live in a type [num] with the operations of the class
      [FloatOps]; the instance [B32.ops] is IEEE-754 binary32, the arithmetic
      the program runs on.
    - C arrays are lists, read with [!!] and written with [<[ _ := _ ]>].
    - Functions of the controller that homing.cpp calls but does not define
      (trajectory generation, PD control, cable coupling, state estimation,
      [is_toolDOF], [tools_ready]) are the fields of a record [services];
      they act on an abstract external state [ext] and on the joint,
      mechanism or device they are given.
    - Compile-time switches ([RAVEN_II_SQUARE], [RICKS_TOOLS]) and macros
      whose definition is in a header are fields of [config]. *)

From Stdlib Require Import ZArith Bool Lia QArith Reals Lra Machin.
From Stdlib Require Import Floats.SpecFloat.
From stdpp Require Import base tactics option list.

Local Open Scope Z_scope.

(** ** Data model *)

(** The joint states named in homing.cpp. *)
Inductive jstate : Set :=
| jstate_wait
| jstate_not_ready
| jstate_pos_unknown
| jstate_hard_stop
| jstate_homing1
| jstate_homing2
| jstate_ready.

Global Instance jstate_eq_dec : EqDecision jstate.
Proof. solve_decision. Defined.

(** [mechanism::type] is compared with these two tags. *)
Inductive arm_type : Set := GOLD_ARM | GREEN_ARM.

Global Instance arm_type_eq_dec : EqDecision arm_type.
Proof. solve_decision. Defined.

(** The fields of [struct DOF] that homing.cpp reads or writes.  [type],
    [current_cmd] and [enc_val] are C integers, the positions and torques
    are C floats. *)
Record DOF (num : Type) : Type := mkDOF {
  type : Z;
  state : jstate;
  enc_val : Z;
  current_cmd : Z;
  jpos : num;
  mpos : num;
  jvel_d : num;
  tau_d : num;
  jpos_d : num;
  mpos_d : num;
  enc_offset : num
}.

Arguments mkDOF {num}.
Arguments type {num}.
Arguments state {num}.
Arguments enc_val {num}.
Arguments current_cmd {num}.
Arguments jpos {num}.
Arguments mpos {num}.
Arguments jvel_d {num}.
Arguments tau_d {num}.
Arguments jpos_d {num}.
Arguments mpos_d {num}.
Arguments enc_offset {num}.

(** [struct mechanism]: the arm tag and the array [joint[MAX_DOF_PER_MECH]]. *)
Record mechanism (num : Type) : Type := mkMech {
  mech_type : arm_type;
  joint : list (DOF num)
}.

Arguments mkMech {num}.
Arguments mech_type {num}.
Arguments joint {num}.

(** [struct device]: the array [mech[]]; its length is [NUM_MECH]. *)
Record device (num : Type) : Type := mkDevice {
  mech : list (mechanism num)
}.

Arguments mkDevice {num}.
Arguments mech {num}.

(** One entry of the table [DOF_types[]]. *)
Record DOF_type (num : Type) : Type := mkDOF_type {
  home_position : num;
  max_position : num;
  DAC_max : num
}.

Arguments mkDOF_type {num}.
Arguments home_position {num}.
Arguments max_position {num}.
Arguments DAC_max {num}.

(** [struct param_pass]: the two fields [raven_homing] looks at. *)
Record param_pass : Set := mkParams {
  runlevel : Z;
  sublevel : Z
}.

(** Compile-time configuration. *)
Record config : Set := mkConfig {
  RAVEN_II_SQUARE : bool;      (* #ifdef RAVEN_II_SQUARE *)
  RICKS_TOOLS : bool;          (* #ifdef RICKS_TOOLS *)
  RL_INIT : Z;
  SL_AUTO_INIT : Z;
  ENC_CNTS_PER_REV : Z;
  enc_offset_is_int : bool;    (* C type of DOF::enc_offset: int or float *)
  ULONG_BITS : Z               (* width of unsigned long *)
}.

(** Array sizes and joint indices.  The initialisers of [f_period] and
    [f_magnitude] have [MAX_MECH*MAX_DOF_PER_MECH = 16] entries in two rows
    of eight, [homing_max_dac] has eight, labelled in index order. *)
Definition MAX_MECH : nat := 2.
Definition MAX_DOF_PER_MECH : nat := 8.
Definition SHOULDER : nat := 0.
Definition ELBOW : nat := 1.
Definition Z_INS : nat := 2.
Definition TOOL_ROT : nat := 4.
Definition WRIST : nat := 5.
Definition GRASP1 : nat := 6.
Definition GRASP2 : nat := 7.

Definition INT_MIN : Z := - 2 ^ 31.
Definition INT_MAX : Z := 2 ^ 31 - 1.

(** A joint whose integer fields are values of their C types: [type] indexes
    tables, [current_cmd] is an [int] on which [abs] is defined. *)
Definition wf_DOF {num} (j : DOF num) : Prop :=
  0 <= type j /\ INT_MIN < current_cmd j <= INT_MAX.

(** Field updates. *)
Section Setters.
Context {num : Type}.
Implicit Type j : DOF num.

Definition set_state (s : jstate) j : DOF num :=
    mkDOF (type j) s (enc_val j) (current_cmd j) (jpos j) (mpos j)
        (jvel_d j) (tau_d j) (jpos_d j) (mpos_d j) (enc_offset j).
Definition set_current_cmd (c : Z) j : DOF num :=
    mkDOF (type j) (state j) (enc_val j) c (jpos j) (mpos j)
        (jvel_d j) (tau_d j) (jpos_d j) (mpos_d j) (enc_offset j).
Definition set_jpos (x : num) j : DOF num :=
    mkDOF (type j) (state j) (enc_val j) (current_cmd j) x (mpos j)
        (jvel_d j) (tau_d j) (jpos_d j) (mpos_d j) (enc_offset j).
Definition set_mpos (x : num) j : DOF num :=
    mkDOF (type j) (state j) (enc_val j) (current_cmd j) (jpos j) x
        (jvel_d j) (tau_d j) (jpos_d j) (mpos_d j) (enc_offset j).
Definition set_jvel_d (x : num) j : DOF num :=
    mkDOF (type j) (state j) (enc_val j) (current_cmd j) (jpos j) (mpos j)
        x (tau_d j) (jpos_d j) (mpos_d j) (enc_offset j).
Definition set_tau_d (x : num) j : DOF num :=
    mkDOF (type j) (state j) (enc_val j) (current_cmd j) (jpos j) (mpos j)
        (jvel_d j) x (jpos_d j) (mpos_d j) (enc_offset j).
Definition set_jpos_d (x : num) j : DOF num :=
    mkDOF (type j) (state j) (enc_val j) (current_cmd j) (jpos j) (mpos j)
        (jvel_d j) (tau_d j) x (mpos_d j) (enc_offset j).
Definition set_mpos_d (x : num) j : DOF num :=
    mkDOF (type j) (state j) (enc_val j) (current_cmd j) (jpos j) (mpos j)
        (jvel_d j) (tau_d j) (jpos_d j) x (enc_offset j).
Definition set_enc_offset (x : num) j : DOF num :=
    mkDOF (type j) (state j) (enc_val j) (current_cmd j) (jpos j) (mpos j)
        (jvel_d j) (tau_d j) (jpos_d j) (mpos_d j) x.

Definition set_joint (l : list (DOF num)) (m : mechanism num) : mechanism num :=
    mkMech (mech_type m) l.
End Setters.

(** ** The hard-stop detector *)

(** [homing_max_dac], in its two compile-time variants. *)
Definition homing_max_dac (cfg : config) : list Z :=
  if RAVEN_II_SQUARE cfg
  then [2500; 2500; 1200; 0; 2800; 2200; 2300; 2300]
  else [2500; 2500; 1900; 0; 1400; 1900; 1900; 1900].

(** [check_homing_condition]: [abs] is the integer absolute value of
    <stdlib.h>, [%] the remainder of C. *)
Definition check_homing_condition {num} (cfg : config) (_joint : DOF num) : bool :=
  if decide (state _joint <> jstate_pos_unknown) then false
  else if decide (Z.abs (current_cmd _joint)
                  >= homing_max_dac cfg !!! Z.to_nat (Z.rem (type _joint) 8))
       then true
       else false.

(** ** Arithmetic on C floats *)

(** The float operations [set_joints_known_pos] performs. *)
Class FloatOps (num : Type) : Type := mkFloatOps {
  f_zero : num;                  (* the literal 0 *)
  f_of_int : Z -> num;           (* conversion int -> float *)
  f_opp : num -> num;            (* x *= -1.0 *)
  f_sub : num -> num -> num;
  f_mul : num -> num -> num;
  f_cnts_per_2pi : Z -> num;     (* ENC_CNTS_PER_REV / (2*M_PI), stored in a float *)
  f_to_int : num -> num          (* conversion float -> int, the integer kept in num *)
}.

(** Literals handed to the trajectory generator: a plain decimal, or a
    number of degrees followed by the macro [DEG2RAD]. *)
Inductive literal : Set :=
| Lit (q : Q)
| Lit_DEG2RAD (q : Q).

Global Instance literal_inhabited : Inhabited literal := populate (Lit 0).

(** The tables of [homing]: duration and magnitude of the search move. *)
Definition f_period : list literal :=
  [Lit 1; Lit 1; Lit 1; Lit 9999999; Lit 1; Lit 1; Lit 30; Lit 30;
   Lit 1; Lit 1; Lit 1; Lit 9999999; Lit 1; Lit 1; Lit 30; Lit 30].

Definition f_magnitude : list literal :=
  [Lit_DEG2RAD (-10); Lit_DEG2RAD 10; Lit (2 # 100); Lit 9999999;
   Lit_DEG2RAD (-80); Lit_DEG2RAD 40; Lit_DEG2RAD 40; Lit_DEG2RAD 40;
   Lit_DEG2RAD (-10); Lit_DEG2RAD 10; Lit (2 # 100); Lit 9999999;
   Lit_DEG2RAD (-80); Lit_DEG2RAD 40; Lit_DEG2RAD 40; Lit_DEG2RAD 40].

(** ** External collaborators *)

(** The functions and the table that homing.cpp uses and other files of the
    controller define.  [ext] is whatever state they keep between calls
    (trajectory parameters, filter taps, integrators). *)
Record services (num ext : Type) : Type := mkServices {
  DOF_types : Z -> DOF_type num;
  is_toolDOF : Z -> bool;
  tools_ready : mechanism num -> bool;
  jvel_PI_control : ext -> DOF num -> Z -> ext * DOF num;
  start_trajectory_mag : ext -> DOF num -> literal -> literal -> ext * DOF num;
  update_linear_sinusoid_position_trajectory : ext -> DOF num -> ext * DOF num;
  start_trajectory : ext -> DOF num -> num -> literal -> ext * DOF num;
  update_position_trajectory : ext -> DOF num -> ext * DOF num * Z;
  stop_trajectory : ext -> DOF num -> ext * DOF num;
  invCableCoupling : ext -> device num -> Z -> ext * device num;
  mpos_PD_control : ext -> DOF num -> ext * DOF num;
  TorqueToDAC : ext -> device num -> ext * device num;
  invMechCableCoupling : ext -> mechanism num -> Z -> ext * mechanism num;
  resetFilter : ext -> DOF num -> ext * DOF num;
  getStateLPF : ext -> DOF num -> ext * DOF num;
  fwdMechCableCoupling : ext -> mechanism num -> ext * mechanism num
}.

Arguments DOF_types {num ext}.
Arguments is_toolDOF {num ext}.
Arguments tools_ready {num ext}.
Arguments jvel_PI_control {num ext}.
Arguments start_trajectory_mag {num ext}.
Arguments update_linear_sinusoid_position_trajectory {num ext}.
Arguments start_trajectory {num ext}.
Arguments update_position_trajectory {num ext}.
Arguments stop_trajectory {num ext}.
Arguments invCableCoupling {num ext}.
Arguments mpos_PD_control {num ext}.
Arguments TorqueToDAC {num ext}.
Arguments invMechCableCoupling {num ext}.
Arguments resetFilter {num ext}.
Arguments getStateLPF {num ext}.
Arguments fwdMechCableCoupling {num ext}.

(** What a tick leaves in the log: the [log_msg] calls, and the calls of
    [jvel_PI_control(_, 1)] and of [set_joints_known_pos]. *)
Inductive event : Set :=
| Ev_found_limit (ty cmd : Z)
| Ev_checked (j : nat)
| Ev_joint_ready (ty : Z)
| Ev_PI_reset (i j : nat)
| Ev_calibrate (i : nat) (tool_only : bool).

Global Instance event_eq_dec : EqDecision event.
Proof. solve_decision. Defined.

(** The function-static variables of [raven_homing]. *)
Record statics : Set := mkStatics {
  homing_inited : Z;
  delay : Z;
  delay2 : Z
}.

(** C statics start at zero. *)
Definition statics_init : statics := mkStatics 0 0 0.

(** The state a tick works on: the external state, the device, the log. *)
Record world (num ext : Type) : Type := mkWorld {
  w_ext : ext;
  w_dev : device num;
  w_log : list event
}.

Arguments mkWorld {num ext}.
Arguments w_ext {num ext}.
Arguments w_dev {num ext}.
Arguments w_log {num ext}.

(** Arithmetic of [unsigned long]. *)
Definition ulong (cfg : config) (x : Z) : Z := x mod 2 ^ ULONG_BITS cfg.

Section Model.
Context {num ext : Type} {FO : FloatOps num}.
Variable cfg : config.
Variable sv : services num ext.

(** *** Access to [device0->mech[i].joint[j]] *)

Definition get_joint (d : device num) (i j : nat) : option (DOF num) :=
  match mech d !! i with
  | Some m => joint m !! j
  | None => None
  end.

Definition put_mech (i : nat) (m : mechanism num) (d : device num) : device num :=
  mkDevice (<[i := m]> (mech d)).

Definition put_joint (i j : nat) (x : DOF num) (d : device num) : device num :=
  match mech d !! i with
  | Some m => put_mech i (set_joint (<[j := x]> (joint m)) m) d
  | None => d
  end.

(** [loop_over_joints(device0, _mech, _joint, i, j)]: every joint of every
    mechanism, mechanism by mechanism, in index order. *)
Definition joint_indices (d : device num) : list (nat * nat) :=
  flat_map (fun i => map (fun j => (i, j)) (seq 0 MAX_DOF_PER_MECH))
           (seq 0 (length (mech d))).

Definition loop_over_joints {W : Type} (d : device num)
    (body : nat -> nat -> W -> W) (w : W) : W :=
  foldl (fun w ij => body (fst ij) (snd ij) w) w (joint_indices d).

(** [loop_over_joints(_mech, _joint, j)]: every joint of one mechanism. *)
Definition loop_over_mech_joints {W : Type} (body : nat -> W -> W) (w : W) : W :=
  foldl (fun w j => body j w) w (seq 0 MAX_DOF_PER_MECH).

(** Run [f] on joint [(i, j)] of the world, if there is one. *)
Definition on_joint (i j : nat)
    (f : ext -> DOF num -> ext * DOF num * list event)
    (w : world num ext) : world num ext :=
  match get_joint (w_dev w) i j with
  | Some x =>
      let '(e, x', evs) := f (w_ext w) x in
      mkWorld e (put_joint i j x' (w_dev w)) (w_log w ++ evs)
  | None => w
  end.

(** Run [f] on joint [j] of a mechanism, if there is one. *)
Definition on_mech_joint (j : nat) (f : ext -> DOF num -> ext * DOF num)
    (s : ext * mechanism num) : ext * mechanism num :=
  match joint (snd s) !! j with
  | Some x =>
      let '(e, x') := f (fst s) x in
      (e, set_joint (<[j := x']> (joint (snd s))) (snd s))
  | None => s
  end.

(** *** [homing]: the per-joint state machine *)

(** The body of [case jstate_homing2]. *)
Definition homing2_case (e : ext) (_joint : DOF num) : ext * DOF num * list event :=
  let '(e1, j1, r) := update_position_trajectory sv e _joint in
  if decide (r = 0)
  then (e1, set_state jstate_ready j1, [Ev_joint_ready (type j1)])
  else (e1, j1, []).

Definition homing (e : ext) (_joint : DOF num) : ext * DOF num * list event :=
  match state _joint with
  | jstate_wait => (e, _joint, [])
  | jstate_not_ready =>
      let j1 := set_state jstate_pos_unknown _joint in
      let '(e1, j2) :=
        start_trajectory_mag sv e j1
          (f_magnitude !!! Z.to_nat (type j1))
          (f_period !!! Z.to_nat (type j1)) in
      (e1, j2, [])
  | jstate_pos_unknown =>
      let '(e1, j1) := update_linear_sinusoid_position_trajectory sv e _joint in
      (e1, j1, [])
  | jstate_hard_stop => (e, _joint, [])
  | jstate_homing1 =>
      let '(e1, j1) :=
        start_trajectory sv e _joint
          (home_position (DOF_types sv (type _joint))) (Lit (5 # 2)) in
      homing2_case e1 (set_state jstate_homing2 j1)
  | jstate_homing2 => homing2_case e _joint
  | jstate_ready => (e, _joint, [])
  end.

(** *** [set_joints_known_pos]: the calibration routine *)

(** Body of the first loop: the joint-space reference of one joint. *)
Definition set_reference (tool_only : bool) (_joint : DOF num) : DOF num :=
  if tool_only && negb (is_toolDOF sv (type _joint))
  then set_jpos_d (home_position (DOF_types sv (type _joint))) _joint
  else if negb tool_only && is_toolDOF sv (type _joint)
  then set_jpos_d (jpos _joint) _joint
  else set_state jstate_homing1
         (set_jpos_d (max_position (DOF_types sv (type _joint))) _joint).

(** The test guarding [f_enc_val *= -1.0], in its two compile-time variants. *)
Definition enc_flipped (mt : arm_type) (ty : Z) : bool :=
  if RAVEN_II_SQUARE cfg
  then (bool_decide (mt = GOLD_ARM) && negb (is_toolDOF sv ty))
       || (bool_decide (mt = GREEN_ARM) && is_toolDOF sv ty)
  else bool_decide (mt = GOLD_ARM) || is_toolDOF sv ty.

(** [f_enc_val] after the sign change. *)
Definition signed_enc_val (mt : arm_type) (ty enc : Z) : num :=
  if enc_flipped mt ty then f_opp (f_of_int enc) else f_of_int enc.

(** The assignment to the field [enc_offset]. *)
Definition store_enc_offset (x : num) : num :=
  if enc_offset_is_int cfg then f_to_int x else x.

(** The right-hand side [f_enc_val - (_joint->mpos_d * cc)]. *)
Definition enc_offset_value (mt : arm_type) (_joint : DOF num) : num :=
  f_sub (signed_enc_val mt (type _joint) (enc_val _joint))
        (f_mul (mpos_d _joint) (f_cnts_per_2pi (ENC_CNTS_PER_REV cfg))).

(** Body of the second loop. *)
Definition calibrate_joint (mt : arm_type) (e : ext) (_joint : DOF num)
    : ext * DOF num :=
  let j1 := set_mpos (mpos_d _joint) _joint in
  let '(e1, j2) := resetFilter sv e j1 in
  let j3 := set_enc_offset (store_enc_offset (enc_offset_value mt j2)) j2 in
  getStateLPF sv e1 j3.

Definition set_joints_known_pos (e : ext) (_mech : mechanism num)
    (tool_only : bool) : ext * mechanism num :=
  let s1 :=
    loop_over_mech_joints
      (fun j => on_mech_joint j (fun e x => (e, set_reference tool_only x)))
      (e, _mech) in
  let s2 := invMechCableCoupling sv (fst s1) (snd s1) 1 in
  let s3 :=
    loop_over_mech_joints
      (fun j s => on_mech_joint j (calibrate_joint (mech_type (snd s))) s)
      s2 in
  fwdMechCableCoupling sv (fst s3) (snd s3).

(** *** [raven_homing]: one control tick *)

(** The block under [#ifdef RICKS_TOOLS]. *)
Definition ricks_tools_pass (w : world num ext) : world num ext :=
  if RICKS_TOOLS cfg
  then loop_over_joints (w_dev w)
         (fun i j =>
            on_joint i j
              (fun e x =>
                 (e, if is_toolDOF sv (type x) then set_state jstate_ready x else x, [])))
         w
  else w.

(** Body of the initialisation loop. *)
Definition reset_joint (i j : nat) (e : ext) (_joint : DOF num)
    : ext * DOF num * list event :=
  let j1 :=
    set_state jstate_not_ready
      (set_jvel_d f_zero
         (set_jpos_d (jpos _joint)
            (set_mpos_d (mpos _joint)
               (set_tau_d f_zero _joint)))) in
  if is_toolDOF sv (type j1)
  then let '(e1, j2) := jvel_PI_control sv e j1 1 in (e1, j2, [Ev_PI_reset i j])
  else (e, j1, []).

(** The initialisation loop; it also sets [homing_inited], inside the loop. *)
Definition reset_pass (iw : Z * world num ext) : Z * world num ext :=
  loop_over_joints (w_dev (snd iw))
    (fun i j iw =>
       match get_joint (w_dev (snd iw)) i j with
       | Some _ => (1, on_joint i j (reset_joint i j) (snd iw))
       | None => iw
       end)
    iw.

(** "Specify motion commands". *)
Definition motion_pass (w : world num ext) : world num ext :=
  loop_over_joints (w_dev w)
    (fun i j w =>
       match mech (w_dev w) !! i, get_joint (w_dev w) i j with
       | Some m, Some x =>
           if is_toolDOF sv (type x) || tools_ready sv m
           then on_joint i j homing w
           else w
       | _, _ => w
       end)
    w.

(** "Do PD control on all joints". *)
Definition pd_pass (w : world num ext) : world num ext :=
  loop_over_joints (w_dev w)
    (fun i j =>
       on_joint i j
         (fun e x => let '(e1, x1) := mpos_PD_control sv e x in (e1, x1, [])))
    w.

(** The hard-stop branch of the last loop. *)
Definition detect (j : nat) (e : ext) (_joint : DOF num)
    : ext * DOF num * list event :=
  if check_homing_condition cfg _joint
  then
    let j1 := set_current_cmd 0 (set_state jstate_hard_stop _joint) in
    let '(e1, j2) := stop_trajectory sv e j1 in
    (e1, j2, [Ev_found_limit (type _joint) (current_cmd _joint); Ev_checked j])
  else (e, _joint, []).

Definition joint_state_is (m : mechanism num) (k : nat) (s : jstate) : bool :=
  match joint m !! k with
  | Some x => bool_decide (state x = s)
  | None => false
  end.

(** The completion test of the mechanism. *)
Definition mech_finished (m : mechanism num) : bool :=
  (negb (tools_ready sv m)
   && joint_state_is m TOOL_ROT jstate_hard_stop
   && joint_state_is m WRIST jstate_hard_stop
   && joint_state_is m GRASP1 jstate_hard_stop)
  || (tools_ready sv m
      && joint_state_is m SHOULDER jstate_hard_stop
      && joint_state_is m ELBOW jstate_hard_stop
      && joint_state_is m Z_INS jstate_hard_stop).

(** The block under [if (j == MAX_DOF_PER_MECH-1)], for mechanism [i];
    the first component is the static [delay2]. *)
Definition synchronize (gTime : Z) (i : nat) (tw : Z * world num ext)
    : Z * world num ext :=
  let w := snd tw in
  match mech (w_dev w) !! i with
  | Some m =>
      if mech_finished m
      then
        let d2 := if decide (fst tw = 0) then gTime else fst tw in
        if decide (gTime > ulong cfg (d2 + 200))
        then
          let tool_only := negb (tools_ready sv m) in
          let '(e, m') := set_joints_known_pos (w_ext w) m tool_only in
          (0, mkWorld e (put_mech i m' (w_dev w))
                (w_log w ++ [Ev_calibrate i tool_only]))
        else (d2, w)
      else tw
  | None => tw
  end.

(** "Check homing conditions and set joint angles appropriately". *)
Definition check_pass (gTime : Z) (tw : Z * world num ext) : Z * world num ext :=
  loop_over_joints (w_dev (snd tw))
    (fun i j tw =>
       match get_joint (w_dev (snd tw)) i j with
       | Some _ =>
           let tw1 := (fst tw, on_joint i j (detect j) (snd tw)) in
           if decide (j = MAX_DOF_PER_MECH - 1)%nat
           then synchronize gTime i tw1
           else tw1
       | None => tw
       end)
    tw.

(** The test [begin_homing || !homing_inited]. *)
Definition must_reset (st : statics) (begin_homing : Z) : bool :=
  bool_decide (begin_homing <> 0) || bool_decide (homing_inited st = 0).

(** The test [runlevel == RL_INIT && sublevel == SL_AUTO_INIT]. *)
Definition in_init_mode (currParams : param_pass) : bool :=
  bool_decide (runlevel currParams = RL_INIT cfg)
  && bool_decide (sublevel currParams = SL_AUTO_INIT cfg).

(** The initialisation step. *)
Definition init_step (st : statics) (begin_homing : Z) (w : world num ext)
    : Z * world num ext :=
  if must_reset st begin_homing
  then reset_pass (homing_inited st, w)
  else (homing_inited st, w).

(** Inverse cable coupling, PD control, DAC values. *)
Definition dac_step (currParams : param_pass) (w2 : world num ext)
    : world num ext :=
  let '(e3, d3) := invCableCoupling sv (w_ext w2) (w_dev w2) (runlevel currParams) in
  let w4 := pd_pass (mkWorld e3 d3 (w_log w2)) in
  let '(e5, d5) := TorqueToDAC sv (w_ext w4) (w_dev w4) in
  mkWorld e5 d5 (w_log w4).

(** From the motion commands to the DAC values. *)
Definition control_step (currParams : param_pass) (w : world num ext)
    : world num ext :=
  dac_step currParams (motion_pass w).

(** [raven_homing]; every path returns 0, which is left out.  [gTime] is
    the global tick counter. *)
Definition raven_homing (gTime : Z) (st : statics) (w : world num ext)
    (currParams : param_pass) (begin_homing : Z) : statics * world num ext :=
  let w0 := ricks_tools_pass w in
  if negb (in_init_mode currParams)
  then (mkStatics 0 gTime (delay2 st), w0)
  else if decide (ulong cfg (gTime - delay st) < 1000)
  then (st, w0)
  else
    let iw := init_step st begin_homing w0 in
    let w5 := control_step currParams (snd iw) in
    let tw := check_pass gTime (delay2 st, w5) in
    (mkStatics (fst iw) (delay st) (fst tw), snd tw).

End Model.

Arguments get_joint {num}.
Arguments put_mech {num}.
Arguments put_joint {num}.
Arguments joint_indices {num}.
Arguments loop_over_joints {num W}.
Arguments loop_over_mech_joints {W}.
Arguments on_joint {num ext}.
Arguments on_mech_joint {num ext}.
Arguments joint_state_is {num}.

(** ** Running several ticks *)

(** What the rest of the controller supplies for one tick: the tick counter,
    the run level, the request flag, and the sensor update that other code
    applies to the device before [raven_homing] is called. *)
Record tick_input (num : Type) : Type := mkTick {
  ti_gTime : Z;
  ti_params : param_pass;
  ti_begin_homing : Z;
  ti_sense : device num -> device num
}.

Arguments mkTick {num}.
Arguments ti_gTime {num}.
Arguments ti_params {num}.
Arguments ti_begin_homing {num}.
Arguments ti_sense {num}.

Section Run.
Context {num ext : Type} {FO : FloatOps num}.
Variable cfg : config.
Variable sv : services num ext.

(** One tick on a world whose log is emptied first, so that the log of the
    result is what this tick wrote. *)
Definition tick (t : tick_input num) (sw : statics * world num ext)
    : statics * world num ext :=
  raven_homing cfg sv (ti_gTime t) (fst sw)
    (mkWorld (w_ext (snd sw)) (ti_sense t (w_dev (snd sw))) [])
    (ti_params t) (ti_begin_homing t).

(** The ticks of [ts] in order; the result lists the state after each
    tick, first tick first. *)
Fixpoint run (ts : list (tick_input num)) (sw : statics * world num ext)
    : list (statics * world num ext) :=
  match ts with
  | [] => []
  | t :: ts' => let sw' := tick t sw in sw' :: run ts' sw'
  end.

(** The state after the last tick of [ts]. *)
Definition run_end (ts : list (tick_input num)) (sw : statics * world num ext)
    : statics * world num ext :=
  foldl (fun sw t => tick t sw) sw ts.

End Run.

(** The calibration calls in a log. *)
Definition is_calibrate (ev : event) : bool :=
  match ev with Ev_calibrate _ _ => true | _ => false end.

Definition calibrations (l : list event) : list event :=
  List.filter is_calibrate l.

(** ** IEEE-754 binary32: the arithmetic of C [float] *)

Module B32.

Definition float : Type := spec_float.
Definition prec : Z := 24.
Definition emax : Z := 128.

Definition of_int (z : Z) : float := binary_normalize prec emax z 0 false.
Definition opp (x : float) : float := SFopp x.
Definition add (x y : float) : float := SFadd prec emax x y.
Definition sub (x y : float) : float := SFsub prec emax x y.
Definition mul (x y : float) : float := SFmul prec emax x y.
Definition div (x y : float) : float := SFdiv prec emax x y.

(** [M_PI] of <math.h>, the binary64 number 0x400921FB54442D18. *)
Definition M_PI : spec_float := S754_finite false 7074237752028440 (-51).

Definition double_of_int (z : Z) : spec_float := binary_normalize 53 1024 z 0 false.

(** Conversion binary64 -> binary32 (round to nearest even). *)
Definition narrow (x : spec_float) : float :=
  match x with
  | S754_finite s m e => binary_normalize prec emax (cond_Zopp s (Zpos m)) e s
  | _ => x
  end.

(** [ENC_CNTS_PER_REV / (2*M_PI)]: computed in binary64, stored in a float. *)
Definition cnts_per_2pi (n : Z) : float :=
  narrow (SFdiv 53 1024 (double_of_int n)
            (SFmul 53 1024 (double_of_int 2) M_PI)).

(** Conversion float -> int.  The fraction is discarded.  A value that is
    not an [int] (out of range, infinite, not a number) has no defined
    result in C; the conversion instruction of the x86 gives [INT_MIN]. *)
Definition to_Z (x : float) : Z :=
  match x with
  | S754_finite s m e =>
      let z :=
        cond_Zopp s (if 0 <=? e then Zpos m * 2 ^ e else Z.quot (Zpos m) (2 ^ (- e))) in
      if (INT_MIN <=? z) && (z <=? INT_MAX) then z else INT_MIN
  | S754_zero _ => 0
  | _ => INT_MIN
  end.

(** A float stored into an [int] field and read back. *)
Definition to_int (x : float) : float := of_int (to_Z x).

(** The rational number a finite float stands for. *)
Definition value (x : float) : Q :=
  match x with
  | S754_finite s m e =>
      if 0 <=? e
      then inject_Z (cond_Zopp s (Zpos m) * 2 ^ e)
      else Qmake (cond_Zopp s (Zpos m)) (Z.to_pos (2 ^ (- e)))
  | _ => 0%Q
  end.

Global Instance ops : FloatOps float :=
  mkFloatOps float (of_int 0) of_int opp sub mul cnts_per_2pi to_int.

End B32.

(** ** A test bench

    A concrete controller around [raven_homing], in binary32, used to run
    the program on concrete inputs: one-to-one cable coupling, a
    proportional position controller, a DAC gain of 8192 counts per unit
    of torque, a search move of 1/8 rad per tick, a point-to-point move
    that takes three ticks. *)

Module Bench.

Import B32.

(** Remaining ticks of the point-to-point move, by joint type. *)
Definition ext : Type := list nat.

Definition ext_init : ext := replicate 16 0%nat.

(** The build: no [RAVEN_II_SQUARE], no [RICKS_TOOLS], 4096 counts per
    revolution, a 64-bit [unsigned long]. *)
Definition cfg (enc_int : bool) : config := mkConfig false false 1 1 4096 enc_int 64.

Definition init_params : param_pass := mkParams 1 1.

Definition tenth : float := div (of_int 1) (of_int 10).

Definition DOF_types (ty : Z) : DOF_type float :=
  mkDOF_type (of_int 0) tenth (of_int 2500).

(** Modelled from the spec: [is_toolDOF] is not in homing.cpp.  The tool
    DOFs are tool-rotation, wrist, grasper1 and grasper2, the joints 4 to 7
    of a mechanism, and joint [j] of mechanism [i] has type [8*i + j]. *)
Definition is_toolDOF (ty : Z) : bool := bool_decide (4 <= ty mod 8).

(** Modelled from the spec: [tools_ready] is not in homing.cpp.  The tools
    of a mechanism are ready when its tool DOFs have finished homing, that
    is, are all in [jstate_ready]. *)
Definition tools_ready (m : mechanism float) : bool :=
  forallb (fun x => implb (is_toolDOF (type x)) (bool_decide (state x = jstate_ready)))
          (joint m).

Definition jvel_PI_control (e : ext) (x : DOF float) (reset_I : Z) : ext * DOF float :=
  (e, x).

Definition start_trajectory_mag (e : ext) (x : DOF float) (mag period : literal)
    : ext * DOF float :=
  (e, set_jvel_d (of_int 0) (set_jpos_d (jpos x) x)).

(** 1/8. *)
Definition search_step : float := S754_finite false 8388608 (-26).

Definition update_linear_sinusoid_position_trajectory (e : ext) (x : DOF float)
    : ext * DOF float :=
  (e, set_jpos_d (add (jpos_d x) search_step) x).

Definition start_trajectory (e : ext) (x : DOF float) (target : float)
    (duration : literal) : ext * DOF float :=
  (<[Z.to_nat (type x) := 3%nat]> e, x).

Definition update_position_trajectory (e : ext) (x : DOF float)
    : ext * DOF float * Z :=
  match e !! Z.to_nat (type x) with
  | Some (S n) => (<[Z.to_nat (type x) := n]> e, x, 1)
  | _ => (e, set_jpos_d (home_position (DOF_types (type x))) x, 0)
  end.

Definition stop_trajectory (e : ext) (x : DOF float) : ext * DOF float :=
  (e, set_jvel_d (of_int 0) (set_jpos_d (jpos x) x)).

Definition map_joints (f : DOF float -> DOF float) (m : mechanism float)
    : mechanism float :=
  set_joint (map f (joint m)) m.

Definition invMechCableCoupling (e : ext) (m : mechanism float) (rl : Z)
    : ext * mechanism float :=
  (e, map_joints (fun x => set_mpos_d (jpos_d x) x) m).

Definition invCableCoupling (e : ext) (d : device float) (rl : Z)
    : ext * device float :=
  (e, mkDevice (map (map_joints (fun x => set_mpos_d (jpos_d x) x)) (mech d))).

Definition mpos_PD_control (e : ext) (x : DOF float) : ext * DOF float :=
  (e, set_tau_d (sub (mpos_d x) (mpos x)) x).

Definition TorqueToDAC (e : ext) (d : device float) : ext * device float :=
  (e, mkDevice
        (map (map_joints
                (fun x => set_current_cmd (to_Z (mul (of_int 8192) (tau_d x))) x))
             (mech d))).

Definition resetFilter (e : ext) (x : DOF float) : ext * DOF float := (e, x).

Definition getStateLPF (e : ext) (x : DOF float) : ext * DOF float := (e, x).

Definition fwdMechCableCoupling (e : ext) (m : mechanism float)
    : ext * mechanism float :=
  (e, map_joints (fun x => set_jpos (mpos x) x) m).

Definition sv : services float ext :=
  mkServices float ext DOF_types is_toolDOF tools_ready jvel_PI_control
    start_trajectory_mag update_linear_sinusoid_position_trajectory
    start_trajectory update_position_trajectory stop_trajectory
    invCableCoupling mpos_PD_control TorqueToDAC invMechCableCoupling
    resetFilter getStateLPF fwdMechCableCoupling.

(** A joint at rest: encoder at [enc], everything else zero. *)
Definition joint0 (ty : Z) (s : jstate) (enc : Z) : DOF float :=
  mkDOF ty s enc 0 (of_int 0) (of_int 0) (of_int 0) (of_int 0) (of_int 0)
        (of_int 0) (of_int 0).

(** Mechanism [i] with its eight joints, all in state [s]. *)
Definition mech0 (i : Z) (a : arm_type) (s : jstate) (enc : Z) : mechanism float :=
  mkMech a (map (fun j => joint0 (8 * i + j) s enc) [0; 1; 2; 3; 4; 5; 6; 7]).

(** Mechanism [i] with its positioning joints (and the unused one) in
    state [s] and its tool DOFs in state [s']. *)
Definition mech2 (i : Z) (a : arm_type) (s s' : jstate) (enc : Z) : mechanism float :=
  mkMech a (map (fun j => joint0 (8 * i + j) (if j <? 4 then s else s') enc)
                [0; 1; 2; 3; 4; 5; 6; 7]).

Definition one_arm : device float := mkDevice [mech0 0 GOLD_ARM jstate_wait 5000].

Definition two_arms : device float :=
  mkDevice [mech0 0 GOLD_ARM jstate_wait 5000; mech0 1 GREEN_ARM jstate_wait 5000].

(** Power-on: statics at zero, no move in progress, empty log. *)
Definition boot (d : device float) : statics * world float ext :=
  (statics_init, mkWorld ext_init d []).

(** Sensor updates.  [stalled]: no joint moves.  [tracking i]: the joints
    of mechanism [i] follow their commands.  [slack i j x]: the motor of
    joint [(i, j)] is found at position [x]. *)
Definition stalled (d : device float) : device float := d.

Definition tracking (i : nat) (d : device float) : device float :=
  match mech d !! i with
  | Some m =>
      put_mech i (map_joints (fun x => set_jpos (jpos_d x) (set_mpos (mpos_d x) x)) m) d
  | None => d
  end.

Definition slack (i j : nat) (x : float) (d : device float) : device float :=
  match get_joint d i j with
  | Some y => put_joint i j (set_mpos x y) d
  | None => d
  end.

(** Ticks [g], [g+1], ..., [g+n-1] in init mode; [begin_homing] is [b] on
    the first of them and 0 afterwards; [sense g] is the sensor update
    before tick [g]. *)
Fixpoint ticks (sense : Z -> device float -> device float) (b : Z) (g : Z) (n : nat)
    : list (tick_input float) :=
  match n with
  | O => []
  | S n' => mkTick g init_params b (sense g) :: ticks sense 0 (g + 1) n'
  end.

(** The state of joint [(i, j)] in a world, [jstate_wait] if there is none. *)
Definition state_of (sw : statics * world float ext) (i j : nat) : jstate :=
  match get_joint (w_dev (snd sw)) i j with
  | Some x => state x
  | None => jstate_wait
  end.

(** For every tick of a run, the tick counter and the calibration calls
    the tick made; ticks without a call are left out. *)
Fixpoint calibration_ticks (g : Z) (l : list (statics * world float ext))
    : list (Z * list event) :=
  match l with
  | [] => []
  | sw :: l' =>
      match calibrations (w_log (snd sw)) with
      | [] => calibration_ticks (g + 1) l'
      | c => (g, c) :: calibration_ticks (g + 1) l'
      end
  end.

(** The state and the command of joint [(i, j)]. *)
Definition state_cmd_of (sw : statics * world float ext) (i j : nat) : jstate * Z :=
  match get_joint (w_dev (snd sw)) i j with
  | Some x => (state x, current_cmd x)
  | None => (jstate_wait, 0)
  end.

(** The encoder offset of joint [(i, j)]. *)
Definition enc_offset_of (sw : statics * world float ext) (i j : nat) : float :=
  match get_joint (w_dev (snd sw)) i j with
  | Some x => enc_offset x
  | None => of_int 0
  end.

(** The joints [js] of mechanism [i] are all in [jstate_hard_stop]. *)
Definition all_hard_stop (i : nat) (js : list nat) (sw : statics * world float ext)
    : bool :=
  forallb (fun j => bool_decide (state_of sw i j = jstate_hard_stop)) js.

(** The first tick of a run after which [P] holds; the run starts at tick [g]. *)
Fixpoint first_tick (P : statics * world float ext -> bool) (g : Z)
    (l : list (statics * world float ext)) : option Z :=
  match l with
  | [] => None
  | sw :: l' => if P sw then Some g else first_tick P (g + 1) l'
  end.

(** The ticks of a run at which the encoder offset of joint [(i, j)] is
    not what it was, with the new value; [v] is the value before the run. *)
Fixpoint offset_changes (i j : nat) (v : float) (g : Z)
    (l : list (statics * world float ext)) : list (Z * float) :=
  match l with
  | [] => []
  | sw :: l' =>
      if bool_decide (SFeqb (enc_offset_of sw i j) v = true)
      then offset_changes i j v (g + 1) l'
      else (g, enc_offset_of sw i j) :: offset_changes i j (enc_offset_of sw i j) (g + 1) l'
  end.

(** A complete homing pass of one arm whose joints are all blocked: power
    on, 430 ticks from tick 1000, [begin_homing] set on the first. *)
Definition full_pass : list (statics * world float ext) :=
  run (cfg true) sv (ticks (fun _ => stalled) 1 1000 430) (boot one_arm).

(** The same start, but before tick 1003 the motor of the tool-rotation
    joint is found 1/64 rad back from where it stopped. *)
Definition relaxing_run : list (statics * world float ext) :=
  run (cfg true) sv
    (ticks (fun g => if g =? 1003
                     then slack 0 TOOL_ROT (S754_finite true 8388608 (-29))
                     else stalled)
           1 1000 5)
    (boot one_arm).

(** Two arms.  The joints of the second are blocked from the start; those
    of the first follow their commands up to tick [free_until] and are
    blocked afterwards. *)
Definition two_arm_run (free_until : Z) : list (statics * world float ext) :=
  run (cfg true) sv
    (ticks (fun g => if g <=? free_until then tracking 0 else stalled) 1 1000 610)
    (boot two_arms).

(** The joint the detector looks at in the third tick of [full_pass]:
    joint [(0, 4)] after the DAC values of that tick were computed. *)
Definition world_after_control (sw : statics * world float ext) : world float ext :=
  control_step sv init_params
    (snd (init_step sv (fst sw) 0
            (ricks_tools_pass (cfg true) sv
               (mkWorld (w_ext (snd sw)) (w_dev (snd sw)) [])))).

Definition after_two_ticks : statics * world float ext :=
  run_end (cfg true) sv (ticks (fun _ => stalled) 1 1000 2) (boot one_arm).

Definition tool_rot_at_stop : DOF float :=
  default (joint0 4 jstate_wait 0)
          (get_joint (w_dev (world_after_control after_two_ticks)) 0 TOOL_ROT).

End Bench.

(** ** The interface of the external collaborators

    Each service may change the external state at will, and of the joint
    only the fields that are its output. *)

Section Contracts.
Context {num ext : Type}.
Implicit Types x : DOF num.

(** The trajectory generator writes the desired joint position and velocity. *)
Definition writes_traj x x' : Prop :=
  x' = set_jvel_d (jvel_d x') (set_jpos_d (jpos_d x') x).

(** The inverse cable coupling writes the desired motor position. *)
Definition writes_mpos_d x x' : Prop := x' = set_mpos_d (mpos_d x') x.

(** The position controller writes the desired torque. *)
Definition writes_tau_d x x' : Prop := x' = set_tau_d (tau_d x') x.

(** The command stage writes the DAC command. *)
Definition writes_current_cmd x x' : Prop := x' = set_current_cmd (current_cmd x') x.

(** The state estimator writes the measured motor position. *)
Definition writes_mpos x x' : Prop := x' = set_mpos (mpos x') x.

(** The forward cable coupling writes the measured joint position. *)
Definition writes_jpos x x' : Prop := x' = set_jpos (jpos x') x.

(** The fields no service writes: the type, the homing state and the
    encoder count. *)
Definition keeps_homing x x' : Prop :=
  type x' = type x /\ state x' = state x /\ enc_val x' = enc_val x.

(** Two mechanisms with the same arm tag and as many joints, whose joints
    at every index [j] are related by [R j]. *)
Definition mech_rel (R : nat -> DOF num -> DOF num -> Prop)
    (m m' : mechanism num) : Prop :=
  mech_type m' = mech_type m
  /\ length (joint m') = length (joint m)
  /\ forall j x x', joint m !! j = Some x -> joint m' !! j = Some x' -> R j x x'.

(** Two devices with as many mechanisms, related mechanism by mechanism. *)
Definition dev_rel (R : nat -> nat -> DOF num -> DOF num -> Prop)
    (d d' : device num) : Prop :=
  length (mech d') = length (mech d)
  /\ forall i m m', mech d !! i = Some m -> mech d' !! i = Some m' -> mech_rel (R i) m m'.

(** Progress of a loop over the joints of a device: the joints of the
    mechanisms before [i], and the joints before [k] of mechanism [i], are
    related to their initial value by [Q]; the others are as they were. *)
Definition vis_rel (i k : nat) (Q : nat -> nat -> DOF num -> DOF num -> Prop)
    : nat -> nat -> DOF num -> DOF num -> Prop :=
  fun i' j' x x' =>
    if decide (j' < MAX_DOF_PER_MECH /\ (i' < i \/ (i' = i /\ j' < k)))%nat
    then Q i' j' x x'
    else x' = x.

(** Progress of a loop over the joints of one mechanism. *)
Definition mvis_rel (k : nat) (Q : nat -> DOF num -> DOF num -> Prop)
    : nat -> DOF num -> DOF num -> Prop :=
  fun j' x x' =>
    if decide (j' < MAX_DOF_PER_MECH /\ j' < k)%nat then Q j' x x' else x' = x.

Record services_ok (sv : services num ext) : Prop := mkServicesOk {
  ok_jvel_PI_control :
    forall e x r, snd (jvel_PI_control sv e x r) = x;
  ok_start_trajectory_mag :
    forall e x a b, writes_traj x (snd (start_trajectory_mag sv e x a b));
  ok_update_linear_sinusoid_position_trajectory :
    forall e x, writes_traj x (snd (update_linear_sinusoid_position_trajectory sv e x));
  ok_start_trajectory :
    forall e x a b, writes_traj x (snd (start_trajectory sv e x a b));
  ok_update_position_trajectory :
    forall e x, writes_traj x (snd (fst (update_position_trajectory sv e x)));
  ok_stop_trajectory :
    forall e x, writes_traj x (snd (stop_trajectory sv e x));
  ok_invCableCoupling :
    forall e d r, dev_rel (fun _ _ => writes_mpos_d) d (snd (invCableCoupling sv e d r));
  ok_mpos_PD_control :
    forall e x, writes_tau_d x (snd (mpos_PD_control sv e x));
  ok_TorqueToDAC :
    forall e d, dev_rel (fun _ _ => writes_current_cmd) d (snd (TorqueToDAC sv e d));
  ok_invMechCableCoupling :
    forall e m r, mech_rel (fun _ => writes_mpos_d) m (snd (invMechCableCoupling sv e m r));
  ok_resetFilter :
    forall e x, writes_mpos x (snd (resetFilter sv e x));
  ok_getStateLPF :
    forall e x, writes_mpos x (snd (getStateLPF sv e x));
  ok_fwdMechCableCoupling :
    forall e m, mech_rel (fun _ => writes_jpos) m (snd (fwdMechCableCoupling sv e m))
}.

(** The tools of a mechanism are ready exactly when every tool DOF of the
    mechanism is in [jstate_ready]. *)
Definition tools_ready_ok (sv : services num ext) : Prop :=
  forall m,
    tools_ready sv m = true
    <-> (forall x, x ∈ joint m -> is_toolDOF sv (type x) = true -> state x = jstate_ready).

(** The joints at the tool indices are tool DOFs, those at the positioning
    indices are not, and the mechanism has its eight joints. *)
Definition tool_layout (sv : services num ext) (m : mechanism num) : Prop :=
  length (joint m) = MAX_DOF_PER_MECH
  /\ forall j x, joint m !! j = Some x ->
       is_toolDOF sv (type x) = bool_decide (TOOL_ROT <= j)%nat.

(** The sensor update leaves the homing state and the type of every joint. *)
Definition sense_ok (f : device num -> device num) : Prop :=
  forall d, dev_rel (fun _ _ x x' => state x' = state x /\ type x' = type x) d (f d).

End Contracts.


(** ** What the passes of a tick do to a joint *)

Section CalibrationSpec.
Context {num ext : Type} {FO : FloatOps num}.
Variable cfg : config.
Variable sv : services num ext.
Implicit Types x y : DOF num.

(** The effect of [calibrate_joint]: the encoder offset is the one computed
    from the joint's own encoder count and desired motor position. *)
Definition calibrated (mt : arm_type) x x' : Prop :=
  keeps_homing x x' /\ current_cmd x' = current_cmd x /\ jpos x' = jpos x
  /\ tau_d x' = tau_d x /\ jpos_d x' = jpos_d x /\ mpos_d x' = mpos_d x
  /\ jvel_d x' = jvel_d x
  /\ enc_offset x' = store_enc_offset cfg (enc_offset_value cfg sv mt x').

(** The effect of [set_joints_known_pos] on joint [j] of a mechanism with
    arm tag [mt]. *)
Definition known_pos_rel (mt : arm_type) (tool_only : bool) (j : nat) x y : Prop :=
  type y = type x /\ enc_val y = enc_val x /\ current_cmd y = current_cmd x
  /\ tau_d y = tau_d x /\ jvel_d y = jvel_d x
  /\ if decide (j < MAX_DOF_PER_MECH)%nat
     then jpos_d y = jpos_d (set_reference sv tool_only x)
          /\ state y = state (set_reference sv tool_only x)
          /\ enc_offset y = store_enc_offset cfg (enc_offset_value cfg sv mt y)
     else jpos_d y = jpos_d x /\ state y = state x.

(** The assignments of the initialisation loop. *)
Definition reset_fields x : DOF num :=
  set_state jstate_not_ready
    (set_jvel_d f_zero
       (set_jpos_d (jpos x) (set_mpos_d (mpos x) (set_tau_d f_zero x)))).

(** The transitions [homing] can make. *)
Definition homing_step (s s' : jstate) : Prop :=
  s' = s
  \/ (s = jstate_not_ready /\ s' = jstate_pos_unknown)
  \/ (s = jstate_homing1 /\ (s' = jstate_homing2 \/ s' = jstate_ready))
  \/ (s = jstate_homing2 /\ s' = jstate_ready).

(** The effect of [homing] on a joint. *)
Definition homing_rel x x' : Prop :=
  type x' = type x /\ enc_val x' = enc_val x /\ current_cmd x' = current_cmd x
  /\ jpos x' = jpos x /\ mpos x' = mpos x /\ tau_d x' = tau_d x
  /\ mpos_d x' = mpos_d x /\ enc_offset x' = enc_offset x
  /\ homing_step (state x) (state x').

(** The effect of the coupling, control and command stages on a joint. *)
Definition dac_rel x x' : Prop :=
  keeps_homing x x' /\ jpos x' = jpos x /\ mpos x' = mpos x
  /\ jpos_d x' = jpos_d x /\ jvel_d x' = jvel_d x /\ enc_offset x' = enc_offset x.

(** The effect of the last loop of a tick on joint [j] of a mechanism:
    a joint on which the detector fires ends the tick with a zero command,
    every other joint with the command it had. *)
Definition check_rel (j : nat) x x' : Prop :=
  type x' = type x
  /\ if decide (j < MAX_DOF_PER_MECH)%nat
     then (check_homing_condition cfg x = true ->
           current_cmd x' = 0
           /\ (state x' = jstate_hard_stop \/ state x' = jstate_homing1))
          /\ (check_homing_condition cfg x = false ->
              current_cmd x' = current_cmd x
              /\ (state x' = state x \/ state x' = jstate_homing1))
     else current_cmd x' = current_cmd x /\ state x' = state x.

(** Progress of the last loop of a tick: after joint 7 of a mechanism the
    whole mechanism counts as visited. *)
Definition chk_rel (i k : nat) : nat -> nat -> DOF num -> DOF num -> Prop :=
  fun i' j' x x' =>
    if decide (i' < i \/ (i' = i /\ (j' < k \/ k = MAX_DOF_PER_MECH)))%nat
    then check_rel j' x x'
    else x' = x.

(** The same, between the hard-stop check of a joint and the
    synchronisation that may follow it. *)
Definition mid_rel (i k : nat) : nat -> nat -> DOF num -> DOF num -> Prop :=
  fun i' j' x x' =>
    if decide (i' < i \/ (i' = i /\ j' < k))%nat
    then check_rel j' x x'
    else x' = x.

(** The hard-stop checks of mechanism [i], joints 0 to 6. *)
Definition detect_upto7 (i : nat) (w : world num ext) : world num ext :=
  foldl (fun w j => on_joint i j (detect cfg sv j) w) w (seq 0 (MAX_DOF_PER_MECH - 1)).

(** The hard-stop checks of mechanism [i], all eight joints. *)
Definition detect_all (i : nat) (w : world num ext) : world num ext :=
  on_joint i (MAX_DOF_PER_MECH - 1) (detect cfg sv (MAX_DOF_PER_MECH - 1))
    (detect_upto7 i w).

(** The effect of the hard-stop checks of mechanism [i] on the joints of
    mechanism [i']: a joint that is not searching is left as it is, one
    that is searching goes on or is stopped. *)
Definition det_rel (i i' : nat) x x' : Prop :=
  if decide (i' = i)
  then type x' = type x
       /\ (state x <> jstate_pos_unknown -> x' = x)
       /\ (state x = jstate_pos_unknown ->
           state x' = jstate_pos_unknown \/ state x' = jstate_hard_stop)
  else x' = x.

(** A joint at its hard stop, or ready, that has stayed so. *)
Definition stable_rel x x' : Prop :=
  type x' = type x
  /\ (state x = jstate_hard_stop -> state x' = jstate_hard_stop)
  /\ (state x = jstate_ready -> state x' = jstate_ready).

(** The last loop of a tick, for mechanism [i]. *)
Definition check_mech (gTime : Z) (i : nat) (tw : Z * world num ext)
    : Z * world num ext :=
  let w7 := detect_upto7 i (snd tw) in
  match get_joint (w_dev w7) i (MAX_DOF_PER_MECH - 1) with
  | Some _ =>
      synchronize cfg sv gTime i
        (fst tw, on_joint i (MAX_DOF_PER_MECH - 1) (detect cfg sv (MAX_DOF_PER_MECH - 1)) w7)
  | None => (fst tw, w7)
  end.

End CalibrationSpec.

(** ** The states of a joint over a tick *)

(** The transitions the last loop of a tick can make on a joint: the
    detection of the hard stop, and the calibration of its group. *)
Definition check_step (s s' : jstate) : Prop :=
  s' = s \/ s' = jstate_homing1
  \/ (s = jstate_pos_unknown /\ s' = jstate_hard_stop).

(** What the motion loop of a tick does to a joint of mechanism [i] of the
    device [d]: a tool DOF is handed to [homing]; any other joint is left
    alone while the tools of its mechanism are not ready. *)
Definition motion_gate {num ext : Type} (sv : services num ext) (d : device num)
    : nat -> nat -> DOF num -> DOF num -> Prop :=
  fun i _ x x' =>
    (is_toolDOF sv (type x) = true -> exists e, x' = snd (fst (homing sv e x)))
    /\ (is_toolDOF sv (type x) = false ->
        forall m0, mech d !! i = Some m0 -> tools_ready sv m0 = false -> x' = x).

(** The measured positions and the encoder offset of a joint. *)
Definition same_estimate {num : Type} (x y : DOF num) : Prop :=
  jpos y = jpos x /\ mpos y = mpos x /\ enc_offset y = enc_offset x.

(** The three joints the completion test of [raven_homing] reads: those of
    the first disjunct while [tools_ready] is false, those of the second
    once it is true. *)
Definition active_group {num ext : Type} (sv : services num ext)
    (m : mechanism num) : list nat :=
  if tools_ready sv m then [SHOULDER; ELBOW; Z_INS] else [TOOL_ROT; WRIST; GRASP1].

(** The active group of the only mechanism of the device is complete at
    the end of tick [j] of a run. *)
Definition complete_after {num ext : Type} (sv : services num ext)
    (l : list (statics * world num ext)) (j : nat) : bool :=
  match l !! j with
  | Some sw =>
      match mech (w_dev (snd sw)) with
      | [m] => mech_finished sv m
      | _ => false
      end
  | None => false
  end.

(** Scenario C: one arm whose tools are ready and whose positioning joints
    are all at their hard stops when tick 1000 starts, the settle timer
    clear; 250 ticks without restart. *)
Definition scenario_C : list (statics * world B32.float Bench.ext) :=
  run (Bench.cfg true) Bench.sv (Bench.ticks (fun _ => Bench.stalled) 0 1000 250)
    (mkStatics 1 0 0,
     mkWorld Bench.ext_init
       (mkDevice [Bench.mech2 0 GOLD_ARM jstate_hard_stop jstate_ready 5000]) []).

(** The blocked arm of [full_pass], with [begin_homing] set again at tick
    1202, one tick before the tools would have been calibrated. *)
Definition restarted_pass : list (statics * world B32.float Bench.ext) :=
  run (Bench.cfg true) Bench.sv
    (Bench.ticks (fun _ => Bench.stalled) 1 1000 202
     ++ Bench.ticks (fun _ => Bench.stalled) 1 1202 10)
    (Bench.boot Bench.one_arm).

(** ** Reading a calibration back

    The comment in [set_joints_known_pos] gives the relation the encoder
    offset inverts, [mpos = k * (enc_val - enc_offset)], with
    [k = 2*pi/ENC_CNTS_PER_REV] and [enc_val] taken with the sign the
    routine gives it.  [to_R] is the real number a value of the field type
    stands for. *)

Definition enc_sign {num ext : Type} (cfg : config) (sv : services num ext)
    (mt : arm_type) (ty : Z) : Z :=
  if enc_flipped cfg sv mt ty then -1 else 1.

Definition mpos_of_enc {num ext : Type} (to_R : num -> R) (cfg : config)
    (sv : services num ext) (mt : arm_type) (y : DOF num) : R :=
  (2 * PI / IZR (ENC_CNTS_PER_REV cfg)
   * (IZR (enc_sign cfg sv mt (type y) * enc_val y) - to_R (enc_offset y)))%R.

(** The real number a binary32 value stands for. *)
Definition b32_to_R (x : B32.float) : R := Q2R (B32.value x).

(** Zero or a finite number: not an infinity, not a NaN. *)
Definition b32_finite (x : B32.float) : bool :=
  match x with
  | S754_zero _ | S754_finite _ _ _ => true
  | _ => false
  end.

(** The record [mrs] holds the integer [M] shifted right by [j] bits: the
    quotient, and where the remainder lies between 0 and [2 ^ j]. *)
Definition shifted (M j : Z) (mrs : shr_record) : Prop :=
  exists rest,
    M = shr_m mrs * 2 ^ j + rest /\ 0 <= rest < 2 ^ j
    /\ match shr_r mrs, shr_s mrs with
       | false, false => rest = 0
       | false, true => 0 < 2 * rest < 2 ^ j
       | true, false => 2 * rest = 2 ^ j
       | true, true => 2 ^ j < 2 * rest
       end.
(** * Properties *)

(** ** The hard-stop detector *)

Lemma check_homing_condition_spec {num : Type} (cfg : config) (j : DOF num) :
  check_homing_condition cfg j = true
  <-> state j = jstate_pos_unknown
      /\ Z.abs (current_cmd j) >= homing_max_dac cfg !!! Z.to_nat (Z.rem (type j) 8).
Proof.
  unfold check_homing_condition.
  destruct (decide (state j <> jstate_pos_unknown)) as [Hs | Hs].
  - split; [discriminate | intros [Heq _]; contradiction].
  - apply dec_stable in Hs.
    destruct (decide (Z.abs (current_cmd j)
                      >= homing_max_dac cfg !!! Z.to_nat (Z.rem (type j) 8))).
    + split; auto.
    + split; [discriminate | intros [_ Hge]; contradiction].
Qed.

Lemma homing_max_dac_unused (cfg : config) : homing_max_dac cfg !!! 3%nat = 0.
Proof. unfold homing_max_dac. destruct (RAVEN_II_SQUARE cfg); reflexivity. Qed.

Lemma homing_max_dac_nonneg (cfg : config) (k : nat) : 0 <= homing_max_dac cfg !!! k.
Proof.
  unfold homing_max_dac.
  destruct (RAVEN_II_SQUARE cfg);
    do 9 (destruct k as [| k]; [cbn; lia |]); cbn; lia.
Qed.

(** C1.  For a joint whose [type] and [current_cmd] are values of their C
    types, [check_homing_condition] returns true exactly when the state is
    [jstate_pos_unknown] and [abs(current_cmd) >= homing_max_dac[type % 8]];
    in every other state it returns false, whatever [current_cmd] is. *)
Theorem C1_detector_correct {num : Type} (cfg : config) (j : DOF num) :
  wf_DOF j ->
  (check_homing_condition cfg j = true
   <-> state j = jstate_pos_unknown
       /\ Z.abs (current_cmd j) >= homing_max_dac cfg !!! Z.to_nat (type j mod 8))
  /\ (state j <> jstate_pos_unknown -> check_homing_condition cfg j = false).
Proof.
  intros [Hty _]. split.
  - rewrite check_homing_condition_spec, Z.rem_mod_nonneg by lia. reflexivity.
  - intros Hs. unfold check_homing_condition.
    destruct (decide (state j <> jstate_pos_unknown)); [reflexivity | contradiction].
Qed.

Lemma C1_detector_correct_witness :
  wf_DOF (set_current_cmd (-1400) (Bench.joint0 12 jstate_pos_unknown 0))
  /\ (check_homing_condition (Bench.cfg true)
        (set_current_cmd (-1400) (Bench.joint0 12 jstate_pos_unknown 0)) = true
      <-> jstate_pos_unknown = jstate_pos_unknown /\ 1400 >= 1400).
Proof.
  split.
  - unfold wf_DOF. vm_compute. intuition discriminate.
  - apply (C1_detector_correct (Bench.cfg true)
             (set_current_cmd (-1400) (Bench.joint0 12 jstate_pos_unknown 0))).
    unfold wf_DOF. vm_compute. intuition discriminate.
Defined.

(** C6, as stated, fails: a joint of the unused slot (type 3) that is in
    [jstate_pos_unknown] with a zero command is reported as being at its
    hard stop, in both builds. *)
Lemma C6_unused_slot_counterexample :
  type (Bench.joint0 3 jstate_pos_unknown 0) mod 8 = 3
  /\ current_cmd (Bench.joint0 3 jstate_pos_unknown 0) = 0
  /\ check_homing_condition (mkConfig false false 1 1 4096 true 64)
       (Bench.joint0 3 jstate_pos_unknown 0) = true
  /\ check_homing_condition (mkConfig true false 1 1 4096 true 64)
       (Bench.joint0 3 jstate_pos_unknown 0) = true.
Proof. vm_compute. auto. Qed.

(** C6, amended.  The threshold of the unused slot is 0: for a joint of
    that type the detector returns true exactly when the joint is in
    [jstate_pos_unknown], for every value of [current_cmd], and false in
    every other state. *)
Theorem C6_unused_slot_detector {num : Type} (cfg : config) (j : DOF num) :
  wf_DOF j ->
  type j mod 8 = 3 ->
  check_homing_condition cfg j = true <-> state j = jstate_pos_unknown.
Proof.
  intros [Hty _] H3.
  rewrite check_homing_condition_spec, Z.rem_mod_nonneg, H3 by lia.
  change (Z.to_nat 3) with 3%nat. rewrite homing_max_dac_unused.
  split; [tauto | intros Hs; split; [exact Hs | lia]].
Qed.

Lemma C6_unused_slot_detector_witness :
  wf_DOF (Bench.joint0 11 jstate_hard_stop 0)
  /\ 11 mod 8 = 3
  /\ (check_homing_condition (Bench.cfg true) (Bench.joint0 11 jstate_hard_stop 0) = true
      <-> jstate_hard_stop = jstate_pos_unknown).
Proof.
  split; [unfold wf_DOF; vm_compute; intuition discriminate |].
  split; [reflexivity |].
  apply (C6_unused_slot_detector (Bench.cfg true) (Bench.joint0 11 jstate_hard_stop 0)).
  - unfold wf_DOF. vm_compute. intuition discriminate.
  - reflexivity.
Defined.

(** ** Frames: what an update of a joint leaves alone *)

Section Frames.
Context {num ext : Type} {FO : FloatOps num}.
Implicit Types x y : DOF num.
Implicit Types m : mechanism num.
Implicit Types d : device num.

Lemma writes_traj_frame x x' :
  writes_traj x x' ->
  keeps_homing x x' /\ current_cmd x' = current_cmd x /\ jpos x' = jpos x
  /\ mpos x' = mpos x /\ tau_d x' = tau_d x /\ mpos_d x' = mpos_d x
  /\ enc_offset x' = enc_offset x.
Proof. unfold writes_traj, keeps_homing. intros ->. cbn. repeat split. Qed.

Lemma writes_mpos_d_frame x x' :
  writes_mpos_d x x' ->
  keeps_homing x x' /\ current_cmd x' = current_cmd x /\ jpos x' = jpos x
  /\ mpos x' = mpos x /\ tau_d x' = tau_d x /\ jpos_d x' = jpos_d x
  /\ jvel_d x' = jvel_d x /\ enc_offset x' = enc_offset x.
Proof. unfold writes_mpos_d, keeps_homing. intros ->. cbn. repeat split. Qed.

Lemma writes_tau_d_frame x x' :
  writes_tau_d x x' ->
  keeps_homing x x' /\ current_cmd x' = current_cmd x /\ jpos x' = jpos x
  /\ mpos x' = mpos x /\ jpos_d x' = jpos_d x /\ mpos_d x' = mpos_d x
  /\ jvel_d x' = jvel_d x /\ enc_offset x' = enc_offset x.
Proof. unfold writes_tau_d, keeps_homing. intros ->. cbn. repeat split. Qed.

Lemma writes_current_cmd_frame x x' :
  writes_current_cmd x x' ->
  keeps_homing x x' /\ jpos x' = jpos x /\ mpos x' = mpos x
  /\ tau_d x' = tau_d x /\ jpos_d x' = jpos_d x /\ mpos_d x' = mpos_d x
  /\ jvel_d x' = jvel_d x /\ enc_offset x' = enc_offset x.
Proof. unfold writes_current_cmd, keeps_homing. intros ->. cbn. repeat split. Qed.

Lemma writes_mpos_frame x x' :
  writes_mpos x x' ->
  keeps_homing x x' /\ current_cmd x' = current_cmd x /\ jpos x' = jpos x
  /\ tau_d x' = tau_d x /\ jpos_d x' = jpos_d x /\ mpos_d x' = mpos_d x
  /\ jvel_d x' = jvel_d x /\ enc_offset x' = enc_offset x.
Proof. unfold writes_mpos, keeps_homing. intros ->. cbn. repeat split. Qed.

Lemma writes_jpos_frame x x' :
  writes_jpos x x' ->
  keeps_homing x x' /\ current_cmd x' = current_cmd x /\ mpos x' = mpos x
  /\ tau_d x' = tau_d x /\ jpos_d x' = jpos_d x /\ mpos_d x' = mpos_d x
  /\ jvel_d x' = jvel_d x /\ enc_offset x' = enc_offset x.
Proof. unfold writes_jpos, keeps_homing. intros ->. cbn. repeat split. Qed.

(** *** Relations between devices *)

Lemma mech_rel_refl (R : nat -> DOF num -> DOF num -> Prop) m :
  (forall j x, joint m !! j = Some x -> R j x x) -> mech_rel R m m.
Proof.
  intros HR. repeat split. intros j x x' Hx Hx'.
  assert (x' = x) as -> by congruence. auto.
Qed.

Lemma mech_rel_trans (R1 R2 R3 : nat -> DOF num -> DOF num -> Prop) m m' m'' :
  mech_rel R1 m m' -> mech_rel R2 m' m'' ->
  (forall j x y z, R1 j x y -> R2 j y z -> R3 j x z) ->
  mech_rel R3 m m''.
Proof.
  intros (Ht1 & Hl1 & H1) (Ht2 & Hl2 & H2) HR.
  split; [congruence |]. split; [congruence |].
  intros j x z Hx Hz.
  destruct (lookup_lt_is_Some_2 (joint m') j) as [y Hy].
  { rewrite Hl1. eapply lookup_lt_Some; eauto. }
  eauto.
Qed.

Lemma mech_rel_comp (R1 R2 : nat -> DOF num -> DOF num -> Prop) m m' m'' :
  mech_rel R1 m m' -> mech_rel R2 m' m'' ->
  mech_rel (fun j x z => exists y, R1 j x y /\ R2 j y z) m m''.
Proof. intros H1 H2. eapply mech_rel_trans; [exact H1 | exact H2 |]. eauto. Qed.

Lemma mech_rel_mono (R1 R2 : nat -> DOF num -> DOF num -> Prop) m m' :
  mech_rel R1 m m' ->
  (forall j x y, joint m !! j = Some x -> R1 j x y -> R2 j x y) ->
  mech_rel R2 m m'.
Proof.
  intros (Ht & Hl & H) HR. split; [exact Ht |]. split; [exact Hl |].
  intros j x x' Hx Hx'. eauto.
Qed.

Lemma mech_rel_lookup (R : nat -> DOF num -> DOF num -> Prop) m m' j x :
  mech_rel R m m' -> joint m !! j = Some x ->
  exists x', joint m' !! j = Some x' /\ R j x x'.
Proof.
  intros (Ht & Hl & H) Hx.
  destruct (lookup_lt_is_Some_2 (joint m') j) as [y Hy].
  { rewrite Hl. eapply lookup_lt_Some; eauto. }
  eauto.
Qed.

Lemma mech_rel_lookup_r (R : nat -> DOF num -> DOF num -> Prop) m m' j x' :
  mech_rel R m m' -> joint m' !! j = Some x' ->
  exists x, joint m !! j = Some x /\ R j x x'.
Proof.
  intros (Ht & Hl & H) Hx.
  destruct (lookup_lt_is_Some_2 (joint m) j) as [y Hy].
  { rewrite <- Hl. eapply lookup_lt_Some; eauto. }
  eauto.
Qed.

Lemma mech_rel_insert (R : nat -> DOF num -> DOF num -> Prop) m j x x' :
  joint m !! j = Some x -> R j x x' ->
  (forall k y, k <> j -> joint m !! k = Some y -> R k y y) ->
  mech_rel R m (set_joint (<[j := x']> (joint m)) m).
Proof.
  intros Hx HR Hrefl. split; [reflexivity |]. split.
  { cbn. apply length_insert. }
  cbn. intros k y y' Hy Hy'.
  destruct (decide (k = j)) as [-> | Hne].
  - rewrite list_lookup_insert_eq in Hy' by (eapply lookup_lt_Some; eauto).
    congruence.
  - rewrite list_lookup_insert_ne in Hy' by congruence.
    assert (y' = y) as -> by congruence. auto.
Qed.

Lemma dev_rel_refl (R : nat -> nat -> DOF num -> DOF num -> Prop) d :
  (forall i j x, get_joint d i j = Some x -> R i j x x) -> dev_rel R d d.
Proof.
  intros HR. split; [reflexivity |]. intros i m m' Hm Hm'.
  assert (m' = m) as -> by congruence.
  apply mech_rel_refl. intros j x Hx. apply HR.
  unfold get_joint. rewrite Hm. exact Hx.
Qed.

Lemma dev_rel_trans (R1 R2 R3 : nat -> nat -> DOF num -> DOF num -> Prop) d d' d'' :
  dev_rel R1 d d' -> dev_rel R2 d' d'' ->
  (forall i j x y z, R1 i j x y -> R2 i j y z -> R3 i j x z) ->
  dev_rel R3 d d''.
Proof.
  intros (Hl1 & H1) (Hl2 & H2) HR. split; [congruence |].
  intros i m m'' Hm Hm''.
  destruct (lookup_lt_is_Some_2 (mech d') i) as [m' Hm'].
  { rewrite Hl1. eapply lookup_lt_Some; eauto. }
  eapply mech_rel_trans; eauto.
Qed.

Lemma dev_rel_comp (R1 R2 : nat -> nat -> DOF num -> DOF num -> Prop) d d' d'' :
  dev_rel R1 d d' -> dev_rel R2 d' d'' ->
  dev_rel (fun i j x z => exists y, R1 i j x y /\ R2 i j y z) d d''.
Proof. intros H1 H2. eapply dev_rel_trans; [exact H1 | exact H2 |]. eauto. Qed.

Lemma dev_rel_mono (R1 R2 : nat -> nat -> DOF num -> DOF num -> Prop) d d' :
  dev_rel R1 d d' ->
  (forall i j x y, get_joint d i j = Some x -> R1 i j x y -> R2 i j x y) ->
  dev_rel R2 d d'.
Proof.
  intros (Hl & H) HR. split; [exact Hl |].
  intros i m m' Hm Hm'. eapply mech_rel_mono; [eauto |].
  intros j x y Hx. apply HR. unfold get_joint. rewrite Hm. exact Hx.
Qed.

Lemma dev_rel_get_joint (R : nat -> nat -> DOF num -> DOF num -> Prop) d d' i j x :
  dev_rel R d d' -> get_joint d i j = Some x ->
  exists x', get_joint d' i j = Some x' /\ R i j x x'.
Proof.
  intros (Hl & H). unfold get_joint.
  destruct (mech d !! i) as [m |] eqn:Hm; [| discriminate].
  destruct (lookup_lt_is_Some_2 (mech d') i) as [m' Hm'].
  { rewrite Hl. eapply lookup_lt_Some; eauto. }
  rewrite Hm'. intros Hx. eapply mech_rel_lookup; eauto.
Qed.

Lemma dev_rel_get_joint_r (R : nat -> nat -> DOF num -> DOF num -> Prop) d d' i j x' :
  dev_rel R d d' -> get_joint d' i j = Some x' ->
  exists x, get_joint d i j = Some x /\ R i j x x'.
Proof.
  intros (Hl & H). unfold get_joint.
  destruct (mech d' !! i) as [m' |] eqn:Hm'; [| discriminate].
  destruct (lookup_lt_is_Some_2 (mech d) i) as [m Hm].
  { rewrite <- Hl. eapply lookup_lt_Some; eauto. }
  rewrite Hm. intros Hx. eapply mech_rel_lookup_r; eauto.
Qed.

Lemma dev_rel_mech (R : nat -> nat -> DOF num -> DOF num -> Prop) d d' i m :
  dev_rel R d d' -> mech d !! i = Some m ->
  exists m', mech d' !! i = Some m' /\ mech_rel (R i) m m'.
Proof.
  intros (Hl & H) Hm.
  destruct (lookup_lt_is_Some_2 (mech d') i) as [m' Hm'].
  { rewrite Hl. eapply lookup_lt_Some; eauto. }
  eauto.
Qed.

Lemma dev_rel_put_mech (R : nat -> nat -> DOF num -> DOF num -> Prop) d i m m' :
  mech d !! i = Some m -> mech_rel (R i) m m' ->
  (forall i' j y, i' <> i -> get_joint d i' j = Some y -> R i' j y y) ->
  dev_rel R d (put_mech i m' d).
Proof.
  intros Hm HR Hrefl. split.
  { cbn. apply length_insert. }
  cbn. intros k a a' Ha Ha'.
  destruct (decide (k = i)) as [-> | Hne].
  - rewrite list_lookup_insert_eq in Ha' by (eapply lookup_lt_Some; eauto).
    congruence.
  - rewrite list_lookup_insert_ne in Ha' by congruence.
    assert (a' = a) as -> by congruence.
    apply mech_rel_refl. intros j x Hx. apply Hrefl; [exact Hne |].
    unfold get_joint. rewrite Ha. exact Hx.
Qed.

Lemma dev_rel_put_joint (R : nat -> nat -> DOF num -> DOF num -> Prop) d i j x x' :
  get_joint d i j = Some x -> R i j x x' ->
  (forall i' j' y, (i', j') <> (i, j) -> get_joint d i' j' = Some y -> R i' j' y y) ->
  dev_rel R d (put_joint i j x' d).
Proof.
  intros Hx HR Hrefl. unfold put_joint, get_joint in *.
  destruct (mech d !! i) as [m |] eqn:Hm; [| discriminate].
  apply dev_rel_put_mech with (m := m); [exact Hm | |].
  - apply mech_rel_insert with (x := x); [exact Hx | exact HR |].
    intros k y Hk Hy. specialize (Hrefl i k y). rewrite Hm in Hrefl.
    apply Hrefl; [congruence | exact Hy].
  - intros i' j' y Hi'. apply Hrefl. congruence.
Qed.

Lemma get_put_joint_eq d i j x x' :
  get_joint d i j = Some x -> get_joint (put_joint i j x' d) i j = Some x'.
Proof.
  unfold get_joint, put_joint.
  destruct (mech d !! i) as [m |] eqn:Hm; [| discriminate]. intros Hx. cbn.
  rewrite list_lookup_insert_eq by (eapply lookup_lt_Some; eauto). cbn.
  apply list_lookup_insert_eq. eapply lookup_lt_Some; eauto.
Qed.

Lemma get_put_joint_ne d i j i' j' x' :
  (i', j') <> (i, j) -> get_joint (put_joint i j x' d) i' j' = get_joint d i' j'.
Proof.
  intros Hne. unfold get_joint, put_joint.
  destruct (mech d !! i) as [m |] eqn:Hm; [| reflexivity]. cbn.
  destruct (decide (i' = i)) as [-> | Hi].
  - rewrite list_lookup_insert_eq by (eapply lookup_lt_Some; eauto).
    rewrite Hm. cbn. apply list_lookup_insert_ne. congruence.
  - rewrite list_lookup_insert_ne by congruence. reflexivity.
Qed.

Lemma get_joint_lt d i j x :
  get_joint d i j = Some x -> (i < length (mech d))%nat.
Proof.
  unfold get_joint. destruct (mech d !! i) eqn:Hm; [| discriminate].
  intros _. eapply lookup_lt_Some; eauto.
Qed.

End Frames.

(** ** Loops over the joints *)

Section Loops.
Context {num ext : Type} {FO : FloatOps num}.
Implicit Types x y : DOF num.
Implicit Types m : mechanism num.
Implicit Types d : device num.

Lemma foldl_flat_map {A B C : Type} (f : A -> C -> A) (g : B -> list C) (l : list B) (a : A) :
  foldl f a (flat_map g l) = foldl (fun a b => foldl f a (g b)) a l.
Proof.
  revert a. induction l as [| b l IH]; intros a; cbn; [reflexivity |].
  rewrite foldl_app. apply IH.
Qed.

Lemma foldl_agree {A B : Type} (f g : A -> B -> A) (l : list B) (a : A) :
  (forall a b, f a b = g a b) -> foldl f a l = foldl g a l.
Proof.
  intros Hfg. revert a. induction l as [| b l IH]; intros a; cbn; [reflexivity |].
  rewrite Hfg. apply IH.
Qed.

(** A loop over the joints of a device is a loop over its mechanisms of a
    loop over the joints of each. *)
Lemma loop_over_joints_nested {W : Type} d (body : nat -> nat -> W -> W) (w : W) :
  loop_over_joints d body w
  = foldl (fun w i => foldl (fun w j => body i j w) w (seq 0 MAX_DOF_PER_MECH))
          w (seq 0 (length (mech d))).
Proof.
  unfold loop_over_joints, joint_indices. rewrite foldl_flat_map.
  apply foldl_agree. intros a i. rewrite foldl_fmap. reflexivity.
Qed.

Lemma foldl_seq_ind {W : Type} (Inv : nat -> W -> Prop) (body : nat -> W -> W) (n : nat) (w : W) :
  Inv 0%nat w ->
  (forall k w, (k < n)%nat -> Inv k w -> Inv (S k) (body k w)) ->
  Inv n (foldl (fun w j => body j w) w (seq 0 n)).
Proof.
  intros H0 Hstep. induction n as [| n IH]; [exact H0 |].
  rewrite seq_S, foldl_app. cbn. apply Hstep; [lia |].
  apply IH. intros k w' Hk. apply Hstep. lia.
Qed.

(** Induction over a loop on the joints of a device: [Inv i k] holds when
    the mechanisms before [i] and the joints before [k] of mechanism [i]
    have been visited. *)
Lemma loop_over_joints_ind {W : Type} (Inv : nat -> nat -> W -> Prop) d
    (body : nat -> nat -> W -> W) (w : W) :
  Inv 0%nat 0%nat w ->
  (forall i k w, (i < length (mech d))%nat -> (k < MAX_DOF_PER_MECH)%nat ->
                 Inv i k w -> Inv i (S k) (body i k w)) ->
  (forall i w, Inv i MAX_DOF_PER_MECH w -> Inv (S i) 0%nat w) ->
  Inv (length (mech d)) 0%nat (loop_over_joints d body w).
Proof.
  intros H0 Hstep Hnext. rewrite loop_over_joints_nested.
  apply (foldl_seq_ind (fun i w => Inv i 0%nat w)
           (fun i w => foldl (fun w j => body i j w) w (seq 0 MAX_DOF_PER_MECH)));
    [exact H0 |].
  intros i w' Hi Hw'. apply Hnext.
  apply (foldl_seq_ind (fun k w => Inv i k w) (fun j w => body i j w)); [exact Hw' |].
  intros k w'' Hk. apply Hstep; assumption.
Qed.

(** An invariant of the body is an invariant of the loop. *)
Lemma loop_over_joints_inv {W : Type} (P : W -> Prop) d
    (body : nat -> nat -> W -> W) (w : W) :
  P w ->
  (forall i k w, (i < length (mech d))%nat -> (k < MAX_DOF_PER_MECH)%nat ->
                 P w -> P (body i k w)) ->
  P (loop_over_joints d body w).
Proof.
  intros H0 Hstep.
  apply (loop_over_joints_ind (fun _ _ w => P w)); auto.
Qed.

Lemma loop_over_mech_joints_ind {W : Type} (Inv : nat -> W -> Prop)
    (body : nat -> W -> W) (w : W) :
  Inv 0%nat w ->
  (forall k w, (k < MAX_DOF_PER_MECH)%nat -> Inv k w -> Inv (S k) (body k w)) ->
  Inv MAX_DOF_PER_MECH (loop_over_mech_joints body w).
Proof.
  intros H0 Hstep. unfold loop_over_mech_joints.
  apply (foldl_seq_ind Inv body); assumption.
Qed.

(** *** Visiting every joint once *)

Lemma vis_rel_init (Q : nat -> nat -> DOF num -> DOF num -> Prop) d :
  dev_rel (vis_rel 0 0 Q) d d.
Proof.
  apply dev_rel_refl. intros i j x _. unfold vis_rel.
  destruct (decide _) as [H | H]; [lia | reflexivity].
Qed.

Lemma vis_rel_step (Q : nat -> nat -> DOF num -> DOF num -> Prop) d0 d i k x x' :
  dev_rel (vis_rel i k Q) d0 d ->
  (k < MAX_DOF_PER_MECH)%nat ->
  get_joint d i k = Some x ->
  Q i k x x' ->
  dev_rel (vis_rel i (S k) Q) d0 (put_joint i k x' d).
Proof.
  intros Hrel Hk Hx HQ.
  apply dev_rel_trans with
    (R1 := vis_rel i k Q)
    (R2 := fun i' j' y y' => if decide ((i', j') = (i, k)) then y = x /\ y' = x' else y' = y)
    (d' := d); [exact Hrel | |].
  - apply dev_rel_put_joint with (x := x); [exact Hx | |].
    + rewrite decide_True by reflexivity. auto.
    + intros i' j' y Hne _. rewrite decide_False by exact Hne. reflexivity.
  - intros i' j' a b c. unfold vis_rel.
    destruct (decide ((i', j') = (i, k))) as [Heq | Hne].
    + inversion Heq; subst i' j'. intros H1 [-> ->].
      rewrite decide_False in H1 by lia. subst.
      rewrite decide_True by lia. exact HQ.
    + intros H1 ->.
      destruct (decide (j' < MAX_DOF_PER_MECH /\ (i' < i \/ i' = i /\ j' < k))%nat) as [H | H].
      * rewrite decide_True by lia. exact H1.
      * rewrite decide_False; [exact H1 |].
        intros [H2 [H3 | [H3 H4]]]; apply H; [lia |].
        split; [lia |]. right. split; [lia |].
        assert (j' <> k) by congruence. lia.
Qed.

Lemma vis_rel_skip (Q : nat -> nat -> DOF num -> DOF num -> Prop) d0 d i k :
  dev_rel (vis_rel i k Q) d0 d ->
  get_joint d i k = None ->
  dev_rel (vis_rel i (S k) Q) d0 d.
Proof.
  intros Hrel Hx. eapply dev_rel_mono; [exact Hrel |].
  intros i' j' a b Ha. unfold vis_rel.
  destruct (decide ((i', j') = (i, k))) as [Heq | Hne].
  - inversion Heq; subst i' j'.
    destruct (dev_rel_get_joint _ _ _ _ _ _ Hrel Ha) as (b' & Hb' & _). congruence.
  - destruct (decide (j' < MAX_DOF_PER_MECH /\ (i' < i \/ i' = i /\ j' < k))%nat) as [H | H].
    + rewrite decide_True by lia. auto.
    + rewrite decide_False; [auto |].
      intros [H2 [H3 | [H3 H4]]]; apply H; [lia |].
      split; [lia |]. right. split; [lia |].
      assert (j' <> k) by congruence. lia.
Qed.

Lemma vis_rel_next (Q : nat -> nat -> DOF num -> DOF num -> Prop) d0 d i :
  dev_rel (vis_rel i MAX_DOF_PER_MECH Q) d0 d ->
  dev_rel (vis_rel (S i) 0 Q) d0 d.
Proof.
  intros Hrel. eapply dev_rel_mono; [exact Hrel |].
  intros i' j' a b _. unfold vis_rel.
  destruct (decide (j' < MAX_DOF_PER_MECH /\ (i' < i \/ i' = i /\ j' < MAX_DOF_PER_MECH))%nat) as [H | H].
  - rewrite decide_True by lia. auto.
  - rewrite decide_False by lia. auto.
Qed.

Lemma vis_rel_final (Q : nat -> nat -> DOF num -> DOF num -> Prop) d0 d :
  dev_rel (vis_rel (length (mech d0)) 0 Q) d0 d ->
  dev_rel (fun i j x x' => if decide (j < MAX_DOF_PER_MECH)%nat then Q i j x x' else x' = x)
          d0 d.
Proof.
  intros Hrel. eapply dev_rel_mono; [exact Hrel |].
  intros i' j' a b Ha. apply get_joint_lt in Ha. unfold vis_rel.
  destruct (decide (j' < MAX_DOF_PER_MECH)%nat) as [H | H].
  - rewrite decide_True by lia. auto.
  - rewrite decide_False by lia. auto.
Qed.

(** A joint not yet visited is the initial one. *)
Lemma vis_rel_unvisited (Q : nat -> nat -> DOF num -> DOF num -> Prop) d0 d i k x :
  dev_rel (vis_rel i k Q) d0 d ->
  get_joint d i k = Some x ->
  get_joint d0 i k = Some x.
Proof.
  intros Hrel Hx.
  destruct (dev_rel_get_joint_r _ _ _ _ _ _ Hrel Hx) as (x0 & Hx0 & HR).
  unfold vis_rel in HR. rewrite decide_False in HR by lia. congruence.
Qed.

(** A loop whose body rewrites the joint it visits, and nothing else of
    the device, relates every joint to its initial value by [Q]; [I i k]
    is an invariant of the loop that may depend on its progress. *)
Lemma loop_over_joints_visit_ind {W : Type} (dev_of : W -> device num)
    (I : nat -> nat -> W -> Prop)
    (Q : nat -> nat -> DOF num -> DOF num -> Prop)
    (body : nat -> nat -> W -> W) (w : W) :
  I 0%nat 0%nat w ->
  (forall i k w', (k < MAX_DOF_PER_MECH)%nat ->
     I i k w' ->
     dev_rel (vis_rel i k Q) (dev_of w) (dev_of w') ->
     I i (S k) (body i k w')
     /\ match get_joint (dev_of w') i k with
        | Some x => exists x', dev_of (body i k w') = put_joint i k x' (dev_of w') /\ Q i k x x'
        | None => dev_of (body i k w') = dev_of w'
        end) ->
  (forall i w', I i MAX_DOF_PER_MECH w' -> I (S i) 0%nat w') ->
  I (length (mech (dev_of w))) 0%nat (loop_over_joints (dev_of w) body w)
  /\ dev_rel (fun i j x x' => if decide (j < MAX_DOF_PER_MECH)%nat then Q i j x x' else x' = x)
       (dev_of w) (dev_of (loop_over_joints (dev_of w) body w)).
Proof.
  intros HI Hstep Hnext.
  pose (Inv := fun (i k : nat) (w' : W) =>
                 I i k w' /\ dev_rel (vis_rel i k Q) (dev_of w) (dev_of w')).
  assert (Inv (length (mech (dev_of w))) 0%nat (loop_over_joints (dev_of w) body w))
    as [H1 H2].
  { apply loop_over_joints_ind.
    - split; [exact HI | apply vis_rel_init].
    - intros i k w' Hi Hk [HI' Hrel].
      destruct (Hstep i k w' Hk HI' Hrel) as [HI'' Hd]. split; [exact HI'' |].
      destruct (get_joint (dev_of w') i k) as [x |] eqn:Hx.
      + destruct Hd as (x' & -> & HQ). eapply vis_rel_step; eauto.
      + rewrite Hd. apply vis_rel_skip; assumption.
    - intros i w' [HI' Hrel]. split; [apply Hnext; exact HI' | apply vis_rel_next; exact Hrel]. }
  split; [exact H1 | apply vis_rel_final; exact H2].
Qed.

Lemma loop_over_joints_visit {W : Type} (dev_of : W -> device num) (I : W -> Prop)
    (Q : nat -> nat -> DOF num -> DOF num -> Prop)
    (body : nat -> nat -> W -> W) (w : W) :
  I w ->
  (forall i k w, I w -> (k < MAX_DOF_PER_MECH)%nat ->
     I (body i k w)
     /\ match get_joint (dev_of w) i k with
        | Some x => exists x', dev_of (body i k w) = put_joint i k x' (dev_of w) /\ Q i k x x'
        | None => dev_of (body i k w) = dev_of w
        end) ->
  I (loop_over_joints (dev_of w) body w)
  /\ dev_rel (fun i j x x' => if decide (j < MAX_DOF_PER_MECH)%nat then Q i j x x' else x' = x)
       (dev_of w) (dev_of (loop_over_joints (dev_of w) body w)).
Proof.
  intros HI Hstep.
  apply (loop_over_joints_visit_ind dev_of (fun _ _ w => I w) Q body w); auto.
Qed.

(** *** Running a function on one joint *)

Lemma on_joint_spec (i j : nat) (f : ext -> DOF num -> ext * DOF num * list event)
    (w : world num ext) :
  match get_joint (w_dev w) i j with
  | Some x =>
      w_dev (on_joint i j f w) = put_joint i j (snd (fst (f (w_ext w) x))) (w_dev w)
      /\ w_log (on_joint i j f w) = w_log w ++ snd (f (w_ext w) x)
  | None => on_joint i j f w = w
  end.
Proof.
  unfold on_joint. destruct (get_joint (w_dev w) i j) as [x |]; [| reflexivity].
  destruct (f (w_ext w) x) as [[e x'] evs]. cbn. auto.
Qed.

(** A joint-wise relation that every joint has with itself holds between a
    device and the device after one joint was rewritten in accord with it. *)
Lemma on_joint_rel (R : DOF num -> DOF num -> Prop) (i j : nat)
    (f : ext -> DOF num -> ext * DOF num * list event) (w : world num ext) :
  (forall x, R x x) ->
  (forall e x, R x (snd (fst (f e x)))) ->
  dev_rel (fun _ _ => R) (w_dev w) (w_dev (on_joint i j f w)).
Proof.
  intros Hrefl Hf. pose proof (on_joint_spec i j f w) as H.
  destruct (get_joint (w_dev w) i j) as [x |] eqn:Hx.
  - destruct H as [-> _]. eapply dev_rel_put_joint; eauto.
  - rewrite H. apply dev_rel_refl. auto.
Qed.

End Loops.

(** ** The calibration routine *)

Section Calibration.
Context {num ext : Type} {FO : FloatOps num}.
Variable cfg : config.
Variable sv : services num ext.
Hypothesis ok : services_ok sv.
Implicit Types x y : DOF num.
Implicit Types m : mechanism num.

Lemma mvis_rel_init (Q : nat -> DOF num -> DOF num -> Prop) m :
  mech_rel (mvis_rel 0 Q) m m.
Proof.
  apply mech_rel_refl. intros j x _. unfold mvis_rel.
  destruct (decide _) as [H | H]; [lia | reflexivity].
Qed.

Lemma mvis_rel_step (Q : nat -> DOF num -> DOF num -> Prop) m0 m k x x' :
  mech_rel (mvis_rel k Q) m0 m ->
  (k < MAX_DOF_PER_MECH)%nat ->
  joint m !! k = Some x ->
  Q k x x' ->
  mech_rel (mvis_rel (S k) Q) m0 (set_joint (<[k := x']> (joint m)) m).
Proof.
  intros Hrel Hk Hx HQ.
  apply mech_rel_trans with
    (R1 := mvis_rel k Q)
    (R2 := fun j' y y' => if decide (j' = k) then y = x /\ y' = x' else y' = y)
    (m' := m); [exact Hrel | |].
  - apply mech_rel_insert with (x := x); [exact Hx | |].
    + rewrite decide_True by reflexivity. auto.
    + intros j' y Hne _. rewrite decide_False by exact Hne. reflexivity.
  - intros j' a b c. unfold mvis_rel.
    destruct (decide (j' = k)) as [-> | Hne].
    + intros H1 [-> ->]. rewrite decide_False in H1 by lia. subst.
      rewrite decide_True by lia. exact HQ.
    + intros H1 ->.
      destruct (decide (j' < MAX_DOF_PER_MECH /\ j' < k)%nat) as [H | H].
      * rewrite decide_True by lia. exact H1.
      * rewrite decide_False by lia. exact H1.
Qed.

Lemma mvis_rel_skip (Q : nat -> DOF num -> DOF num -> Prop) m0 m k :
  mech_rel (mvis_rel k Q) m0 m ->
  joint m !! k = None ->
  mech_rel (mvis_rel (S k) Q) m0 m.
Proof.
  intros Hrel Hx. eapply mech_rel_mono; [exact Hrel |].
  intros j' a b Ha. unfold mvis_rel.
  destruct (decide (j' = k)) as [-> | Hne].
  - destruct (mech_rel_lookup _ _ _ _ _ Hrel Ha) as (b' & Hb' & _). congruence.
  - destruct (decide (j' < MAX_DOF_PER_MECH /\ j' < k)%nat) as [H | H].
    + rewrite decide_True by lia. auto.
    + rewrite decide_False by lia. auto.
Qed.

Lemma mvis_rel_final (Q : nat -> DOF num -> DOF num -> Prop) m0 m :
  mech_rel (mvis_rel MAX_DOF_PER_MECH Q) m0 m ->
  mech_rel (fun j x x' => if decide (j < MAX_DOF_PER_MECH)%nat then Q j x x' else x' = x)
           m0 m.
Proof.
  intros Hrel. eapply mech_rel_mono; [exact Hrel |].
  intros j' a b _. unfold mvis_rel.
  destruct (decide (j' < MAX_DOF_PER_MECH)%nat) as [H | H].
  - rewrite decide_True by lia. auto.
  - rewrite decide_False by lia. auto.
Qed.

(** A loop over one mechanism whose body rewrites the joint it visits. *)
Lemma loop_over_mech_joints_visit (I : ext * mechanism num -> Prop)
    (Q : nat -> DOF num -> DOF num -> Prop)
    (body : nat -> ext * mechanism num -> ext * mechanism num)
    (s : ext * mechanism num) :
  I s ->
  (forall k s, I s -> (k < MAX_DOF_PER_MECH)%nat ->
     I (body k s)
     /\ match joint (snd s) !! k with
        | Some x => exists x',
            snd (body k s) = set_joint (<[k := x']> (joint (snd s))) (snd s) /\ Q k x x'
        | None => snd (body k s) = snd s
        end) ->
  I (loop_over_mech_joints body s)
  /\ mech_rel (fun j x x' => if decide (j < MAX_DOF_PER_MECH)%nat then Q j x x' else x' = x)
       (snd s) (snd (loop_over_mech_joints body s)).
Proof.
  intros HI Hstep.
  pose (Inv := fun (k : nat) (s' : ext * mechanism num) =>
                 I s' /\ mech_rel (mvis_rel k Q) (snd s) (snd s')).
  assert (Inv MAX_DOF_PER_MECH (loop_over_mech_joints body s)) as [H1 H2].
  { apply loop_over_mech_joints_ind.
    - split; [exact HI | apply mvis_rel_init].
    - intros k s' Hk [HI' Hrel].
      destruct (Hstep k s' HI' Hk) as [HI'' Hd]. split; [exact HI'' |].
      destruct (joint (snd s') !! k) as [x |] eqn:Hx.
      + destruct Hd as (x' & -> & HQ). eapply mvis_rel_step; eauto.
      + rewrite Hd. apply mvis_rel_skip; assumption. }
  split; [exact H1 | apply mvis_rel_final; exact H2].
Qed.

Lemma on_mech_joint_snd (j : nat) (f : ext -> DOF num -> ext * DOF num)
    (s : ext * mechanism num) :
  match joint (snd s) !! j with
  | Some x =>
      snd (on_mech_joint j f s)
      = set_joint (<[j := snd (f (fst s) x)]> (joint (snd s))) (snd s)
  | None => snd (on_mech_joint j f s) = snd s
  end.
Proof.
  unfold on_mech_joint. destruct (joint (snd s) !! j) as [x |]; [| reflexivity].
  destruct (f (fst s) x) as [e x']. reflexivity.
Qed.

Lemma on_mech_joint_mech_type (j : nat) (f : ext -> DOF num -> ext * DOF num)
    (s : ext * mechanism num) :
  mech_type (snd (on_mech_joint j f s)) = mech_type (snd s).
Proof.
  unfold on_mech_joint. destruct (joint (snd s) !! j) as [x |]; [| reflexivity].
  destruct (f (fst s) x) as [e x']. reflexivity.
Qed.

Lemma enc_offset_value_ext (mt : arm_type) x y :
  type y = type x -> enc_val y = enc_val x -> mpos_d y = mpos_d x ->
  enc_offset_value cfg sv mt y = enc_offset_value cfg sv mt x.
Proof. unfold enc_offset_value. intros -> -> ->. reflexivity. Qed.

Lemma calibrate_joint_spec (mt : arm_type) (e : ext) x :
  calibrated cfg sv mt x (snd (calibrate_joint cfg sv mt e x)).
Proof.
  unfold calibrate_joint, calibrated.
  pose proof (ok_resetFilter sv ok e (set_mpos (mpos_d x) x)) as H1.
  destruct (resetFilter sv e (set_mpos (mpos_d x) x)) as [e1 j2]. cbn in H1.
  apply writes_mpos_frame in H1.
  destruct H1 as ((Ht & Hs & He) & Hc & Hj & Hta & Hjd & Hmd & Hjv & Heo).
  cbn in Ht, Hs, He, Hc, Hj, Hta, Hjd, Hmd, Hjv, Heo.
  pose proof (ok_getStateLPF sv ok e1
                (set_enc_offset (store_enc_offset cfg (enc_offset_value cfg sv mt j2)) j2)) as H2.
  destruct (getStateLPF sv e1 _) as [e2 j4]. cbn in H2 |- *.
  apply writes_mpos_frame in H2.
  destruct H2 as ((Ht2 & Hs2 & He2) & Hc2 & Hj2 & Hta2 & Hjd2 & Hmd2 & Hjv2 & Heo2).
  cbn in Ht2, Hs2, He2, Hc2, Hj2, Hta2, Hjd2, Hmd2, Hjv2, Heo2.
  unfold keeps_homing. repeat split; try congruence.
  rewrite Heo2. f_equal. symmetry. apply enc_offset_value_ext; congruence.
Qed.

Lemma set_joints_known_pos_spec (e : ext) m (tool_only : bool) :
  mech_rel (known_pos_rel cfg sv (mech_type m) tool_only)
           m (snd (set_joints_known_pos cfg sv e m tool_only)).
Proof.
  unfold set_joints_known_pos.
  set (b1 := fun j : nat => on_mech_joint j (fun e x => (e, set_reference sv tool_only x))).
  destruct (loop_over_mech_joints_visit (fun _ => True)
              (fun _ x x' => x' = set_reference sv tool_only x) b1 (e, m) I) as [_ H1].
  { intros k s _ Hk. split; [exact I |].
    pose proof (on_mech_joint_snd k (fun e x => (e, set_reference sv tool_only x)) s) as H.
    unfold b1. destruct (joint (snd s) !! k) as [x |]; [| exact H].
    eexists. split; [exact H | reflexivity]. }
  cbn [snd] in H1.
  set (s1 := loop_over_mech_joints b1 (e, m)) in *.
  pose proof (ok_invMechCableCoupling sv ok (fst s1) (snd s1) 1) as H2.
  set (s2 := invMechCableCoupling sv (fst s1) (snd s1) 1) in *.
  set (b3 := fun (j : nat) (s : ext * mechanism num) =>
               on_mech_joint j (calibrate_joint cfg sv (mech_type (snd s))) s).
  destruct (loop_over_mech_joints_visit
              (fun s => mech_type (snd s) = mech_type m)
              (fun _ x x' => calibrated cfg sv (mech_type m) x x') b3 s2) as [_ H3].
  { destruct H1 as [Ht1 _]. destruct H2 as [Ht2 _]. congruence. }
  { intros k s Hs Hk. split.
    - unfold b3. rewrite on_mech_joint_mech_type. exact Hs.
    - pose proof (on_mech_joint_snd k (calibrate_joint cfg sv (mech_type (snd s))) s) as H.
      unfold b3. destruct (joint (snd s) !! k) as [x |]; [| exact H].
      eexists. split; [exact H |]. rewrite Hs. apply calibrate_joint_spec. }
  set (s3 := loop_over_mech_joints b3 s2) in *.
  pose proof (ok_fwdMechCableCoupling sv ok (fst s3) (snd s3)) as H4.
  pose proof (mech_rel_comp _ _ _ _ _
                (mech_rel_comp _ _ _ _ _ (mech_rel_comp _ _ _ _ _ H1 H2) H3) H4) as Hc.
  eapply mech_rel_mono; [exact Hc |]. clear Hc.
  - intros j x z _ (y & (b & (a & Hxa & Hab) & Hby) & Hyz). cbn beta in *.
    apply writes_mpos_d_frame in Hab. apply writes_jpos_frame in Hyz.
    destruct Hab as ((? & ? & ?) & ? & ? & ? & ? & ? & ? & ?).
    destruct Hyz as ((? & ? & ?) & ? & ? & ? & ? & ? & ? & ?).
    unfold known_pos_rel.
    destruct (decide (j < MAX_DOF_PER_MECH)%nat) as [Hj | Hj].
    + destruct Hby as ((? & ? & ?) & ? & ? & ? & ? & ? & ? & Heo).
      assert (type a = type x /\ enc_val a = enc_val x /\ current_cmd a = current_cmd x
              /\ tau_d a = tau_d x /\ jvel_d a = jvel_d x) as (? & ? & ? & ? & ?).
      { subst a. unfold set_reference.
        destruct (tool_only && negb (is_toolDOF sv (type x)));
          [| destruct (negb tool_only && is_toolDOF sv (type x))]; cbn; auto. }
      repeat split; try congruence.
      rewrite (enc_offset_value_ext (mech_type m) y z) by congruence.
      congruence.
    + subst. repeat split; congruence.
Qed.

End Calibration.

(** ** The test bench meets the interface *)

Section BenchOk.
Import Bench.
Implicit Types x : DOF B32.float.

Lemma writes_traj_intro x a b : writes_traj x (set_jvel_d a (set_jpos_d b x)).
Proof. reflexivity. Qed.

Lemma writes_traj_jpos_d x b : writes_traj x (set_jpos_d b x).
Proof. destruct x; reflexivity. Qed.

Lemma writes_traj_refl {num : Type} (x : DOF num) : writes_traj x x.
Proof. destruct x; reflexivity. Qed.

Lemma writes_mpos_d_refl {num : Type} (x : DOF num) : writes_mpos_d x x.
Proof. destruct x; reflexivity. Qed.

Lemma writes_mpos_refl {num : Type} (x : DOF num) : writes_mpos x x.
Proof. destruct x; reflexivity. Qed.

Lemma writes_jpos_refl {num : Type} (x : DOF num) : writes_jpos x x.
Proof. destruct x; reflexivity. Qed.

Lemma writes_tau_d_refl {num : Type} (x : DOF num) : writes_tau_d x x.
Proof. destruct x; reflexivity. Qed.

Lemma writes_current_cmd_refl {num : Type} (x : DOF num) : writes_current_cmd x x.
Proof. destruct x; reflexivity. Qed.

Lemma map_joints_rel (R : DOF B32.float -> DOF B32.float -> Prop)
    (f : DOF B32.float -> DOF B32.float) (m : mechanism B32.float) :
  (forall x, R x (f x)) -> mech_rel (fun _ => R) m (map_joints f m).
Proof.
  intros HR. split; [reflexivity |]. split.
  { cbn. apply length_fmap. }
  cbn. intros j x x' Hx Hx'. rewrite list_lookup_fmap, Hx in Hx'.
  cbn in Hx'. inversion Hx'; subst. apply HR.
Qed.

Lemma map_mechs_rel (R : DOF B32.float -> DOF B32.float -> Prop)
    (f : DOF B32.float -> DOF B32.float) (d : device B32.float) :
  (forall x, R x (f x)) ->
  dev_rel (fun _ _ => R) d (mkDevice (map (map_joints f) (mech d))).
Proof.
  intros HR. split.
  { cbn. apply length_fmap. }
  cbn. intros i m m' Hm Hm'. rewrite list_lookup_fmap, Hm in Hm'.
  cbn in Hm'. inversion Hm'; subst. apply map_joints_rel, HR.
Qed.

Lemma sv_ok : services_ok Bench.sv.
Proof.
  constructor; cbn.
  - reflexivity.
  - intros e x a b. apply writes_traj_intro.
  - intros e x. apply writes_traj_jpos_d.
  - intros e x a b. apply writes_traj_refl.
  - intros e x. unfold update_position_trajectory.
    destruct (e !! Z.to_nat (type x)) as [[| n] |]; cbn;
      first [apply writes_traj_refl | apply writes_traj_jpos_d].
  - intros e x. apply writes_traj_intro.
  - intros e d r. apply map_mechs_rel. intros x. reflexivity.
  - intros e x. reflexivity.
  - intros e d. apply map_mechs_rel. intros x. reflexivity.
  - intros e m r. apply map_joints_rel. intros x. reflexivity.
  - intros e x. apply writes_mpos_refl.
  - intros e x. apply writes_mpos_refl.
  - intros e m. apply map_joints_rel. intros x. reflexivity.
Qed.

Lemma sv_tools_ready_ok : tools_ready_ok Bench.sv.
Proof.
  intros m. cbn. unfold tools_ready. rewrite forallb_forall. split.
  - intros H x Hx Ht. apply list_elem_of_In in Hx. specialize (H x Hx).
    rewrite Ht in H. cbn in H. apply bool_decide_eq_true in H. exact H.
  - intros H x Hx. apply list_elem_of_In in Hx.
    destruct (is_toolDOF (type x)) eqn:Ht; [| reflexivity]. cbn.
    apply bool_decide_eq_true. apply H; assumption.
Qed.

End BenchOk.

(** ** The calibration routine *)

(** C4.  [set_joints_known_pos] gives every joint of the mechanism its
    joint-space reference: with [tool_only] set, a joint that is not a tool
    DOF gets the home position of its type; with [tool_only] clear, a tool
    DOF gets its measured position; any other joint gets the maximum
    position of its type and goes to [jstate_homing1].  Only in the last
    case does the state of the joint change. *)
Theorem C4_joint_references {num ext : Type} {FO : FloatOps num} (cfg : config)
    (sv : services num ext) (e : ext) (_mech : mechanism num) (tool_only : bool)
    (j : nat) (x : DOF num) :
  services_ok sv ->
  joint _mech !! j = Some x ->
  (j < MAX_DOF_PER_MECH)%nat ->
  exists y,
    joint (snd (set_joints_known_pos cfg sv e _mech tool_only)) !! j = Some y
    /\ (tool_only = true -> is_toolDOF sv (type x) = false ->
        jpos_d y = home_position (DOF_types sv (type x)) /\ state y = state x)
    /\ (tool_only = false -> is_toolDOF sv (type x) = true ->
        jpos_d y = jpos x /\ state y = state x)
    /\ (tool_only = is_toolDOF sv (type x) ->
        jpos_d y = max_position (DOF_types sv (type x)) /\ state y = jstate_homing1).
Proof.
  intros ok Hx Hj.
  pose proof (set_joints_known_pos_spec cfg sv ok e _mech tool_only) as Hrel.
  destruct (mech_rel_lookup _ _ _ _ _ Hrel Hx) as (y & Hy & HR).
  exists y. split; [exact Hy |].
  unfold known_pos_rel in HR. rewrite decide_True in HR by exact Hj.
  destruct HR as (_ & _ & _ & _ & _ & Hjd & Hs & _).
  rewrite Hjd, Hs. unfold set_reference.
  destruct tool_only, (is_toolDOF sv (type x)); cbn;
    repeat split; intros; try discriminate; auto.
Qed.

Lemma C4_joint_references_witness :
  joint (Bench.mech0 0 GOLD_ARM jstate_hard_stop 5000) !! 4%nat
  = Some (Bench.joint0 4 jstate_hard_stop 5000)
  /\ (4 < MAX_DOF_PER_MECH)%nat
  /\ exists y,
       joint (snd (set_joints_known_pos (Bench.cfg true) Bench.sv Bench.ext_init
                     (Bench.mech0 0 GOLD_ARM jstate_hard_stop 5000) true)) !! 4%nat
       = Some y
       /\ (true = true -> Bench.is_toolDOF 4 = false ->
           jpos_d y = B32.of_int 0 /\ state y = jstate_hard_stop)
       /\ (true = false -> Bench.is_toolDOF 4 = true ->
           jpos_d y = B32.of_int 0 /\ state y = jstate_hard_stop)
       /\ (true = Bench.is_toolDOF 4 ->
           jpos_d y = Bench.tenth /\ state y = jstate_homing1).
Proof.
  split; [reflexivity |]. split; [unfold MAX_DOF_PER_MECH; lia |].
  apply (C4_joint_references (Bench.cfg true) Bench.sv Bench.ext_init
           (Bench.mech0 0 GOLD_ARM jstate_hard_stop 5000) true 4
           (Bench.joint0 4 jstate_hard_stop 5000) sv_ok).
  - reflexivity.
  - unfold MAX_DOF_PER_MECH. lia.
Defined.

(** C5, amended.  Every call of [set_joints_known_pos] recomputes the
    encoder offset of every joint of the mechanism, whichever group the
    call is made for; the new offset is computed from the encoder count
    and the desired motor position alone, not from the previous offset. *)
Theorem C5_offset_recomputed_each_call {num ext : Type} {FO : FloatOps num}
    (cfg : config) (sv : services num ext) (e : ext) (_mech : mechanism num)
    (tool_only : bool) (j : nat) (x : DOF num) :
  services_ok sv ->
  joint _mech !! j = Some x ->
  (j < MAX_DOF_PER_MECH)%nat ->
  exists y,
    joint (snd (set_joints_known_pos cfg sv e _mech tool_only)) !! j = Some y
    /\ type y = type x
    /\ enc_val y = enc_val x
    /\ enc_offset y
       = store_enc_offset cfg
           (f_sub (signed_enc_val cfg sv (mech_type _mech) (type x) (enc_val x))
                  (f_mul (mpos_d y) (f_cnts_per_2pi (ENC_CNTS_PER_REV cfg)))).
Proof.
  intros ok Hx Hj.
  pose proof (set_joints_known_pos_spec cfg sv ok e _mech tool_only) as Hrel.
  destruct (mech_rel_lookup _ _ _ _ _ Hrel Hx) as (y & Hy & HR).
  exists y. split; [exact Hy |].
  unfold known_pos_rel in HR. rewrite decide_True in HR by exact Hj.
  destruct HR as (Ht & He & _ & _ & _ & _ & _ & Heo).
  repeat split; try assumption.
  rewrite Heo. unfold enc_offset_value. rewrite Ht, He. reflexivity.
Qed.

Lemma C5_offset_recomputed_each_call_witness :
  joint (Bench.mech0 0 GOLD_ARM jstate_hard_stop 5000) !! 0%nat
  = Some (Bench.joint0 0 jstate_hard_stop 5000)
  /\ (0 < MAX_DOF_PER_MECH)%nat
  /\ exists y,
       joint (snd (set_joints_known_pos (Bench.cfg true) Bench.sv Bench.ext_init
                     (Bench.mech0 0 GOLD_ARM jstate_hard_stop 5000) true)) !! 0%nat
       = Some y
       /\ type y = type (Bench.joint0 0 jstate_hard_stop 5000)
       /\ enc_val y = enc_val (Bench.joint0 0 jstate_hard_stop 5000)
       /\ enc_offset y
          = store_enc_offset (Bench.cfg true)
              (f_sub (signed_enc_val (Bench.cfg true) Bench.sv GOLD_ARM 0 5000)
                     (f_mul (mpos_d y) (f_cnts_per_2pi 4096))).
Proof.
  split; [reflexivity |]. split; [unfold MAX_DOF_PER_MECH; lia |].
  apply (C5_offset_recomputed_each_call (Bench.cfg true) Bench.sv Bench.ext_init
           (Bench.mech0 0 GOLD_ARM jstate_hard_stop 5000) true 0
           (Bench.joint0 0 jstate_hard_stop 5000) sv_ok).
  - reflexivity.
  - unfold MAX_DOF_PER_MECH. lia.
Defined.

(** ** The calibration read back

    Bounds on [PI] good enough to compare a reconstructed motor position
    with a tolerance of 1e-5. *)
Lemma PI_bounds : (3.1415 < PI < 3.1416)%R.
Proof.
  pose proof (PI_2_3_7_ineq 3) as H.
  unfold sum_f_R0, tg_alt, PI_2_3_7_tg, Ratan_seq in H. simpl in H. lra.
Qed.

(** * Binary32 rounding

    The error of the operations of [B32], from the definitions of
    [SpecFloat]. *)

(** ** Number of binary digits *)

Lemma digits2_pos_bounds (p : positive) :
  2 ^ (Zpos (digits2_pos p) - 1) <= Zpos p < 2 ^ Zpos (digits2_pos p).
Proof.
  induction p as [p IH | p IH |]; cbn [digits2_pos].
  - rewrite Pos2Z.inj_succ.
    replace (Z.succ (Zpos (digits2_pos p)) - 1) with (Z.succ (Zpos (digits2_pos p) - 1)) by lia.
    rewrite !Z.pow_succ_r by lia. lia.
  - rewrite Pos2Z.inj_succ.
    replace (Z.succ (Zpos (digits2_pos p)) - 1) with (Z.succ (Zpos (digits2_pos p) - 1)) by lia.
    rewrite !Z.pow_succ_r by lia. lia.
  - cbn. lia.
Qed.

Lemma Zdigits2_bounds (m : Z) :
  0 < m -> 2 ^ (Zdigits2 m - 1) <= m < 2 ^ Zdigits2 m.
Proof. destruct m as [| p | p]; try lia. intros _. apply digits2_pos_bounds. Qed.

Lemma Zdigits2_pos (m : Z) : 0 < m -> 0 < Zdigits2 m.
Proof. destruct m; cbn; lia. Qed.

Lemma Zdigits2_le (m : Z) (k : Z) : 0 < m -> 0 <= k -> m < 2 ^ k -> Zdigits2 m <= k.
Proof.
  intros Hm Hk Hlt. destruct (Zdigits2_bounds m Hm) as [Hlo _].
  pose proof (Zdigits2_pos m Hm) as Hd.
  destruct (Z_le_gt_dec (Zdigits2 m) k) as [H | H]; [exact H |].
  exfalso. assert (2 ^ k <= 2 ^ (Zdigits2 m - 1)) by (apply Z.pow_le_mono_r; lia). lia.
Qed.

Lemma Zdigits2_pow (k : Z) : 0 <= k -> Zdigits2 (2 ^ k) = k + 1.
Proof.
  intros Hk. assert (Hp : 0 < 2 ^ k) by (apply Z.pow_pos_nonneg; lia).
  destruct (Zdigits2_bounds (2 ^ k) Hp) as [Hlo Hhi].
  pose proof (Zdigits2_pos _ Hp) as Hd.
  assert (Zdigits2 (2 ^ k) - 1 <= k).
  { destruct (Z_le_gt_dec (Zdigits2 (2 ^ k) - 1) k); [assumption |]. exfalso.
    assert (2 ^ (k + 1) <= 2 ^ (Zdigits2 (2 ^ k) - 1)) by (apply Z.pow_le_mono_r; lia).
    rewrite Z.pow_add_r in H by lia. lia. }
  assert (k < Zdigits2 (2 ^ k)).
  { apply (Z.pow_lt_mono_r_iff 2); lia. }
  lia.
Qed.

(** ** Shifting right *)

Lemma shifted_0 (M : Z) : shifted M 0 (Build_shr_record M false false).
Proof. exists 0. cbn. lia. Qed.

Lemma shifted_shr_1 (M j : Z) (mrs : shr_record) :
  0 <= j -> 0 <= shr_m mrs -> shifted M j mrs -> shifted M (j + 1) (shr_1 mrs).
Proof.
  intros Hj Hm (rest & HM & Hrest & Hloc).
  assert (HP : 0 < 2 ^ j) by (apply Z.pow_pos_nonneg; lia).
  assert (HP1 : 2 ^ (j + 1) = 2 * 2 ^ j) by (rewrite Z.pow_add_r by lia; lia).
  destruct mrs as [m r s]. cbn [shr_m shr_r shr_s] in *.
  destruct m as [| [p | p |] |]; try lia; cbn [shr_1 shr_m shr_r shr_s];
    unfold shifted; cbn [shr_m shr_r shr_s]; rewrite HP1.
  - exists rest. destruct r, s; cbn [orb]; lia.
  - exists (rest + 2 ^ j). rewrite (Pos2Z.inj_xI p) in HM.
    destruct r, s; cbn [orb]; lia.
  - exists rest. rewrite (Pos2Z.inj_xO p) in HM.
    destruct r, s; cbn [orb]; lia.
  - exists (rest + 2 ^ j). destruct r, s; cbn [orb]; lia.
Qed.

Lemma shifted_nonneg (M j : Z) (mrs : shr_record) :
  0 <= j -> 0 <= M -> shifted M j mrs -> 0 <= shr_m mrs.
Proof.
  intros Hj HM (rest & HMe & Hrest & _).
  assert (HP : 0 < 2 ^ j) by (apply Z.pow_pos_nonneg; lia). nia.
Qed.

Lemma shifted_iter (p : positive) :
  forall (M j : Z) (mrs : shr_record),
    0 <= j -> 0 <= M -> shifted M j mrs ->
    shifted M (j + Zpos p) (SpecFloat.iter_pos shr_1 p mrs).
Proof.
  induction p as [p IH | p IH |]; intros M j mrs Hj HM Hs; cbn [SpecFloat.iter_pos].
  - replace (j + Zpos p~1) with (((j + 1) + Zpos p) + Zpos p) by lia.
    apply IH; [lia | lia |]. apply IH; [lia | lia |].
    apply shifted_shr_1; [lia | | exact Hs]. apply (shifted_nonneg M j); assumption.
  - replace (j + Zpos p~0) with ((j + Zpos p) + Zpos p) by lia.
    apply IH; [lia | lia |]. apply IH; [lia | lia | exact Hs].
  - apply shifted_shr_1; [lia | | exact Hs]. apply (shifted_nonneg M j); assumption.
Qed.

Lemma shifted_shr (M : Z) (e n : Z) :
  0 <= M ->
  shifted M (Z.max 0 n) (fst (shr (Build_shr_record M false false) e n))
  /\ snd (shr (Build_shr_record M false false) e n) = e + Z.max 0 n.
Proof.
  intros HM. destruct n as [| p | p]; cbn [shr fst snd].
  - split; [apply shifted_0 | lia].
  - split; [| lia]. replace (Z.max 0 (Zpos p)) with (0 + Zpos p) by lia.
    apply shifted_iter; [lia | lia | apply shifted_0].
  - split; [apply shifted_0 | lia].
Qed.

(** Rounding to nearest: at most half a unit away. *)
Lemma round_nearest_even_shifted (M j : Z) (mrs : shr_record) :
  0 <= j -> 0 <= M -> shifted M j mrs ->
  let r := round_nearest_even (shr_m mrs) (loc_of_shr_record mrs) in
  2 * Z.abs (r * 2 ^ j - M) <= 2 ^ j
  /\ shr_m mrs <= r <= shr_m mrs + 1
  /\ (j = 0 -> r = M).
Proof.
  intros Hj HM (rest & HMe & Hrest & Hloc).
  assert (HP : 0 < 2 ^ j) by (apply Z.pow_pos_nonneg; lia).
  destruct mrs as [m r s]. cbn [shr_m shr_r shr_s] in *.
  assert (H0 : j = 0 -> rest = 0) by (intros ->; cbn in Hrest; lia).
  destruct r, s; cbn [loc_of_shr_record round_nearest_even]; cbn zeta.
  - split; [nia |]. split; [lia |]. intros ->. cbn in *. lia.
  - destruct (Z.even m); (split; [nia |]); (split; [lia |]); intros ->; cbn in *; lia.
  - split; [nia |]. split; [lia |]. intros ->. cbn in *. lia.
  - split; [nia |]. split; [lia |]. intros ->. cbn in *. lia.
Qed.

Lemma shr_nonpos (mrs : shr_record) (e n : Z) : n <= 0 -> shr mrs e n = (mrs, e).
Proof. destruct n; [reflexivity | lia | reflexivity]. Qed.

Lemma fexp_eq (e : Z) : fexp B32.prec B32.emax e = Z.max (e - 24) (-149).
Proof. reflexivity. Qed.

(** ** Rounding a mantissa and an exponent

    [binary_round_aux] on [M * 2 ^ ex] returns the float [r * 2 ^ E], with
    [E] the exponent of the format for numbers of that size, and [r] the
    integer nearest to [M / 2 ^ (E - ex)]. *)
Lemma binary_round_aux_spec (s : bool) (M ex : Z) :
  0 < M ->
  Z.max ex (fexp B32.prec B32.emax (Zdigits2 M + ex)) <= 103 ->
  exists r,
    0 <= r
    /\ 2 * Z.abs (r * 2 ^ (Z.max ex (fexp B32.prec B32.emax (Zdigits2 M + ex)) - ex) - M)
       <= 2 ^ (Z.max ex (fexp B32.prec B32.emax (Zdigits2 M + ex)) - ex)
    /\ (fexp B32.prec B32.emax (Zdigits2 M + ex) <= ex -> r = M)
    /\ ((r = 0 /\ binary_round_aux B32.prec B32.emax s M ex loc_Exact = S754_zero s)
        \/ exists m e,
             binary_round_aux B32.prec B32.emax s M ex loc_Exact = S754_finite s m e
             /\ Z.max ex (fexp B32.prec B32.emax (Zdigits2 M + ex)) <= e
             /\ Zpos m * 2 ^ (e - Z.max ex (fexp B32.prec B32.emax (Zdigits2 M + ex))) = r).
Proof.
  intros HM HE.
  set (d := Zdigits2 M) in *. set (F := fexp B32.prec B32.emax (d + ex)) in *.
  set (E := Z.max ex F) in *.
  assert (HF : F = Z.max (d + ex - 24) (-149)) by reflexivity.
  unfold binary_round_aux, shr_fexp. cbn [shr_record_of_loc]. fold d. fold F.
  destruct (shifted_shr M ex (F - ex)) as [Hs He]; [lia |].
  replace (Z.max 0 (F - ex)) with (E - ex) in Hs, He by lia.
  destruct (shr {| shr_m := M; shr_r := false; shr_s := false |} ex (F - ex))
    as [mrs' e'] eqn:Hshr.
  cbn [fst snd] in Hs, He. replace (ex + (E - ex)) with E in He by lia. subst e'.
  assert (Hj : 0 <= E - ex) by lia.
  destruct (round_nearest_even_shifted M (E - ex) mrs' Hj ltac:(lia) Hs)
    as (Herr & Hr & Hexact).
  set (r := round_nearest_even (shr_m mrs') (loc_of_shr_record mrs')) in *.
  pose proof (shifted_nonneg M (E - ex) mrs' Hj ltac:(lia) Hs) as Hm0.
  assert (Hm24 : shr_m mrs' < 2 ^ 24).
  { destruct Hs as (rest & HMe & Hrest & _).
    destruct (Zdigits2_bounds M HM) as [_ Hhi]. fold d in Hhi.
    pose proof (Zdigits2_pos M HM) as Hd. fold d in Hd.
    assert (HP : 0 < 2 ^ (E - ex)) by (apply Z.pow_pos_nonneg; lia).
    assert (Hle : 2 ^ d <= 2 ^ (24 + (E - ex))) by (apply Z.pow_le_mono_r; lia).
    rewrite Z.pow_add_r in Hle by lia. nia. }
  exists r. split; [lia |]. split; [exact Herr |]. split.
  { intros Hle. apply Hexact. lia. }
  destruct (Z.eq_dec r 0) as [Hr0 | Hr0].
  { left. split; [exact Hr0 |]. rewrite Hr0.
    rewrite shr_nonpos by (cbn [Zdigits2]; rewrite fexp_eq; lia).
    reflexivity. }
  right. destruct (Z.eq_dec r (2 ^ 24)) as [Hr24 | Hr24].
  - rewrite Hr24.
    replace (fexp B32.prec B32.emax (Zdigits2 (2 ^ 24) + E) - E) with 1
      by (rewrite Zdigits2_pow by lia; rewrite fexp_eq; lia).
    cbn [shr SpecFloat.iter_pos]. cbv [shr_1 Z.pow Z.pow_pos Pos.iter Z.mul Pos.mul shr_m].
    cbn [orb]. cbv [shr_m].
    replace (E + 1 <=? B32.emax - B32.prec) with true
      by (symmetry; apply Z.leb_le; unfold B32.emax, B32.prec; lia).
    eexists _, _. split; [reflexivity |]. split; [lia |].
    replace (E + 1 - E) with 1 by lia. reflexivity.
  - assert (Hr24' : r < 2 ^ 24) by lia.
    assert (Hd1 : Zdigits2 r <= 24) by (apply Zdigits2_le; lia).
    rewrite shr_nonpos by (rewrite fexp_eq; lia).
    cbn [shr_m]. destruct r as [| m |]; try lia.
    replace (E <=? B32.emax - B32.prec) with true
      by (symmetry; apply Z.leb_le; unfold B32.emax, B32.prec; lia).
    exists m, E. split; [reflexivity |]. split; [lia |].
    rewrite Z.sub_diag. cbn. lia.
Qed.

(** ** Powers of two as real numbers *)

Lemma IZR_pow2 (e : Z) : 0 <= e -> IZR (2 ^ e) = powerRZ 2 e.
Proof.
  intros He. destruct e as [| p | p]; [reflexivity | | lia].
  change (2 ^ Zpos p) with (Z.pow_pos 2 p). apply Zpower_pos_powerRZ.
Qed.

Lemma pow2_pos (e : Z) : (0 < powerRZ 2 e)%R.
Proof. apply powerRZ_lt. lra. Qed.

Lemma pow2_add (a b : Z) : powerRZ 2 (a + b) = (powerRZ 2 a * powerRZ 2 b)%R.
Proof. apply powerRZ_add. lra. Qed.

Lemma pow2_le (a b : Z) : a <= b -> (powerRZ 2 a <= powerRZ 2 b)%R.
Proof.
  intros Hab. replace b with (a + (b - a)) by lia. rewrite pow2_add.
  rewrite <- (IZR_pow2 (b - a)) by lia.
  assert (H1 : (1 <= IZR (2 ^ (b - a)))%R).
  { apply IZR_le. assert (0 < 2 ^ (b - a)) by (apply Z.pow_pos_nonneg; lia). lia. }
  pose proof (pow2_pos a). nra.
Qed.

Lemma pow2_lt_inv (a b : Z) : (powerRZ 2 a < powerRZ 2 b)%R -> a < b.
Proof.
  intros H. destruct (Z_lt_le_dec a b) as [Hlt | Hle]; [exact Hlt |].
  apply pow2_le in Hle. lra.
Qed.

Lemma pow2_succ (a : Z) : powerRZ 2 (a + 1) = (2 * powerRZ 2 a)%R.
Proof. rewrite pow2_add. change (powerRZ 2 1) with (2 * 1)%R. lra. Qed.

Lemma pow2_succ_sub (a : Z) : powerRZ 2 (a - 1) = (powerRZ 2 a / 2)%R.
Proof.
  replace a with ((a - 1) + 1) at 2 by lia. rewrite pow2_succ. lra.
Qed.

(** ** The value of a float *)

Lemma IZR_cond_Zopp (s : bool) (z : Z) :
  IZR (cond_Zopp s z) = ((if s then -1 else 1) * IZR z)%R.
Proof. destruct s; cbn [cond_Zopp]; [rewrite opp_IZR |]; lra. Qed.

Lemma b32_to_R_finite (s : bool) (m : positive) (e : Z) :
  b32_to_R (S754_finite s m e) = (IZR (cond_Zopp s (Zpos m)) * powerRZ 2 e)%R.
Proof.
  unfold b32_to_R, B32.value. destruct (Z.leb_spec 0 e) as [He | He].
  - unfold Q2R, inject_Z. cbn [Qnum Qden]. rewrite mult_IZR, IZR_pow2 by lia. lra.
  - unfold Q2R. cbn [Qnum Qden].
    assert (HP : 0 < 2 ^ (- e)) by (apply Z.pow_pos_nonneg; lia).
    rewrite Z2Pos.id by exact HP. rewrite IZR_pow2 by lia.
    rewrite powerRZ_neg'. rewrite Rinv_inv. reflexivity.
Qed.

Lemma b32_to_R_zero (s : bool) : b32_to_R (S754_zero s) = 0%R.
Proof. unfold b32_to_R, B32.value, Q2R. cbn. lra. Qed.

(** ** The error of a rounding *)

Lemma binary_round_aux_R (s : bool) (M ex K : Z) :
  0 < M -> (IZR M * powerRZ 2 ex < powerRZ 2 K)%R -> -125 <= K <= 104 ->
  b32_finite (binary_round_aux B32.prec B32.emax s M ex loc_Exact) = true
  /\ (Rabs (b32_to_R (binary_round_aux B32.prec B32.emax s M ex loc_Exact)
            - IZR (cond_Zopp s M) * powerRZ 2 ex) <= powerRZ 2 (K - 25))%R
  /\ (fexp B32.prec B32.emax (Zdigits2 M + ex) <= ex ->
      b32_to_R (binary_round_aux B32.prec B32.emax s M ex loc_Exact)
      = (IZR (cond_Zopp s M) * powerRZ 2 ex)%R).
Proof.
  intros HM HK HKr.
  destruct (Zdigits2_bounds M HM) as [Hlo _].
  pose proof (Zdigits2_pos M HM) as Hd.
  set (d := Zdigits2 M) in *.
  pose proof (pow2_pos ex) as Hpe.
  assert (HdK : d + ex <= K).
  { assert (H : (powerRZ 2 (d - 1 + ex) < powerRZ 2 K)%R).
    { rewrite pow2_add, <- IZR_pow2 by lia.
      apply IZR_le in Hlo. nra. }
    apply pow2_lt_inv in H. lia. }
  assert (HF : fexp B32.prec B32.emax (d + ex) = Z.max (d + ex - 24) (-149)) by reflexivity.
  destruct (binary_round_aux_spec s M ex HM) as (r & Hr0 & Herr & Hexact & Hval).
  { fold d. lia. }
  fold d in Herr, Hexact, Hval.
  set (E := Z.max ex (fexp B32.prec B32.emax (d + ex))) in *.
  assert (Hj : 0 <= E - ex) by lia.
  assert (HvR : b32_finite (binary_round_aux B32.prec B32.emax s M ex loc_Exact) = true
                /\ b32_to_R (binary_round_aux B32.prec B32.emax s M ex loc_Exact)
                   = (IZR (cond_Zopp s r) * powerRZ 2 E)%R).
  { destruct Hval as [[Hz Heq] | (m & e & Heq & HEe & Hme)]; rewrite Heq.
    - split; [reflexivity |]. rewrite b32_to_R_zero, Hz, IZR_cond_Zopp. lra.
    - split; [reflexivity |]. rewrite b32_to_R_finite, !IZR_cond_Zopp, <- Hme.
      rewrite mult_IZR, IZR_pow2 by lia.
      replace e with ((e - E) + E) at 1 by lia. rewrite pow2_add. lra. }
  destruct HvR as [Hfin HvR]. split; [exact Hfin |].
  assert (HE : powerRZ 2 E = (powerRZ 2 (E - ex) * powerRZ 2 ex)%R).
  { rewrite <- pow2_add. f_equal. lia. }
  assert (HerrR : (2 * Rabs (IZR r * powerRZ 2 (E - ex) - IZR M) <= powerRZ 2 (E - ex))%R).
  { rewrite <- IZR_pow2 by lia. rewrite <- mult_IZR, <- minus_IZR, <- abs_IZR.
    rewrite <- (mult_IZR 2). apply IZR_le. exact Herr. }
  pose proof (pow2_pos (E - ex)) as Hpj.
  split.
  - rewrite HvR. destruct (Z_le_gt_dec (fexp B32.prec B32.emax (d + ex)) ex) as [Hle | Hgt].
    + rewrite (Hexact Hle). replace E with ex by lia.
      rewrite Rminus_diag, Rabs_R0. apply Rlt_le, pow2_pos.
    + assert (HEK : E - 1 <= K - 25) by lia.
      apply pow2_le in HEK. rewrite pow2_succ_sub in HEK.
      rewrite !IZR_cond_Zopp, HE.
      replace ((if s then -1 else 1) * IZR r * (powerRZ 2 (E - ex) * powerRZ 2 ex)
               - (if s then -1 else 1) * IZR M * powerRZ 2 ex)%R
        with ((if s then -1 else 1) * powerRZ 2 ex * (IZR r * powerRZ 2 (E - ex) - IZR M))%R
        by ring.
      rewrite !Rabs_mult. rewrite (Rabs_pos_eq (powerRZ 2 ex)) by lra.
      replace (Rabs (if s then -1 else 1)) with 1%R
        by (destruct s; [rewrite Rabs_left | rewrite Rabs_pos_eq]; lra).
      rewrite HE in HEK.
      pose proof (Rabs_pos (IZR r * powerRZ 2 (E - ex) - IZR M)) as Hp. nra.
  - intros Hle. rewrite HvR, (Hexact Hle). replace E with ex by lia. reflexivity.
Qed.

Lemma shl_align_value (mx : positive) (ex ex' : Z) :
  snd (shl_align mx ex ex') = Z.min ex ex'
  /\ Zpos (fst (shl_align mx ex ex')) = Zpos mx * 2 ^ (ex - Z.min ex ex').
Proof.
  unfold shl_align. destruct (ex' - ex) as [| p | p] eqn:Hd; cbn [fst snd].
  - split; [lia |]. replace (ex - Z.min ex ex') with 0 by lia. lia.
  - split; [lia |]. replace (ex - Z.min ex ex') with 0 by lia. lia.
  - split; [lia |]. replace (ex - Z.min ex ex') with (Zpos p) by lia.
    change (Pos.iter xO mx p) with (shift_pos p mx).
    rewrite shift_pos_correct. change (Z.pow_pos 2 p) with (2 ^ Zpos p). lia.
Qed.

Lemma fexp_mono (a b : Z) :
  a <= b -> fexp B32.prec B32.emax a <= fexp B32.prec B32.emax b.
Proof. intros H. rewrite !fexp_eq. lia. Qed.

Lemma binary_round_R (s : bool) (m : positive) (ex K : Z) :
  (IZR (Zpos m) * powerRZ 2 ex < powerRZ 2 K)%R -> -125 <= K <= 104 ->
  b32_finite (binary_round B32.prec B32.emax s m ex) = true
  /\ (Rabs (b32_to_R (binary_round B32.prec B32.emax s m ex)
            - IZR (cond_Zopp s (Zpos m)) * powerRZ 2 ex) <= powerRZ 2 (K - 25))%R
  /\ (fexp B32.prec B32.emax (Zdigits2 (Zpos m) + ex) <= ex ->
      b32_to_R (binary_round B32.prec B32.emax s m ex)
      = (IZR (cond_Zopp s (Zpos m)) * powerRZ 2 ex)%R).
Proof.
  intros HK HKr. unfold binary_round.
  set (F := fexp B32.prec B32.emax (Zpos (digits2_pos m) + ex)).
  destruct (shl_align_value m ex F) as [He Hm].
  destruct (shl_align m ex F) as [mz ez]. cbn [fst snd] in He, Hm.
  assert (Hval : forall t : bool,
             (IZR (cond_Zopp t (Zpos mz)) * powerRZ 2 ez
              = IZR (cond_Zopp t (Zpos m)) * powerRZ 2 ex)%R).
  { intros t. rewrite !IZR_cond_Zopp, Hm, mult_IZR, IZR_pow2 by lia.
    replace ex with ((ex - Z.min ex F) + ez) at 3 by lia. rewrite pow2_add. lra. }
  destruct (binary_round_aux_R s (Zpos mz) ez K) as (Hfin & Herr & Hexact);
    [lia | | exact HKr |].
  { pose proof (Hval false) as H. cbn [cond_Zopp] in H. rewrite H. exact HK. }
  split; [exact Hfin |]. rewrite <- Hval. split; [exact Herr |].
  intros Hle. apply Hexact.
  change (Zdigits2 (Zpos m)) with (Zpos (digits2_pos m)) in Hle. fold F in Hle.
  destruct (Zdigits2_bounds (Zpos m) ltac:(lia)) as [_ Hhi].
  change (Zdigits2 (Zpos m)) with (Zpos (digits2_pos m)) in Hhi.
  assert (HP : 0 < 2 ^ (ex - Z.min ex F)) by (apply Z.pow_pos_nonneg; lia).
  assert (Hdz : Zdigits2 (Zpos mz) <= Zpos (digits2_pos m) + (ex - Z.min ex F)).
  { apply Zdigits2_le; [lia | lia |]. rewrite Hm, Z.pow_add_r by lia. nia. }
  etransitivity; [apply fexp_mono with (b := Zpos (digits2_pos m) + ex); lia |].
  fold F. lia.
Qed.

Lemma binary_normalize_R (z e K : Z) (sz : bool) :
  (Rabs (IZR z * powerRZ 2 e) < powerRZ 2 K)%R -> -125 <= K <= 104 ->
  b32_finite (binary_normalize B32.prec B32.emax z e sz) = true
  /\ (Rabs (b32_to_R (binary_normalize B32.prec B32.emax z e sz)
            - IZR z * powerRZ 2 e) <= powerRZ 2 (K - 25))%R
  /\ (Z.abs z < 2 ^ 24 -> -149 <= e ->
      b32_to_R (binary_normalize B32.prec B32.emax z e sz) = (IZR z * powerRZ 2 e)%R).
Proof.
  intros HK HKr. pose proof (pow2_pos e) as Hpe. pose proof (pow2_pos (K - 25)) as HpK.
  assert (Hex : forall p : positive,
             Zpos p < 2 ^ 24 -> -149 <= e ->
             fexp B32.prec B32.emax (Zdigits2 (Zpos p) + e) <= e).
  { intros p Hp He. rewrite fexp_eq.
    assert (Zdigits2 (Zpos p) <= 24) by (apply Zdigits2_le; lia). lia. }
  destruct z as [| p | p]; cbn [binary_normalize].
  - split; [reflexivity |]. rewrite b32_to_R_zero. split.
    + rewrite Rmult_0_l, Rminus_diag, Rabs_R0. lra.
    + intros _ _. lra.
  - destruct (binary_round_R false p e K) as (Hfin & Herr & Hexact); [| exact HKr |].
    { rewrite Rabs_pos_eq in HK; [exact HK |].
      apply Rmult_le_pos; [apply IZR_le; lia | lra]. }
    cbn [cond_Zopp] in Herr, Hexact. split; [exact Hfin |]. split; [exact Herr |].
    intros Hz He. apply Hexact, Hex; [lia | exact He].
  - destruct (binary_round_R true p e K) as (Hfin & Herr & Hexact); [| exact HKr |].
    { rewrite <- Rabs_Ropp in HK. rewrite Rabs_pos_eq in HK.
      - change (Zneg p) with (- Zpos p) in HK. rewrite opp_IZR in HK. lra.
      - change (Zneg p) with (- Zpos p). rewrite opp_IZR.
        assert (0 <= IZR (Zpos p))%R by (apply IZR_le; lia). nra. }
    cbn [cond_Zopp Z.opp] in Herr, Hexact. split; [exact Hfin |]. split; [exact Herr |].
    intros Hz He. apply Hexact, Hex; [lia | exact He].
Qed.

(** ** The operations of [set_joints_known_pos] *)

(** An [int] below [2 ^ 24] in magnitude converts without error. *)
Lemma b32_of_int_R (z : Z) :
  Z.abs z < 2 ^ 24 ->
  b32_finite (B32.of_int z) = true /\ b32_to_R (B32.of_int z) = IZR z.
Proof.
  intros Hz. unfold B32.of_int.
  destruct (binary_normalize_R z 0 24 false) as (Hfin & _ & Hexact); [| lia |].
  - rewrite powerRZ_O, Rmult_1_r, <- abs_IZR, <- IZR_pow2 by lia.
    apply IZR_lt. exact Hz.
  - split; [exact Hfin |]. rewrite Hexact by lia. rewrite powerRZ_O. lra.
Qed.

Lemma b32_opp_R (x : B32.float) :
  b32_finite x = true ->
  b32_finite (B32.opp x) = true /\ b32_to_R (B32.opp x) = (- b32_to_R x)%R.
Proof.
  destruct x as [s | s | | s m e]; cbn [b32_finite B32.opp SFopp]; try discriminate;
    intros _; (split; [reflexivity |]).
  - rewrite !b32_to_R_zero. lra.
  - rewrite !b32_to_R_finite, !IZR_cond_Zopp. destruct s; cbn [negb]; lra.
Qed.

Lemma Rabs_signed (s : bool) (a : R) :
  (0 <= a)%R -> Rabs ((if s then -1 else 1) * a) = a.
Proof.
  intros Ha. destruct s.
  - replace (-1 * a)%R with (- a)%R by ring. rewrite Rabs_Ropp. apply Rabs_pos_eq, Ha.
  - rewrite Rmult_1_l. apply Rabs_pos_eq, Ha.
Qed.

Lemma b32_to_R_signed (s : bool) (m : positive) (e : Z) :
  b32_to_R (S754_finite s m e)
  = ((if s then -1 else 1) * (IZR (Zpos m) * powerRZ 2 e))%R.
Proof. rewrite b32_to_R_finite, IZR_cond_Zopp. ring. Qed.

Lemma mantissa_pos (m : positive) (e : Z) : (0 < IZR (Zpos m) * powerRZ 2 e)%R.
Proof.
  apply Rmult_lt_0_compat; [apply IZR_lt; lia | apply pow2_pos].
Qed.

(** A product below [2 ^ K] in magnitude is off by at most [2 ^ (K - 25)]. *)
Lemma b32_mul_R (x y : B32.float) (K : Z) :
  b32_finite x = true -> b32_finite y = true ->
  (Rabs (b32_to_R x * b32_to_R y) < powerRZ 2 K)%R -> -125 <= K <= 104 ->
  b32_finite (B32.mul x y) = true
  /\ (Rabs (b32_to_R (B32.mul x y) - b32_to_R x * b32_to_R y) <= powerRZ 2 (K - 25))%R.
Proof.
  intros Hx Hy HK HKr. pose proof (pow2_pos (K - 25)) as HpK.
  destruct x as [sx | sx | | sx mx ex]; try discriminate;
    destruct y as [sy | sy | | sy my ey]; try discriminate;
    cbn [B32.mul SFmul].
  - split; [reflexivity |]. rewrite !b32_to_R_zero, Rmult_0_l, Rminus_diag, Rabs_R0. lra.
  - split; [reflexivity |]. rewrite !b32_to_R_zero, Rmult_0_l, Rminus_diag, Rabs_R0. lra.
  - split; [reflexivity |]. rewrite !b32_to_R_zero, Rmult_0_r, Rminus_diag, Rabs_R0. lra.
  - rewrite !b32_to_R_signed in *.
    pose proof (mantissa_pos mx ex) as HA. pose proof (mantissa_pos my ey) as HB.
    set (A := (IZR (Zpos mx) * powerRZ 2 ex)%R) in *.
    set (B := (IZR (Zpos my) * powerRZ 2 ey)%R) in *.
    assert (Hprod : (IZR (Zpos (mx * my)) * powerRZ 2 (ex + ey) = A * B)%R).
    { unfold A, B. rewrite Pos2Z.inj_mul, mult_IZR, pow2_add. ring. }
    assert (Hsgn : ((if sx then -1 else 1) * A * ((if sy then -1 else 1) * B)
                    = (if xorb sx sy then -1 else 1) * (A * B))%R).
    { destruct sx, sy; cbn [xorb]; ring. }
    rewrite Hsgn in *. rewrite Rabs_signed in HK by nra.
    destruct (binary_round_aux_R (xorb sx sy) (Zpos (mx * my)) (ex + ey) K)
      as (Hfin & Herr & _); [lia | | exact HKr |].
    { rewrite Hprod. exact HK. }
    split; [exact Hfin |].
    rewrite IZR_cond_Zopp, Rmult_assoc, Hprod in Herr. exact Herr.
Qed.

Lemma shl_align_R (s : bool) (m : positive) (e ez : Z) :
  ez <= e ->
  (IZR (cond_Zopp s (Zpos (fst (shl_align m e ez)))) * powerRZ 2 ez
   = b32_to_R (S754_finite s m e))%R.
Proof.
  intros Hle. destruct (shl_align_value m e ez) as [_ Hm].
  rewrite b32_to_R_signed, IZR_cond_Zopp, Hm, mult_IZR, IZR_pow2 by lia.
  replace (Z.min e ez) with ez by lia.
  replace e with ((e - ez) + ez) at 2 by lia. rewrite pow2_add. ring.
Qed.

(** A difference below [2 ^ K] in magnitude is off by at most [2 ^ (K - 25)]. *)
Lemma b32_sub_R (x y : B32.float) (K : Z) :
  b32_finite x = true -> b32_finite y = true ->
  (Rabs (b32_to_R x - b32_to_R y) < powerRZ 2 K)%R -> -125 <= K <= 104 ->
  b32_finite (B32.sub x y) = true
  /\ (Rabs (b32_to_R (B32.sub x y) - (b32_to_R x - b32_to_R y)) <= powerRZ 2 (K - 25))%R.
Proof.
  intros Hx Hy HK HKr. pose proof (pow2_pos (K - 25)) as HpK.
  destruct x as [sx | sx | | sx mx ex]; try discriminate;
    destruct y as [sy | sy | | sy my ey]; try discriminate;
    cbn [B32.sub SFsub].
  - assert (H0 : forall t, b32_finite (S754_zero t) = true
                           /\ (Rabs (b32_to_R (S754_zero t)
                                     - (b32_to_R (S754_zero sx) - b32_to_R (S754_zero sy)))
                               <= powerRZ 2 (K - 25))%R).
    { intros t. split; [reflexivity |].
      rewrite !b32_to_R_zero, !Rminus_diag, Rabs_R0. lra. }
    destruct sx, sy; apply H0.
  - split; [reflexivity |]. rewrite b32_to_R_zero, !b32_to_R_signed.
    match goal with |- (Rabs ?t <= _)%R => replace t with 0%R by (destruct sy; cbn [negb]; ring) end.
    rewrite Rabs_R0. lra.
  - split; [reflexivity |]. rewrite b32_to_R_zero.
    match goal with |- (Rabs ?t <= _)%R => replace t with 0%R by ring end.
    rewrite Rabs_R0. lra.
  - set (ez := Z.min ex ey).
    set (z := cond_Zopp sx (Zpos (fst (shl_align mx ex ez)))
              - cond_Zopp sy (Zpos (fst (shl_align my ey ez)))).
    assert (Hz : (IZR z * powerRZ 2 ez
                  = b32_to_R (S754_finite sx mx ex) - b32_to_R (S754_finite sy my ey))%R).
    { unfold z. rewrite minus_IZR, Rmult_minus_distr_r.
      rewrite !shl_align_R by (unfold ez; lia). reflexivity. }
    destruct (binary_normalize_R z ez K false) as (Hfin & Herr & _); [| exact HKr |].
    { rewrite Hz. exact HK. }
    split; [exact Hfin |]. rewrite Hz in Herr. exact Herr.
Qed.

(** Storing a float below [2 ^ 24] in magnitude into an [int] and reading
    it back loses less than one unit. *)
Lemma b32_to_int_R (x : B32.float) :
  b32_finite x = true -> (Rabs (b32_to_R x) < powerRZ 2 24)%R ->
  b32_finite (B32.to_int x) = true
  /\ (Rabs (b32_to_R (B32.to_int x) - b32_to_R x) < 1)%R.
Proof.
  intros Hx Hb. unfold B32.to_int.
  assert (Hz : Z.abs (B32.to_Z x) < 2 ^ 24 /\ (Rabs (IZR (B32.to_Z x) - b32_to_R x) < 1)%R).
  { destruct x as [s | s | | s m e]; try discriminate; cbn [B32.to_Z].
    { rewrite b32_to_R_zero, Rminus_diag, Rabs_R0. split; [reflexivity | lra]. }
    rewrite b32_to_R_signed in *.
    pose proof (mantissa_pos m e) as Hpos. rewrite Rabs_signed in Hb by lra.
    set (q := if 0 <=? e then Zpos m * 2 ^ e else Z.quot (Zpos m) (2 ^ (- e))).
    assert (Hq : 0 <= q /\ (IZR q <= IZR (Zpos m) * powerRZ 2 e < IZR q + 1)%R).
    { unfold q. destruct (Z.leb_spec 0 e) as [He | He].
      - assert (0 < 2 ^ e) by (apply Z.pow_pos_nonneg; lia).
        split; [lia |]. rewrite mult_IZR, IZR_pow2 by lia. lra.
      - assert (HP : 0 < 2 ^ (- e)) by (apply Z.pow_pos_nonneg; lia).
        rewrite Z.quot_div_nonneg by lia.
        pose proof (Z.div_mod (Zpos m) (2 ^ (- e)) ltac:(lia)) as Hdm.
        pose proof (Z.mod_pos_bound (Zpos m) (2 ^ (- e)) HP) as Hmod.
        pose proof (Z.div_pos (Zpos m) (2 ^ (- e)) ltac:(lia) HP) as Hd0.
        split; [exact Hd0 |].
        set (d := Zpos m / 2 ^ (- e)) in *. set (r := Zpos m mod 2 ^ (- e)) in *.
        assert (He2 : powerRZ 2 e = (/ IZR (2 ^ (- e)))%R).
        { rewrite IZR_pow2 by lia. rewrite powerRZ_neg', Rinv_inv. reflexivity. }
        assert (HPR : (0 < IZR (2 ^ (- e)))%R) by (apply IZR_lt; exact HP).
        rewrite He2, Hdm, plus_IZR, mult_IZR.
        assert (Hr : (0 <= IZR r < IZR (2 ^ (- e)))%R)
          by (split; [apply IZR_le | apply IZR_lt]; lia).
        set (P := IZR (2 ^ (- e))) in *.
        replace ((P * IZR d + IZR r) * / P)%R with (IZR d + IZR r * / P)%R
          by (field; lra).
        assert (0 <= IZR r * / P < 1)%R.
        { split.
          - apply Rmult_le_pos; [lra |]. apply Rlt_le, Rinv_0_lt_compat; lra.
          - apply (Rmult_lt_reg_r P); [lra |]. rewrite Rmult_assoc, Rinv_l by lra. lra. }
        lra. }
    destruct Hq as [Hq0 Hq].
    assert (Hq24 : q < 2 ^ 24).
    { apply lt_IZR. rewrite (IZR_pow2 24) by lia. lra. }
    fold q.
    assert (Hrange : (INT_MIN <=? cond_Zopp s q) && (cond_Zopp s q <=? INT_MAX) = true).
    { apply andb_true_intro. unfold INT_MIN, INT_MAX.
      split; apply Z.leb_le; destruct s; cbn [cond_Zopp]; lia. }
    rewrite Hrange. split.
    - destruct s; cbn [cond_Zopp]; lia.
    - rewrite IZR_cond_Zopp.
      replace ((if s then -1 else 1) * IZR q
               - (if s then -1 else 1) * (IZR (Zpos m) * powerRZ 2 e))%R
        with ((if s then -1 else 1) * (IZR q - IZR (Zpos m) * powerRZ 2 e))%R by ring.
      rewrite Rabs_mult.
      replace (Rabs (if s then -1 else 1)) with 1%R
        by (destruct s; [rewrite Rabs_left | rewrite Rabs_pos_eq]; lra).
      rewrite Rmult_1_l. apply Rabs_def1; lra. }
  destruct Hz as [Hz24 Hclose].
  destruct (b32_of_int_R (B32.to_Z x) Hz24) as [Hfin Hval].
  split; [exact Hfin |]. rewrite Hval. exact Hclose.
Qed.

(** ** The round trip in binary32 *)

Lemma PI_tight : (3.1415926 < PI < 3.1415927)%R.
Proof.
  pose proof (PI_2_3_7_ineq 5) as H.
  unfold sum_f_R0, tg_alt, PI_2_3_7_tg, Ratan_seq in H. simpl in H. lra.
Qed.

Lemma Rabs_mult_le (a b A B : R) :
  (Rabs a <= A)%R -> (Rabs b <= B)%R -> (Rabs (a * b) <= A * B)%R.
Proof.
  intros Ha Hb. rewrite Rabs_mult.
  apply Rmult_le_compat; [apply Rabs_pos | apply Rabs_pos | exact Ha | exact Hb].
Qed.

(** [ENC_CNTS_PER_REV / (2*M_PI)] for 4096 counts, as the float the program
    multiplies with. *)
Lemma cnts_per_2pi_4096 :
  B32.cnts_per_2pi 4096 = S754_finite false 10680707 (-14)
  /\ b32_to_R (B32.cnts_per_2pi 4096) = (10680707 / 16384)%R.
Proof.
  assert (H : B32.cnts_per_2pi 4096 = S754_finite false 10680707 (-14))
    by (vm_compute; reflexivity).
  split; [exact H |]. rewrite H. unfold b32_to_R.
  change (B32.value (S754_finite false 10680707 (-14))) with (10680707 # 16384)%Q.
  unfold Q2R. cbn [Qnum Qden]. reflexivity.
Qed.

(** The error of the read-back, from the errors of the product and of the
    difference. *)
Lemma round_trip_error (m s vp vo : R) :
  (Rabs m <= 25)%R ->
  (Rabs (vp - m * (10680707 / 16384)) <= 1 / 2048)%R ->
  (Rabs (vo - (s - vp)) <= 1 / 256)%R ->
  (Rabs (2 * PI / 4096 * (s - vo) - m) <= 1 / 100000)%R
  /\ (Rabs (vo - (s - m * (4096 / (2 * PI)))) <= 3 / 500)%R.
Proof.
  intros Hm H1 H2. pose proof PI_tight as Hpi.
  set (k := (2 * PI / 4096)%R). set (c := (10680707 / 16384)%R) in *.
  set (d1 := (vp - m * c)%R) in *. set (d2 := (vo - (s - vp))%R) in *.
  assert (Hk : (0 < k <= 15339809 / 10000000000)%R) by (unfold k; lra).
  assert (Ht : (Rabs (k * c - 1) <= 6 / 100000000)%R).
  { unfold k, c. apply Rabs_le. lra. }
  assert (Hd : (Rabs (d1 - d2) <= 1 / 2048 + 1 / 256)%R).
  { replace (d1 - d2)%R with (d1 + - d2)%R by ring.
    eapply Rle_trans; [apply Rabs_triang |]. rewrite Rabs_Ropp. lra. }
  assert (Hkabs : (Rabs k <= 15339809 / 10000000000)%R) by (rewrite Rabs_pos_eq; lra).
  split.
  - replace (k * (s - vo) - m)%R with (m * (k * c - 1) + k * (d1 - d2))%R
      by (unfold d1, d2; ring).
    eapply Rle_trans; [apply Rabs_triang |].
    pose proof (Rabs_mult_le _ _ _ _ Hm Ht).
    pose proof (Rabs_mult_le _ _ _ _ Hkabs Hd). lra.
  - set (q := (4096 / (2 * PI))%R).
    assert (Hqk : (q * k = 1)%R) by (unfold q, k; field; lra).
    assert (Hq : (0 < q < 652)%R).
    { assert (Hq0 : (0 < q)%R) by (unfold q; apply Rdiv_lt_0_compat; lra).
      split; [exact Hq0 |]. apply (Rmult_lt_reg_r k); [lra |]. rewrite Hqk. unfold k. lra. }
    assert (Hqabs : (Rabs q <= 652)%R) by (rewrite Rabs_pos_eq; lra).
    replace (vo - (s - m * q))%R with (m * (q * (1 - k * c)) + (d2 - d1))%R
      by (replace (m * (q * (1 - k * c)))%R with (m * q - m * c * (q * k))%R by ring;
          rewrite Hqk; unfold d1, d2; ring).
    eapply Rle_trans; [apply Rabs_triang |].
    assert (Ht' : (Rabs (1 - k * c) <= 6 / 100000000)%R)
      by (rewrite Rabs_minus_sym; exact Ht).
    pose proof (Rabs_mult_le _ _ _ _ Hqabs Ht') as Hqt.
    pose proof (Rabs_mult_le _ _ _ _ Hm Hqt).
    rewrite (Rabs_minus_sym d2 d1). lra.
Qed.

Lemma pow2_values :
  powerRZ 2 14 = 16384%R /\ powerRZ 2 (14 - 25) = (1 / 2048)%R
  /\ powerRZ 2 17 = 131072%R /\ powerRZ 2 (17 - 25) = (1 / 256)%R
  /\ powerRZ 2 24 = 16777216%R.
Proof.
  repeat split.
  - rewrite <- IZR_pow2 by lia. reflexivity.
  - change (14 - 25) with (- (11)). rewrite powerRZ_neg', <- IZR_pow2 by lia.
    change (2 ^ 11) with 2048. lra.
  - rewrite <- IZR_pow2 by lia. reflexivity.
  - change (17 - 25) with (- (8)). rewrite powerRZ_neg', <- IZR_pow2 by lia.
    change (2 ^ 8) with 256. lra.
  - rewrite <- IZR_pow2 by lia. reflexivity.
Qed.

(** The signed encoder count, as a float: exact below [2 ^ 24]. *)
Lemma signed_enc_val_R {ext : Type} (cfg : config) (sv : services B32.float ext)
    (mt : arm_type) (ty enc : Z) :
  Z.abs enc < 2 ^ 24 ->
  b32_finite (signed_enc_val cfg sv mt ty enc) = true
  /\ b32_to_R (signed_enc_val cfg sv mt ty enc) = IZR (enc_sign cfg sv mt ty * enc).
Proof.
  intros Henc. destruct (b32_of_int_R enc Henc) as [Hf Hv].
  unfold signed_enc_val, enc_sign.
  destruct (enc_flipped cfg sv mt ty); cbn [f_opp f_of_int B32.ops].
  - destruct (b32_opp_R _ Hf) as [Hf' Hv']. split; [exact Hf' |].
    rewrite Hv', Hv, <- opp_IZR. f_equal; lia.
  - split; [exact Hf |]. rewrite Hv. f_equal; lia.
Qed.

(** The value [f_enc_val - mpos_d * cc] in binary32, for a count of at most
    100000 and a motor position of at most 25 rad in magnitude. *)
Lemma enc_offset_value_R {ext : Type} (cfg : config) (sv : services B32.float ext)
    (mt : arm_type) (y : DOF B32.float) :
  ENC_CNTS_PER_REV cfg = 4096 ->
  -100000 <= enc_val y <= 100000 ->
  b32_finite (mpos_d y) = true ->
  (Rabs (b32_to_R (mpos_d y)) <= 25)%R ->
  exists vp : R,
    b32_finite (enc_offset_value cfg sv mt y) = true
    /\ (Rabs (vp - b32_to_R (mpos_d y) * (10680707 / 16384)) <= 1 / 2048)%R
    /\ (Rabs (b32_to_R (enc_offset_value cfg sv mt y)
              - (IZR (enc_sign cfg sv mt (type y) * enc_val y) - vp)) <= 1 / 256)%R
    /\ (Rabs (b32_to_R (enc_offset_value cfg sv mt y)) < 16777216)%R.
Proof.
  intros HN Henc Hfin Hm.
  destruct pow2_values as (P14 & P11 & P17 & P8 & P24).
  destruct cnts_per_2pi_4096 as [Hc Hcv].
  destruct (signed_enc_val_R cfg sv mt (type y) (enc_val y)) as [Hsf Hsv]; [lia |].
  unfold enc_offset_value. cbn [f_sub f_mul f_cnts_per_2pi B32.ops]. rewrite HN.
  set (S := signed_enc_val cfg sv mt (type y) (enc_val y)) in *.
  set (s := IZR (enc_sign cfg sv mt (type y) * enc_val y)) in *.
  set (vm := b32_to_R (mpos_d y)) in *.
  assert (Hs : (Rabs s <= 100000)%R).
  { unfold s, enc_sign. rewrite <- abs_IZR. apply IZR_le.
    destruct (enc_flipped cfg sv mt (type y)); lia. }
  assert (Hmc : (Rabs (vm * (10680707 / 16384)) <= 25 * (10680707 / 16384))%R).
  { apply Rabs_mult_le; [exact Hm |]. rewrite Rabs_pos_eq; lra. }
  destruct (b32_mul_R (mpos_d y) (B32.cnts_per_2pi 4096) 14) as [Hpf Hpe];
    [exact Hfin | rewrite Hc; reflexivity | | lia |].
  { fold vm. rewrite Hcv, P14. lra. }
  fold vm in Hpe. rewrite Hcv, P11 in Hpe.
  set (p := B32.mul (mpos_d y) (B32.cnts_per_2pi 4096)) in *.
  assert (Hp : (Rabs (b32_to_R p) <= 25 * (10680707 / 16384) + 1 / 2048)%R).
  { replace (b32_to_R p) with ((b32_to_R p - vm * (10680707 / 16384))
                               + vm * (10680707 / 16384))%R by ring.
    eapply Rle_trans; [apply Rabs_triang |]. lra. }
  assert (Hsp : (Rabs (b32_to_R S - b32_to_R p) <= 100000 + (25 * (10680707 / 16384) + 1 / 2048))%R).
  { replace (b32_to_R S - b32_to_R p)%R with (b32_to_R S + - b32_to_R p)%R by ring.
    eapply Rle_trans; [apply Rabs_triang |]. rewrite Rabs_Ropp, Hsv. lra. }
  destruct (b32_sub_R S p 17) as [Hof Hoe]; [exact Hsf | exact Hpf | | lia |].
  { rewrite P17. lra. }
  rewrite P8, Hsv in Hoe.
  exists (b32_to_R p). split; [exact Hof |]. split; [exact Hpe |]. split; [exact Hoe |].
  rewrite Hsv in Hsp.
  replace (b32_to_R (B32.sub S p))
    with ((b32_to_R (B32.sub S p) - (s - b32_to_R p)) + (s - b32_to_R p))%R by ring.
  eapply Rle_lt_trans; [apply Rabs_triang |]. lra.
Qed.

(** C3, amended.  In the binary32 arithmetic of the program, with
    [ENC_CNTS_PER_REV] = 4096: after [set_joints_known_pos] has run on a
    mechanism, take one of its first eight joints whose encoder count is at
    most 100000 in magnitude and whose desired motor position [mpos_d] is
    a finite float of at most 25 rad in magnitude.  When the field
    [enc_offset] holds a float, the motor position read back as
    (2 pi / ENC_CNTS_PER_REV) * (sign * enc_val - enc_offset) is within 1e-5
    of [mpos_d], and [enc_offset] is within 0.006 of
    sign * enc_val - mpos_d * (ENC_CNTS_PER_REV / (2 pi)).  When the field
    is an [int], the fraction is discarded and the motor position read back
    is within 2 pi / ENC_CNTS_PER_REV + 1e-5 of [mpos_d]. *)
Theorem C3_round_trip_binary32 {ext : Type} (cfg : config)
    (sv : services B32.float ext) (e : ext) (m : mechanism B32.float)
    (tool_only : bool) (j : nat) (y : DOF B32.float) :
  services_ok sv ->
  ENC_CNTS_PER_REV cfg = 4096 ->
  joint (snd (set_joints_known_pos cfg sv e m tool_only)) !! j = Some y ->
  (j < MAX_DOF_PER_MECH)%nat ->
  -100000 <= enc_val y <= 100000 ->
  b32_finite (mpos_d y) = true ->
  (Rabs (b32_to_R (mpos_d y)) <= 25)%R ->
  if enc_offset_is_int cfg
  then (Rabs (mpos_of_enc b32_to_R cfg sv (mech_type m) y - b32_to_R (mpos_d y))
        < 2 * PI / 4096 + 1 / 100000)%R
  else (Rabs (mpos_of_enc b32_to_R cfg sv (mech_type m) y - b32_to_R (mpos_d y))
        <= 1 / 100000)%R
       /\ (Rabs (b32_to_R (enc_offset y)
                 - (IZR (enc_sign cfg sv (mech_type m) (type y) * enc_val y)
                    - b32_to_R (mpos_d y) * (4096 / (2 * PI))))
           <= 3 / 500)%R.
Proof.
  intros ok HN Hy Hj Henc Hfin Hm.
  pose proof (set_joints_known_pos_spec cfg sv ok e m tool_only) as Hrel.
  destruct (mech_rel_lookup_r _ _ _ _ _ Hrel Hy) as (x & Hx & HR).
  unfold known_pos_rel in HR. rewrite decide_True in HR by exact Hj.
  destruct HR as (_ & _ & _ & _ & _ & _ & _ & Ho).
  destruct (enc_offset_value_R cfg sv (mech_type m) y HN Henc Hfin Hm)
    as (vp & Hof & Hpe & Hoe & Ho24).
  unfold store_enc_offset in Ho. unfold mpos_of_enc. rewrite HN.
  set (o := enc_offset_value cfg sv (mech_type m) y) in *.
  set (s := IZR (enc_sign cfg sv (mech_type m) (type y) * enc_val y)) in *.
  destruct (round_trip_error (b32_to_R (mpos_d y)) s vp (b32_to_R o) Hm Hpe Hoe)
    as [Hrt Hoff].
  destruct (enc_offset_is_int cfg).
  - cbn [f_to_int B32.ops] in Ho.
    destruct (b32_to_int_R o Hof) as [_ Hz].
    { destruct pow2_values as (_ & _ & _ & _ & P24). rewrite P24. exact Ho24. }
    rewrite <- Ho in Hz. pose proof PI_tight as Hpi.
    set (k := (2 * PI / 4096)%R) in *.
    assert (Hk : (0 < k)%R) by (unfold k; lra).
    replace (k * (s - b32_to_R (enc_offset y)) - b32_to_R (mpos_d y))%R
      with ((k * (s - b32_to_R o) - b32_to_R (mpos_d y))
            + k * - (b32_to_R (enc_offset y) - b32_to_R o))%R by ring.
    eapply Rle_lt_trans; [apply Rabs_triang |].
    rewrite Rabs_mult, Rabs_Ropp, (Rabs_pos_eq k) by lra.
    assert (k * Rabs (b32_to_R (enc_offset y) - b32_to_R o) < k * 1)%R
      by (apply Rmult_lt_compat_l; assumption).
    lra.
  - rewrite Ho. split; [exact Hrt | exact Hoff].
Qed.

Lemma C3_round_trip_binary32_witness :
  exists y,
    joint (snd (set_joints_known_pos (Bench.cfg false) Bench.sv Bench.ext_init
                  (Bench.mech0 0 GOLD_ARM jstate_hard_stop 5000) false)) !! 0%nat
    = Some y
    /\ (Rabs (mpos_of_enc b32_to_R (Bench.cfg false) Bench.sv GOLD_ARM y
              - b32_to_R (mpos_d y)) <= 1 / 100000)%R.
Proof.
  eexists. split; [vm_compute; reflexivity |].
  refine (proj1 (C3_round_trip_binary32 (Bench.cfg false) Bench.sv Bench.ext_init
                   (Bench.mech0 0 GOLD_ARM jstate_hard_stop 5000) false 0%nat _
                   sv_ok _ _ _ _ _ _)).
  - reflexivity.
  - vm_compute. reflexivity.
  - unfold MAX_DOF_PER_MECH. lia.
  - cbn. lia.
  - reflexivity.
  - unfold b32_to_R. cbn [mpos_d].
    match goal with
    | |- context [B32.value ?f] =>
        let v := eval vm_compute in (B32.value f) in change (B32.value f) with v
    end.
    unfold Q2R. cbn [Qnum Qden]. rewrite Rabs_pos_eq; lra.
Defined.

(** Evaluation of the integer and rational constants of a read-back. *)
Ltac eval_counts :=
  unfold mpos_of_enc, b32_to_R;
  cbn [enc_offset mpos_d type enc_val ENC_CNTS_PER_REV Bench.cfg];
  repeat match goal with
    | |- context [IZR (?a * ?b)] =>
        let v := eval vm_compute in (a * b) in change (a * b) with v
    | |- context [B32.value ?f] =>
        let v := eval vm_compute in (B32.value f) in change (B32.value f) with v
    end;
  unfold Q2R; cbn [Qnum Qden].

(** C3, as stated, fails.  In binary32 on the bench, a GOLD_ARM shoulder
    with encoder count 2000000 and desired motor position 0.1f gets the
    offset -2000065.25, and the motor position read back differs from
    [mpos_d] by more than 1e-5.  With [enc_offset] an integer field, the
    joint of Scenario D (encoder count 5000) gets the offset -5065, not
    -5000 - 0.1 * (4096 / (2 pi)), and the motor position read back
    differs from [mpos_d] by more than 1e-5. *)
Lemma C3_round_trip_counterexample :
  (exists y,
     joint (snd (set_joints_known_pos (Bench.cfg false) Bench.sv Bench.ext_init
                   (Bench.mech0 0 GOLD_ARM jstate_hard_stop 2000000) false)) !! 0%nat
     = Some y
     /\ (1 / 100000
         < Rabs (mpos_of_enc b32_to_R (Bench.cfg false) Bench.sv GOLD_ARM y
                 - b32_to_R (mpos_d y)))%R)
  /\ (exists y,
        joint (snd (set_joints_known_pos (Bench.cfg true) Bench.sv Bench.ext_init
                      (Bench.mech0 0 GOLD_ARM jstate_hard_stop 5000) false)) !! 0%nat
        = Some y
        /\ enc_offset y = B32.of_int (-5065)
        /\ (1 / 100000
            < Rabs (mpos_of_enc b32_to_R (Bench.cfg true) Bench.sv GOLD_ARM y
                    - b32_to_R (mpos_d y)))%R).
Proof.
  pose proof PI_bounds as Hpi.
  split.
  - eexists. split; [vm_compute; reflexivity |].
    eapply Rlt_le_trans; [| apply Rle_abs].
    eval_counts. lra.
  - eexists. split; [vm_compute; reflexivity |]. split; [reflexivity |].
    rewrite <- Rabs_Ropp. eapply Rlt_le_trans; [| apply Rle_abs].
    eval_counts. lra.
Qed.

(** In binary32 with a floating-point [enc_offset], the joint of Scenario D
    gets the offset -10373509 / 2048 (about -5065.1899), and the motor
    position read back is within 1e-5 of [mpos_d]. *)
Lemma bench_scenario_D_binary32 :
  exists y,
    joint (snd (set_joints_known_pos (Bench.cfg false) Bench.sv Bench.ext_init
                  (Bench.mech0 0 GOLD_ARM jstate_hard_stop 5000) false)) !! 0%nat
    = Some y
    /\ enc_offset y = S754_finite true 10373509 (-11)
    /\ (Rabs (mpos_of_enc b32_to_R (Bench.cfg false) Bench.sv GOLD_ARM y
              - b32_to_R (mpos_d y)) < 1 / 100000)%R.
Proof.
  pose proof PI_bounds as Hpi.
  eexists. split; [vm_compute; reflexivity |]. split; [reflexivity |].
  apply Rabs_def1; eval_counts; lra.
Qed.


(** ** The passes of a tick *)

Section Passes.
Context {num ext : Type} {FO : FloatOps num}.
Variable cfg : config.
Variable sv : services num ext.
Hypothesis ok : services_ok sv.
Implicit Types x y : DOF num.
Implicit Types m : mechanism num.
Implicit Types d : device num.
Implicit Types w : world num ext.

Lemma homing_step_refl (s : jstate) : homing_step s s.
Proof. left. reflexivity. Qed.

Lemma homing_step_trans (s1 s2 s3 : jstate) :
  homing_step s1 s2 -> homing_step s2 s3 -> homing_step s1 s3.
Proof.
  unfold homing_step. intros H1 H2.
  destruct H1 as [-> | [[-> ->] | [[-> [-> | ->]] | [-> ->]]]]; [exact H2 | | | |];
    destruct H2 as [-> | [[H _] | [[H _] | [H H']]]]; try discriminate; subst; auto 10.
Qed.

Lemma homing_rel_refl x : homing_rel x x.
Proof. unfold homing_rel. repeat split. apply homing_step_refl. Qed.

Lemma homing_rel_trans x y z : homing_rel x y -> homing_rel y z -> homing_rel x z.
Proof.
  unfold homing_rel.
  intros (? & ? & ? & ? & ? & ? & ? & ? & Hs1) (? & ? & ? & ? & ? & ? & ? & ? & Hs2).
  repeat split; try congruence. eapply homing_step_trans; eauto.
Qed.

Lemma set_state_same x : set_state (state x) x = x.
Proof. destruct x; reflexivity. Qed.

(** A trajectory service applied to a joint whose state was set to [s]. *)
Lemma writes_traj_homing_rel x x' (s : jstate) :
  writes_traj (set_state s x) x' ->
  homing_step (state x) s ->
  homing_rel x x' /\ state x' = s.
Proof.
  intros H Hs. apply writes_traj_frame in H.
  destruct H as ((? & Hst & ?) & ? & ? & ? & ? & ? & ?). cbn in *.
  unfold homing_rel. repeat split; congruence.
Qed.

Lemma homing2_case_spec (e : ext) x :
  state x = jstate_homing2 ->
  homing_rel x (snd (fst (homing2_case sv e x)))
  /\ (state (snd (fst (homing2_case sv e x))) = jstate_homing2
      \/ state (snd (fst (homing2_case sv e x))) = jstate_ready).
Proof.
  intros Hx. unfold homing2_case.
  pose proof (ok_update_position_trajectory sv ok e x) as H.
  destruct (update_position_trajectory sv e x) as [[e1 j1] r]. cbn in H.
  rewrite <- (set_state_same x) in H.
  destruct (decide (r = 0)); cbn.
  - apply writes_traj_homing_rel in H; [| apply homing_step_refl].
    destruct H as [H Hs]. split; [| right; reflexivity].
    unfold homing_rel in *. cbn.
    destruct H as (? & ? & ? & ? & ? & ? & ? & ? & _).
    repeat split; try assumption. rewrite Hx. unfold homing_step. auto 10.
  - apply writes_traj_homing_rel in H; [| apply homing_step_refl].
    destruct H as [H Hs]. split; [exact H | left; congruence].
Qed.

(** [homing] moves a joint along the transitions of [homing_step] and
    writes nothing but the trajectory outputs. *)
Lemma homing_spec (e : ext) x : homing_rel x (snd (fst (homing sv e x))).
Proof.
  unfold homing. destruct (state x) eqn:Hx; cbn; try apply homing_rel_refl.
  - pose proof (ok_start_trajectory_mag sv ok e (set_state jstate_pos_unknown x)
                  (f_magnitude !!! Z.to_nat (type (set_state jstate_pos_unknown x)))
                  (f_period !!! Z.to_nat (type (set_state jstate_pos_unknown x)))) as H.
    destruct (start_trajectory_mag sv e _ _ _) as [e1 j2]. cbn in H |- *.
    apply writes_traj_homing_rel in H; [apply H |].
    rewrite Hx. unfold homing_step. auto.
  - pose proof (ok_update_linear_sinusoid_position_trajectory sv ok e x) as H.
    destruct (update_linear_sinusoid_position_trajectory sv e x) as [e1 j1].
    cbn in H |- *. rewrite <- (set_state_same x) in H.
    apply writes_traj_homing_rel in H; [apply H | apply homing_step_refl].
  - pose proof (ok_start_trajectory sv ok e x
                  (home_position (DOF_types sv (type x))) (Lit (5 # 2))) as H.
    destruct (start_trajectory sv e x _ _) as [e1 j1]. cbn in H.
    rewrite <- (set_state_same x) in H.
    apply writes_traj_homing_rel in H; [| apply homing_step_refl].
    destruct H as [H Hs].
    destruct (homing2_case_spec e1 (set_state jstate_homing2 j1) eq_refl) as [H2 Hs2].
    unfold homing_rel in *. cbn in H2.
    destruct H as (? & ? & ? & ? & ? & ? & ? & ? & _).
    destruct H2 as (? & ? & ? & ? & ? & ? & ? & ? & _).
    repeat split; try congruence.
    rewrite Hx. unfold homing_step. destruct Hs2 as [-> | ->]; auto 10.
  - apply homing2_case_spec. exact Hx.
Qed.

Lemma homing_not_ready (e : ext) x :
  state x = jstate_not_ready ->
  state (snd (fst (homing sv e x))) = jstate_pos_unknown.
Proof.
  intros Hx. unfold homing. rewrite Hx.
  pose proof (ok_start_trajectory_mag sv ok e (set_state jstate_pos_unknown x)
                (f_magnitude !!! Z.to_nat (type (set_state jstate_pos_unknown x)))
                (f_period !!! Z.to_nat (type (set_state jstate_pos_unknown x)))) as H.
  destruct (start_trajectory_mag sv e _ _ _) as [e1 j2]. cbn in H |- *.
  apply writes_traj_frame in H. destruct H as ((_ & Hs & _) & _). exact Hs.
Qed.

Lemma homing_events (e : ext) x :
  calibrations (snd (homing sv e x)) = [].
Proof.
  unfold homing, homing2_case.
  destruct (state x);
    repeat match goal with
           | |- context [let '(_, _) := ?t in _] => destruct t
           | |- context [decide ?P] => destruct (decide P)
           end; reflexivity.
Qed.

Lemma calibrations_app (l1 l2 : list event) :
  calibrations (l1 ++ l2) = calibrations l1 ++ calibrations l2.
Proof. unfold calibrations. apply List.filter_app. Qed.

Lemma on_joint_calibrations (i j : nat)
    (f : ext -> DOF num -> ext * DOF num * list event) w :
  (forall e x, calibrations (snd (f e x)) = []) ->
  calibrations (w_log (on_joint i j f w)) = calibrations (w_log w).
Proof.
  intros Hf. pose proof (on_joint_spec i j f w) as H.
  destruct (get_joint (w_dev w) i j) as [x |].
  - destruct H as [_ ->]. rewrite calibrations_app, Hf. apply app_nil_r.
  - rewrite H. reflexivity.
Qed.

(** The motion pass. *)
Lemma motion_pass_spec w :
  dev_rel (fun _ _ => homing_rel) (w_dev w) (w_dev (motion_pass sv w))
  /\ calibrations (w_log (motion_pass sv w)) = calibrations (w_log w).
Proof.
  unfold motion_pass.
  apply (loop_over_joints_inv
           (fun w' => dev_rel (fun _ _ => homing_rel) (w_dev w) (w_dev w')
                      /\ calibrations (w_log w') = calibrations (w_log w))).
  - split; [| reflexivity]. apply dev_rel_refl. intros. apply homing_rel_refl.
  - intros i k w' _ _ [Hrel Hlog].
    destruct (mech (w_dev w') !! i) as [m |]; [| auto].
    destruct (get_joint (w_dev w') i k) as [x |]; [| auto].
    destruct (is_toolDOF sv (type x) || tools_ready sv m); [| auto].
    split.
    + eapply dev_rel_trans; [exact Hrel | |].
      * apply on_joint_rel; [apply homing_rel_refl | apply homing_spec].
      * intros ? ? a b c. apply homing_rel_trans.
    + rewrite on_joint_calibrations; [exact Hlog | apply homing_events].
Qed.

Lemma dac_rel_refl x : dac_rel x x.
Proof. unfold dac_rel, keeps_homing. repeat split. Qed.

Lemma dac_rel_trans x y z : dac_rel x y -> dac_rel y z -> dac_rel x z.
Proof.
  unfold dac_rel, keeps_homing.
  intros ((? & ? & ?) & ? & ? & ? & ? & ?) ((? & ? & ?) & ? & ? & ? & ? & ?).
  repeat split; congruence.
Qed.

Lemma writes_mpos_d_dac_rel x x' : writes_mpos_d x x' -> dac_rel x x'.
Proof.
  intros H. apply writes_mpos_d_frame in H.
  unfold dac_rel, keeps_homing in *. intuition congruence.
Qed.

Lemma writes_tau_d_dac_rel x x' : writes_tau_d x x' -> dac_rel x x'.
Proof.
  intros H. apply writes_tau_d_frame in H.
  unfold dac_rel, keeps_homing in *. intuition congruence.
Qed.

Lemma writes_current_cmd_dac_rel x x' : writes_current_cmd x x' -> dac_rel x x'.
Proof.
  intros H. apply writes_current_cmd_frame in H.
  unfold dac_rel, keeps_homing in *. intuition congruence.
Qed.

Lemma pd_pass_spec w :
  dev_rel (fun _ _ => dac_rel) (w_dev w) (w_dev (pd_pass sv w))
  /\ calibrations (w_log (pd_pass sv w)) = calibrations (w_log w).
Proof.
  unfold pd_pass.
  apply (loop_over_joints_inv
           (fun w' => dev_rel (fun _ _ => dac_rel) (w_dev w) (w_dev w')
                      /\ calibrations (w_log w') = calibrations (w_log w))).
  - split; [| reflexivity]. apply dev_rel_refl. intros. apply dac_rel_refl.
  - intros i k w' _ _ [Hrel Hlog]. split.
    + eapply dev_rel_trans; [exact Hrel | |].
      * apply on_joint_rel; [apply dac_rel_refl |].
        intros e x. pose proof (ok_mpos_PD_control sv ok e x) as H.
        destruct (mpos_PD_control sv e x) as [e1 x1]. cbn in *.
        apply writes_tau_d_dac_rel, H.
      * intros ? ? a b c. apply dac_rel_trans.
    + rewrite on_joint_calibrations; [exact Hlog |].
      intros e x. destruct (mpos_PD_control sv e x). reflexivity.
Qed.

(** Coupling, control and command stages. *)
Lemma dac_step_spec (p : param_pass) w :
  dev_rel (fun _ _ => dac_rel) (w_dev w) (w_dev (dac_step sv p w))
  /\ calibrations (w_log (dac_step sv p w)) = calibrations (w_log w).
Proof.
  unfold dac_step.
  pose proof (ok_invCableCoupling sv ok (w_ext w) (w_dev w) (runlevel p)) as H1.
  destruct (invCableCoupling sv (w_ext w) (w_dev w) (runlevel p)) as [e3 d3].
  cbn in H1.
  destruct (pd_pass_spec (mkWorld e3 d3 (w_log w))) as [H2 L2]. cbn in H2, L2.
  set (w4 := pd_pass sv (mkWorld e3 d3 (w_log w))) in *.
  pose proof (ok_TorqueToDAC sv ok (w_ext w4) (w_dev w4)) as H3.
  destruct (TorqueToDAC sv (w_ext w4) (w_dev w4)) as [e5 d5]. cbn in H3 |- *.
  split; [| exact L2].
  eapply dev_rel_trans; [| exact H3 |].
  - eapply dev_rel_trans; [exact H1 | exact H2 |].
    intros ? ? a b c Hab Hbc. cbn beta in Hab.
    eapply dac_rel_trans; [apply writes_mpos_d_dac_rel, Hab | exact Hbc].
  - intros ? ? a b c Hab Hbc. cbn beta in Hbc.
    eapply dac_rel_trans; [exact Hab | apply writes_current_cmd_dac_rel, Hbc].
Qed.

(** *** The last loop: hard-stop checks and synchronisation *)

Lemma detect_spec (j : nat) (e : ext) x :
  type (snd (fst (detect cfg sv j e x))) = type x
  /\ (check_homing_condition cfg x = true ->
      current_cmd (snd (fst (detect cfg sv j e x))) = 0
      /\ state (snd (fst (detect cfg sv j e x))) = jstate_hard_stop)
  /\ (check_homing_condition cfg x = false -> snd (fst (detect cfg sv j e x)) = x).
Proof.
  unfold detect. destruct (check_homing_condition cfg x).
  - pose proof (ok_stop_trajectory sv ok e
                  (set_current_cmd 0 (set_state jstate_hard_stop x))) as H.
    destruct (stop_trajectory sv e _) as [e1 j2]. cbn in H |- *.
    apply writes_traj_frame in H.
    destruct H as ((Ht & Hs & _) & Hc & _). cbn in Ht, Hs, Hc.
    repeat split; auto; discriminate.
  - cbn. repeat split; auto; discriminate.
Qed.

Lemma detect_calibrations (j : nat) (e : ext) x :
  calibrations (snd (detect cfg sv j e x)) = [].
Proof.
  unfold detect. destruct (check_homing_condition cfg x); [| reflexivity].
  destruct (stop_trajectory sv e _). reflexivity.
Qed.

Lemma set_reference_state (t : bool) x :
  state (set_reference sv t x) = state x
  \/ state (set_reference sv t x) = jstate_homing1.
Proof.
  unfold set_reference.
  destruct (t && negb (is_toolDOF sv (type x)));
    [| destruct (negb t && is_toolDOF sv (type x))]; cbn; auto.
Qed.

(** The calibration keeps what the last loop established. *)
Lemma check_rel_known_pos (mt : arm_type) (t : bool) (j : nat) x y z :
  check_rel cfg j x y -> known_pos_rel cfg sv mt t j y z -> check_rel cfg j x z.
Proof.
  unfold check_rel, known_pos_rel.
  intros [Ht H] (Ht' & _ & Hc & _ & _ & H').
  split; [congruence |].
  destruct (decide (j < MAX_DOF_PER_MECH)%nat).
  - destruct H' as (_ & Hs & _).
    pose proof (set_reference_state t y) as Hr. rewrite <- Hs in Hr.
    destruct H as [H1 H2]. split; intros Hchk.
    + destruct (H1 Hchk) as [Hc1 Hs1]. split; [congruence |].
      destruct Hr as [Hr | Hr]; [rewrite Hr; exact Hs1 | auto].
    + destruct (H2 Hchk) as [Hc1 Hs1]. split; [congruence |].
      destruct Hr as [Hr | Hr]; [rewrite Hr; exact Hs1 | auto].
  - destruct H' as [_ Hs]. destruct H as [Hc1 Hs1]. split; congruence.
Qed.

Lemma check_rel_self_ge (j : nat) x :
  ~ (j < MAX_DOF_PER_MECH)%nat -> check_rel cfg j x x.
Proof.
  intros Hj. unfold check_rel. split; [reflexivity |].
  rewrite decide_False by exact Hj. auto.
Qed.

Lemma detect_check_rel (j : nat) (e : ext) x :
  (j < MAX_DOF_PER_MECH)%nat ->
  check_rel cfg j x (snd (fst (detect cfg sv j e x))).
Proof.
  intros Hj. destruct (detect_spec j e x) as (Ht & H1 & H2).
  unfold check_rel. split; [exact Ht |]. rewrite decide_True by exact Hj.
  split; intros Hc.
  - destruct (H1 Hc) as [-> ->]. auto.
  - rewrite (H2 Hc). auto.
Qed.

Lemma chk_rel_init d : dev_rel (chk_rel cfg 0 0) d d.
Proof.
  apply dev_rel_refl. intros i j x _. unfold chk_rel.
  rewrite decide_False; [reflexivity |]. unfold MAX_DOF_PER_MECH. lia.
Qed.

Lemma chk_rel_unvisited d0 d (i k : nat) x :
  dev_rel (chk_rel cfg i k) d0 d ->
  (k < MAX_DOF_PER_MECH)%nat ->
  get_joint d i k = Some x ->
  get_joint d0 i k = Some x.
Proof.
  intros Hrel Hk Hx.
  destruct (dev_rel_get_joint_r _ _ _ _ _ _ Hrel Hx) as (x0 & Hx0 & HR).
  unfold chk_rel in HR. rewrite decide_False in HR by lia. congruence.
Qed.

(** After the hard-stop check of joint [(i, k)]. *)
Lemma chk_rel_detect d0 d (i k : nat) x x1 :
  dev_rel (chk_rel cfg i k) d0 d ->
  (k < MAX_DOF_PER_MECH)%nat ->
  get_joint d i k = Some x ->
  check_rel cfg k x x1 ->
  dev_rel (mid_rel cfg i (S k)) d0 (put_joint i k x1 d).
Proof.
  intros Hrel Hk Hx HQ.
  apply dev_rel_trans with
    (R1 := chk_rel cfg i k)
    (R2 := fun i' j' y y' => if decide ((i', j') = (i, k)) then y = x /\ y' = x1 else y' = y)
    (d' := d); [exact Hrel | |].
  - apply dev_rel_put_joint with (x := x); [exact Hx | |].
    + rewrite decide_True by reflexivity. auto.
    + intros i' j' y Hne _. rewrite decide_False by exact Hne. reflexivity.
  - intros i' j' a b c. unfold chk_rel, mid_rel.
    destruct (decide ((i', j') = (i, k))) as [Heq | Hne].
    + inversion Heq; subst i' j'. intros H1 [-> ->].
      rewrite decide_False in H1 by lia. subst.
      rewrite decide_True by lia. exact HQ.
    + intros H1 ->.
      destruct (decide (i' < i \/ i' = i /\ (j' < k \/ k = MAX_DOF_PER_MECH))%nat) as [H | H].
      * rewrite decide_True by lia. exact H1.
      * rewrite decide_False; [exact H1 |].
        intros [H3 | [H3 H4]]; apply H; [lia |].
        right. split; [lia |]. left.
        assert (j' <> k) by congruence. lia.
Qed.

Lemma mid_rel_chk_rel d0 d (i k : nat) :
  dev_rel (mid_rel cfg i k) d0 d ->
  (k < MAX_DOF_PER_MECH)%nat ->
  dev_rel (chk_rel cfg i k) d0 d.
Proof.
  intros Hrel Hk. eapply dev_rel_mono; [exact Hrel |].
  intros i' j' a b _. unfold mid_rel, chk_rel.
  destruct (decide (i' < i \/ i' = i /\ j' < k)%nat) as [H | H].
  - rewrite decide_True by lia. auto.
  - rewrite decide_False by lia. auto.
Qed.

(** A mechanism that has no joint [k] has no joint after [k]. *)
Lemma get_joint_None_ge d (i k j : nat) :
  get_joint d i k = None -> (k <= j)%nat -> get_joint d i j = None.
Proof.
  unfold get_joint. destruct (mech d !! i) as [m |]; [| reflexivity].
  intros Hk Hle. apply lookup_ge_None. apply lookup_ge_None in Hk. lia.
Qed.

Lemma chk_rel_skip d0 d (i k : nat) :
  dev_rel (chk_rel cfg i k) d0 d ->
  (k < MAX_DOF_PER_MECH)%nat ->
  get_joint d i k = None ->
  dev_rel (chk_rel cfg i (S k)) d0 d.
Proof.
  intros Hrel Hk Hx. eapply dev_rel_mono; [exact Hrel |].
  intros i' j' a b Ha. unfold chk_rel.
  destruct (decide (i' < i \/ i' = i /\ (j' < k \/ k = MAX_DOF_PER_MECH))%nat) as [H | H].
  - rewrite decide_True by lia. auto.
  - destruct (decide (i' < i \/ i' = i /\ (j' < S k \/ S k = MAX_DOF_PER_MECH))%nat)
      as [H' | H']; [| auto].
    exfalso. assert (i' = i /\ (k <= j')%nat) as [-> Hle] by lia.
    destruct (dev_rel_get_joint _ _ _ _ _ _ Hrel Ha) as (b' & Hb' & _).
    rewrite (get_joint_None_ge d i k j' Hx Hle) in Hb'. discriminate.
Qed.

Lemma chk_rel_next d0 d (i : nat) :
  dev_rel (chk_rel cfg i MAX_DOF_PER_MECH) d0 d ->
  dev_rel (chk_rel cfg (S i) 0) d0 d.
Proof.
  intros Hrel. eapply dev_rel_mono; [exact Hrel |].
  intros i' j' a b _. unfold chk_rel.
  destruct (decide (i' < i \/ i' = i /\ (j' < MAX_DOF_PER_MECH \/ MAX_DOF_PER_MECH = MAX_DOF_PER_MECH))%nat)
    as [H | H].
  - rewrite decide_True by lia. auto.
  - rewrite decide_False; [auto |]. unfold MAX_DOF_PER_MECH in *. lia.
Qed.

Lemma chk_rel_final d0 d :
  dev_rel (chk_rel cfg (length (mech d0)) 0) d0 d ->
  dev_rel (fun _ j => check_rel cfg j) d0 d.
Proof.
  intros Hrel. eapply dev_rel_mono; [exact Hrel |].
  intros i' j' a b Ha. apply get_joint_lt in Ha. unfold chk_rel.
  rewrite decide_True by lia. auto.
Qed.

(** The three outcomes of [synchronize]. *)
Lemma synchronize_cases (gTime : Z) (i : nat) (tw : Z * world num ext) :
  synchronize cfg sv gTime i tw = tw
  \/ (exists m,
        mech (w_dev (snd tw)) !! i = Some m
        /\ mech_finished sv m = true
        /\ ~ gTime > ulong cfg ((if decide (fst tw = 0) then gTime else fst tw) + 200)
        /\ synchronize cfg sv gTime i tw
           = (if decide (fst tw = 0) then gTime else fst tw, snd tw))
  \/ (exists m,
        mech (w_dev (snd tw)) !! i = Some m
        /\ mech_finished sv m = true
        /\ gTime > ulong cfg ((if decide (fst tw = 0) then gTime else fst tw) + 200)
        /\ fst (synchronize cfg sv gTime i tw) = 0
        /\ w_dev (snd (synchronize cfg sv gTime i tw))
           = put_mech i
               (snd (set_joints_known_pos cfg sv (w_ext (snd tw)) m
                       (negb (tools_ready sv m))))
               (w_dev (snd tw))
        /\ w_log (snd (synchronize cfg sv gTime i tw))
           = w_log (snd tw) ++ [Ev_calibrate i (negb (tools_ready sv m))]).
Proof.
  unfold synchronize.
  destruct (mech (w_dev (snd tw)) !! i) as [m |] eqn:Hm; [| auto].
  destruct (mech_finished sv m) eqn:Hf; [| auto].
  destruct (decide (gTime > ulong cfg ((if decide (fst tw = 0) then gTime else fst tw) + 200)))
    as [Hg | Hg].
  - right. right. exists m.
    destruct (set_joints_known_pos cfg sv (w_ext (snd tw)) m (negb (tools_ready sv m)))
      as [e m'] eqn:Hk.
    cbn. auto 10.
  - right. left. exists m. auto.
Qed.

(** After the synchronisation of mechanism [i]. *)
Lemma chk_rel_synchronize d0 (gTime : Z) (i : nat) (tw : Z * world num ext) :
  dev_rel (mid_rel cfg i MAX_DOF_PER_MECH) d0 (w_dev (snd tw)) ->
  dev_rel (chk_rel cfg i MAX_DOF_PER_MECH) d0
          (w_dev (snd (synchronize cfg sv gTime i tw))).
Proof.
  intros Hrel.
  assert (dev_rel (chk_rel cfg i MAX_DOF_PER_MECH) d0 (w_dev (snd tw))) as Hsame.
  { eapply dev_rel_mono; [exact Hrel |].
    intros i' j' a b _. unfold mid_rel, chk_rel.
    destruct (decide (i' < i \/ i' = i /\ j' < MAX_DOF_PER_MECH)%nat) as [H | H].
    - rewrite decide_True by lia. auto.
    - destruct (decide _) as [H' | H']; [| auto].
      intros ->. apply check_rel_self_ge. lia. }
  destruct (synchronize_cases gTime i tw) as [-> | [(m & _ & _ & _ & ->) | (m & Hm & _ & _ & _ & -> & _)]];
    [exact Hsame | exact Hsame |].
  eapply dev_rel_trans; [exact Hsame | |].
  - apply dev_rel_put_mech with (m := m)
      (R := fun i' j' y z =>
              if decide (i' = i)
              then known_pos_rel cfg sv (mech_type m) (negb (tools_ready sv m)) j' y z
              else z = y); [exact Hm | |].
    + eapply mech_rel_mono; [apply set_joints_known_pos_spec; exact ok |].
      intros j y z _ H. rewrite decide_True by reflexivity. exact H.
    + intros i' j' y Hne _. rewrite decide_False by exact Hne. reflexivity.
  - intros i' j' a b c Hab Hbc. cbn beta in Hbc.
    destruct (decide (i' = i)) as [-> | Hne]; [| subst; exact Hab].
    unfold chk_rel in *. rewrite decide_True in Hab |- * by lia.
    eapply check_rel_known_pos; eauto.
Qed.

(** The last loop of a tick relates every joint to what it was, after the
    DAC values were computed, by [check_rel]. *)
Lemma check_pass_rel (gTime : Z) (tw : Z * world num ext) :
  dev_rel (fun _ j => check_rel cfg j)
          (w_dev (snd tw)) (w_dev (snd (check_pass cfg sv gTime tw))).
Proof.
  unfold check_pass. apply chk_rel_final.
  apply (loop_over_joints_ind
           (fun i k (tw' : Z * world num ext) =>
              dev_rel (chk_rel cfg i k) (w_dev (snd tw)) (w_dev (snd tw')))).
  - apply chk_rel_init.
  - intros i k tw' _ Hk Hrel.
    destruct (get_joint (w_dev (snd tw')) i k) as [x |] eqn:Hx;
      [| apply chk_rel_skip; assumption].
    pose proof (on_joint_spec i k (detect cfg sv k) (snd tw')) as Hspec.
    rewrite Hx in Hspec. destruct Hspec as [Hdev _].
    assert (dev_rel (mid_rel cfg i (S k)) (w_dev (snd tw))
              (w_dev (on_joint i k (detect cfg sv k) (snd tw')))) as Hmid.
    { rewrite Hdev. eapply chk_rel_detect; eauto. apply detect_check_rel. exact Hk. }
    destruct (decide (k = MAX_DOF_PER_MECH - 1)%nat) as [-> | Hne].
    + apply (chk_rel_synchronize _ gTime i
               (fst tw', on_joint i (MAX_DOF_PER_MECH - 1)
                           (detect cfg sv (MAX_DOF_PER_MECH - 1)) (snd tw'))).
      exact Hmid.
    + cbn [snd]. apply mid_rel_chk_rel; [exact Hmid |].
      unfold MAX_DOF_PER_MECH in *. lia.
  - intros i tw'. apply chk_rel_next.
Qed.

End Passes.

(** ** The initialisation of a homing pass *)

Section Reset.
Context {num ext : Type} {FO : FloatOps num}.
Variable cfg : config.
Variable sv : services num ext.
Hypothesis ok : services_ok sv.
Implicit Types x y : DOF num.
Implicit Types m : mechanism num.
Implicit Types d : device num.
Implicit Types w : world num ext.

Lemma put_joint_same d (i j : nat) x :
  get_joint d i j = Some x -> put_joint i j x d = d.
Proof.
  unfold get_joint, put_joint.
  destruct (mech d !! i) as [m |] eqn:Hm; [| discriminate]. intros Hx.
  unfold put_mech. rewrite (list_insert_id (joint m) j x Hx).
  destruct d as [l]. cbn in *. f_equal.
  apply list_insert_id. rewrite Hm. destruct m; reflexivity.
Qed.

Lemma reset_joint_spec (i j : nat) (e : ext) x :
  snd (fst (reset_joint sv i j e x)) = reset_fields x
  /\ snd (reset_joint sv i j e x)
     = (if is_toolDOF sv (type x) then [Ev_PI_reset i j] else []).
Proof.
  unfold reset_joint. fold (reset_fields x).
  change (type (reset_fields x)) with (type x).
  destruct (is_toolDOF sv (type x)); [| auto].
  pose proof (ok_jvel_PI_control sv ok e (reset_fields x) 1) as H.
  destruct (jvel_PI_control sv e (reset_fields x) 1) as [e1 j2]. cbn in *. auto.
Qed.

(** The block under [RICKS_TOOLS] changes the state of joints only. *)
Lemma ricks_tools_pass_spec w :
  dev_rel (fun _ _ x x' => x' = set_state (state x') x)
          (w_dev w) (w_dev (ricks_tools_pass cfg sv w))
  /\ w_log (ricks_tools_pass cfg sv w) = w_log w.
Proof.
  assert (forall x, x = set_state (state x) x) as Hrefl by (intros []; reflexivity).
  unfold ricks_tools_pass. destruct (RICKS_TOOLS cfg).
  - apply (loop_over_joints_inv
             (fun w' => dev_rel (fun _ _ x x' => x' = set_state (state x') x)
                                (w_dev w) (w_dev w')
                        /\ w_log w' = w_log w)).
    + split; [| reflexivity]. apply dev_rel_refl. auto.
    + intros i k w' _ _ [Hrel Hlog].
      set (f := fun (e : ext) x =>
                  (e, if is_toolDOF sv (type x) then set_state jstate_ready x else x,
                   @nil event)).
      split.
      * eapply dev_rel_trans; [exact Hrel | |].
        -- apply (on_joint_rel (fun x x' => x' = set_state (state x') x) i k f); [auto |].
           intros e x. unfold f. cbn. destruct (is_toolDOF sv (type x)); [reflexivity | auto].
        -- intros ? ? a b c. cbn. intros -> ->. reflexivity.
      * pose proof (on_joint_spec i k f w') as H.
        destruct (get_joint (w_dev w') i k) as [x |].
        -- destruct H as [_ ->]. unfold f. cbn. rewrite app_nil_r. exact Hlog.
        -- rewrite H. exact Hlog.
  - split; [| reflexivity]. apply dev_rel_refl. auto.
Qed.

(** The initialisation loop: every joint gets the fields of
    [reset_fields], and the integral term is reset for the tool DOFs and
    for no other joint. *)
Lemma reset_pass_spec (n : Z) w :
  dev_rel (fun _ j x x' =>
             if decide (j < MAX_DOF_PER_MECH)%nat then x' = reset_fields x else x' = x)
          (w_dev w) (w_dev (snd (reset_pass sv (n, w))))
  /\ (forall i j,
        Ev_PI_reset i j ∈ w_log (snd (reset_pass sv (n, w)))
        <-> Ev_PI_reset i j ∈ w_log w
            \/ exists x, get_joint (w_dev w) i j = Some x
                         /\ (j < MAX_DOF_PER_MECH)%nat
                         /\ is_toolDOF sv (type x) = true)
  /\ calibrations (w_log (snd (reset_pass sv (n, w)))) = calibrations (w_log w).
Proof.
  unfold reset_pass. cbn [snd].
  set (body := fun (i j : nat) (iw : Z * world num ext) =>
                 match get_joint (w_dev (snd iw)) i j with
                 | Some _ => (1, on_joint i j (reset_joint sv i j) (snd iw))
                 | None => iw
                 end).
  pose (I := fun (i k : nat) (iw : Z * world num ext) =>
               (forall i' j',
                  Ev_PI_reset i' j' ∈ w_log (snd iw)
                  <-> Ev_PI_reset i' j' ∈ w_log w
                      \/ exists x, get_joint (w_dev w) i' j' = Some x
                                   /\ (j' < MAX_DOF_PER_MECH)%nat
                                   /\ (i' < i \/ (i' = i /\ j' < k))%nat
                                   /\ is_toolDOF sv (type x) = true)
               /\ calibrations (w_log (snd iw)) = calibrations (w_log w)).
  destruct (loop_over_joints_visit_ind (fun iw : Z * world num ext => w_dev (snd iw))
              I (fun _ _ x x' => x' = reset_fields x) body (n, w)) as [[HI HL] Hrel].
  - unfold I. split; [| reflexivity]. intros i' j'. cbn. split; [auto |].
    intros [H | (x & _ & _ & H & _)]; [exact H | lia].
  - intros i k iw Hk [HI HL] Hrel. unfold body. cbn [snd] in *.
    pose proof (on_joint_spec i k (reset_joint sv i k) (snd iw)) as Hspec.
    destruct (get_joint (w_dev (snd iw)) i k) as [x |] eqn:Hx.
    + destruct Hspec as [Hdev Hlog]. cbn [snd].
      destruct (reset_joint_spec i k (w_ext (snd iw)) x) as [Hj Hev].
      rewrite Hj in Hdev. rewrite Hev in Hlog.
      pose proof (vis_rel_unvisited _ _ _ _ _ _ Hrel Hx) as Hx0.
      split; [| eauto].
      unfold I. cbn [snd]. split.
      * intros i' j'. rewrite Hlog, elem_of_app, HI. split.
        -- intros [[H | (y & Hy & Hj' & Hv & Ht)] | H].
           ++ auto.
           ++ right. exists y. repeat split; auto; lia.
           ++ destruct (is_toolDOF sv (type x)) eqn:Ht;
                [| apply elem_of_nil in H; contradiction].
              apply list_elem_of_singleton in H. inversion H; subst i' j'.
              right. exists x. repeat split; auto; lia.
        -- intros [H | (y & Hy & Hj' & Hv & Ht)]; [auto |].
           destruct (decide ((i', j') = (i, k))) as [Heq | Hne].
           ++ inversion Heq; subst i' j'.
              assert (y = x) as -> by congruence.
              right. rewrite Ht. apply list_elem_of_singleton. reflexivity.
           ++ left. right. exists y. repeat split; auto.
              assert (i' <> i \/ j' <> k) by (destruct (decide (i' = i)); [right; congruence | auto]).
              repeat split; auto; lia.
      * rewrite Hlog, calibrations_app, HL.
        destruct (is_toolDOF sv (type x)); cbn; apply app_nil_r.
    + split; [| reflexivity]. unfold I. split; [| exact HL].
      intros i' j'. rewrite HI. split.
      * intros [H | (y & Hy & Hj' & Hv & Ht)]; [auto |].
        right. exists y. repeat split; auto; lia.
      * intros [H | (y & Hy & Hj' & Hv & Ht)]; [auto |].
        right. exists y. repeat split; auto.
        destruct (decide ((i', j') = (i, k))) as [Heq | Hne].
        -- inversion Heq; subst i' j'.
           pose proof (dev_rel_get_joint _ _ _ _ _ _ Hrel Hy) as (b & Hb & _).
           congruence.
        -- assert (i' <> i \/ j' <> k) by (destruct (decide (i' = i)); [right; congruence | auto]).
           lia.
  - intros i iw [HI HL]. unfold I. split; [| exact HL].
    intros i' j'. rewrite HI. split.
    + intros [H | (y & Hy & Hj' & Hv & Ht)]; [auto |].
      right. exists y. repeat split; auto; lia.
    + intros [H | (y & Hy & Hj' & Hv & Ht)]; [auto |].
      right. exists y. repeat split; auto; lia.
  - cbn [snd] in *. split; [exact Hrel |]. split; [| exact HL].
    intros i j. rewrite HI. split.
    + intros [H | (y & Hy & Hj' & Hv & Ht)]; [auto |]. right. eauto.
    + intros [H | (y & Hy & Hj' & Ht)]; [auto |].
      right. exists y. repeat split; auto.
      apply get_joint_lt in Hy. lia.
Qed.

Lemma tools_not_ready m (j : nat) y :
  tools_ready_ok sv ->
  joint m !! j = Some y ->
  is_toolDOF sv (type y) = true ->
  state y <> jstate_ready ->
  tools_ready sv m = false.
Proof.
  intros tr Hy Ht Hs. destruct (tools_ready sv m) eqn:Hr; [| reflexivity].
  exfalso. apply Hs. apply (proj1 (tr m) Hr y); [| exact Ht].
  eapply list_elem_of_lookup_2; eauto.
Qed.

Lemma tool_layout_lt m (j : nat) x :
  tool_layout sv m -> joint m !! j = Some x -> (j < MAX_DOF_PER_MECH)%nat.
Proof. intros [Hl _] Hx. rewrite <- Hl. eapply lookup_lt_Some; eauto. Qed.

Lemma tool_layout_tool_rot m :
  tool_layout sv m ->
  exists y, joint m !! TOOL_ROT = Some y /\ is_toolDOF sv (type y) = true.
Proof.
  intros [Hl Ht].
  destruct (lookup_lt_is_Some_2 (joint m) TOOL_ROT) as [y Hy].
  { rewrite Hl. unfold TOOL_ROT, MAX_DOF_PER_MECH. lia. }
  exists y. split; [exact Hy |]. rewrite (Ht _ _ Hy). reflexivity.
Qed.

(** The layout of a device is kept by whatever keeps the types. *)
Lemma tool_layout_rel (R : nat -> nat -> DOF num -> DOF num -> Prop) d d' :
  dev_rel R d d' ->
  (forall i j x x', R i j x x' -> type x' = type x) ->
  (forall m, m ∈ mech d -> tool_layout sv m) ->
  forall m', m' ∈ mech d' -> tool_layout sv m'.
Proof.
  intros Hrel HR Hlay m' Hm'.
  apply list_elem_of_lookup_1 in Hm'. destruct Hm' as [i Hi].
  destruct Hrel as [Hlen Hmech].
  destruct (lookup_lt_is_Some_2 (mech d) i) as [m Hm].
  { rewrite <- Hlen. eapply lookup_lt_Some; eauto. }
  destruct (Hmech i m m' Hm Hi) as (_ & Hl & Hj).
  destruct (Hlay m (list_elem_of_lookup_2 _ _ _ Hm)) as [Hl0 Ht0].
  split; [congruence |].
  intros j x' Hx'.
  destruct (lookup_lt_is_Some_2 (joint m) j) as [x Hx].
  { rewrite <- Hl. eapply lookup_lt_Some; eauto. }
  rewrite (HR _ _ _ _ (Hj j x x' Hx Hx')). eauto.
Qed.

(** The motion pass right after the initialisation loop: the tool DOFs
    start their search, the other joints are left as they are, because the
    tools of no mechanism are ready. *)
Lemma motion_pass_after_reset w :
  tools_ready_ok sv ->
  (forall i j x, get_joint (w_dev w) i j = Some x -> state x = jstate_not_ready) ->
  (forall m, m ∈ mech (w_dev w) -> tool_layout sv m) ->
  dev_rel (fun _ _ x x' =>
             type x' = type x
             /\ (is_toolDOF sv (type x) = true -> state x' = jstate_pos_unknown)
             /\ (is_toolDOF sv (type x) = false -> x' = x))
          (w_dev w) (w_dev (motion_pass sv w)).
Proof.
  intros tr Hnr Hlay. unfold motion_pass.
  set (Q := fun (_ _ : nat) x x' =>
              type x' = type x
              /\ (is_toolDOF sv (type x) = true -> state x' = jstate_pos_unknown)
              /\ (is_toolDOF sv (type x) = false -> x' = x)).
  set (body := fun (i j : nat) (w : world num ext) =>
                 match mech (w_dev w) !! i, get_joint (w_dev w) i j with
                 | Some m, Some x =>
                     if is_toolDOF sv (type x) || tools_ready sv m
                     then on_joint i j (homing sv) w
                     else w
                 | _, _ => w
                 end).
  destruct (loop_over_joints_visit_ind (fun w' : world num ext => w_dev w')
              (fun _ _ _ => True) Q body w) as [_ Hrel]; [exact I | | auto |].
  - intros i k w' Hk _ Hrel. split; [exact I |]. unfold body.
    destruct (get_joint (w_dev w') i k) as [x |] eqn:Hx;
      [| destruct (mech (w_dev w') !! i); reflexivity].
    pose proof (vis_rel_unvisited _ _ _ _ _ _ Hrel Hx) as Hx0.
    pose proof (Hnr _ _ _ Hx0) as Hsx.
    destruct (mech (w_dev w') !! i) as [m |] eqn:Hm;
      [| unfold get_joint in Hx; rewrite Hm in Hx; discriminate].
    assert (tools_ready sv m = false) as Hr.
    { destruct (dev_rel_get_joint_r _ _ _ i TOOL_ROT
                  (default x (joint m !! TOOL_ROT)) Hrel) as (y0 & Hy0 & HR).
      - unfold get_joint. rewrite Hm.
        destruct (joint m !! TOOL_ROT) eqn:Hy; [reflexivity |].
        exfalso.
        destruct Hrel as [Hlen Hmech].
        destruct (lookup_lt_is_Some_2 (mech (w_dev w)) i) as [m0 Hm0].
        { rewrite <- Hlen. eapply lookup_lt_Some; eauto. }
        destruct (Hmech i m0 m Hm0 Hm) as (_ & Hl & _).
        destruct (Hlay m0 (list_elem_of_lookup_2 _ _ _ Hm0)) as [Hl0 _].
        apply lookup_ge_None in Hy. rewrite Hl, Hl0 in Hy.
        unfold TOOL_ROT, MAX_DOF_PER_MECH in Hy. lia.
      - assert (exists y, joint m !! TOOL_ROT = Some y) as [y Hy].
        { destruct (dev_rel_get_joint _ _ _ _ _ _ Hrel Hy0) as (y & Hy & _).
          unfold get_joint in Hy. rewrite Hm in Hy. eauto. }
        rewrite Hy in HR. cbn in HR.
        assert (is_toolDOF sv (type y0) = true) as Ht0.
        { unfold get_joint in Hy0.
          destruct (mech (w_dev w) !! i) as [m0 |] eqn:Hm0; [| discriminate].
          destruct (Hlay m0 (list_elem_of_lookup_2 _ _ _ Hm0)) as [_ Ht].
          rewrite (Ht _ _ Hy0). reflexivity. }
        pose proof (Hnr _ _ _ Hy0) as Hs0.
        apply (tools_not_ready m TOOL_ROT y tr Hy).
        + unfold vis_rel in HR. destruct (decide _) in HR.
          * destruct HR as (-> & _). exact Ht0.
          * subst y. exact Ht0.
        + unfold vis_rel in HR. destruct (decide _) in HR.
          * destruct HR as (_ & HR & _). rewrite (HR Ht0). discriminate.
          * subst y. rewrite Hs0. discriminate. }
    rewrite Hr, orb_false_r.
    destruct (is_toolDOF sv (type x)) eqn:Ht.
    + pose proof (on_joint_spec i k (homing sv) w') as Hspec.
      rewrite Hx in Hspec. destruct Hspec as [Hdev _].
      eexists. split; [exact Hdev |]. unfold Q.
      pose proof (homing_spec sv ok (w_ext w') x) as (Hty & _).
      split; [exact Hty |]. split; [| rewrite Ht; discriminate].
      intros _. apply homing_not_ready; assumption.
    + exists x. split; [symmetry; apply put_joint_same; exact Hx |].
      unfold Q. repeat split; auto. rewrite Ht. discriminate.
  - eapply dev_rel_mono; [exact Hrel |].
    intros i j x x' Hx. cbn beta.
    destruct (decide (j < MAX_DOF_PER_MECH)%nat) as [Hj | Hj]; [auto |].
    exfalso. apply Hj. unfold get_joint in Hx.
    destruct (mech (w_dev w) !! i) as [m0 |] eqn:Hm0; [| discriminate].
    eapply tool_layout_lt; [| exact Hx].
    apply Hlay. eapply list_elem_of_lookup_2; eauto.
Qed.

End Reset.

(** A tick that passes the two gates runs the initialisation step, the
    control step and the last loop. *)
Lemma raven_homing_runs {num ext : Type} {FO : FloatOps num} (cfg : config)
    (sv : services num ext) (gTime : Z) (st : statics) (w : world num ext)
    (p : param_pass) (b : Z) :
  in_init_mode cfg p = true ->
  ~ ulong cfg (gTime - delay st) < 1000 ->
  raven_homing cfg sv gTime st w p b
  = (mkStatics (fst (init_step sv st b (ricks_tools_pass cfg sv w))) (delay st)
       (fst (check_pass cfg sv gTime
               (delay2 st,
                control_step sv p
                  (snd (init_step sv st b (ricks_tools_pass cfg sv w)))))),
     snd (check_pass cfg sv gTime
            (delay2 st,
             control_step sv p
               (snd (init_step sv st b (ricks_tools_pass cfg sv w)))))).
Proof.
  intros Hmode Hdelay. unfold raven_homing. rewrite Hmode. cbn [negb].
  destruct (decide (ulong cfg (gTime - delay st) < 1000)); [contradiction | reflexivity].
Qed.

(** ** The settle timer *)

Section Timer.
Context {num ext : Type} {FO : FloatOps num}.
Variable cfg : config.
Variable sv : services num ext.
Hypothesis ok : services_ok sv.
Hypothesis tr : tools_ready_ok sv.
Implicit Types x y : DOF num.
Implicit Types m : mechanism num.
Implicit Types d : device num.
Implicit Types w : world num ext.

(** The body of the last loop at a joint other than the last of its
    mechanism. *)
Lemma check_body_before_last (gTime : Z) (i j : nat) (tw : Z * world num ext) :
  j <> (MAX_DOF_PER_MECH - 1)%nat ->
  match get_joint (w_dev (snd tw)) i j with
  | Some _ =>
      let tw1 := (fst tw, on_joint i j (detect cfg sv j) (snd tw)) in
      if decide (j = MAX_DOF_PER_MECH - 1)%nat
      then synchronize cfg sv gTime i tw1
      else tw1
  | None => tw
  end
  = (fst tw, on_joint i j (detect cfg sv j) (snd tw)).
Proof.
  intros Hj. pose proof (on_joint_spec i j (detect cfg sv j) (snd tw)) as H.
  destruct (get_joint (w_dev (snd tw)) i j) as [x |].
  - cbn zeta. rewrite decide_False by exact Hj. reflexivity.
  - rewrite H. destruct tw; reflexivity.
Qed.

(** The last loop, mechanism by mechanism. *)
Lemma check_pass_mechs (gTime : Z) (tw : Z * world num ext) :
  check_pass cfg sv gTime tw
  = foldl (fun tw i => check_mech cfg sv gTime i tw) tw
          (seq 0 (length (mech (w_dev (snd tw))))).
Proof.
  unfold check_pass. rewrite loop_over_joints_nested.
  apply foldl_agree. intros tw' i.
  change (seq 0 MAX_DOF_PER_MECH) with (seq 0 (MAX_DOF_PER_MECH - 1) ++ [(MAX_DOF_PER_MECH - 1)%nat]).
  rewrite foldl_app. cbn [foldl].
  assert (forall l tw0,
            Forall (fun j => j <> (MAX_DOF_PER_MECH - 1)%nat) l ->
            foldl (fun (w : Z * world num ext) (j : nat) =>
                     match get_joint (w_dev (snd w)) i j with
                     | Some _ =>
                         let tw1 := (fst w, on_joint i j (detect cfg sv j) (snd w)) in
                         if decide (j = MAX_DOF_PER_MECH - 1)%nat
                         then synchronize cfg sv gTime i tw1
                         else tw1
                     | None => w
                     end) tw0 l
            = (fst tw0, foldl (fun w j => on_joint i j (detect cfg sv j) w) (snd tw0) l))
    as Hfold.
  { induction l as [| j l IH]; intros tw0 Hl; cbn [foldl].
    - destruct tw0; reflexivity.
    - inversion Hl; subst. rewrite check_body_before_last by assumption.
      rewrite IH by assumption. reflexivity. }
  rewrite Hfold.
  - unfold check_mech, detect_upto7. cbn [fst snd].
    destruct (get_joint _ i (MAX_DOF_PER_MECH - 1)); [| reflexivity].
    cbn zeta. rewrite decide_True by reflexivity. reflexivity.
  - unfold MAX_DOF_PER_MECH. cbn. repeat constructor; lia.
Qed.

Lemma det_rel_refl (i i' : nat) x : det_rel i i' x x.
Proof. unfold det_rel. destruct (decide (i' = i)); auto. Qed.

Lemma det_rel_trans (i i' : nat) x y z :
  det_rel i i' x y -> det_rel i i' y z -> det_rel i i' x z.
Proof.
  unfold det_rel. destruct (decide (i' = i)); [| congruence].
  intros (Ht1 & Hn1 & Hp1) (Ht2 & Hn2 & Hp2).
  split; [congruence |]. split.
  - intros Hx. rewrite <- (Hn1 Hx) in Hx |- *. auto.
  - intros Hx. destruct (Hp1 Hx) as [Hy | Hy]; [auto |].
    rewrite (Hn2 ltac:(rewrite Hy; discriminate)). auto.
Qed.

Lemma detect_det_rel (i j : nat) (e : ext) x :
  det_rel i i x (snd (fst (detect cfg sv j e x))).
Proof.
  unfold det_rel. rewrite decide_True by reflexivity.
  destruct (detect_spec cfg sv ok j e x) as (Ht & H1 & H2).
  split; [exact Ht |]. split.
  - intros Hx. apply H2. unfold check_homing_condition.
    rewrite decide_True by exact Hx. reflexivity.
  - intros Hx. destruct (check_homing_condition cfg x) eqn:Hc.
    + right. apply H1. reflexivity.
    + left. rewrite (H2 eq_refl). exact Hx.
Qed.

(** A relation that may depend on the place of the joint. *)
Lemma on_joint_rel_at (R : nat -> nat -> DOF num -> DOF num -> Prop) (i j : nat)
    (f : ext -> DOF num -> ext * DOF num * list event) w :
  (forall i' j' x, R i' j' x x) ->
  (forall e x, R i j x (snd (fst (f e x)))) ->
  dev_rel R (w_dev w) (w_dev (on_joint i j f w)).
Proof.
  intros Hrefl Hf. pose proof (on_joint_spec i j f w) as H.
  destruct (get_joint (w_dev w) i j) as [x |] eqn:Hx.
  - destruct H as [-> _]. eapply dev_rel_put_joint; eauto.
  - rewrite H. apply dev_rel_refl. auto.
Qed.

Lemma detect_steps_spec (i : nat) (l : list nat) w :
  dev_rel (fun i' _ => det_rel i i') (w_dev w)
          (w_dev (foldl (fun w j => on_joint i j (detect cfg sv j) w) w l))
  /\ calibrations (w_log (foldl (fun w j => on_joint i j (detect cfg sv j) w) w l))
     = calibrations (w_log w).
Proof.
  revert w. induction l as [| j l IH]; intros w; cbn [foldl].
  - split; [| reflexivity]. apply dev_rel_refl. intros. apply det_rel_refl.
  - destruct (IH (on_joint i j (detect cfg sv j) w)) as [Hrel Hlog]. split.
    + eapply dev_rel_trans; [| exact Hrel |].
      * apply (on_joint_rel_at (fun i' _ => det_rel i i')).
        -- intros. apply det_rel_refl.
        -- intros. apply detect_det_rel.
      * intros i' ? a b c. apply det_rel_trans.
    + rewrite Hlog. apply on_joint_calibrations. apply detect_calibrations.
Qed.

Lemma detect_all_spec (i : nat) w :
  dev_rel (fun i' _ => det_rel i i') (w_dev w) (w_dev (detect_all cfg sv i w))
  /\ calibrations (w_log (detect_all cfg sv i w)) = calibrations (w_log w).
Proof.
  unfold detect_all, detect_upto7.
  pose proof (detect_steps_spec i
                (seq 0 (MAX_DOF_PER_MECH - 1) ++ [(MAX_DOF_PER_MECH - 1)%nat]) w) as H.
  rewrite foldl_app in H. exact H.
Qed.

Lemma check_mech_eq (gTime : Z) (i : nat) (tw : Z * world num ext) y :
  get_joint (w_dev (snd tw)) i (MAX_DOF_PER_MECH - 1) = Some y ->
  check_mech cfg sv gTime i tw
  = synchronize cfg sv gTime i (fst tw, detect_all cfg sv i (snd tw)).
Proof.
  intros Hy. unfold check_mech, detect_all.
  destruct (detect_steps_spec i (seq 0 (MAX_DOF_PER_MECH - 1)) (snd tw)) as [Hrel _].
  fold (detect_upto7 cfg sv i (snd tw)) in Hrel.
  destruct (dev_rel_get_joint _ _ _ _ _ _ Hrel Hy) as (y' & -> & _). reflexivity.
Qed.

Lemma stable_rel_refl x : stable_rel x x.
Proof. unfold stable_rel. auto. Qed.

Lemma stable_rel_trans x y z : stable_rel x y -> stable_rel y z -> stable_rel x z.
Proof.
  unfold stable_rel. intros (? & ? & ?) (? & ? & ?).
  split; [congruence |]. split; auto.
Qed.

Lemma homing_rel_stable x x' : homing_rel x x' -> stable_rel x x'.
Proof.
  unfold homing_rel, stable_rel, homing_step.
  intros (Ht & _ & _ & _ & _ & _ & _ & _ & Hs). split; [exact Ht |].
  split; intros Hx; rewrite Hx in Hs;
    destruct Hs as [-> | [[H _] | [[H _] | [H _]]]]; try discriminate; reflexivity.
Qed.

Lemma dac_rel_stable x x' : dac_rel x x' -> stable_rel x x'.
Proof.
  unfold dac_rel, keeps_homing, stable_rel.
  intros ((Ht & Hs & _) & _). rewrite Hs. auto.
Qed.

Lemma det_rel_stable (i i' : nat) x x' : det_rel i i' x x' -> stable_rel x x'.
Proof.
  unfold det_rel, stable_rel. destruct (decide (i' = i)); [| intros ->; auto].
  intros (Ht & Hn & _). split; [exact Ht |].
  split; intros Hx; rewrite (Hn ltac:(rewrite Hx; discriminate)); exact Hx.
Qed.

(** From the entry of a tick that does not reset to the DAC values. *)
Lemma control_step_stable (p : param_pass) w :
  dev_rel (fun _ _ => stable_rel) (w_dev w) (w_dev (control_step sv p w))
  /\ calibrations (w_log (control_step sv p w)) = calibrations (w_log w).
Proof.
  unfold control_step.
  destruct (motion_pass_spec sv ok w) as [H1 L1].
  destruct (dac_step_spec sv ok p (motion_pass sv w)) as [H2 L2].
  split; [| congruence].
  eapply dev_rel_trans; [exact H1 | exact H2 |].
  intros ? ? a b c Hab Hbc. cbn beta in *.
  eapply stable_rel_trans; [apply homing_rel_stable, Hab | apply dac_rel_stable, Hbc].
Qed.

Lemma joint_state_is_true m (k : nat) (s : jstate) :
  joint_state_is m k s = true <-> exists x, joint m !! k = Some x /\ state x = s.
Proof.
  unfold joint_state_is. destruct (joint m !! k) as [x |].
  - rewrite bool_decide_eq_true. split; [eauto | intros (y & Hy & Hs); congruence].
  - split; [discriminate | intros (y & Hy & _); discriminate].
Qed.

Lemma joint_state_is_stable m m' (k : nat) :
  mech_rel (fun _ => stable_rel) m m' ->
  joint_state_is m k jstate_hard_stop = true ->
  joint_state_is m' k jstate_hard_stop = true.
Proof.
  intros Hrel. rewrite !joint_state_is_true. intros (x & Hx & Hs).
  destruct (mech_rel_lookup _ _ _ _ _ Hrel Hx) as (x' & Hx' & (_ & Hhs & _)). eauto.
Qed.

(** A mechanism whose active group is at its hard stops stays so, with the
    same answer of [tools_ready], as long as its joints are stable. *)
Lemma mech_finished_stable m m' :
  mech_rel (fun _ => stable_rel) m m' ->
  tool_layout sv m ->
  mech_finished sv m = true ->
  mech_finished sv m' = true /\ tools_ready sv m' = tools_ready sv m.
Proof.
  intros Hrel Hlay Hfin.
  assert (tools_ready sv m' = tools_ready sv m) as Htr.
  { destruct (tools_ready sv m) eqn:Hr.
    - apply tr. intros x' Hx' Ht'.
      apply list_elem_of_lookup_1 in Hx'. destruct Hx' as [j Hj].
      destruct (mech_rel_lookup_r _ _ _ _ _ Hrel Hj) as (x & Hx & (Hty & _ & Hrd)).
      apply Hrd. apply (proj1 (tr m) Hr x); [| congruence].
      eapply list_elem_of_lookup_2; eauto.
    - unfold mech_finished in Hfin. rewrite Hr in Hfin. cbn in Hfin.
      rewrite orb_false_r in Hfin. apply andb_prop in Hfin. destruct Hfin as [Hfin _].
      apply andb_prop in Hfin. destruct Hfin as [Hfin _].
      apply joint_state_is_true in Hfin. destruct Hfin as (x & Hx & Hs).
      destruct (mech_rel_lookup _ _ _ _ _ Hrel Hx) as (x' & Hx' & (Hty & Hhs & _)).
      apply (tools_not_ready sv m' TOOL_ROT x' tr Hx').
      + rewrite Hty. destruct Hlay as [_ Ht]. rewrite (Ht _ _ Hx). reflexivity.
      + rewrite (Hhs Hs). discriminate. }
  split; [| exact Htr].
  unfold mech_finished in *. rewrite Htr.
  destruct (tools_ready sv m); cbn in *.
  - repeat (apply andb_prop in Hfin; destruct Hfin as [Hfin ?]).
    rewrite !(joint_state_is_stable m m') by assumption. reflexivity.
  - rewrite orb_false_r in *.
    repeat (apply andb_prop in Hfin; destruct Hfin as [Hfin ?]).
    rewrite !(joint_state_is_stable m m') by assumption. reflexivity.
Qed.

Lemma tool_layout_mech_rel (R : nat -> DOF num -> DOF num -> Prop) m m' :
  mech_rel R m m' ->
  (forall j x x', R j x x' -> type x' = type x) ->
  tool_layout sv m -> tool_layout sv m'.
Proof.
  intros (_ & Hl & Hj) HR [Hl0 Ht0]. split; [congruence |].
  intros j x' Hx'.
  destruct (lookup_lt_is_Some_2 (joint m) j) as [x Hx].
  { rewrite <- Hl. eapply lookup_lt_Some; eauto. }
  rewrite (HR _ _ _ (Hj j x x' Hx Hx')). eauto.
Qed.

Lemma dev_rel_single (R : nat -> nat -> DOF num -> DOF num -> Prop) d d' m :
  dev_rel R d d' -> mech d = [m] ->
  exists m', mech d' = [m'] /\ mech_rel (R 0%nat) m m'.
Proof.
  intros [Hlen Hmech] Hd. rewrite Hd in Hlen. cbn in Hlen.
  destruct (mech d') as [| m' [| ? ?]] eqn:Hd'; try discriminate.
  exists m'. split; [reflexivity |].
  apply (Hmech 0%nat m m'); [rewrite Hd; reflexivity | reflexivity].
Qed.

Lemma ricks_tools_pass_off w :
  RICKS_TOOLS cfg = false -> ricks_tools_pass cfg sv w = w.
Proof. intros H. unfold ricks_tools_pass. rewrite H. reflexivity. Qed.

Lemma init_step_no_reset (st : statics) w :
  homing_inited st <> 0 -> init_step sv st 0 w = (homing_inited st, w).
Proof.
  intros H. unfold init_step, must_reset.
  rewrite bool_decide_eq_false_2 by (intros Hc; apply Hc; reflexivity).
  rewrite bool_decide_eq_false_2 by exact H. reflexivity.
Qed.

(** The last loop on a mechanism whose active group is at its hard stops:
    the hard-stop checks leave the group where it is, and the
    synchronisation calibrates the mechanism exactly when the timer, or
    the tick counter if the timer is clear, is more than 200 ticks back. *)
Lemma check_mech_finished (gTime : Z) (i : nat) (tw : Z * world num ext) m :
  mech (w_dev (snd tw)) !! i = Some m ->
  tool_layout sv m ->
  mech_finished sv m = true ->
  exists m7,
    mech (w_dev (detect_all cfg sv i (snd tw))) !! i = Some m7
    /\ mech_rel (fun _ => stable_rel) m m7
    /\ mech_finished sv m7 = true
    /\ tools_ready sv m7 = tools_ready sv m
    /\ dev_rel (fun i' _ => det_rel i i') (w_dev (snd tw))
               (w_dev (detect_all cfg sv i (snd tw)))
    /\ calibrations (w_log (detect_all cfg sv i (snd tw))) = calibrations (w_log (snd tw))
    /\ ((~ gTime > ulong cfg ((if decide (fst tw = 0) then gTime else fst tw) + 200)
         /\ check_mech cfg sv gTime i tw
            = (if decide (fst tw = 0) then gTime else fst tw,
               detect_all cfg sv i (snd tw)))
        \/ (gTime > ulong cfg ((if decide (fst tw = 0) then gTime else fst tw) + 200)
            /\ fst (check_mech cfg sv gTime i tw) = 0
            /\ w_dev (snd (check_mech cfg sv gTime i tw))
               = put_mech i
                   (snd (set_joints_known_pos cfg sv
                           (w_ext (detect_all cfg sv i (snd tw))) m7
                           (negb (tools_ready sv m))))
                   (w_dev (detect_all cfg sv i (snd tw)))
            /\ w_log (snd (check_mech cfg sv gTime i tw))
               = w_log (detect_all cfg sv i (snd tw))
                 ++ [Ev_calibrate i (negb (tools_ready sv m))])).
Proof.
  intros Hm Hlay Hfin.
  destruct (detect_all_spec i (snd tw)) as [Hrel Hlog].
  destruct (dev_rel_mech _ _ _ _ _ Hrel Hm) as (m7 & Hm7 & Hmr).
  assert (mech_rel (fun _ => stable_rel) m m7) as Hst.
  { eapply mech_rel_mono; [exact Hmr |]. intros j x y _. apply det_rel_stable. }
  destruct (mech_finished_stable m m7 Hst Hlay Hfin) as [Hfin7 Htr7].
  exists m7. do 6 (split; [assumption |]).
  destruct (lookup_lt_is_Some_2 (joint m) (MAX_DOF_PER_MECH - 1)) as [y Hy].
  { destruct Hlay as [-> _]. unfold MAX_DOF_PER_MECH. lia. }
  rewrite (check_mech_eq gTime i tw y)
    by (unfold get_joint; rewrite Hm; exact Hy).
  unfold synchronize. cbn [fst snd]. rewrite Hm7, Hfin7, Htr7.
  destruct (decide (gTime > ulong cfg ((if decide (fst tw = 0) then gTime else fst tw) + 200)))
    as [Hg | Hg].
  - right. split; [exact Hg |].
    destruct (set_joints_known_pos cfg sv (w_ext (detect_all cfg sv i (snd tw))) m7
                (negb (tools_ready sv m))) as [e m']. cbn. auto.
  - left. auto.
Qed.

(** One tick, without reset, on a device of one mechanism whose active
    group is at its hard stops while the timer runs. *)
Lemma tick_single_finished (gTime : Z) (st : statics) w m (p : param_pass) :
  RICKS_TOOLS cfg = false ->
  in_init_mode cfg p = true ->
  ~ ulong cfg (gTime - delay st) < 1000 ->
  homing_inited st <> 0 ->
  delay2 st <> 0 ->
  mech (w_dev w) = [m] ->
  tool_layout sv m ->
  mech_finished sv m = true ->
  (~ gTime > ulong cfg (delay2 st + 200) ->
   fst (raven_homing cfg sv gTime st w p 0) = st
   /\ calibrations (w_log (snd (raven_homing cfg sv gTime st w p 0)))
      = calibrations (w_log w)
   /\ exists m',
        mech (w_dev (snd (raven_homing cfg sv gTime st w p 0))) = [m']
        /\ tool_layout sv m'
        /\ mech_finished sv m' = true
        /\ tools_ready sv m' = tools_ready sv m)
  /\ (gTime > ulong cfg (delay2 st + 200) ->
      delay2 (fst (raven_homing cfg sv gTime st w p 0)) = 0
      /\ calibrations (w_log (snd (raven_homing cfg sv gTime st w p 0)))
         = calibrations (w_log w) ++ [Ev_calibrate 0 (negb (tools_ready sv m))]).
Proof.
  intros Hricks Hmode Hdelay Hinit Hd2 Hd Hlay Hfin.
  rewrite (raven_homing_runs cfg sv gTime st w p 0 Hmode Hdelay).
  rewrite (ricks_tools_pass_off w Hricks), (init_step_no_reset st w Hinit). cbn [fst snd].
  destruct (control_step_stable p w) as [Hr5 Hl5].
  set (w5 := control_step sv p w) in *.
  destruct (dev_rel_single _ _ _ _ Hr5 Hd) as (m5 & Hd5 & Hm5).
  pose proof (tool_layout_mech_rel _ m m5 Hm5 ltac:(intros ? ? ? [? _]; assumption) Hlay)
    as Hlay5.
  destruct (mech_finished_stable m m5 Hm5 Hlay Hfin) as [Hfin5 Htr5].
  rewrite check_pass_mechs. cbn [snd]. rewrite Hd5. cbn [length seq foldl].
  destruct (check_mech_finished gTime 0 (delay2 st, w5) m5) as
    (m7 & Hm7 & Hst7 & Hfin7 & Htr7 & Hrel7 & Hlog7 & Hcase);
    [cbn; rewrite Hd5; reflexivity | exact Hlay5 | exact Hfin5 |].
  cbn [fst snd] in Hcase, Hm7, Hrel7, Hlog7.
  rewrite decide_False in Hcase by exact Hd2.
  split; intros Hg.
  - destruct Hcase as [[_ ->] | [Hg' _]]; [| contradiction]. cbn [fst snd].
    split; [destruct st; reflexivity |]. split; [congruence |].
    destruct (dev_rel_single _ _ _ _ Hrel7 Hd5) as (m7' & Hd7 & _).
    assert (m7' = m7) as -> by (rewrite Hd7 in Hm7; cbn in Hm7; congruence).
    exists m7. split; [exact Hd7 |].
    split; [| split; [exact Hfin7 | congruence]].
    eapply tool_layout_mech_rel; [exact Hst7 | | exact Hlay5].
    intros ? ? ? [? _]. assumption.
  - destruct Hcase as [[Hg' _] | (_ & Hf & _ & Hl)]; [contradiction |].
    cbn [fst snd]. split; [exact Hf |].
    rewrite Hl, calibrations_app, Hlog7, Hl5, Htr5. reflexivity.
Qed.

Lemma sense_ok_stable (f : device num -> device num) d :
  sense_ok f -> dev_rel (fun _ _ => stable_rel) d (f d).
Proof.
  intros Hf. eapply dev_rel_mono; [apply Hf |].
  intros i j x y _ [Hs Ht]. unfold stable_rel. rewrite Hs. auto.
Qed.

(** The ticks that follow the tick [T0] at which the timer was set, on a
    device of one mechanism whose active group is at its hard stops: the
    ticks [T0+1] to [T0+200] make no calibration call, tick [T0+201]
    makes one.  [k0] ticks have passed already. *)
Lemma waiting_run (T0 : Z) (tool_only : bool) (ts : list (tick_input num)) :
  forall (k0 : nat) (st : statics) w m,
    RICKS_TOOLS cfg = false ->
    0 < T0 ->
    T0 + 200 < 2 ^ ULONG_BITS cfg ->
    homing_inited st <> 0 ->
    delay2 st = T0 ->
    (forall g, T0 < g <= T0 + 201 -> ~ ulong cfg (g - delay st) < 1000) ->
    mech (w_dev w) = [m] ->
    tool_layout sv m ->
    mech_finished sv m = true ->
    negb (tools_ready sv m) = tool_only ->
    (k0 + length ts <= 201)%nat ->
    (forall k t, ts !! k = Some t ->
       ti_gTime t = T0 + 1 + Z.of_nat (k0 + k)
       /\ in_init_mode cfg (ti_params t) = true
       /\ ti_begin_homing t = 0
       /\ sense_ok (ti_sense t)) ->
    forall k sw,
      run cfg sv ts (st, w) !! k = Some sw ->
      calibrations (w_log (snd sw))
      = if decide (k0 + k < 200)%nat then [] else [Ev_calibrate 0 tool_only].
Proof.
  induction ts as [| t ts IH];
    intros k0 st w m Hricks HT0 Hwrap Hinit Hd2 Hrun Hd Hlay Hfin Htool Hlen Hts k sw Hk.
  { cbn in Hk. discriminate. }
  cbn [run] in Hk. cbn [length] in Hlen.
  destruct (Hts 0%nat t eq_refl) as (Hg & Hmode & Hb & Hsense).
  rewrite Nat.add_0_r in Hg.
  assert (ulong cfg (T0 + 200) = T0 + 200) as Hul.
  { unfold ulong. apply Z.mod_small. lia. }
  pose proof (sense_ok_stable (ti_sense t) (w_dev w) Hsense) as Hrs.
  destruct (dev_rel_single _ _ _ _ Hrs Hd) as (ms & Hds & Hms).
  pose proof (tool_layout_mech_rel _ m ms Hms ltac:(intros ? ? ? [? _]; assumption) Hlay)
    as Hlays.
  destruct (mech_finished_stable m ms Hms Hlay Hfin) as [Hfins Htrs].
  assert (~ ulong cfg (ti_gTime t - delay st) < 1000) as Hdel by (apply Hrun; lia).
  destruct (tick_single_finished (ti_gTime t) st
              (mkWorld (w_ext w) (ti_sense t (w_dev w)) []) ms (ti_params t)
              Hricks Hmode Hdel Hinit ltac:(lia) Hds Hlays Hfins) as [Hwait Hfire].
  rewrite Hd2, Hul in Hwait, Hfire.
  unfold tick in Hk. cbn [fst snd] in Hk. rewrite Hb in Hk.
  destruct (raven_homing cfg sv (ti_gTime t) st
              (mkWorld (w_ext w) (ti_sense t (w_dev w)) []) (ti_params t) 0)
    as [st' w'] eqn:Hr.
  cbn [fst snd] in Hwait, Hfire.
  destruct k as [| k].
  - cbn in Hk. inversion Hk; subst sw. rewrite Nat.add_0_r. cbn [snd].
    destruct (decide (k0 < 200)%nat) as [Hlt | Hge].
    + destruct Hwait as (_ & Hcal & _); [lia | exact Hcal].
    + destruct Hfire as (_ & Hcal); [lia |]. rewrite Hcal, Htrs, Htool. reflexivity.
  - cbn in Hk.
    destruct (decide (k0 < 200)%nat) as [Hlt | Hge].
    + destruct Hwait as (Hst & _ & m' & Hd' & Hlay' & Hfin' & Htr'); [lia |].
      subst st'.
      replace (k0 + S k)%nat with (S k0 + k)%nat by lia.
      apply (IH (S k0) st w' m'); try assumption.
      * congruence.
      * lia.
      * intros k' t' Hk'. destruct (Hts (S k') t' Hk') as (Hg' & ? & ? & ?).
        replace (S k0 + k')%nat with (k0 + S k')%nat by lia. auto.
    + exfalso. apply lookup_lt_Some in Hk.
      assert (forall s, length (run cfg sv ts s) = length ts) as Hl.
      { clear. induction ts as [| a l IHl]; intros s; cbn; [reflexivity |].
        f_equal. apply IHl. }
      rewrite Hl in Hk. lia.
Qed.

Lemma dev_rel_pair (R : nat -> nat -> DOF num -> DOF num -> Prop) d d' m0 m1 :
  dev_rel R d d' -> mech d = [m0; m1] ->
  exists m0' m1',
    mech d' = [m0'; m1'] /\ mech_rel (R 0%nat) m0 m0' /\ mech_rel (R 1%nat) m1 m1'.
Proof.
  intros [Hlen Hmech] Hd. rewrite Hd in Hlen. cbn in Hlen.
  destruct (mech d') as [| m0' [| m1' [| ? ?]]] eqn:Hd'; try discriminate.
  exists m0', m1'. split; [reflexivity |]. split.
  - apply (Hmech 0%nat m0 m0'); [rewrite Hd; reflexivity | reflexivity].
  - apply (Hmech 1%nat m1 m1'); [rewrite Hd; reflexivity | reflexivity].
Qed.

(** One tick, without reset, on a device of two mechanisms that both have
    their active group at the hard stops, more than 200 ticks after the
    timer was set: the first mechanism is calibrated and the timer
    cleared; the second finds the timer clear, sets it to the current
    tick and is not calibrated. *)
Lemma tick_pair_finished (gTime : Z) (st : statics) w m0 m1 (p : param_pass) :
  RICKS_TOOLS cfg = false ->
  in_init_mode cfg p = true ->
  ~ ulong cfg (gTime - delay st) < 1000 ->
  homing_inited st <> 0 ->
  0 < delay2 st ->
  delay2 st + 200 < gTime ->
  gTime + 200 < 2 ^ ULONG_BITS cfg ->
  mech (w_dev w) = [m0; m1] ->
  tool_layout sv m0 -> tool_layout sv m1 ->
  mech_finished sv m0 = true -> mech_finished sv m1 = true ->
  delay2 (fst (raven_homing cfg sv gTime st w p 0)) = gTime
  /\ calibrations (w_log (snd (raven_homing cfg sv gTime st w p 0)))
     = calibrations (w_log w) ++ [Ev_calibrate 0 (negb (tools_ready sv m0))].
Proof.
  intros Hricks Hmode Hdelay Hinit Hd2 Hlate Hwrap Hd Hlay0 Hlay1 Hfin0 Hfin1.
  assert (forall z, 0 <= z -> z + 200 <= gTime + 200 -> ulong cfg (z + 200) = z + 200) as Hul.
  { intros z Hz Hle. unfold ulong. apply Z.mod_small. lia. }
  rewrite (raven_homing_runs cfg sv gTime st w p 0 Hmode Hdelay).
  rewrite (ricks_tools_pass_off w Hricks), (init_step_no_reset st w Hinit). cbn [fst snd].
  destruct (control_step_stable p w) as [Hr5 Hl5].
  set (w5 := control_step sv p w) in *.
  destruct (dev_rel_pair _ _ _ _ _ Hr5 Hd) as (a0 & a1 & Hd5 & Ha0 & Ha1).
  assert (forall (j : nat) x x', stable_rel x x' -> type x' = type x) as Hty
    by (intros ? ? ? [? _]; assumption).
  pose proof (tool_layout_mech_rel _ m0 a0 Ha0 Hty Hlay0) as Hla0.
  pose proof (tool_layout_mech_rel _ m1 a1 Ha1 Hty Hlay1) as Hla1.
  destruct (mech_finished_stable m0 a0 Ha0 Hlay0 Hfin0) as [Hfa0 Hta0].
  destruct (mech_finished_stable m1 a1 Ha1 Hlay1 Hfin1) as [Hfa1 Hta1].
  rewrite check_pass_mechs. cbn [snd]. rewrite Hd5. cbn [length seq foldl].
  destruct (check_mech_finished gTime 0 (delay2 st, w5) a0) as
    (b0 & Hb0 & _ & _ & _ & Hrel7 & Hlog7 & Hcase);
    [cbn; rewrite Hd5; reflexivity | exact Hla0 | exact Hfa0 |].
  cbn [fst snd] in Hcase, Hb0, Hrel7, Hlog7.
  rewrite decide_False in Hcase by lia. rewrite Hul in Hcase by lia.
  destruct Hcase as [[Hg _] | (_ & Hf & Hdev & Hl)]; [lia |].
  set (tw1 := check_mech cfg sv gTime 0 (delay2 st, w5)) in *.
  destruct (dev_rel_pair _ _ _ _ _ Hrel7 Hd5) as (c0 & c1 & Hd7 & _ & Hc1).
  assert (mech (w_dev (snd tw1)) !! 1%nat = Some c1) as Hm1.
  { rewrite Hdev. cbn. rewrite Hd7. reflexivity. }
  assert (mech_rel (fun _ => stable_rel) a1 c1) as Hs1.
  { eapply mech_rel_mono; [exact Hc1 |]. intros j x y _. apply det_rel_stable. }
  pose proof (tool_layout_mech_rel _ a1 c1 Hs1 Hty Hla1) as Hlc1.
  destruct (mech_finished_stable a1 c1 Hs1 Hla1 Hfa1) as [Hfc1 _].
  destruct (check_mech_finished gTime 1 tw1 c1 Hm1 Hlc1 Hfc1) as
    (e1 & _ & _ & _ & _ & _ & Hlog8 & Hcase).
  rewrite Hf in Hcase. rewrite decide_True in Hcase by reflexivity.
  rewrite Hul in Hcase by lia.
  destruct Hcase as [[_ ->] | [Hg _]]; [| lia]. cbn [fst snd].
  split; [reflexivity |].
  rewrite Hlog8, Hl, calibrations_app, Hlog7, Hl5, Hta0. reflexivity.
Qed.

End Timer.

(** ** One tick *)

Lemma bench_layout (i : Z) (a : arm_type) (s : jstate) (enc : Z) :
  tool_layout Bench.sv (Bench.mech0 i a s enc).
Proof.
  split; [reflexivity |].
  intros j x Hx. cbn [is_toolDOF Bench.sv]. unfold Bench.is_toolDOF.
  do 8 (destruct j as [| j];
        [cbn in Hx; inversion Hx; subst x; cbn [type Bench.joint0];
         rewrite Z.add_comm, Z.mul_comm, Z_mod_plus_full; reflexivity |]).
  cbn in Hx. discriminate Hx.
Qed.

Lemma bench_one_arm_layout :
  forall m, m ∈ mech Bench.one_arm -> tool_layout Bench.sv m.
Proof.
  intros m Hm. apply list_elem_of_singleton in Hm. subst m. apply bench_layout.
Qed.

Lemma bench_layout2 (i : Z) (a : arm_type) (s s' : jstate) (enc : Z) :
  tool_layout Bench.sv (Bench.mech2 i a s s' enc).
Proof.
  split; [reflexivity |].
  intros j x Hx. cbn [is_toolDOF Bench.sv]. unfold Bench.is_toolDOF.
  do 8 (destruct j as [| j];
        [cbn in Hx; inversion Hx; subst x; cbn [type Bench.joint0];
         rewrite Z.add_comm, Z.mul_comm, Z_mod_plus_full; reflexivity |]).
  cbn in Hx. discriminate Hx.
Qed.

Lemma bench_ticks_lookup (sense : Z -> device B32.float -> device B32.float)
    (n : nat) :
  forall (b g : Z) (k : nat) (t : tick_input B32.float),
    Bench.ticks sense b g n !! k = Some t ->
    ti_gTime t = g + Z.of_nat k
    /\ ti_params t = Bench.init_params
    /\ ti_begin_homing t = (if k is O then b else 0)
    /\ ti_sense t = sense (g + Z.of_nat k).
Proof.
  induction n as [| n IH]; intros b g k t Hk; [discriminate |].
  destruct k as [| k]; cbn in Hk.
  - inversion Hk; subst t. cbn. rewrite Z.add_0_r. auto.
  - destruct (IH 0 (g + 1) k t Hk) as (Hg & Hp & Hb & Hs).
    replace (g + Z.of_nat (S k)) with (g + 1 + Z.of_nat k) by lia.
    repeat split; auto. destruct k; auto.
Qed.

Lemma bench_stalled_ok : sense_ok Bench.stalled.
Proof. intros d. apply dev_rel_refl. auto. Qed.

(** C8.  The code has one settle timer, the static [delay2], for the whole
    device, where the specification has one for every mechanism.  When
    two mechanisms both have their active group at the hard stops and the
    timer was set more than 200 ticks ago, whichever of them set it, the
    tick calibrates the first mechanism only and clears the timer; the
    second mechanism finds it clear and sets it to the current tick, so
    that its own calibration waits for another 201 ticks. *)
Theorem C8_one_timer_for_the_device {num ext : Type} {FO : FloatOps num}
    (cfg : config) (sv : services num ext) (gTime : Z) (st : statics)
    (w : world num ext) (m0 m1 : mechanism num) (p : param_pass) :
  services_ok sv ->
  tools_ready_ok sv ->
  RICKS_TOOLS cfg = false ->
  in_init_mode cfg p = true ->
  ~ ulong cfg (gTime - delay st) < 1000 ->
  homing_inited st <> 0 ->
  0 < delay2 st ->
  delay2 st + 200 < gTime ->
  gTime + 200 < 2 ^ ULONG_BITS cfg ->
  mech (w_dev w) = [m0; m1] ->
  tool_layout sv m0 ->
  tool_layout sv m1 ->
  mech_finished sv m0 = true ->
  mech_finished sv m1 = true ->
  delay2 (fst (raven_homing cfg sv gTime st w p 0)) = gTime
  /\ calibrations (w_log (snd (raven_homing cfg sv gTime st w p 0)))
     = calibrations (w_log w) ++ [Ev_calibrate 0 (negb (tools_ready sv m0))].
Proof.
  intros ok tr. apply tick_pair_finished; assumption.
Qed.

Lemma C8_one_timer_for_the_device_witness :
  mech_finished Bench.sv (Bench.mech0 0 GOLD_ARM jstate_hard_stop 5000) = true
  /\ mech_finished Bench.sv (Bench.mech0 1 GREEN_ARM jstate_hard_stop 5000) = true
  /\ delay2 (fst (raven_homing (Bench.cfg true) Bench.sv 1203 (mkStatics 1 0 1002)
                    (mkWorld Bench.ext_init
                       (mkDevice [Bench.mech0 0 GOLD_ARM jstate_hard_stop 5000;
                                  Bench.mech0 1 GREEN_ARM jstate_hard_stop 5000]) [])
                    Bench.init_params 0)) = 1203
  /\ calibrations
       (w_log (snd (raven_homing (Bench.cfg true) Bench.sv 1203 (mkStatics 1 0 1002)
                      (mkWorld Bench.ext_init
                         (mkDevice [Bench.mech0 0 GOLD_ARM jstate_hard_stop 5000;
                                    Bench.mech0 1 GREEN_ARM jstate_hard_stop 5000]) [])
                      Bench.init_params 0)))
     = calibrations [] ++
       [Ev_calibrate 0
          (negb (tools_ready Bench.sv (Bench.mech0 0 GOLD_ARM jstate_hard_stop 5000)))].
Proof.
  split; [reflexivity |]. split; [reflexivity |].
  apply (C8_one_timer_for_the_device (Bench.cfg true) Bench.sv 1203 (mkStatics 1 0 1002)
           (mkWorld Bench.ext_init
              (mkDevice [Bench.mech0 0 GOLD_ARM jstate_hard_stop 5000;
                         Bench.mech0 1 GREEN_ARM jstate_hard_stop 5000]) [])
           (Bench.mech0 0 GOLD_ARM jstate_hard_stop 5000)
           (Bench.mech0 1 GREEN_ARM jstate_hard_stop 5000)
           Bench.init_params sv_ok sv_tools_ready_ok).
  - reflexivity.
  - reflexivity.
  - vm_compute. intros H. discriminate H.
  - cbn. discriminate.
  - cbn. lia.
  - cbn. lia.
  - cbn. lia.
  - reflexivity.
  - apply bench_layout.
  - apply bench_layout.
  - reflexivity.
  - reflexivity.
Defined.

(** C7, amended.  On a tick that runs, a joint on which the detector fires
    (after the DAC values of the tick were computed) ends the tick with
    [current_cmd = 0], in [jstate_hard_stop] or, if its mechanism was
    calibrated in the same tick, [jstate_homing1].  Every other joint, and
    so every joint that already is in [jstate_hard_stop], ends the tick
    with the command [TorqueToDAC] gave it: the command is zeroed on the
    detection tick only. *)
Theorem C7_command_zeroed_on_detection_tick {num ext : Type} {FO : FloatOps num}
    (cfg : config) (sv : services num ext) (gTime : Z) (st : statics)
    (w : world num ext) (p : param_pass) (b : Z) (i j : nat) (x5 : DOF num) :
  services_ok sv ->
  in_init_mode cfg p = true ->
  ~ ulong cfg (gTime - delay st) < 1000 ->
  get_joint
    (w_dev (control_step sv p
              (snd (init_step sv st b (ricks_tools_pass cfg sv w))))) i j
  = Some x5 ->
  (j < MAX_DOF_PER_MECH)%nat ->
  exists x',
    get_joint (w_dev (snd (raven_homing cfg sv gTime st w p b))) i j = Some x'
    /\ (check_homing_condition cfg x5 = true ->
        current_cmd x' = 0
        /\ (state x' = jstate_hard_stop \/ state x' = jstate_homing1))
    /\ (check_homing_condition cfg x5 = false -> current_cmd x' = current_cmd x5)
    /\ (state x5 = jstate_hard_stop -> current_cmd x' = current_cmd x5).
Proof.
  intros ok Hmode Hdelay Hx Hj.
  rewrite (raven_homing_runs cfg sv gTime st w p b Hmode Hdelay). cbn [snd].
  set (w5 := control_step sv p
               (snd (init_step sv st b (ricks_tools_pass cfg sv w)))) in *.
  pose proof (check_pass_rel cfg sv ok gTime (delay2 st, w5)) as Hrel. cbn [snd] in Hrel.
  destruct (dev_rel_get_joint _ _ _ _ _ _ Hrel Hx) as (x' & Hx' & HR).
  exists x'. split; [exact Hx' |].
  unfold check_rel in HR. rewrite decide_True in HR by exact Hj.
  destruct HR as (_ & H1 & H2).
  split; [exact H1 |]. split; [intros Hc; apply H2, Hc |].
  intros Hs. apply H2. unfold check_homing_condition.
  rewrite Hs. reflexivity.
Qed.

(** The arms of the bench have the layout of the Raven. *)
(** C9, amended.  A tick that runs with [begin_homing] set, or for the
    first time, resets every joint: zero desired torque and velocity,
    desired positions equal to the measured ones, state
    [jstate_not_ready]; the integral term is reset for the tool DOFs and
    for no other joint.  In the same tick every tool DOF then goes to
    [jstate_pos_unknown], and every other joint stays in
    [jstate_not_ready]: the tools of its mechanism are not ready. *)
Theorem C9_reset_then_tools_start {num ext : Type} {FO : FloatOps num}
    (cfg : config) (sv : services num ext) (gTime : Z) (st : statics)
    (w : world num ext) (p : param_pass) (b : Z) (i j : nat) (x : DOF num) :
  services_ok sv ->
  tools_ready_ok sv ->
  in_init_mode cfg p = true ->
  ~ ulong cfg (gTime - delay st) < 1000 ->
  must_reset st b = true ->
  (forall m, m ∈ mech (w_dev w) -> tool_layout sv m) ->
  get_joint (w_dev w) i j = Some x ->
  snd (raven_homing cfg sv gTime st w p b)
  = snd (check_pass cfg sv gTime
           (delay2 st,
            dac_step sv p
              (motion_pass sv
                 (snd (reset_pass sv (homing_inited st, ricks_tools_pass cfg sv w))))))
  /\ exists x1 x2,
       get_joint
         (w_dev (snd (reset_pass sv (homing_inited st, ricks_tools_pass cfg sv w)))) i j
       = Some x1
       /\ get_joint
            (w_dev (motion_pass sv
                      (snd (reset_pass sv (homing_inited st, ricks_tools_pass cfg sv w)))))
            i j
          = Some x2
       /\ tau_d x1 = f_zero /\ jvel_d x1 = f_zero
       /\ mpos_d x1 = mpos x /\ jpos_d x1 = jpos x
       /\ mpos x1 = mpos x /\ jpos x1 = jpos x
       /\ state x1 = jstate_not_ready
       /\ (Ev_PI_reset i j
             ∈ w_log (snd (reset_pass sv (homing_inited st, ricks_tools_pass cfg sv w)))
           <-> Ev_PI_reset i j ∈ w_log w \/ is_toolDOF sv (type x) = true)
       /\ (is_toolDOF sv (type x) = true -> state x2 = jstate_pos_unknown)
       /\ (is_toolDOF sv (type x) = false -> state x2 = jstate_not_ready).
Proof.
  intros ok tr Hmode Hdelay Hreset Hlay Hx.
  split.
  { rewrite (raven_homing_runs cfg sv gTime st w p b Hmode Hdelay). cbn [snd].
    unfold init_step. rewrite Hreset. reflexivity. }
  destruct (ricks_tools_pass_spec cfg sv w) as [Hr0 Hl0].
  set (w0 := ricks_tools_pass cfg sv w) in *.
  destruct (reset_pass_spec sv ok (homing_inited st) w0) as (Hr1 & Hev & _).
  set (w1 := snd (reset_pass sv (homing_inited st, w0))) in *.
  assert (forall m, m ∈ mech (w_dev w0) -> tool_layout sv m) as Hlay0.
  { eapply tool_layout_rel; [exact Hr0 | | exact Hlay].
    intros ? ? a c ->. reflexivity. }
  assert (forall m, m ∈ mech (w_dev w1) -> tool_layout sv m) as Hlay1.
  { eapply tool_layout_rel; [exact Hr1 | | exact Hlay0].
    intros ? k a c H. cbn beta in H. destruct (decide _) in H; subst; reflexivity. }
  assert (forall i' j' y, get_joint (w_dev w0) i' j' = Some y -> (j' < MAX_DOF_PER_MECH)%nat)
    as Hlt0.
  { intros i' j' y Hy. unfold get_joint in Hy.
    destruct (mech (w_dev w0) !! i') as [m0 |] eqn:Hm0; [| discriminate].
    eapply tool_layout_lt; [| exact Hy].
    apply Hlay0. eapply list_elem_of_lookup_2; eauto. }
  assert (forall i' j' y, get_joint (w_dev w1) i' j' = Some y -> state y = jstate_not_ready)
    as Hnr.
  { intros i' j' y Hy.
    destruct (dev_rel_get_joint_r _ _ _ _ _ _ Hr1 Hy) as (y0 & Hy0 & HR).
    cbn beta in HR. rewrite decide_True in HR by (eapply Hlt0; eauto).
    subst y. reflexivity. }
  pose proof (motion_pass_after_reset sv ok w1 tr Hnr Hlay1) as Hr2.
  destruct (dev_rel_get_joint _ _ _ _ _ _ Hr0 Hx) as (x0 & Hx0 & HR0).
  destruct (dev_rel_get_joint _ _ _ _ _ _ Hr1 Hx0) as (x1 & Hx1 & HR1).
  destruct (dev_rel_get_joint _ _ _ _ _ _ Hr2 Hx1) as (x2 & Hx2 & HR2).
  cbn beta in HR0, HR1, HR2.
  rewrite decide_True in HR1 by (eapply Hlt0; eauto).
  exists x1, x2. split; [exact Hx1 |]. split; [exact Hx2 |].
  assert (type x0 = type x /\ jpos x0 = jpos x /\ mpos x0 = mpos x) as (Ht0 & Hj0 & Hm0).
  { rewrite HR0. cbn. auto. }
  subst x1. cbn.
  repeat split; auto.
  - rewrite Hev, Hl0. intros [H | (y & Hy & _ & Ht)]; [auto |].
    right. assert (y = x0) as -> by congruence. congruence.
  - rewrite Hev, Hl0. intros [H | Ht]; [auto |].
    right. exists x0. repeat split; [exact Hx0 | eapply Hlt0; eauto | congruence].
  - intros Ht. destruct HR2 as (_ & H2 & _). apply H2. cbn. congruence.
  - intros Ht. destruct HR2 as (_ & _ & H2). rewrite H2; [reflexivity |].
    cbn. congruence.
Qed.

Lemma C9_reset_then_tools_start_witness :
  in_init_mode (Bench.cfg true) Bench.init_params = true
  /\ ~ ulong (Bench.cfg true) (1000 - delay statics_init) < 1000
  /\ must_reset statics_init 1 = true
  /\ get_joint Bench.one_arm 0 TOOL_ROT = Some (Bench.joint0 4 jstate_wait 5000)
  /\ exists x1 x2,
       get_joint
         (w_dev (snd (reset_pass Bench.sv
                        (homing_inited statics_init,
                         ricks_tools_pass (Bench.cfg true) Bench.sv
                           (snd (Bench.boot Bench.one_arm)))))) 0 TOOL_ROT
       = Some x1
       /\ get_joint
            (w_dev (motion_pass Bench.sv
                      (snd (reset_pass Bench.sv
                              (homing_inited statics_init,
                               ricks_tools_pass (Bench.cfg true) Bench.sv
                                 (snd (Bench.boot Bench.one_arm)))))))
            0 TOOL_ROT
          = Some x2
       /\ tau_d x1 = f_zero /\ jvel_d x1 = f_zero
       /\ mpos_d x1 = mpos (Bench.joint0 4 jstate_wait 5000)
       /\ jpos_d x1 = jpos (Bench.joint0 4 jstate_wait 5000)
       /\ mpos x1 = mpos (Bench.joint0 4 jstate_wait 5000)
       /\ jpos x1 = jpos (Bench.joint0 4 jstate_wait 5000)
       /\ state x1 = jstate_not_ready
       /\ (Ev_PI_reset 0 TOOL_ROT
             ∈ w_log (snd (reset_pass Bench.sv
                             (homing_inited statics_init,
                              ricks_tools_pass (Bench.cfg true) Bench.sv
                                (snd (Bench.boot Bench.one_arm)))))
           <-> Ev_PI_reset 0 TOOL_ROT ∈ w_log (snd (Bench.boot Bench.one_arm))
               \/ is_toolDOF Bench.sv (type (Bench.joint0 4 jstate_wait 5000)) = true)
       /\ (is_toolDOF Bench.sv (type (Bench.joint0 4 jstate_wait 5000)) = true ->
           state x2 = jstate_pos_unknown)
       /\ (is_toolDOF Bench.sv (type (Bench.joint0 4 jstate_wait 5000)) = false ->
           state x2 = jstate_not_ready).
Proof.
  split; [reflexivity |].
  split; [vm_compute; intros H; discriminate H |].
  split; [reflexivity |].
  split; [reflexivity |].
  apply (C9_reset_then_tools_start (Bench.cfg true) Bench.sv 1000 statics_init
           (snd (Bench.boot Bench.one_arm)) Bench.init_params 1 0 TOOL_ROT
           (Bench.joint0 4 jstate_wait 5000) sv_ok sv_tools_ready_ok).
  - reflexivity.
  - vm_compute. intros H. discriminate H.
  - reflexivity.
  - exact bench_one_arm_layout.
  - reflexivity.
Defined.



Lemma C7_command_zeroed_on_detection_tick_witness :
  get_joint (w_dev (Bench.world_after_control Bench.after_two_ticks)) 0 TOOL_ROT
  = Some Bench.tool_rot_at_stop
  /\ exists x',
       get_joint
         (w_dev (snd (raven_homing (Bench.cfg true) Bench.sv 1002
                        (fst Bench.after_two_ticks)
                        (mkWorld (w_ext (snd Bench.after_two_ticks))
                                 (w_dev (snd Bench.after_two_ticks)) [])
                        Bench.init_params 0))) 0 TOOL_ROT
       = Some x'
       /\ (check_homing_condition (Bench.cfg true) Bench.tool_rot_at_stop = true ->
           current_cmd x' = 0
           /\ (state x' = jstate_hard_stop \/ state x' = jstate_homing1))
       /\ (check_homing_condition (Bench.cfg true) Bench.tool_rot_at_stop = false ->
           current_cmd x' = current_cmd Bench.tool_rot_at_stop)
       /\ (state Bench.tool_rot_at_stop = jstate_hard_stop ->
           current_cmd x' = current_cmd Bench.tool_rot_at_stop).
Proof.
  split; [vm_compute; reflexivity |].
  apply (C7_command_zeroed_on_detection_tick (Bench.cfg true) Bench.sv 1002
           (fst Bench.after_two_ticks)
           (mkWorld (w_ext (snd Bench.after_two_ticks))
                    (w_dev (snd Bench.after_two_ticks)) [])
           Bench.init_params 0 0 TOOL_ROT Bench.tool_rot_at_stop sv_ok).
  - reflexivity.
  - vm_compute. intros H. discriminate H.
  - vm_compute. reflexivity.
  - unfold TOOL_ROT, MAX_DOF_PER_MECH. lia.
Defined.

(** C7, as stated, fails.  On the bench the tool-rotation joint reaches its
    hard stop on the third tick (tick 1002) and its command is zeroed; on
    the next tick the joint still is in [jstate_hard_stop], the motor has
    moved back by 1/64 rad, and the command is 128, not 0. *)
Lemma C7_command_not_held_counterexample :
  map (fun sw => Bench.state_cmd_of sw 0 TOOL_ROT) Bench.relaxing_run
  = [(jstate_pos_unknown, 0); (jstate_pos_unknown, 1024);
     (jstate_hard_stop, 0); (jstate_hard_stop, 128); (jstate_hard_stop, 128)].
Proof. vm_compute. reflexivity. Qed.

(** C9, as stated, fails.  After the reset tick (tick 1000, [begin_homing]
    set) and after the next tick the positioning joints of the arm are in
    [jstate_not_ready]; only the tool DOFs have gone to
    [jstate_pos_unknown].  The shoulder leaves [jstate_not_ready] at tick
    1208, once the tools are ready. *)
Lemma C9_positioning_joints_wait_counterexample :
  map (fun sw => map (Bench.state_of sw 0) [SHOULDER; ELBOW; Z_INS; TOOL_ROT; WRIST; GRASP1; GRASP2])
      (take 2 Bench.full_pass)
  = [[jstate_not_ready; jstate_not_ready; jstate_not_ready;
      jstate_pos_unknown; jstate_pos_unknown; jstate_pos_unknown; jstate_pos_unknown];
     [jstate_not_ready; jstate_not_ready; jstate_not_ready;
      jstate_pos_unknown; jstate_pos_unknown; jstate_pos_unknown; jstate_pos_unknown]]
  /\ Bench.first_tick
       (fun sw => bool_decide (Bench.state_of sw 0 SHOULDER <> jstate_not_ready))
       1000 Bench.full_pass
     = Some 1208.
Proof. vm_compute. split; reflexivity. Qed.

(** C2, as stated, fails.  In Scenario C the positioning group is at its
    hard stops from tick 1000 on and the only calibration call is at tick
    1201, not 1200.  In a complete pass on the bench the tool group is all
    in [jstate_hard_stop] from tick 1002 on and the positioning group from
    tick 1211 on; the calls are at ticks 1203 and 1412, 201 ticks later.
    The claim does not hold of the code in general either: when
    [begin_homing] is set again at tick 1202, the timer of tick 1002 is
    kept, the tool group is not at its hard stops at the end of ticks 1202
    and 1203, and the tools are calibrated at tick 1204. *)
Lemma C2_settle_delay_counterexample :
  Bench.first_tick (Bench.all_hard_stop 0 [SHOULDER; ELBOW; Z_INS]) 1000 scenario_C
  = Some 1000
  /\ Bench.calibration_ticks 1000 scenario_C = [(1201, [Ev_calibrate 0 false])]
  /\ Bench.first_tick (Bench.all_hard_stop 0 [TOOL_ROT; WRIST; GRASP1]) 1000 Bench.full_pass
     = Some 1002
  /\ Bench.first_tick (Bench.all_hard_stop 0 [SHOULDER; ELBOW; Z_INS]) 1000 Bench.full_pass
     = Some 1211
  /\ Bench.calibration_ticks 1000 Bench.full_pass
     = [(1203, [Ev_calibrate 0 true]); (1412, [Ev_calibrate 0 false])]
  /\ map (Bench.all_hard_stop 0 [TOOL_ROT; WRIST; GRASP1]) (take 4 (drop 200 restarted_pass))
     = [true; true; false; false]
  /\ Bench.calibration_ticks 1000 restarted_pass = [(1204, [Ev_calibrate 0 true])].
Proof. vm_compute. repeat split; reflexivity. Qed.

(** C5, as stated, fails.  In a complete pass on the bench (one reset, at
    tick 1000) the encoder offset of the shoulder is written twice: at
    tick 1203, when the tool group is calibrated, and at tick 1412, when
    the positioning group is. *)
Lemma C5_offset_written_twice_counterexample :
  Bench.offset_changes 0 SHOULDER (B32.of_int 0) 1000 Bench.full_pass
  = [(1203, B32.of_int (-5000)); (1412, B32.of_int (-5065))]
  /\ Bench.calibration_ticks 1000 Bench.full_pass
     = [(1203, [Ev_calibrate 0 true]); (1412, [Ev_calibrate 0 false])].
Proof. vm_compute. split; reflexivity. Qed.

(** C8, as stated, fails.  With two arms, the tool group of the second arm
    is at its hard stops from tick 1002 on.  If the first arm moves freely
    during the run, the second is calibrated at tick 1203 (and its
    positioning group at tick 1412).  If the first
    arm is blocked after tick 1150, its tool group is at its hard stops
    from tick 1151 on and is calibrated at tick 1203, 52 ticks later, and
    the second arm is calibrated at tick 1605 only. *)
Lemma C8_shared_timer_counterexample :
  Bench.first_tick (Bench.all_hard_stop 1 [TOOL_ROT; WRIST; GRASP1]) 1000
    (Bench.two_arm_run 2000) = Some 1002
  /\ Bench.calibration_ticks 1000 (Bench.two_arm_run 2000)
     = [(1203, [Ev_calibrate 1 true]); (1412, [Ev_calibrate 1 false])]
  /\ Bench.first_tick (Bench.all_hard_stop 1 [TOOL_ROT; WRIST; GRASP1]) 1000
       (Bench.two_arm_run 1150) = Some 1002
  /\ Bench.first_tick (Bench.all_hard_stop 0 [TOOL_ROT; WRIST; GRASP1]) 1000
       (Bench.two_arm_run 1150) = Some 1151
  /\ Bench.calibration_ticks 1000 (Bench.two_arm_run 1150)
     = [(1203, [Ev_calibrate 0 true]); (1404, [Ev_calibrate 0 false]);
        (1605, [Ev_calibrate 1 true])].
Proof. vm_compute. repeat split; reflexivity. Qed.

(** * Further properties of the code *)

(** ** The detector *)

Lemma homing_max_dac_lookup (cfg : config) (k : Z) :
  0 <= k ->
  homing_max_dac cfg !!! Z.to_nat (k mod 8) = 0 /\ k mod 8 = 3
  \/ 1200 <= homing_max_dac cfg !!! Z.to_nat (k mod 8) <= 2800 /\ k mod 8 <> 3.
Proof.
  intros Hk. pose proof (Z.mod_pos_bound k 8 ltac:(lia)) as Hm.
  assert (Hc : k mod 8 = 0 \/ k mod 8 = 1 \/ k mod 8 = 2 \/ k mod 8 = 3
               \/ k mod 8 = 4 \/ k mod 8 = 5 \/ k mod 8 = 6 \/ k mod 8 = 7) by lia.
  unfold homing_max_dac.
  destruct (RAVEN_II_SQUARE cfg);
    destruct Hc as [H | [H | [H | [H | [H | [H | [H | H]]]]]]]; rewrite H;
    first [left; split; [reflexivity | lia]
          | right; split; [vm_compute; split; discriminate | lia]].
Qed.

(** X1.  The detector depends on the size of the command only, and a larger
    command is detected whenever a smaller one is: if
    [check_homing_condition] returns true for a joint with command [c],
    it returns true for the same joint with any command [c'] such that
    [abs c <= abs c'], in particular for [-c]. *)
Theorem X1_detector_monotone {num : Type} (cfg : config) (j : DOF num) (c c' : Z) :
  INT_MIN < c <= INT_MAX ->
  INT_MIN < c' <= INT_MAX ->
  Z.abs c <= Z.abs c' ->
  check_homing_condition cfg (set_current_cmd c j) = true ->
  check_homing_condition cfg (set_current_cmd c' j) = true.
Proof.
  intros _ _ Hle. unfold check_homing_condition. cbn [state type current_cmd set_current_cmd].
  destruct (decide (state j <> jstate_pos_unknown)); [discriminate |].
  destruct (decide (Z.abs c >= _)) as [H | H]; [| discriminate].
  intros _. rewrite decide_True by lia. reflexivity.
Qed.

Lemma X1_detector_monotone_witness :
  check_homing_condition (Bench.cfg true)
    (set_current_cmd (-2000) (Bench.joint0 4 jstate_pos_unknown 0)) = true.
Proof.
  apply (X1_detector_monotone (Bench.cfg true) (Bench.joint0 4 jstate_pos_unknown 0)
           1400 (-2000)).
  - unfold INT_MIN, INT_MAX. lia.
  - unfold INT_MIN, INT_MAX. lia.
  - lia.
  - reflexivity.
Defined.

(** X2.  In both builds the thresholds of the seven joints in use lie
    between 1200 and 2800 DAC counts: a searching joint that is not in the
    unused slot is never reported with a command below 1200, and always
    with a command of 2800 or more. *)
Theorem X2_detector_threshold_range {num : Type} (cfg : config) (j : DOF num) :
  wf_DOF j ->
  type j mod 8 <> 3 ->
  (Z.abs (current_cmd j) < 1200 -> check_homing_condition cfg j = false)
  /\ (state j = jstate_pos_unknown -> 2800 <= Z.abs (current_cmd j) ->
      check_homing_condition cfg j = true).
Proof.
  intros [Hty _] H3.
  destruct (homing_max_dac_lookup cfg (type j) Hty) as [[_ H] | [Hr _]]; [contradiction |].
  unfold check_homing_condition. rewrite Z.rem_mod_nonneg by lia. split.
  - intros Hc. destruct (decide (state j <> jstate_pos_unknown)); [reflexivity |].
    rewrite decide_False by lia. reflexivity.
  - intros Hs Hc. rewrite decide_False by (intros H; apply H; exact Hs).
    rewrite decide_True by lia. reflexivity.
Qed.

Lemma X2_detector_threshold_range_witness :
  check_homing_condition (mkConfig true false 1 1 4096 true 64)
    (set_current_cmd 1199 (Bench.joint0 2 jstate_pos_unknown 0)) = false.
Proof.
  apply (X2_detector_threshold_range (mkConfig true false 1 1 4096 true 64)
           (set_current_cmd 1199 (Bench.joint0 2 jstate_pos_unknown 0))).
  - unfold wf_DOF. vm_compute. intuition discriminate.
  - vm_compute. discriminate.
  - cbn. lia.
Defined.

(** ** The state machine of one joint *)

Lemma writes_traj_fields {num : Type} (x x' : DOF num) :
  writes_traj x x' -> type x' = type x /\ state x' = state x.
Proof.
  intros H. destruct (writes_traj_frame x x' H) as [(Ht & Hs & _) _]. auto.
Qed.

Lemma homing2_case_result {num ext : Type} (sv : services num ext) (e : ext)
    (x : DOF num) :
  services_ok sv ->
  (state (snd (fst (homing2_case sv e x))) = state x
   /\ snd (homing2_case sv e x) = [])
  \/ (state (snd (fst (homing2_case sv e x))) = jstate_ready
      /\ snd (homing2_case sv e x) = [Ev_joint_ready (type x)]).
Proof.
  intros ok. unfold homing2_case.
  pose proof (ok_update_position_trajectory sv ok e x) as H.
  destruct (update_position_trajectory sv e x) as [[e1 j1] r]. cbn [fst snd] in H.
  destruct (writes_traj_fields _ _ H) as [Ht Hs].
  destruct (decide (r = 0)); cbn [fst snd].
  - right. rewrite Ht. split; reflexivity.
  - left. split; [exact Hs | reflexivity].
Qed.

(** X3.  [homing] moves a joint through the states of the procedure and
    writes nothing but the trajectory: a joint in [jstate_wait],
    [jstate_hard_stop] or [jstate_ready] is returned as it is, with the
    external state untouched; a joint in [jstate_not_ready] or
    [jstate_pos_unknown] leaves in [jstate_pos_unknown]; a joint in
    [jstate_homing1] or [jstate_homing2] leaves in [jstate_homing2], or in
    [jstate_ready] with the message that the joint is ready, and never in
    [jstate_homing1].  The type, the encoder count and offset, the command,
    the measured positions, the desired torque and the desired motor
    position are never changed. *)
Theorem X3_homing_transitions {num ext : Type} (sv : services num ext) (e : ext)
    (x : DOF num) :
  services_ok sv ->
  (type (snd (fst (homing sv e x))) = type x
   /\ enc_val (snd (fst (homing sv e x))) = enc_val x
   /\ current_cmd (snd (fst (homing sv e x))) = current_cmd x
   /\ jpos (snd (fst (homing sv e x))) = jpos x
   /\ mpos (snd (fst (homing sv e x))) = mpos x
   /\ tau_d (snd (fst (homing sv e x))) = tau_d x
   /\ mpos_d (snd (fst (homing sv e x))) = mpos_d x
   /\ enc_offset (snd (fst (homing sv e x))) = enc_offset x)
  /\ match state x with
     | jstate_wait | jstate_hard_stop | jstate_ready => homing sv e x = (e, x, [])
     | jstate_not_ready | jstate_pos_unknown =>
         state (snd (fst (homing sv e x))) = jstate_pos_unknown
         /\ snd (homing sv e x) = []
     | jstate_homing1 | jstate_homing2 =>
         (state (snd (fst (homing sv e x))) = jstate_homing2
          /\ snd (homing sv e x) = [])
         \/ (state (snd (fst (homing sv e x))) = jstate_ready
             /\ snd (homing sv e x) = [Ev_joint_ready (type x)])
     end.
Proof.
  intros ok. split.
  { destruct (homing_spec sv ok e x) as (H1 & H2 & H3 & H4 & H5 & H6 & H7 & H8 & _).
    repeat split; assumption. }
  unfold homing. destruct (state x) eqn:Hs; try reflexivity.
  - pose proof (ok_start_trajectory_mag sv ok e (set_state jstate_pos_unknown x)
                  (f_magnitude !!! Z.to_nat (type (set_state jstate_pos_unknown x)))
                  (f_period !!! Z.to_nat (type (set_state jstate_pos_unknown x)))) as H.
    destruct (start_trajectory_mag sv e _ _ _) as [e1 j2]. cbn [fst snd] in *.
    destruct (writes_traj_fields _ _ H) as [_ H2]. split; [exact H2 | reflexivity].
  - pose proof (ok_update_linear_sinusoid_position_trajectory sv ok e x) as H.
    destruct (update_linear_sinusoid_position_trajectory sv e x) as [e1 j1].
    cbn [fst snd] in *.
    destruct (writes_traj_fields _ _ H) as [_ H2]. split; [congruence | reflexivity].
  - pose proof (ok_start_trajectory sv ok e x
                  (home_position (DOF_types sv (type x))) (Lit (5 # 2))) as H.
    destruct (start_trajectory sv e x _ _) as [e1 j1]. cbn [fst snd] in H.
    destruct (writes_traj_fields _ _ H) as [Ht _].
    destruct (homing2_case_result sv e1 (set_state jstate_homing2 j1) ok)
      as [[H1 H2] | [H1 H2]].
    + left. split; [exact H1 | exact H2].
    + right. split; [exact H1 |]. rewrite H2. cbn. rewrite Ht. reflexivity.
  - destruct (homing2_case_result sv e x ok) as [[H1 H2] | [H1 H2]].
    + left. split; [congruence | exact H2].
    + right. split; [exact H1 | exact H2].
Qed.

Lemma X3_homing_transitions_witness :
  state (snd (fst (homing Bench.sv Bench.ext_init (Bench.joint0 4 jstate_not_ready 0))))
  = jstate_pos_unknown
  /\ snd (homing Bench.sv Bench.ext_init (Bench.joint0 4 jstate_not_ready 0)) = [].
Proof.
  exact (proj2 (X3_homing_transitions Bench.sv Bench.ext_init
                  (Bench.joint0 4 jstate_not_ready 0) sv_ok)).
Defined.

(** ** What a tick keeps *)

Section TickFrame.
Context {num ext : Type} {FO : FloatOps num}.
Variable cfg : config.
Variable sv : services num ext.
Hypothesis ok : services_ok sv.
Implicit Types x y : DOF num.
Implicit Types w : world num ext.

(** A property of joints that every step of the last loop keeps. *)
Variable R : DOF num -> DOF num -> Prop.
Hypothesis R_refl : forall x, R x x.
Hypothesis R_trans : forall x y z, R x y -> R y z -> R x z.
Hypothesis R_detect : forall (j : nat) (e : ext) x, R x (snd (fst (detect cfg sv j e x))).
Hypothesis R_known_pos :
  forall (mt : arm_type) (t : bool) (j : nat) x y,
    known_pos_rel cfg sv mt t j x y -> R x y.

Lemma dev_rel_R_trans (d d' d'' : device num) :
  dev_rel (fun _ _ => R) d d' -> dev_rel (fun _ _ => R) d' d'' ->
  dev_rel (fun _ _ => R) d d''.
Proof.
  intros H1 H2. eapply dev_rel_trans; [exact H1 | exact H2 |].
  intros i j x y z. apply R_trans.
Qed.

Lemma detect_steps_keep (i : nat) (l : list nat) w :
  dev_rel (fun _ _ => R) (w_dev w)
          (w_dev (foldl (fun w j => on_joint i j (detect cfg sv j) w) w l)).
Proof.
  revert w. induction l as [| j l IH]; intros w; cbn [foldl].
  - apply dev_rel_refl. auto.
  - eapply dev_rel_R_trans; [| apply IH].
    apply on_joint_rel; [exact R_refl | intros e x; apply R_detect].
Qed.

Lemma synchronize_keep (gTime : Z) (i : nat) (tw : Z * world num ext) :
  dev_rel (fun _ _ => R) (w_dev (snd tw)) (w_dev (snd (synchronize cfg sv gTime i tw))).
Proof.
  destruct (synchronize_cases cfg sv gTime i tw)
    as [-> | [(m & _ & _ & _ & ->) | (m & Hm & _ & _ & _ & -> & _)]].
  - apply dev_rel_refl. auto.
  - apply dev_rel_refl. auto.
  - apply dev_rel_put_mech with (m := m); [exact Hm | | auto].
    eapply mech_rel_mono; [apply (set_joints_known_pos_spec cfg sv ok) |].
    intros j x y _. apply R_known_pos.
Qed.

Lemma check_mech_keep (gTime : Z) (i : nat) (tw : Z * world num ext) :
  dev_rel (fun _ _ => R) (w_dev (snd tw)) (w_dev (snd (check_mech cfg sv gTime i tw))).
Proof.
  unfold check_mech.
  pose proof (detect_steps_keep i (seq 0 (MAX_DOF_PER_MECH - 1)) (snd tw)) as H7.
  fold (detect_upto7 cfg sv i (snd tw)) in H7.
  destruct (get_joint (w_dev (detect_upto7 cfg sv i (snd tw))) i (MAX_DOF_PER_MECH - 1));
    [| exact H7].
  eapply dev_rel_R_trans; [exact H7 |].
  eapply dev_rel_R_trans; [| apply synchronize_keep]. cbn [snd].
  apply on_joint_rel; [exact R_refl | intros e x; apply R_detect].
Qed.

Lemma check_pass_keep (gTime : Z) (tw : Z * world num ext) :
  dev_rel (fun _ _ => R) (w_dev (snd tw)) (w_dev (snd (check_pass cfg sv gTime tw))).
Proof.
  rewrite check_pass_mechs.
  generalize (seq 0 (length (mech (w_dev (snd tw))))). intros l.
  revert tw. induction l as [| i l IH]; intros tw; cbn [foldl].
  - apply dev_rel_refl. auto.
  - eapply dev_rel_R_trans; [apply check_mech_keep | apply IH].
Qed.

End TickFrame.

Lemma detect_fields {num ext : Type} (cfg : config) (sv : services num ext)
    (j : nat) (e : ext) (x : DOF num) :
  services_ok sv ->
  type (snd (fst (detect cfg sv j e x))) = type x
  /\ enc_val (snd (fst (detect cfg sv j e x))) = enc_val x
  /\ check_step (state x) (state (snd (fst (detect cfg sv j e x)))).
Proof.
  intros ok. unfold detect, check_step.
  destruct (check_homing_condition cfg x) eqn:Hc; [| cbn; repeat split; auto].
  apply check_homing_condition_spec in Hc. destruct Hc as [Hs _].
  pose proof (ok_stop_trajectory sv ok e
                (set_current_cmd 0 (set_state jstate_hard_stop x))) as H.
  destruct (stop_trajectory sv e _) as [e1 j2]. cbn [fst snd] in *.
  destruct (writes_traj_frame _ _ H) as [(Ht & Hst & He) _].
  cbn in Ht, Hst, He. repeat split; auto.
Qed.

Lemma check_step_refl (s : jstate) : check_step s s.
Proof. left. reflexivity. Qed.

Lemma check_step_trans (s1 s2 s3 : jstate) :
  check_step s1 s2 -> check_step s2 s3 -> check_step s1 s3.
Proof.
  unfold check_step.
  intros [-> | [-> | [-> ->]]] [-> | [-> | [H ->]]]; auto; discriminate.
Qed.

Lemma known_pos_rel_fields {num ext : Type} {FO : FloatOps num} (cfg : config)
    (sv : services num ext) (mt : arm_type) (t : bool) (j : nat) (x y : DOF num) :
  known_pos_rel cfg sv mt t j x y ->
  type y = type x /\ enc_val y = enc_val x /\ check_step (state x) (state y).
Proof.
  intros (Ht & He & _ & _ & _ & H). split; [exact Ht |]. split; [exact He |].
  unfold check_step. destruct (decide (j < MAX_DOF_PER_MECH)%nat).
  - destruct H as (_ & Hs & _). rewrite Hs.
    destruct (set_reference_state sv t x) as [-> | ->]; auto.
  - destruct H as [_ ->]. auto.
Qed.

(** The device after the last loop of a tick. *)
Lemma check_pass_fields {num ext : Type} {FO : FloatOps num} (cfg : config)
    (sv : services num ext) (gTime : Z) (tw : Z * world num ext) :
  services_ok sv ->
  dev_rel (fun _ _ x y =>
             type y = type x /\ enc_val y = enc_val x
             /\ check_step (state x) (state y))
          (w_dev (snd tw)) (w_dev (snd (check_pass cfg sv gTime tw))).
Proof.
  intros ok.
  apply (check_pass_keep cfg sv ok
           (fun x y => type y = type x /\ enc_val y = enc_val x
                       /\ check_step (state x) (state y))).
  - intros x. split; [reflexivity |]. split; [reflexivity | apply check_step_refl].
  - intros x y z (H1 & H2 & H3) (H4 & H5 & H6).
    split; [congruence |]. split; [congruence |].
    eapply check_step_trans; eauto.
  - intros j e x. apply detect_fields. exact ok.
  - intros mt t j x y. apply known_pos_rel_fields.
Qed.

(** The device after a tick that runs without resetting. *)
Lemma tick_fields_no_reset {num ext : Type} {FO : FloatOps num} (cfg : config)
    (sv : services num ext) (gTime : Z) (d2 : Z) (p : param_pass)
    (w : world num ext) :
  services_ok sv ->
  dev_rel (fun _ _ x y =>
             type y = type x /\ enc_val y = enc_val x
             /\ exists s, homing_step (state x) s /\ check_step s (state y))
          (w_dev w)
          (w_dev (snd (check_pass cfg sv gTime (d2, control_step sv p w)))).
Proof.
  intros ok.
  destruct (motion_pass_spec sv ok w) as [H1 _].
  destruct (dac_step_spec sv ok p (motion_pass sv w)) as [H2 _].
  pose proof (check_pass_fields cfg sv gTime (d2, control_step sv p w) ok) as H3.
  cbn [snd] in H3. unfold control_step in *.
  pose proof (dev_rel_comp _ _ _ _ _ (dev_rel_comp _ _ _ _ _ H1 H2) H3) as H.
  eapply dev_rel_mono; [exact H |].
  intros i j x z _ (y2 & (y1 & Hh & Hd) & Ht & He & Hc).
  destruct Hh as (Ht1 & He1 & _ & _ & _ & _ & _ & _ & Hstep).
  destruct Hd as [(Ht2 & Hs2 & He2) _].
  split; [congruence |]. split; [congruence |].
  exists (state y1). split; [exact Hstep |]. rewrite <- Hs2. exact Hc.
Qed.

(** The device after any tick. *)
Lemma tick_fields {num ext : Type} {FO : FloatOps num} (cfg : config)
    (sv : services num ext) (gTime : Z) (st : statics) (w : world num ext)
    (p : param_pass) (b : Z) :
  services_ok sv ->
  dev_rel (fun _ _ x y => type y = type x /\ enc_val y = enc_val x)
          (w_dev w) (w_dev (snd (raven_homing cfg sv gTime st w p b))).
Proof.
  intros ok.
  assert (H0 : dev_rel (fun _ _ x y => type y = type x /\ enc_val y = enc_val x)
                       (w_dev w) (w_dev (ricks_tools_pass cfg sv w))).
  { destruct (ricks_tools_pass_spec cfg sv w) as [H _].
    eapply dev_rel_mono; [exact H |]. intros i j x y _ ->. split; reflexivity. }
  unfold raven_homing.
  destruct (negb (in_init_mode cfg p)); [exact H0 |].
  destruct (decide (ulong cfg (gTime - delay st) < 1000)); [exact H0 |]. cbn [snd].
  set (w0 := ricks_tools_pass cfg sv w) in *.
  assert (H1 : dev_rel (fun _ _ x y => type y = type x /\ enc_val y = enc_val x)
                       (w_dev w0) (w_dev (snd (init_step sv st b w0)))).
  { unfold init_step. destruct (must_reset st b).
    - destruct (reset_pass_spec sv ok (homing_inited st) w0) as [H _].
      eapply dev_rel_mono; [exact H |]. intros i j x y _. cbn beta.
      destruct (decide (j < MAX_DOF_PER_MECH)%nat); intros ->; split; reflexivity.
    - apply dev_rel_refl. auto. }
  pose proof (tick_fields_no_reset cfg sv gTime (delay2 st) p
                (snd (init_step sv st b w0)) ok) as H2.
  assert (H3 : dev_rel (fun _ _ x y => type y = type x /\ enc_val y = enc_val x)
                       (w_dev w0)
                       (w_dev (snd (check_pass cfg sv gTime
                                      (delay2 st,
                                       control_step sv p (snd (init_step sv st b w0))))))).
  { eapply dev_rel_trans; [exact H1 | exact H2 |].
    intros i j x y z [? ?] (? & ? & _). split; congruence. }
  eapply dev_rel_trans; [exact H0 | exact H3 |].
  intros i j x y z [? ?] [? ?]. split; congruence.
Qed.

(** X4.  No tick changes the shape of the device or what identifies a
    joint: whatever the run level, the request flag and the time,
    [raven_homing] returns a device with as many mechanisms, each with its
    arm type and as many joints, and every joint with its [type] and its
    encoder count [enc_val]. *)
Theorem X4_tick_keeps_types_and_counts {num ext : Type} {FO : FloatOps num}
    (cfg : config) (sv : services num ext) (gTime : Z) (st : statics)
    (w : world num ext) (p : param_pass) (b : Z) :
  services_ok sv ->
  length (mech (w_dev (snd (raven_homing cfg sv gTime st w p b))))
  = length (mech (w_dev w))
  /\ forall i m,
       mech (w_dev w) !! i = Some m ->
       exists m',
         mech (w_dev (snd (raven_homing cfg sv gTime st w p b))) !! i = Some m'
         /\ mech_type m' = mech_type m
         /\ length (joint m') = length (joint m)
         /\ forall j x,
              joint m !! j = Some x ->
              exists x',
                joint m' !! j = Some x'
                /\ type x' = type x /\ enc_val x' = enc_val x.
Proof.
  intros ok. pose proof (tick_fields cfg sv gTime st w p b ok) as H.
  split; [apply H |].
  intros i m Hm. destruct (dev_rel_mech _ _ _ _ _ H Hm) as (m' & Hm' & Hrel).
  exists m'. split; [exact Hm' |].
  split; [apply Hrel |]. split; [apply Hrel |].
  intros j x Hx. exact (mech_rel_lookup _ _ _ _ _ Hrel Hx).
Qed.

Lemma X4_tick_keeps_types_and_counts_witness :
  length (mech (w_dev (snd (raven_homing (Bench.cfg true) Bench.sv 2000
                              (mkStatics 0 0 0)
                              (mkWorld Bench.ext_init Bench.two_arms [])
                              Bench.init_params 1))))
  = length (mech (w_dev (mkWorld Bench.ext_init Bench.two_arms []))).
Proof.
  exact (proj1 (X4_tick_keeps_types_and_counts (Bench.cfg true) Bench.sv 2000
                  (mkStatics 0 0 0) (mkWorld Bench.ext_init Bench.two_arms [])
                  Bench.init_params 1 sv_ok)).
Defined.

Lemma tick_step_cases (s s1 s' : jstate) :
  homing_step s s1 -> check_step s1 s' ->
  match s with
  | jstate_wait => s' = jstate_wait \/ s' = jstate_homing1
  | jstate_not_ready =>
      s' = jstate_not_ready \/ s' = jstate_pos_unknown
      \/ s' = jstate_hard_stop \/ s' = jstate_homing1
  | jstate_pos_unknown =>
      s' = jstate_pos_unknown \/ s' = jstate_hard_stop \/ s' = jstate_homing1
  | jstate_hard_stop => s' = jstate_hard_stop \/ s' = jstate_homing1
  | jstate_homing1 =>
      s' = jstate_homing1 \/ s' = jstate_homing2 \/ s' = jstate_ready
  | jstate_homing2 =>
      s' = jstate_homing2 \/ s' = jstate_ready \/ s' = jstate_homing1
  | jstate_ready => s' = jstate_ready \/ s' = jstate_homing1
  end.
Proof.
  unfold homing_step, check_step. intros H1 H2.
  destruct s; destruct s1; try solve [exfalso; intuition discriminate];
    destruct s'; try solve [exfalso; intuition discriminate]; auto 6.
Qed.

(** X5.  In a tick that runs without resetting (build without
    [RICKS_TOOLS]), the state of every joint stays where it is or moves
    forward through the procedure: [jstate_not_ready] to
    [jstate_pos_unknown], [jstate_pos_unknown] to [jstate_hard_stop],
    [jstate_homing1] to [jstate_homing2] or [jstate_ready],
    [jstate_homing2] to [jstate_ready]; the only step back is the one to
    [jstate_homing1], which the calibration makes.  In particular no joint
    enters [jstate_wait] or [jstate_not_ready], and a joint in
    [jstate_hard_stop] or [jstate_ready] leaves it only for
    [jstate_homing1]. *)
Theorem X5_states_move_forward {num ext : Type} {FO : FloatOps num}
    (cfg : config) (sv : services num ext) (gTime : Z) (st : statics)
    (w : world num ext) (p : param_pass) (b : Z) (i j : nat) (x : DOF num) :
  services_ok sv ->
  RICKS_TOOLS cfg = false ->
  in_init_mode cfg p = true ->
  ~ ulong cfg (gTime - delay st) < 1000 ->
  must_reset st b = false ->
  get_joint (w_dev w) i j = Some x ->
  exists x',
    get_joint (w_dev (snd (raven_homing cfg sv gTime st w p b))) i j = Some x'
    /\ match state x with
       | jstate_wait => state x' = jstate_wait \/ state x' = jstate_homing1
       | jstate_not_ready =>
           state x' = jstate_not_ready \/ state x' = jstate_pos_unknown
           \/ state x' = jstate_hard_stop \/ state x' = jstate_homing1
       | jstate_pos_unknown =>
           state x' = jstate_pos_unknown \/ state x' = jstate_hard_stop
           \/ state x' = jstate_homing1
       | jstate_hard_stop => state x' = jstate_hard_stop \/ state x' = jstate_homing1
       | jstate_homing1 =>
           state x' = jstate_homing1 \/ state x' = jstate_homing2
           \/ state x' = jstate_ready
       | jstate_homing2 =>
           state x' = jstate_homing2 \/ state x' = jstate_ready
           \/ state x' = jstate_homing1
       | jstate_ready => state x' = jstate_ready \/ state x' = jstate_homing1
       end.
Proof.
  intros ok Hricks Hmode Hdelay Hreset Hx.
  rewrite (raven_homing_runs cfg sv gTime st w p b Hmode Hdelay). cbn [snd].
  unfold ricks_tools_pass, init_step. rewrite Hricks, Hreset. cbn [snd].
  pose proof (tick_fields_no_reset cfg sv gTime (delay2 st) p w ok) as H.
  destruct (dev_rel_get_joint _ _ _ _ _ _ H Hx) as (x' & Hx' & _ & _ & s1 & H1 & H2).
  exists x'. split; [exact Hx' |]. exact (tick_step_cases _ _ _ H1 H2).
Qed.

Lemma X5_states_move_forward_witness :
  exists x',
    get_joint (w_dev (snd (raven_homing (Bench.cfg true) Bench.sv 2000
                             (mkStatics 1 0 0)
                             (mkWorld Bench.ext_init
                                (mkDevice [Bench.mech0 0 GOLD_ARM jstate_hard_stop 5000]) [])
                             Bench.init_params 0)))
              0 TOOL_ROT
    = Some x'
    /\ (state x' = jstate_hard_stop \/ state x' = jstate_homing1).
Proof.
  apply (X5_states_move_forward (Bench.cfg true) Bench.sv 2000 (mkStatics 1 0 0)
           (mkWorld Bench.ext_init
              (mkDevice [Bench.mech0 0 GOLD_ARM jstate_hard_stop 5000]) [])
           Bench.init_params 0 0%nat TOOL_ROT
           (Bench.joint0 4 jstate_hard_stop 5000) sv_ok).
  - reflexivity.
  - reflexivity.
  - vm_compute. intros H. discriminate H.
  - reflexivity.
  - reflexivity.
Defined.

(** ** The settle timer, for any number of mechanisms *)

Lemma check_mech_cases {num ext : Type} {FO : FloatOps num} (cfg : config)
    (sv : services num ext) (gTime : Z) (i : nat) (tw : Z * world num ext) :
  services_ok sv ->
  (calibrations (w_log (snd (check_mech cfg sv gTime i tw)))
   = calibrations (w_log (snd tw))
   /\ (fst (check_mech cfg sv gTime i tw) = fst tw
       \/ fst (check_mech cfg sv gTime i tw) = gTime))
  \/ (exists t,
        calibrations (w_log (snd (check_mech cfg sv gTime i tw)))
        = calibrations (w_log (snd tw)) ++ [Ev_calibrate i t]
        /\ fst (check_mech cfg sv gTime i tw) = 0
        /\ gTime > ulong cfg ((if decide (fst tw = 0) then gTime else fst tw) + 200)).
Proof.
  intros ok. unfold check_mech.
  destruct (detect_steps_spec cfg sv ok i (seq 0 (MAX_DOF_PER_MECH - 1)) (snd tw))
    as [_ H7].
  fold (detect_upto7 cfg sv i (snd tw)) in H7.
  set (w7 := detect_upto7 cfg sv i (snd tw)) in *.
  destruct (get_joint (w_dev w7) i (MAX_DOF_PER_MECH - 1)); [| left; cbn; auto].
  set (w8 := on_joint i (MAX_DOF_PER_MECH - 1) (detect cfg sv (MAX_DOF_PER_MECH - 1)) w7).
  assert (H8 : calibrations (w_log w8) = calibrations (w_log (snd tw))).
  { unfold w8. rewrite on_joint_calibrations; [exact H7 |].
    intros e x. apply detect_calibrations. }
  destruct (synchronize_cases cfg sv gTime i (fst tw, w8))
    as [-> | [(m & _ & _ & _ & ->) | (m & _ & _ & Hg & Hf & _ & Hl)]];
    cbn [fst snd] in *.
  - left. auto.
  - left. split; [exact H8 |]. destruct (decide (fst tw = 0)); auto.
  - right. exists (negb (tools_ready sv m)).
    rewrite Hl, calibrations_app, H8. auto.
Qed.

Lemma check_pass_calibrations {num ext : Type} {FO : FloatOps num} (cfg : config)
    (sv : services num ext) (gTime : Z) (tw : Z * world num ext) :
  services_ok sv ->
  0 <= gTime ->
  gTime + 200 < 2 ^ ULONG_BITS cfg ->
  (calibrations (w_log (snd (check_pass cfg sv gTime tw)))
   = calibrations (w_log (snd tw))
   /\ (fst (check_pass cfg sv gTime tw) = fst tw
       \/ fst (check_pass cfg sv gTime tw) = gTime))
  \/ (exists i t,
        (i < length (mech (w_dev (snd tw))))%nat
        /\ calibrations (w_log (snd (check_pass cfg sv gTime tw)))
           = calibrations (w_log (snd tw)) ++ [Ev_calibrate i t]
        /\ fst tw <> 0
        /\ gTime > ulong cfg (fst tw + 200)
        /\ (fst (check_pass cfg sv gTime tw) = 0
            \/ fst (check_pass cfg sv gTime tw) = gTime)).
Proof.
  intros ok Hg0 Hg. rewrite check_pass_mechs.
  set (n := length (mech (w_dev (snd tw)))).
  set (Inv := fun (k : nat) (s : Z * world num ext) =>
                (calibrations (w_log (snd s)) = calibrations (w_log (snd tw))
                 /\ (fst s = fst tw \/ fst s = gTime))
                \/ (exists i t,
                      (i < k)%nat
                      /\ calibrations (w_log (snd s))
                         = calibrations (w_log (snd tw)) ++ [Ev_calibrate i t]
                      /\ fst tw <> 0
                      /\ gTime > ulong cfg (fst tw + 200)
                      /\ (fst s = 0 \/ fst s = gTime))).
  assert (Hfix : ~ gTime > ulong cfg (gTime + 200)).
  { unfold ulong. rewrite Z.mod_small by lia. lia. }
  assert (H : Inv n (foldl (fun s i => check_mech cfg sv gTime i s) tw (seq 0 n))).
  { apply (foldl_seq_ind Inv (fun i s => check_mech cfg sv gTime i s)).
    - left. auto.
    - intros k s Hk HI.
      destruct (check_mech_cases cfg sv gTime k s ok) as [[Hc Hf] | (t & Hc & Hf & Hgt)].
      + destruct HI as [[Hc0 Hf0] | (i & t & Hi & Hc0 & Hd & Hgt & Hf0)].
        * left. split; [congruence |]. destruct Hf as [-> | ->]; auto.
        * right. exists i, t. split; [lia |]. split; [congruence |].
          split; [exact Hd |]. split; [exact Hgt |].
          destruct Hf as [-> | ->]; auto.
      + destruct HI as [[Hc0 Hf0] | (i & t' & Hi & Hc0 & Hd & Hgt' & Hf0)].
        * destruct Hf0 as [Hf0 | Hf0]; rewrite Hf0 in Hgt.
          -- destruct (decide (fst tw = 0)); [contradiction |].
             right. exists k, t. split; [lia |]. split; [congruence |]. auto.
          -- destruct (decide (gTime = 0)); contradiction.
        * exfalso. destruct Hf0 as [Hf0 | Hf0]; rewrite Hf0 in Hgt.
          -- rewrite decide_True in Hgt by reflexivity. contradiction.
          -- destruct (decide (gTime = 0)); contradiction. }
  destruct H as [H | (i & t & Hi & H)]; [left; exact H |].
  right. exists i, t. split; [exact Hi | exact H].
Qed.

(** X6.  A tick makes at most one calibration call, whatever the number
    of mechanisms, and only when it runs with the settle timer set more
    than 200 ticks before; the timer it leaves is then clear or the
    current tick.  A tick without calibration call leaves the timer as it
    was or sets it to the current tick. *)
Theorem X6_one_calibration_per_tick {num ext : Type} {FO : FloatOps num}
    (cfg : config) (sv : services num ext) (gTime : Z) (st : statics)
    (w : world num ext) (p : param_pass) (b : Z) :
  services_ok sv ->
  0 <= gTime ->
  gTime + 200 < 2 ^ ULONG_BITS cfg ->
  (calibrations (w_log (snd (raven_homing cfg sv gTime st w p b)))
   = calibrations (w_log w)
   /\ (delay2 (fst (raven_homing cfg sv gTime st w p b)) = delay2 st
       \/ delay2 (fst (raven_homing cfg sv gTime st w p b)) = gTime))
  \/ (exists i t,
        (i < length (mech (w_dev w)))%nat
        /\ calibrations (w_log (snd (raven_homing cfg sv gTime st w p b)))
           = calibrations (w_log w) ++ [Ev_calibrate i t]
        /\ in_init_mode cfg p = true
        /\ delay2 st <> 0
        /\ gTime > ulong cfg (delay2 st + 200)
        /\ (delay2 (fst (raven_homing cfg sv gTime st w p b)) = 0
            \/ delay2 (fst (raven_homing cfg sv gTime st w p b)) = gTime)).
Proof.
  intros ok Hg0 Hg.
  destruct (ricks_tools_pass_spec cfg sv w) as [Hr0 Hl0].
  unfold raven_homing.
  destruct (in_init_mode cfg p) eqn:Hmode; cbn [negb];
    [| left; cbn; rewrite Hl0; auto].
  destruct (decide (ulong cfg (gTime - delay st) < 1000));
    [left; cbn; rewrite Hl0; auto |].
  cbn [fst snd delay2].
  set (w0 := ricks_tools_pass cfg sv w) in *.
  assert (H1 : calibrations (w_log (snd (init_step sv st b w0))) = calibrations (w_log w)
               /\ length (mech (w_dev (snd (init_step sv st b w0))))
                  = length (mech (w_dev w))).
  { rewrite <- Hl0. destruct Hr0 as [Hlen0 _]. rewrite <- Hlen0.
    unfold init_step. destruct (must_reset st b); [| auto].
    destruct (reset_pass_spec sv ok (homing_inited st) w0) as ([Hlen _] & _ & Hc).
    auto. }
  destruct H1 as [H1 Hlen1].
  destruct (control_step_stable sv ok p (snd (init_step sv st b w0))) as [[Hlen2 _] H2].
  set (w5 := control_step sv p (snd (init_step sv st b w0))) in *.
  destruct (check_pass_calibrations cfg sv gTime (delay2 st, w5) ok Hg0 Hg)
    as [[Hc Hf] | (i & t & Hi & Hc & Hd & Hgt & Hf)]; cbn [fst snd] in *.
  - left. split; [congruence | exact Hf].
  - right. exists i, t. split; [lia |]. split; [congruence |]. auto.
Qed.

Lemma X6_one_calibration_per_tick_witness :
  (calibrations
     (w_log (snd (raven_homing (Bench.cfg true) Bench.sv 1203 (mkStatics 1 0 1002)
                    (mkWorld Bench.ext_init Bench.two_arms []) Bench.init_params 0)))
   = calibrations (w_log (mkWorld Bench.ext_init Bench.two_arms []))
   /\ (delay2 (fst (raven_homing (Bench.cfg true) Bench.sv 1203 (mkStatics 1 0 1002)
                      (mkWorld Bench.ext_init Bench.two_arms []) Bench.init_params 0))
       = delay2 (mkStatics 1 0 1002)
       \/ delay2 (fst (raven_homing (Bench.cfg true) Bench.sv 1203 (mkStatics 1 0 1002)
                         (mkWorld Bench.ext_init Bench.two_arms []) Bench.init_params 0))
          = 1203))
  \/ (exists i t,
        (i < length (mech (w_dev (mkWorld Bench.ext_init Bench.two_arms []))))%nat
        /\ calibrations
             (w_log (snd (raven_homing (Bench.cfg true) Bench.sv 1203 (mkStatics 1 0 1002)
                            (mkWorld Bench.ext_init Bench.two_arms [])
                            Bench.init_params 0)))
           = calibrations (w_log (mkWorld Bench.ext_init Bench.two_arms []))
             ++ [Ev_calibrate i t]
        /\ in_init_mode (Bench.cfg true) Bench.init_params = true
        /\ delay2 (mkStatics 1 0 1002) <> 0
        /\ 1203 > ulong (Bench.cfg true) (delay2 (mkStatics 1 0 1002) + 200)
        /\ (delay2 (fst (raven_homing (Bench.cfg true) Bench.sv 1203 (mkStatics 1 0 1002)
                           (mkWorld Bench.ext_init Bench.two_arms [])
                           Bench.init_params 0)) = 0
            \/ delay2 (fst (raven_homing (Bench.cfg true) Bench.sv 1203
                              (mkStatics 1 0 1002)
                              (mkWorld Bench.ext_init Bench.two_arms [])
                              Bench.init_params 0)) = 1203)).
Proof.
  apply (X6_one_calibration_per_tick (Bench.cfg true) Bench.sv 1203
           (mkStatics 1 0 1002) (mkWorld Bench.ext_init Bench.two_arms [])
           Bench.init_params 0 sv_ok).
  - lia.
  - cbn. lia.
Defined.

(** X7.  The tick on which the active group of the only mechanism is seen
    complete with the settle timer clear sets the timer to the current
    tick and makes no calibration call; the group is still complete after
    the tick. *)
Theorem X7_timer_set_on_completion {num ext : Type} {FO : FloatOps num}
    (cfg : config) (sv : services num ext) (gTime : Z) (st : statics)
    (w : world num ext) (m : mechanism num) (p : param_pass) :
  services_ok sv ->
  tools_ready_ok sv ->
  RICKS_TOOLS cfg = false ->
  in_init_mode cfg p = true ->
  ~ ulong cfg (gTime - delay st) < 1000 ->
  homing_inited st <> 0 ->
  delay2 st = 0 ->
  0 <= gTime ->
  gTime + 200 < 2 ^ ULONG_BITS cfg ->
  mech (w_dev w) = [m] ->
  tool_layout sv m ->
  mech_finished sv m = true ->
  delay2 (fst (raven_homing cfg sv gTime st w p 0)) = gTime
  /\ calibrations (w_log (snd (raven_homing cfg sv gTime st w p 0)))
     = calibrations (w_log w)
  /\ exists m',
       mech (w_dev (snd (raven_homing cfg sv gTime st w p 0))) = [m']
       /\ mech_finished sv m' = true
       /\ tools_ready sv m' = tools_ready sv m.
Proof.
  intros ok tr Hricks Hmode Hdelay Hinit Hd2 Hg0 Hg Hd Hlay Hfin.
  rewrite (raven_homing_runs cfg sv gTime st w p 0 Hmode Hdelay).
  rewrite (ricks_tools_pass_off cfg sv w Hricks), (init_step_no_reset sv st w Hinit).
  cbn [fst snd delay2].
  destruct (control_step_stable sv ok p w) as [Hr5 Hl5].
  set (w5 := control_step sv p w) in *.
  destruct (dev_rel_single _ _ _ _ Hr5 Hd) as (m5 & Hd5 & Hm5).
  pose proof (tool_layout_mech_rel sv _ m m5 Hm5
                ltac:(intros ? ? ? [? _]; assumption) Hlay) as Hlay5.
  destruct (mech_finished_stable sv tr m m5 Hm5 Hlay Hfin) as [Hfin5 Htr5].
  rewrite check_pass_mechs. cbn [snd]. rewrite Hd5. cbn [length seq foldl].
  destruct (check_mech_finished cfg sv ok tr gTime 0 (delay2 st, w5) m5) as
    (m7 & Hm7 & Hst7 & Hfin7 & Htr7 & Hrel7 & Hlog7 & Hcase);
    [cbn; rewrite Hd5; reflexivity | exact Hlay5 | exact Hfin5 |].
  cbn [fst snd] in Hcase, Hm7, Hrel7, Hlog7.
  rewrite decide_True in Hcase by exact Hd2.
  assert (Hfix : ~ gTime > ulong cfg (gTime + 200)).
  { unfold ulong. rewrite Z.mod_small by lia. lia. }
  destruct Hcase as [[_ ->] | [Hg' _]]; [| contradiction]. cbn [fst snd].
  split; [reflexivity |]. split; [congruence |].
  destruct (dev_rel_single _ _ _ _ Hrel7 Hd5) as (m7' & Hd7 & _).
  assert (m7' = m7) as -> by (rewrite Hd7 in Hm7; cbn in Hm7; congruence).
  exists m7. split; [exact Hd7 |]. split; [exact Hfin7 | congruence].
Qed.

Lemma X7_timer_set_on_completion_witness :
  delay2 (fst (raven_homing (Bench.cfg true) Bench.sv 2000 (mkStatics 1 0 0)
                 (mkWorld Bench.ext_init
                    (mkDevice [Bench.mech0 0 GOLD_ARM jstate_hard_stop 5000]) [])
                 Bench.init_params 0)) = 2000
  /\ calibrations
       (w_log (snd (raven_homing (Bench.cfg true) Bench.sv 2000 (mkStatics 1 0 0)
                      (mkWorld Bench.ext_init
                         (mkDevice [Bench.mech0 0 GOLD_ARM jstate_hard_stop 5000]) [])
                      Bench.init_params 0)))
     = calibrations []
  /\ exists m',
       mech (w_dev (snd (raven_homing (Bench.cfg true) Bench.sv 2000 (mkStatics 1 0 0)
                           (mkWorld Bench.ext_init
                              (mkDevice [Bench.mech0 0 GOLD_ARM jstate_hard_stop 5000]) [])
                           Bench.init_params 0))) = [m']
       /\ mech_finished Bench.sv m' = true
       /\ tools_ready Bench.sv m'
          = tools_ready Bench.sv (Bench.mech0 0 GOLD_ARM jstate_hard_stop 5000).
Proof.
  apply (X7_timer_set_on_completion (Bench.cfg true) Bench.sv 2000 (mkStatics 1 0 0)
           (mkWorld Bench.ext_init
              (mkDevice [Bench.mech0 0 GOLD_ARM jstate_hard_stop 5000]) [])
           (Bench.mech0 0 GOLD_ARM jstate_hard_stop 5000) Bench.init_params
           sv_ok sv_tools_ready_ok).
  - reflexivity.
  - reflexivity.
  - vm_compute. intros H. discriminate H.
  - cbn. discriminate.
  - reflexivity.
  - lia.
  - cbn. lia.
  - reflexivity.
  - apply bench_layout.
  - reflexivity.
Defined.

(** ** The run-level gate and the latch *)

(** X8.  Leaving init mode restarts the procedure.  A tick outside init
    mode at time [g1] clears the latch [homing_inited] and sets [delay] to
    [g1], leaves the settle timer, and changes nothing in the device but
    what the block under [RICKS_TOOLS] does.  Back in init mode, the ticks
    at times below [g1 + 1000] do nothing; a tick at [g1 + 1000] or later
    resets the joints whether [begin_homing] is set or not: it has the
    result of the same tick with [begin_homing = 1]. *)
Theorem X8_leaving_init_mode_restarts {num ext : Type} {FO : FloatOps num}
    (cfg : config) (sv : services num ext) (g1 g2 : Z) (st : statics)
    (w1 w2 : world num ext) (p1 p2 : param_pass) (b1 b2 : Z) :
  in_init_mode cfg p1 = false ->
  in_init_mode cfg p2 = true ->
  0 <= g1 <= g2 ->
  g2 < 2 ^ ULONG_BITS cfg ->
  raven_homing cfg sv g1 st w1 p1 b1
  = (mkStatics 0 g1 (delay2 st), ricks_tools_pass cfg sv w1)
  /\ (g2 < g1 + 1000 ->
      raven_homing cfg sv g2 (fst (raven_homing cfg sv g1 st w1 p1 b1)) w2 p2 b2
      = (mkStatics 0 g1 (delay2 st), ricks_tools_pass cfg sv w2))
  /\ (g1 + 1000 <= g2 ->
      raven_homing cfg sv g2 (fst (raven_homing cfg sv g1 st w1 p1 b1)) w2 p2 b2
      = raven_homing cfg sv g2 (fst (raven_homing cfg sv g1 st w1 p1 b1)) w2 p2 1
      /\ snd (raven_homing cfg sv g2 (fst (raven_homing cfg sv g1 st w1 p1 b1)) w2 p2 b2)
         = snd (check_pass cfg sv g2
                  (delay2 st,
                   control_step sv p2
                     (snd (reset_pass sv (0, ricks_tools_pass cfg sv w2)))))).
Proof.
  intros H1 H2 Hg Hw.
  assert (E1 : raven_homing cfg sv g1 st w1 p1 b1
               = (mkStatics 0 g1 (delay2 st), ricks_tools_pass cfg sv w1)).
  { unfold raven_homing. rewrite H1. reflexivity. }
  rewrite E1. cbn [fst].
  assert (Hu : ulong cfg (g2 - g1) = g2 - g1).
  { unfold ulong. apply Z.mod_small. lia. }
  split; [reflexivity |]. split.
  - intros Hlt. unfold raven_homing. rewrite H2. cbn [negb delay].
    rewrite Hu. rewrite decide_True by lia. reflexivity.
  - intros Hge. unfold raven_homing. rewrite H2. cbn [negb delay].
    rewrite Hu. destruct (decide (g2 - g1 < 1000)); [lia |].
    unfold init_step, must_reset. cbn [homing_inited delay2].
    rewrite (bool_decide_eq_true_2 (0 = 0)) by reflexivity.
    rewrite !orb_true_r. split; reflexivity.
Qed.

Lemma X8_leaving_init_mode_restarts_witness :
  raven_homing (Bench.cfg true) Bench.sv 5000 (mkStatics 1 0 0)
    (mkWorld Bench.ext_init Bench.one_arm []) (mkParams 2 0) 0
  = (mkStatics 0 5000 (delay2 (mkStatics 1 0 0)),
     ricks_tools_pass (Bench.cfg true) Bench.sv (mkWorld Bench.ext_init Bench.one_arm [])).
Proof.
  exact (proj1 (X8_leaving_init_mode_restarts (Bench.cfg true) Bench.sv 5000 6000
                  (mkStatics 1 0 0) (mkWorld Bench.ext_init Bench.one_arm [])
                  (mkWorld Bench.ext_init Bench.one_arm [])
                  (mkParams 2 0) Bench.init_params 0 0
                  ltac:(reflexivity) ltac:(reflexivity) ltac:(lia) ltac:(cbn; lia))).
Defined.

Lemma reset_pass_latch {num ext : Type} {FO : FloatOps num}
    (sv : services num ext) (n : Z) (w : world num ext) :
  fst (reset_pass sv (n, w)) = 1
  \/ (fst (reset_pass sv (n, w)) = n
      /\ forall i j, (j < MAX_DOF_PER_MECH)%nat -> get_joint (w_dev w) i j = None).
Proof.
  unfold reset_pass. cbn [snd].
  set (body := fun (i j : nat) (iw : Z * world num ext) =>
                 match get_joint (w_dev (snd iw)) i j with
                 | Some _ => (1, on_joint i j (reset_joint sv i j) (snd iw))
                 | None => iw
                 end).
  set (Inv := fun (i k : nat) (iw : Z * world num ext) =>
                dev_rel (fun _ _ _ _ => True) (w_dev w) (w_dev (snd iw))
                /\ (fst iw = 1
                    \/ (fst iw = n
                        /\ forall i' j',
                             (i' < i \/ (i' = i /\ j' < k))%nat ->
                             (j' < MAX_DOF_PER_MECH)%nat ->
                             get_joint (w_dev w) i' j' = None))).
  assert (H : Inv (length (mech (w_dev w))) 0%nat
                  (loop_over_joints (w_dev w) body (n, w))).
  { apply loop_over_joints_ind.
    - split; [apply dev_rel_refl; auto |]. right. split; [reflexivity |].
      intros i' j' Hv. lia.
    - intros i k iw Hi Hk [Hshape Hl]. unfold body.
      destruct (get_joint (w_dev (snd iw)) i k) as [x |] eqn:Hx.
      + split; [| left; reflexivity]. cbn [snd].
        eapply dev_rel_trans; [exact Hshape | | auto].
        apply (on_joint_rel (fun _ _ => True)); auto.
      + split; [exact Hshape |]. destruct Hl as [Hl | [Hl Hnone]]; [left; exact Hl |].
        right. split; [exact Hl |]. intros i' j' Hv Hj'.
        destruct (decide (i' = i /\ j' = k)) as [[-> ->] | Hne];
          [| apply Hnone; [lia | exact Hj']].
        destruct (get_joint (w_dev w) i k) as [x0 |] eqn:Hx0; [| reflexivity].
        destruct (dev_rel_get_joint _ _ _ _ _ _ Hshape Hx0) as (x' & Hx' & _).
        congruence.
    - intros i iw [Hshape Hl]. split; [exact Hshape |].
      destruct Hl as [Hl | [Hl Hnone]]; [left; exact Hl |].
      right. split; [exact Hl |]. intros i' j' Hv Hj'. apply Hnone; [lia | exact Hj']. }
  destruct H as [_ [H | [H Hnone]]]; [left; exact H |].
  right. split; [exact H |]. intros i j Hj.
  destruct (get_joint (w_dev w) i j) as [x |] eqn:Hx; [| reflexivity].
  rewrite <- Hx. apply Hnone; [| exact Hj].
  left. eapply get_joint_lt. exact Hx.
Qed.

(** X9.  The latch [homing_inited] is set inside the initialisation loop,
    by the first joint it visits.  After a tick that runs and resets, the
    latch is 1 as soon as the device has a joint, and the next tick
    resets again only if [begin_homing] is set; on a device without
    mechanisms the latch is left as it was. *)
Theorem X9_latch_set_by_first_joint {num ext : Type} {FO : FloatOps num}
    (cfg : config) (sv : services num ext) (gTime : Z) (st : statics)
    (w : world num ext) (p : param_pass) (b : Z) :
  in_init_mode cfg p = true ->
  ~ ulong cfg (gTime - delay st) < 1000 ->
  must_reset st b = true ->
  (mech (w_dev w) = [] ->
   homing_inited (fst (raven_homing cfg sv gTime st w p b)) = homing_inited st)
  /\ (forall i j x,
        get_joint (w_dev w) i j = Some x ->
        (j < MAX_DOF_PER_MECH)%nat ->
        homing_inited (fst (raven_homing cfg sv gTime st w p b)) = 1
        /\ must_reset (fst (raven_homing cfg sv gTime st w p b)) 0 = false).
Proof.
  intros Hmode Hdelay Hreset.
  rewrite (raven_homing_runs cfg sv gTime st w p b Hmode Hdelay).
  cbn [fst homing_inited]. unfold init_step. rewrite Hreset.
  destruct (ricks_tools_pass_spec cfg sv w) as [Hr0 _].
  set (w0 := ricks_tools_pass cfg sv w) in *.
  split.
  - intros Hd. destruct Hr0 as [Hlen _]. rewrite Hd in Hlen.
    unfold reset_pass, loop_over_joints, joint_indices. cbn [snd].
    rewrite Hlen. reflexivity.
  - intros i j x Hx Hj.
    destruct (dev_rel_get_joint _ _ _ _ _ _ Hr0 Hx) as (x' & Hx' & _).
    destruct (reset_pass_latch sv (homing_inited st) w0) as [H | [_ Hnone]].
    + split; [exact H |].
      unfold must_reset. cbn [homing_inited]. rewrite H. reflexivity.
    + rewrite (Hnone i j Hj) in Hx'. discriminate Hx'.
Qed.

Lemma X9_latch_set_by_first_joint_witness :
  homing_inited (fst (raven_homing (Bench.cfg true) Bench.sv 2000 (mkStatics 0 0 0)
                        (mkWorld Bench.ext_init Bench.one_arm [])
                        Bench.init_params 0)) = 1
  /\ must_reset (fst (raven_homing (Bench.cfg true) Bench.sv 2000 (mkStatics 0 0 0)
                        (mkWorld Bench.ext_init Bench.one_arm [])
                        Bench.init_params 0)) 0 = false.
Proof.
  destruct (X9_latch_set_by_first_joint (Bench.cfg true) Bench.sv 2000 (mkStatics 0 0 0)
              (mkWorld Bench.ext_init Bench.one_arm []) Bench.init_params 0)
    as [_ H].
  - reflexivity.
  - vm_compute. intros H. discriminate H.
  - reflexivity.
  - apply (H 0%nat 0%nat (Bench.joint0 0 jstate_wait 5000)).
    + reflexivity.
    + unfold MAX_DOF_PER_MECH. lia.
Defined.

(** ** The completion test *)

Lemma joint_state_is_false {num : Type} (m : mechanism num) (k : nat) (x : DOF num)
    (s : jstate) :
  joint m !! k = Some x -> state x <> s -> joint_state_is m k s = false.
Proof.
  intros Hx Hs. unfold joint_state_is. rewrite Hx.
  apply bool_decide_eq_false_2. exact Hs.
Qed.

Lemma mech_finished_group {num ext : Type} (sv : services num ext)
    (m : mechanism num) :
  (mech_finished sv m = true
   <-> forall k, k ∈ active_group sv m ->
         exists x, joint m !! k = Some x /\ state x = jstate_hard_stop)
  /\ (forall k x, k ∈ active_group sv m -> joint m !! k = Some x ->
       state x <> jstate_hard_stop -> mech_finished sv m = false).
Proof.
  unfold mech_finished, active_group.
  destruct (tools_ready sv m); cbn [negb andb orb]; rewrite ?orb_false_r; split.
  - rewrite !andb_true_iff, !joint_state_is_true. split.
    + intros [[H0 H1] H2] k Hk. repeat (apply elem_of_cons in Hk as [-> | Hk]; [assumption |]).
      apply elem_of_nil in Hk. contradiction.
    + intros H. repeat split; apply H; repeat constructor.
  - intros k x Hk Hx Hs.
    repeat (apply elem_of_cons in Hk as [-> | Hk];
            [rewrite (joint_state_is_false m _ x _ Hx Hs);
             rewrite ?andb_false_r; reflexivity |]).
    apply elem_of_nil in Hk. contradiction.
  - rewrite !andb_true_iff, !joint_state_is_true. split.
    + intros [[H0 H1] H2] k Hk. repeat (apply elem_of_cons in Hk as [-> | Hk]; [assumption |]).
      apply elem_of_nil in Hk. contradiction.
    + intros H. repeat split; apply H; repeat constructor.
  - intros k x Hk Hx Hs.
    repeat (apply elem_of_cons in Hk as [-> | Hk];
            [rewrite (joint_state_is_false m _ x _ Hx Hs);
             rewrite ?andb_false_r; reflexivity |]).
    apply elem_of_nil in Hk. contradiction.
Qed.

(** X10.  The completion test of a mechanism looks at exactly three
    joints: the tool rotation, the wrist and the first grasper while the
    tools are not ready, the shoulder, the elbow and the insertion once
    they are.  With the settle timer expired, the block at the last joint
    of the mechanism makes the calibration call (and clears the timer) if
    these three joints are all in [jstate_hard_stop], whatever the state
    of the second grasper and of the unused slot; if one of the three is
    in another state, the block changes nothing: timer, device and log
    are returned as they are. *)
Theorem X10_completion_test_joints {num ext : Type} {FO : FloatOps num}
    (cfg : config) (sv : services num ext) (gTime : Z) (i : nat) (d2 : Z)
    (w : world num ext) (m : mechanism num) :
  mech (w_dev w) !! i = Some m ->
  d2 <> 0 ->
  gTime > ulong cfg (d2 + 200) ->
  ((forall k, k ∈ active_group sv m ->
      exists x, joint m !! k = Some x /\ state x = jstate_hard_stop) ->
   fst (synchronize cfg sv gTime i (d2, w)) = 0
   /\ w_log (snd (synchronize cfg sv gTime i (d2, w)))
      = w_log w ++ [Ev_calibrate i (negb (tools_ready sv m))])
  /\ (forall k x,
        k ∈ active_group sv m -> joint m !! k = Some x ->
        state x <> jstate_hard_stop ->
        synchronize cfg sv gTime i (d2, w) = (d2, w)).
Proof.
  intros Hm Hd2 Hg.
  destruct (mech_finished_group sv m) as [Hiff Hfalse].
  unfold synchronize. cbn [fst snd]. rewrite Hm. split.
  - intros Hall. rewrite (proj2 Hiff Hall).
    rewrite (decide_False (P := d2 = 0)) by exact Hd2.
    rewrite decide_True by exact Hg.
    destruct (set_joints_known_pos cfg sv (w_ext w) m (negb (tools_ready sv m))) as [e m'].
    split; reflexivity.
  - intros k x Hk Hx Hs. rewrite (Hfalse k x Hk Hx Hs). reflexivity.
Qed.

Lemma X10_completion_test_joints_witness :
  synchronize (Bench.cfg true) Bench.sv 1300 0
    (1000,
     mkWorld Bench.ext_init
       (mkDevice
          [mkMech GOLD_ARM
             (<[WRIST := Bench.joint0 5 jstate_pos_unknown 5000]>
                (joint (Bench.mech0 0 GOLD_ARM jstate_hard_stop 5000)))])
       [])
  = (1000,
     mkWorld Bench.ext_init
       (mkDevice
          [mkMech GOLD_ARM
             (<[WRIST := Bench.joint0 5 jstate_pos_unknown 5000]>
                (joint (Bench.mech0 0 GOLD_ARM jstate_hard_stop 5000)))])
       []).
Proof.
  refine (proj2 (X10_completion_test_joints (Bench.cfg true) Bench.sv 1300 0 1000
                   (mkWorld Bench.ext_init
                      (mkDevice
                         [mkMech GOLD_ARM
                            (<[WRIST := Bench.joint0 5 jstate_pos_unknown 5000]>
                               (joint (Bench.mech0 0 GOLD_ARM jstate_hard_stop 5000)))])
                      [])
                   (mkMech GOLD_ARM
                      (<[WRIST := Bench.joint0 5 jstate_pos_unknown 5000]>
                         (joint (Bench.mech0 0 GOLD_ARM jstate_hard_stop 5000))))
                   _ _ _)
            WRIST (Bench.joint0 5 jstate_pos_unknown 5000) _ _ _).
  - reflexivity.
  - lia.
  - vm_compute. reflexivity.
  - vm_compute. repeat constructor.
  - reflexivity.
  - cbn. discriminate.
Defined.

(** ** The calibration routine, again *)

(** X11.  [set_joints_known_pos] returns a mechanism with the same arm
    type and as many joints.  Of a joint it never changes the type, the
    encoder count, the command, the desired torque or the desired
    velocity, and it leaves the state unless it sets it to
    [jstate_homing1]; a joint beyond the eighth is not visited and keeps
    its state and its desired position. *)
Theorem X11_calibration_frame {num ext : Type} {FO : FloatOps num} (cfg : config)
    (sv : services num ext) (e : ext) (_mech : mechanism num) (tool_only : bool) :
  services_ok sv ->
  mech_type (snd (set_joints_known_pos cfg sv e _mech tool_only)) = mech_type _mech
  /\ length (joint (snd (set_joints_known_pos cfg sv e _mech tool_only)))
     = length (joint _mech)
  /\ forall j x,
       joint _mech !! j = Some x ->
       exists y,
         joint (snd (set_joints_known_pos cfg sv e _mech tool_only)) !! j = Some y
         /\ type y = type x /\ enc_val y = enc_val x
         /\ current_cmd y = current_cmd x
         /\ tau_d y = tau_d x /\ jvel_d y = jvel_d x
         /\ (state y = state x \/ state y = jstate_homing1)
         /\ ((MAX_DOF_PER_MECH <= j)%nat -> state y = state x /\ jpos_d y = jpos_d x).
Proof.
  intros ok.
  pose proof (set_joints_known_pos_spec cfg sv ok e _mech tool_only) as Hrel.
  split; [apply Hrel |]. split; [apply Hrel |].
  intros j x Hx. destruct (mech_rel_lookup _ _ _ _ _ Hrel Hx) as (y & Hy & HR).
  exists y. split; [exact Hy |].
  destruct HR as (Ht & He & Hc & Hta & Hv & H).
  repeat (split; [assumption |]).
  destruct (decide (j < MAX_DOF_PER_MECH)%nat) as [Hj | Hj].
  - destruct H as (_ & Hs & _). split; [| lia].
    rewrite Hs. apply set_reference_state.
  - destruct H as [Hjd Hs]. split; [left; exact Hs |]. intros _. auto.
Qed.

Lemma X11_calibration_frame_witness :
  mech_type (snd (set_joints_known_pos (Bench.cfg true) Bench.sv Bench.ext_init
                    (Bench.mech0 0 GOLD_ARM jstate_hard_stop 5000) true))
  = mech_type (Bench.mech0 0 GOLD_ARM jstate_hard_stop 5000).
Proof.
  exact (proj1 (X11_calibration_frame (Bench.cfg true) Bench.sv Bench.ext_init
                  (Bench.mech0 0 GOLD_ARM jstate_hard_stop 5000) true sv_ok)).
Defined.

(** ** Tools first *)

Lemma motion_pass_gate {num ext : Type} (sv : services num ext)
    (w : world num ext) :
  services_ok sv ->
  tools_ready_ok sv ->
  (forall m, m ∈ mech (w_dev w) -> tool_layout sv m) ->
  dev_rel (motion_gate sv (w_dev w)) (w_dev w) (w_dev (motion_pass sv w)).
Proof.
  intros ok tr Hlay. unfold motion_pass.
  set (body := fun (i j : nat) (w : world num ext) =>
                 match mech (w_dev w) !! i, get_joint (w_dev w) i j with
                 | Some m, Some x =>
                     if is_toolDOF sv (type x) || tools_ready sv m
                     then on_joint i j (homing sv) w
                     else w
                 | _, _ => w
                 end).
  destruct (loop_over_joints_visit_ind (fun w' : world num ext => w_dev w')
              (fun _ _ _ => True) (motion_gate sv (w_dev w)) body w)
    as [_ Hrel]; [exact I | | auto |].
  - intros i k w' Hk _ Hrel. split; [exact I |]. unfold body.
    destruct (get_joint (w_dev w') i k) as [x |] eqn:Hx;
      [| destruct (mech (w_dev w') !! i); reflexivity].
    pose proof (vis_rel_unvisited _ _ _ _ _ _ Hrel Hx) as Hx0.
    destruct (mech (w_dev w') !! i) as [m |] eqn:Hm;
      [| unfold get_joint in Hx; rewrite Hm in Hx; discriminate].
    assert (exists m0, mech (w_dev w) !! i = Some m0 /\ joint m0 !! k = Some x)
      as (m0 & Hm0 & Hxm0).
    { unfold get_joint in Hx0. destruct (mech (w_dev w) !! i) as [m0 |]; [| discriminate].
      eauto. }
    destruct (Hlay m0 (list_elem_of_lookup_2 _ _ _ Hm0)) as [Hl0 Hty0].
    pose proof (Hty0 k x Hxm0) as Htx.
    destruct (is_toolDOF sv (type x)) eqn:Ht; cbn [orb].
    + pose proof (on_joint_spec i k (homing sv) w') as Hspec.
      rewrite Hx in Hspec. destruct Hspec as [Hdev _].
      eexists. split; [exact Hdev |]. unfold motion_gate. rewrite Ht.
      split; [eauto | discriminate].
    + symmetry in Htx. apply bool_decide_eq_false in Htx.
      destruct (tools_ready sv m) eqn:Hr.
      * pose proof (on_joint_spec i k (homing sv) w') as Hspec.
        rewrite Hx in Hspec. destruct Hspec as [Hdev _].
        eexists. split; [exact Hdev |]. unfold motion_gate. rewrite Ht.
        split; [discriminate |]. intros _ m0' Hm0' Hnr. exfalso.
        assert (m0' = m0) as -> by congruence.
        assert (tools_ready sv m0 = true) as Hr0; [| congruence].
        apply tr. intros x0 Hin Htool.
        apply list_elem_of_lookup_1 in Hin. destruct Hin as [j0 Hj0].
        pose proof (Hty0 j0 x0 Hj0) as Hj. rewrite Htool in Hj.
        symmetry in Hj. apply bool_decide_eq_true in Hj.
        destruct Hrel as [_ Hmech]. destruct (Hmech i m0 m Hm0 Hm) as (_ & Hlen & Hj').
        destruct (lookup_lt_is_Some_2 (joint m) j0) as [y Hy].
        { rewrite Hlen. eapply lookup_lt_Some; eauto. }
        specialize (Hj' j0 x0 y Hj0 Hy). unfold vis_rel in Hj'.
        rewrite decide_False in Hj' by lia. subst y.
        apply (proj1 (tr m) Hr x0); [eapply list_elem_of_lookup_2; eauto | exact Htool].
      * exists x. split; [symmetry; apply put_joint_same; exact Hx |].
        unfold motion_gate. rewrite Ht. split; [discriminate | auto].
  - eapply dev_rel_mono; [exact Hrel |].
    intros i j x x' Hx. cbn beta.
    destruct (decide (j < MAX_DOF_PER_MECH)%nat) as [Hj | Hj]; [auto |].
    exfalso. apply Hj. unfold get_joint in Hx.
    destruct (mech (w_dev w) !! i) as [m0 |] eqn:Hm0; [| discriminate].
    eapply tool_layout_lt; [| exact Hx].
    apply Hlay. eapply list_elem_of_lookup_2; eauto.
Qed.

(** X12.  Tools first.  The motion loop of a tick hands every tool DOF to
    [homing]; a positioning joint of a mechanism whose tools are not
    ready at the start of the loop is not handed to [homing] and leaves
    the loop exactly as it entered it, whatever its state. *)
Theorem X12_tools_first {num ext : Type} (sv : services num ext)
    (w : world num ext) (i j : nat) (m : mechanism num) (x : DOF num) :
  services_ok sv ->
  tools_ready_ok sv ->
  (forall m, m ∈ mech (w_dev w) -> tool_layout sv m) ->
  mech (w_dev w) !! i = Some m ->
  joint m !! j = Some x ->
  (is_toolDOF sv (type x) = true ->
   exists e, get_joint (w_dev (motion_pass sv w)) i j = Some (snd (fst (homing sv e x))))
  /\ (is_toolDOF sv (type x) = false -> tools_ready sv m = false ->
      get_joint (w_dev (motion_pass sv w)) i j = Some x).
Proof.
  intros ok tr Hlay Hm Hx.
  pose proof (motion_pass_gate sv w ok tr Hlay) as Hrel.
  destruct (dev_rel_get_joint _ _ _ i j x Hrel) as (x' & Hx' & Ht & Hp).
  { unfold get_joint. rewrite Hm. exact Hx. }
  split.
  - intros Htool. destruct (Ht Htool) as [e ->]. eauto.
  - intros Htool Hnr. rewrite <- (Hp Htool m Hm Hnr). exact Hx'.
Qed.

Lemma X12_tools_first_witness :
  get_joint (w_dev (motion_pass Bench.sv
                      (mkWorld Bench.ext_init
                         (mkDevice [Bench.mech0 0 GOLD_ARM jstate_not_ready 5000]) [])))
            0 SHOULDER
  = Some (Bench.joint0 0 jstate_not_ready 5000).
Proof.
  refine (proj2 (X12_tools_first Bench.sv
                   (mkWorld Bench.ext_init
                      (mkDevice [Bench.mech0 0 GOLD_ARM jstate_not_ready 5000]) [])
                   0%nat SHOULDER (Bench.mech0 0 GOLD_ARM jstate_not_ready 5000)
                   (Bench.joint0 0 jstate_not_ready 5000)
                   sv_ok sv_tools_ready_ok _ _ _) _ _).
  - intros m Hm. apply list_elem_of_singleton in Hm. subst m. apply bench_layout.
  - reflexivity.
  - reflexivity.
  - reflexivity.
  - reflexivity.
Defined.

(** ** Ready tools stay ready *)

Section ToolsStayReady.
Context {num ext : Type} {FO : FloatOps num}.
Variable cfg : config.
Variable sv : services num ext.
Hypothesis ok : services_ok sv.
Hypothesis tr : tools_ready_ok sv.
Implicit Types x y : DOF num.
Implicit Types m : mechanism num.
Implicit Types w : world num ext.

Lemma tools_ready_kept m m' :
  mech_rel (fun _ x y =>
              type y = type x
              /\ (is_toolDOF sv (type x) = true -> state x = jstate_ready ->
                  state y = jstate_ready)) m m' ->
  tool_layout sv m -> tools_ready sv m = true ->
  tool_layout sv m' /\ tools_ready sv m' = true.
Proof.
  intros Hrel Hlay Hr. split.
  - eapply tool_layout_mech_rel; [exact Hrel | | exact Hlay].
    intros j x y [Ht _]. exact Ht.
  - apply tr. intros y Hin Htool.
    apply list_elem_of_lookup_1 in Hin. destruct Hin as [j Hy].
    destruct Hrel as (_ & Hlen & Hj).
    destruct (lookup_lt_is_Some_2 (joint m) j) as [x Hx].
    { rewrite <- Hlen. eapply lookup_lt_Some; eauto. }
    destruct (Hj j x y Hx Hy) as [Ht Hs].
    rewrite Ht in Htool. apply Hs; [exact Htool |].
    apply (proj1 (tr m) Hr x); [eapply list_elem_of_lookup_2; eauto | exact Htool].
Qed.

Lemma tools_ready_stable m m' :
  mech_rel (fun _ => stable_rel) m m' ->
  tool_layout sv m -> tools_ready sv m = true ->
  tool_layout sv m' /\ tools_ready sv m' = true.
Proof.
  intros Hrel. apply tools_ready_kept.
  eapply mech_rel_mono; [exact Hrel |].
  intros j x y _ (Ht & _ & Hs). split; [exact Ht | intros _; exact Hs].
Qed.

Lemma check_mech_tools_ready (gTime : Z) (i k : nat) (tw : Z * world num ext) m :
  mech (w_dev (snd tw)) !! i = Some m ->
  tool_layout sv m -> tools_ready sv m = true ->
  exists m',
    mech (w_dev (snd (check_mech cfg sv gTime k tw))) !! i = Some m'
    /\ tool_layout sv m' /\ tools_ready sv m' = true.
Proof.
  intros Hm Hlay Hr. unfold check_mech.
  destruct (detect_steps_spec cfg sv ok k (seq 0 (MAX_DOF_PER_MECH - 1)) (snd tw))
    as [H7 _].
  fold (detect_upto7 cfg sv k (snd tw)) in H7.
  set (w7 := detect_upto7 cfg sv k (snd tw)) in *.
  assert (H7s : dev_rel (fun _ _ => stable_rel) (w_dev (snd tw)) (w_dev w7)).
  { eapply dev_rel_mono; [exact H7 |]. intros i' j x y _. apply det_rel_stable. }
  destruct (dev_rel_mech _ _ _ _ _ H7s Hm) as (m7 & Hm7 & Hrel7).
  destruct (tools_ready_stable m m7 Hrel7 Hlay Hr) as [Hlay7 Hr7].
  destruct (get_joint (w_dev w7) k (MAX_DOF_PER_MECH - 1)); [| cbn [snd]; eauto].
  set (w8 := on_joint k (MAX_DOF_PER_MECH - 1) (detect cfg sv (MAX_DOF_PER_MECH - 1)) w7).
  assert (H8s : dev_rel (fun _ _ => stable_rel) (w_dev w7) (w_dev w8)).
  { apply on_joint_rel; [apply stable_rel_refl |].
    intros e x. apply (det_rel_stable k k). apply detect_det_rel. exact ok. }
  destruct (dev_rel_mech _ _ _ _ _ H8s Hm7) as (m8 & Hm8 & Hrel8).
  destruct (tools_ready_stable m7 m8 Hrel8 Hlay7 Hr7) as [Hlay8 Hr8].
  destruct (synchronize_cases cfg sv gTime k (fst tw, w8))
    as [-> | [(mk & _ & _ & _ & ->) | (mk & Hmk & _ & _ & _ & Hdev & _)]];
    cbn [fst snd] in *; [eauto | eauto |].
  rewrite Hdev. unfold put_mech. cbn [mech].
  destruct (decide (i = k)) as [<- | Hne].
  - assert (mk = m8) as -> by congruence. rewrite Hr8. cbn [negb].
    rewrite list_lookup_insert_eq by (eapply lookup_lt_Some; eauto).
    eexists. split; [reflexivity |].
    apply (tools_ready_kept m8); [| exact Hlay8 | exact Hr8].
    eapply mech_rel_mono; [apply (set_joints_known_pos_spec cfg sv ok) |].
    intros j x y _ (Ht & _ & _ & _ & _ & H). split; [exact Ht |].
    intros Htool Hs.
    destruct (decide (j < MAX_DOF_PER_MECH)%nat).
    + destruct H as (_ & Hsy & _). rewrite Hsy. unfold set_reference.
      rewrite Htool. cbn. exact Hs.
    + destruct H as [_ Hsy]. congruence.
  - rewrite list_lookup_insert_ne by congruence. eauto.
Qed.

Lemma check_pass_tools_ready (gTime : Z) (i : nat) (tw : Z * world num ext) m :
  mech (w_dev (snd tw)) !! i = Some m ->
  tool_layout sv m -> tools_ready sv m = true ->
  exists m',
    mech (w_dev (snd (check_pass cfg sv gTime tw))) !! i = Some m'
    /\ tool_layout sv m' /\ tools_ready sv m' = true.
Proof.
  rewrite check_pass_mechs.
  generalize (seq 0 (length (mech (w_dev (snd tw))))). intros l.
  revert tw m. induction l as [| k l IH]; intros tw m Hm Hlay Hr; cbn [foldl].
  - eauto.
  - destruct (check_mech_tools_ready gTime i k tw m Hm Hlay Hr) as (m1 & Hm1 & Hl1 & Hr1).
    exact (IH _ m1 Hm1 Hl1 Hr1).
Qed.

End ToolsStayReady.

Lemma no_reset_tools_ready {num ext : Type} {FO : FloatOps num}
    (cfg : config) (sv : services num ext) (gTime d2 : Z) (p : param_pass)
    (w : world num ext) (i : nat) (m : mechanism num) :
  services_ok sv ->
  tools_ready_ok sv ->
  mech (w_dev w) !! i = Some m ->
  tool_layout sv m ->
  tools_ready sv m = true ->
  exists m',
    mech (w_dev (snd (check_pass cfg sv gTime (d2, control_step sv p w)))) !! i = Some m'
    /\ tool_layout sv m' /\ tools_ready sv m' = true.
Proof.
  intros ok tr Hm Hlay Hr.
  destruct (control_step_stable sv ok p w) as [H5 _].
  destruct (dev_rel_mech _ _ _ _ _ H5 Hm) as (m5 & Hm5 & Hrel5).
  destruct (tools_ready_stable sv tr m m5 Hrel5 Hlay Hr) as [Hlay5 Hr5].
  exact (check_pass_tools_ready cfg sv ok tr gTime i
           (d2, control_step sv p w) m5 Hm5 Hlay5 Hr5).
Qed.

(** X13.  Ready tools stay ready.  In a tick that runs without resetting
    (build without [RICKS_TOOLS]), a mechanism whose tools are ready at
    the start of the tick has its tools ready at the end of it: no tool
    DOF leaves [jstate_ready]. *)
Theorem X13_ready_tools_stay_ready {num ext : Type} {FO : FloatOps num}
    (cfg : config) (sv : services num ext) (gTime : Z) (st : statics)
    (w : world num ext) (p : param_pass) (b : Z) (i : nat) (m : mechanism num) :
  services_ok sv ->
  tools_ready_ok sv ->
  RICKS_TOOLS cfg = false ->
  in_init_mode cfg p = true ->
  ~ ulong cfg (gTime - delay st) < 1000 ->
  must_reset st b = false ->
  mech (w_dev w) !! i = Some m ->
  tool_layout sv m ->
  tools_ready sv m = true ->
  exists m',
    mech (w_dev (snd (raven_homing cfg sv gTime st w p b))) !! i = Some m'
    /\ tools_ready sv m' = true
    /\ forall j x', joint m' !! j = Some x' -> (TOOL_ROT <= j)%nat ->
                    state x' = jstate_ready.
Proof.
  intros ok tr Hricks Hmode Hdelay Hreset Hm Hlay Hr.
  rewrite (raven_homing_runs cfg sv gTime st w p b Hmode Hdelay). cbn [snd].
  unfold ricks_tools_pass, init_step. rewrite Hricks, Hreset. cbn [snd].
  destruct (no_reset_tools_ready cfg sv gTime (delay2 st) p w i m ok tr Hm Hlay Hr)
    as (m' & Hm' & Hlay' & Hr').
  exists m'. split; [exact Hm' |]. split; [exact Hr' |].
  intros j x' Hx' Hj.
  apply (proj1 (tr m') Hr' x'); [eapply list_elem_of_lookup_2; eauto |].
  destruct Hlay' as [_ Ht]. rewrite (Ht j x' Hx').
  apply bool_decide_eq_true_2. exact Hj.
Qed.

Lemma X13_ready_tools_stay_ready_witness :
  exists m',
    mech (w_dev (snd (raven_homing (Bench.cfg true) Bench.sv 2000 (mkStatics 1 0 0)
                        (mkWorld Bench.ext_init
                           (mkDevice
                              [Bench.mech2 0 GOLD_ARM jstate_pos_unknown jstate_ready 5000])
                           [])
                        Bench.init_params 0))) !! 0%nat = Some m'
    /\ tools_ready Bench.sv m' = true
    /\ forall j x', joint m' !! j = Some x' -> (TOOL_ROT <= j)%nat ->
                    state x' = jstate_ready.
Proof.
  apply (X13_ready_tools_stay_ready (Bench.cfg true) Bench.sv 2000 (mkStatics 1 0 0)
           (mkWorld Bench.ext_init
              (mkDevice [Bench.mech2 0 GOLD_ARM jstate_pos_unknown jstate_ready 5000]) [])
           Bench.init_params 0 0%nat
           (Bench.mech2 0 GOLD_ARM jstate_pos_unknown jstate_ready 5000)
           sv_ok sv_tools_ready_ok).
  - reflexivity.
  - reflexivity.
  - vm_compute. intros H. discriminate H.
  - reflexivity.
  - reflexivity.
  - apply bench_layout2.
  - reflexivity.
Defined.

(** ** The build with [RICKS_TOOLS] *)

Lemma ricks_tools_pass_on {num ext : Type} (cfg : config) (sv : services num ext)
    (w : world num ext) :
  RICKS_TOOLS cfg = true ->
  dev_rel (fun _ j x x' =>
             if decide (j < MAX_DOF_PER_MECH)%nat
             then x' = (if is_toolDOF sv (type x) then set_state jstate_ready x else x)
             else x' = x)
          (w_dev w) (w_dev (ricks_tools_pass cfg sv w)).
Proof.
  intros Hricks. unfold ricks_tools_pass. rewrite Hricks.
  destruct (loop_over_joints_visit (fun w' : world num ext => w_dev w')
              (fun _ => True)
              (fun _ _ x x' =>
                 x' = (if is_toolDOF sv (type x) then set_state jstate_ready x else x))
              (fun i j =>
                 on_joint i j
                   (fun e x =>
                      (e, if is_toolDOF sv (type x) then set_state jstate_ready x else x,
                       [])))
              w I) as [_ H]; [| exact H].
  intros i k w0 _ Hk. split; [exact I |].
  pose proof (on_joint_spec i k
                (fun (e : ext) (x : DOF num) =>
                   (e, if is_toolDOF sv (type x) then set_state jstate_ready x else x,
                    @nil event)) w0) as Hspec.
  destruct (get_joint (w_dev w0) i k) as [x |].
  - destruct Hspec as [Hdev _]. eexists. split; [exact Hdev | reflexivity].
  - rewrite Hspec. reflexivity.
Qed.

(** X14.  In the build with [RICKS_TOOLS] every call of [raven_homing]
    first puts the tool DOFs into [jstate_ready], in init mode or not.
    A call that does not reset the joints, that is, any call outside init
    mode or during the start delay, and a call that runs with the latch
    set and [begin_homing] clear, therefore returns every mechanism with
    its tools ready. *)
Theorem X14_ricks_tools_ready {num ext : Type} {FO : FloatOps num}
    (cfg : config) (sv : services num ext) (gTime : Z) (st : statics)
    (w : world num ext) (p : param_pass) (b : Z) (i : nat) (m : mechanism num) :
  services_ok sv ->
  tools_ready_ok sv ->
  RICKS_TOOLS cfg = true ->
  (in_init_mode cfg p = true -> ~ ulong cfg (gTime - delay st) < 1000 ->
   must_reset st b = false) ->
  mech (w_dev w) !! i = Some m ->
  tool_layout sv m ->
  exists m',
    mech (w_dev (snd (raven_homing cfg sv gTime st w p b))) !! i = Some m'
    /\ tools_ready sv m' = true.
Proof.
  intros ok tr Hricks Hreset Hm Hlay.
  pose proof (ricks_tools_pass_on cfg sv w Hricks) as H0.
  destruct (dev_rel_mech _ _ _ _ _ H0 Hm) as (m0 & Hm0 & Hrel0).
  assert (Hlay0 : tool_layout sv m0).
  { eapply tool_layout_mech_rel; [exact Hrel0 | | exact Hlay].
    intros j x y. cbn beta.
    destruct (decide (j < MAX_DOF_PER_MECH)%nat); intros ->; [| reflexivity].
    destruct (is_toolDOF sv (type x)); reflexivity. }
  assert (Hr0 : tools_ready sv m0 = true).
  { apply tr. intros y Hin Htool.
    apply list_elem_of_lookup_1 in Hin. destruct Hin as [j Hy].
    destruct Hrel0 as (_ & Hlen & Hj).
    destruct (lookup_lt_is_Some_2 (joint m) j) as [x Hx].
    { rewrite <- Hlen. eapply lookup_lt_Some; eauto. }
    specialize (Hj j x y Hx Hy). cbn beta in Hj.
    rewrite decide_True in Hj by (eapply tool_layout_lt; eauto).
    subst y. destruct (is_toolDOF sv (type x)) eqn:Ht; [reflexivity |].
    rewrite Ht in Htool. discriminate Htool. }
  unfold raven_homing.
  destruct (in_init_mode cfg p) eqn:Hmode; cbn [negb]; [| cbn [snd]; eauto].
  destruct (decide (ulong cfg (gTime - delay st) < 1000)) as [Hd | Hd];
    [cbn [snd]; eauto |].
  cbn [snd]. unfold init_step. rewrite (Hreset eq_refl Hd). cbn [snd].
  destruct (no_reset_tools_ready cfg sv gTime (delay2 st) p
              (ricks_tools_pass cfg sv w) i m0 ok tr Hm0 Hlay0 Hr0)
    as (m' & Hm' & _ & Hr').
  eauto.
Qed.

Lemma X14_ricks_tools_ready_witness :
  exists m',
    mech (w_dev (snd (raven_homing (mkConfig false true 1 1 4096 true 64) Bench.sv 2000
                        (mkStatics 0 0 0)
                        (mkWorld Bench.ext_init
                           (mkDevice [Bench.mech0 0 GOLD_ARM jstate_pos_unknown 5000]) [])
                        (mkParams 2 0) 0))) !! 0%nat = Some m'
    /\ tools_ready Bench.sv m' = true.
Proof.
  apply (X14_ricks_tools_ready (mkConfig false true 1 1 4096 true 64) Bench.sv 2000
           (mkStatics 0 0 0)
           (mkWorld Bench.ext_init
              (mkDevice [Bench.mech0 0 GOLD_ARM jstate_pos_unknown 5000]) [])
           (mkParams 2 0) 0 0%nat (Bench.mech0 0 GOLD_ARM jstate_pos_unknown 5000)
           sv_ok sv_tools_ready_ok).
  - reflexivity.
  - intros H. discriminate H.
  - reflexivity.
  - apply bench_layout.
Defined.

(** ** What the last loop leaves behind *)

(** X15.  After a tick that runs, the detector is false on every joint of
    the device: a joint on which it fired has been taken out of
    [jstate_pos_unknown], and no joint is left searching with a command
    at or above its threshold. *)
Theorem X15_no_detection_pending {num ext : Type} {FO : FloatOps num}
    (cfg : config) (sv : services num ext) (gTime : Z) (st : statics)
    (w : world num ext) (p : param_pass) (b : Z) (i j : nat) (x' : DOF num) :
  services_ok sv ->
  in_init_mode cfg p = true ->
  ~ ulong cfg (gTime - delay st) < 1000 ->
  get_joint (w_dev (snd (raven_homing cfg sv gTime st w p b))) i j = Some x' ->
  (j < MAX_DOF_PER_MECH)%nat ->
  check_homing_condition cfg x' = false.
Proof.
  intros ok Hmode Hdelay. rewrite (raven_homing_runs cfg sv gTime st w p b Hmode Hdelay).
  cbn [snd]. intros Hx' Hj.
  pose proof (check_pass_rel cfg sv ok gTime
                (delay2 st,
                 control_step sv p (snd (init_step sv st b (ricks_tools_pass cfg sv w)))))
    as Hrel.
  destruct (dev_rel_get_joint_r _ _ _ _ _ _ Hrel Hx') as (x & _ & Ht & HR).
  rewrite decide_True in HR by exact Hj. destruct HR as [H1 H2].
  destruct (check_homing_condition cfg x) eqn:Hc.
  - destruct (H1 eq_refl) as [_ Hs]. unfold check_homing_condition.
    rewrite decide_True; [reflexivity |]. destruct Hs as [-> | ->]; discriminate.
  - destruct (H2 eq_refl) as [Hcmd Hs].
    destruct (check_homing_condition cfg x') eqn:Hc'; [| reflexivity].
    apply check_homing_condition_spec in Hc'. destruct Hc' as [Hs' Hge].
    assert (Hsx : state x = jstate_pos_unknown).
    { destruct Hs as [Hs | Hs]; congruence. }
    assert (check_homing_condition cfg x = true); [| congruence].
    apply check_homing_condition_spec. split; [exact Hsx |].
    rewrite <- Hcmd, <- Ht. exact Hge.
Qed.

Lemma X15_no_detection_pending_witness :
  check_homing_condition (Bench.cfg true)
    (set_current_cmd 0 (set_state jstate_pos_unknown
                          (Bench.joint0 4 jstate_not_ready 5000))) = false.
Proof.
  apply (X15_no_detection_pending (Bench.cfg true) Bench.sv 2000 (mkStatics 0 0 0)
           (mkWorld Bench.ext_init Bench.one_arm []) Bench.init_params 1
           0%nat TOOL_ROT _ sv_ok).
  - reflexivity.
  - vm_compute. intros H. discriminate H.
  - vm_compute. reflexivity.
  - unfold MAX_DOF_PER_MECH, TOOL_ROT. lia.
Defined.

Lemma same_estimate_refl {num : Type} (x : DOF num) : same_estimate x x.
Proof. unfold same_estimate. auto. Qed.

Lemma same_estimate_trans {num : Type} (x y z : DOF num) :
  same_estimate x y -> same_estimate y z -> same_estimate x z.
Proof. unfold same_estimate. intuition congruence. Qed.

Lemma detect_same_estimate {num ext : Type} (cfg : config) (sv : services num ext)
    (j : nat) (e : ext) (x : DOF num) :
  services_ok sv -> same_estimate x (snd (fst (detect cfg sv j e x))).
Proof.
  intros ok. unfold detect.
  destruct (check_homing_condition cfg x); [| apply same_estimate_refl].
  pose proof (ok_stop_trajectory sv ok e
                (set_current_cmd 0 (set_state jstate_hard_stop x))) as H.
  destruct (stop_trajectory sv e _) as [e1 j2]. cbn [fst snd] in *.
  destruct (writes_traj_frame _ _ H) as (_ & _ & Hj & Hm & _ & _ & Ho).
  unfold same_estimate. cbn in Hj, Hm, Ho. auto.
Qed.

(** The last loop of a tick, for mechanism [k]: the calibration call it
    logs, and the joints whose estimate it leaves. *)
Lemma check_mech_estimate {num ext : Type} {FO : FloatOps num} (cfg : config)
    (sv : services num ext) (gTime : Z) (k : nat) (tw : Z * world num ext) :
  services_ok sv ->
  exists c,
    calibrations (w_log (snd (check_mech cfg sv gTime k tw)))
    = calibrations (w_log (snd tw)) ++ c
    /\ (c = [] \/ exists t, c = [Ev_calibrate k t])
    /\ dev_rel (fun i _ x y => (i <> k \/ c = []) -> same_estimate x y)
               (w_dev (snd tw)) (w_dev (snd (check_mech cfg sv gTime k tw))).
Proof.
  intros ok. unfold check_mech.
  destruct (detect_steps_spec cfg sv ok k (seq 0 (MAX_DOF_PER_MECH - 1)) (snd tw))
    as [_ H7].
  pose proof (detect_steps_keep cfg sv same_estimate same_estimate_refl
                same_estimate_trans
                (fun j e x => detect_same_estimate cfg sv j e x ok)
                k (seq 0 (MAX_DOF_PER_MECH - 1)) (snd tw)) as D7.
  fold (detect_upto7 cfg sv k (snd tw)) in H7, D7.
  set (w7 := detect_upto7 cfg sv k (snd tw)) in *.
  destruct (get_joint (w_dev w7) k (MAX_DOF_PER_MECH - 1)).
  2: { exists []. cbn [snd]. rewrite app_nil_r. split; [exact H7 |]. split; [auto |].
       eapply dev_rel_mono; [exact D7 |]. auto. }
  set (w8 := on_joint k (MAX_DOF_PER_MECH - 1) (detect cfg sv (MAX_DOF_PER_MECH - 1)) w7).
  assert (H8 : calibrations (w_log w8) = calibrations (w_log (snd tw))).
  { unfold w8. rewrite on_joint_calibrations; [exact H7 |].
    intros e x. apply detect_calibrations. }
  assert (D8 : dev_rel (fun _ _ => same_estimate) (w_dev (snd tw)) (w_dev w8)).
  { eapply dev_rel_R_trans; [apply same_estimate_trans | exact D7 |].
    apply on_joint_rel; [apply same_estimate_refl |].
    intros e x. apply detect_same_estimate. exact ok. }
  destruct (synchronize_cases cfg sv gTime k (fst tw, w8))
    as [-> | [(m & _ & _ & _ & ->) | (m & Hm & _ & _ & _ & Hdev & Hl)]];
    cbn [fst snd] in *.
  - exists []. rewrite app_nil_r. split; [exact H8 |]. split; [auto |].
    eapply dev_rel_mono; [exact D8 |]. auto.
  - exists []. rewrite app_nil_r. split; [exact H8 |]. split; [auto |].
    eapply dev_rel_mono; [exact D8 |]. auto.
  - exists [Ev_calibrate k (negb (tools_ready sv m))].
    rewrite Hl, calibrations_app, H8. split; [reflexivity |]. split; [eauto |].
    rewrite Hdev.
    eapply dev_rel_trans; [exact D8 | |].
    + apply (dev_rel_put_mech
               (fun i _ x y => (i <> k \/ [Ev_calibrate k (negb (tools_ready sv m))] = [])
                               -> same_estimate x y)
               (w_dev w8) k m).
      * exact Hm.
      * destruct (set_joints_known_pos_spec cfg sv ok (w_ext w8) m
                    (negb (tools_ready sv m))) as (Ht & Hlen & _).
        split; [exact Ht |]. split; [exact Hlen |].
        intros j x y _ _ [Hne | Hnil]; [contradiction | discriminate].
      * intros i' j y _ _ _. apply same_estimate_refl.
    + intros i j x y z Hxy Hyz Hc. cbn beta in *.
      eapply same_estimate_trans; [exact Hxy | exact (Hyz Hc)].
Qed.

Lemma check_pass_estimate {num ext : Type} {FO : FloatOps num} (cfg : config)
    (sv : services num ext) (gTime : Z) (tw : Z * world num ext) :
  services_ok sv ->
  exists cs,
    calibrations (w_log (snd (check_pass cfg sv gTime tw)))
    = calibrations (w_log (snd tw)) ++ cs
    /\ dev_rel (fun i _ x y => (forall t, Ev_calibrate i t ∉ cs) -> same_estimate x y)
               (w_dev (snd tw)) (w_dev (snd (check_pass cfg sv gTime tw))).
Proof.
  intros ok. rewrite check_pass_mechs.
  generalize (seq 0 (length (mech (w_dev (snd tw))))). intros l.
  revert tw. induction l as [| k l IH]; intros tw; cbn [foldl].
  - exists []. rewrite app_nil_r. split; [reflexivity |].
    apply dev_rel_refl. intros. apply same_estimate_refl.
  - destruct (check_mech_estimate cfg sv gTime k tw ok) as (c & Hc & Hcase & Hrel).
    destruct (IH (check_mech cfg sv gTime k tw)) as (cs & Hcs & Hrels).
    exists (c ++ cs). rewrite Hcs, Hc, <- app_assoc. split; [reflexivity |].
    eapply dev_rel_trans; [exact Hrel | exact Hrels |].
    intros i j x y z Hxy Hyz Hno. cbn beta in *.
    eapply same_estimate_trans.
    + apply Hxy. destruct Hcase as [-> | [t ->]]; [right; reflexivity |].
      destruct (decide (i = k)) as [-> | Hne]; [| left; exact Hne].
      exfalso. apply (Hno t). apply elem_of_app. left. apply list_elem_of_singleton.
      reflexivity.
    + apply Hyz. intros t Hin. apply (Hno t). apply elem_of_app. right. exact Hin.
Qed.

(** X16.  The measured positions [jpos] and [mpos] and the encoder offset
    of a joint are written by the calibration of its own mechanism and by
    nothing else in [raven_homing]: the calibration calls a tick adds to
    the log are a list [cs] such that every joint of a mechanism that
    [cs] does not name leaves the tick with the [jpos], [mpos] and
    [enc_offset] it entered it with. *)
Theorem X16_estimate_written_by_calibration_only {num ext : Type} {FO : FloatOps num}
    (cfg : config) (sv : services num ext) (gTime : Z) (st : statics)
    (w : world num ext) (p : param_pass) (b : Z) :
  services_ok sv ->
  exists cs,
    calibrations (w_log (snd (raven_homing cfg sv gTime st w p b)))
    = calibrations (w_log w) ++ cs
    /\ forall i j x,
         get_joint (w_dev w) i j = Some x ->
         (forall t, Ev_calibrate i t ∉ cs) ->
         exists x',
           get_joint (w_dev (snd (raven_homing cfg sv gTime st w p b))) i j = Some x'
           /\ jpos x' = jpos x /\ mpos x' = mpos x /\ enc_offset x' = enc_offset x.
Proof.
  intros ok.
  destruct (ricks_tools_pass_spec cfg sv w) as [Hr0 Hl0].
  assert (H0 : dev_rel (fun _ _ => same_estimate) (w_dev w)
                       (w_dev (ricks_tools_pass cfg sv w))).
  { eapply dev_rel_mono; [exact Hr0 |]. intros i j x y _ ->.
    unfold same_estimate. auto. }
  assert (Hidle : exists cs,
             calibrations (w_log (ricks_tools_pass cfg sv w)) = calibrations (w_log w) ++ cs
             /\ forall i j x,
                  get_joint (w_dev w) i j = Some x ->
                  (forall t, Ev_calibrate i t ∉ cs) ->
                  exists x',
                    get_joint (w_dev (ricks_tools_pass cfg sv w)) i j = Some x'
                    /\ jpos x' = jpos x /\ mpos x' = mpos x
                    /\ enc_offset x' = enc_offset x).
  { exists []. rewrite app_nil_r, Hl0. split; [reflexivity |].
    intros i j x Hx _. exact (dev_rel_get_joint _ _ _ _ _ _ H0 Hx). }
  unfold raven_homing.
  destruct (negb (in_init_mode cfg p)); [exact Hidle |].
  destruct (decide (ulong cfg (gTime - delay st) < 1000)); [exact Hidle |].
  clear Hidle. cbn [snd].
  set (w0 := ricks_tools_pass cfg sv w) in *.
  assert (H1 : dev_rel (fun _ _ => same_estimate) (w_dev w0)
                       (w_dev (snd (init_step sv st b w0)))
               /\ calibrations (w_log (snd (init_step sv st b w0)))
                  = calibrations (w_log w0)).
  { unfold init_step. destruct (must_reset st b).
    - destruct (reset_pass_spec sv ok (homing_inited st) w0) as (H & _ & Hc).
      split; [| exact Hc].
      eapply dev_rel_mono; [exact H |]. intros i j x y _. cbn beta.
      destruct (decide (j < MAX_DOF_PER_MECH)%nat); intros ->;
        unfold same_estimate; auto.
    - split; [| reflexivity]. apply dev_rel_refl. intros. apply same_estimate_refl. }
  destruct H1 as [H1 Hc1].
  set (w1 := snd (init_step sv st b w0)) in *.
  destruct (motion_pass_spec sv ok w1) as [H2 Hc2].
  destruct (dac_step_spec sv ok p (motion_pass sv w1)) as [H3 Hc3].
  fold (control_step sv p w1) in H3, Hc3.
  assert (H5 : dev_rel (fun _ _ => same_estimate) (w_dev w) (w_dev (control_step sv p w1))).
  { eapply dev_rel_R_trans; [apply same_estimate_trans | exact H0 |].
    eapply dev_rel_R_trans; [apply same_estimate_trans | exact H1 |].
    eapply dev_rel_trans; [exact H2 | exact H3 |].
    intros i j x y z (_ & _ & _ & Hj & Hm & _ & _ & Ho & _) (_ & Hj' & Hm' & _ & _ & Ho').
    unfold same_estimate. split; [congruence |]. split; congruence. }
  destruct (check_pass_estimate cfg sv gTime (delay2 st, control_step sv p w1) ok)
    as (cs & Hcs & Hrel).
  cbn [snd] in Hcs, Hrel.
  exists cs. split; [rewrite Hcs, Hc3, Hc2, Hc1, Hl0; reflexivity |].
  intros i j x Hx Hno.
  destruct (dev_rel_get_joint _ _ _ _ _ _ H5 Hx) as (x5 & Hx5 & He5).
  destruct (dev_rel_get_joint _ _ _ _ _ _ Hrel Hx5) as (x' & Hx' & He').
  exists x'. split; [exact Hx' |].
  exact (same_estimate_trans _ _ _ He5 (He' Hno)).
Qed.

Lemma X16_estimate_written_by_calibration_only_witness :
  exists cs,
    calibrations
      (w_log (snd (raven_homing (Bench.cfg true) Bench.sv 1203 (mkStatics 1 0 1002)
                     (mkWorld Bench.ext_init Bench.two_arms []) Bench.init_params 0)))
    = calibrations (w_log (mkWorld Bench.ext_init Bench.two_arms [])) ++ cs
    /\ forall i j x,
         get_joint (w_dev (mkWorld Bench.ext_init Bench.two_arms [])) i j = Some x ->
         (forall t, Ev_calibrate i t ∉ cs) ->
         exists x',
           get_joint
             (w_dev (snd (raven_homing (Bench.cfg true) Bench.sv 1203 (mkStatics 1 0 1002)
                            (mkWorld Bench.ext_init Bench.two_arms [])
                            Bench.init_params 0))) i j = Some x'
           /\ jpos x' = jpos x /\ mpos x' = mpos x /\ enc_offset x' = enc_offset x.
Proof.
  exact (X16_estimate_written_by_calibration_only (Bench.cfg true) Bench.sv 1203
           (mkStatics 1 0 1002) (mkWorld Bench.ext_init Bench.two_arms [])
           Bench.init_params 0 sv_ok).
Defined.

(** ** The settle timer of a single mechanism, over a run *)

Section SingleMechanism.
Context {num ext : Type} {FO : FloatOps num}.
Variable cfg : config.
Variable sv : services num ext.
Hypothesis ok : services_ok sv.
Hypothesis tr : tools_ready_ok sv.
Implicit Types x y : DOF num.
Implicit Types m : mechanism num.
Implicit Types w : world num ext.

(** After its calibration the active group is not complete any more. *)
Lemma calibrated_not_finished (e : ext) m :
  tool_layout sv m ->
  tool_layout sv (snd (set_joints_known_pos cfg sv e m (negb (tools_ready sv m))))
  /\ mech_finished sv (snd (set_joints_known_pos cfg sv e m (negb (tools_ready sv m))))
     = false.
Proof.
  intros Hlay.
  pose proof (set_joints_known_pos_spec cfg sv ok e m (negb (tools_ready sv m))) as Hrel.
  set (m' := snd (set_joints_known_pos cfg sv e m (negb (tools_ready sv m)))) in *.
  assert (Hlay' : tool_layout sv m').
  { eapply tool_layout_mech_rel; [exact Hrel | | exact Hlay].
    intros j x y (Ht & _). exact Ht. }
  split; [exact Hlay' |].
  assert (Hat : forall k, (k < MAX_DOF_PER_MECH)%nat ->
                exists x y, joint m !! k = Some x /\ joint m' !! k = Some y
                            /\ type y = type x
                            /\ is_toolDOF sv (type x) = bool_decide (TOOL_ROT <= k)%nat
                            /\ state y = state (set_reference sv (negb (tools_ready sv m)) x)).
  { intros k Hk. destruct Hlay as [Hl Ht].
    destruct (lookup_lt_is_Some_2 (joint m) k) as [x Hx]; [lia |].
    destruct (mech_rel_lookup _ _ _ _ _ Hrel Hx) as (y & Hy & HR).
    exists x, y. split; [exact Hx |]. split; [exact Hy |].
    unfold known_pos_rel in HR. rewrite decide_True in HR by exact Hk.
    destruct HR as (Hty & _ & _ & _ & _ & _ & Hs & _).
    split; [exact Hty |]. split; [apply (Ht k x Hx) | exact Hs]. }
  destruct (tools_ready sv m) eqn:Hr; cbn [negb] in *.
  - (* the positioning joints were calibrated *)
    destruct (Hat SHOULDER) as (x & y & Hx & Hy & Hty & Htool & Hs);
      [unfold SHOULDER, MAX_DOF_PER_MECH; lia |].
    assert (Hr' : tools_ready sv m' = true).
    { apply (tools_ready_kept sv tr m m'); [| exact Hlay | exact Hr].
      eapply mech_rel_mono; [exact Hrel |].
      intros j x0 y0 _ (Ht0 & _ & _ & _ & _ & H). split; [exact Ht0 |].
      intros Htool0 Hs0. destruct (decide (j < MAX_DOF_PER_MECH)%nat).
      - destruct H as (_ & Hsy & _). rewrite Hsy. unfold set_reference.
        rewrite Htool0. cbn. exact Hs0.
      - destruct H as [_ Hsy]. congruence. }
    unfold mech_finished. rewrite Hr'. cbn [negb andb orb].
    rewrite (joint_state_is_false m' SHOULDER y jstate_hard_stop Hy); [reflexivity |].
    rewrite Hs. unfold set_reference. rewrite Htool. cbn. discriminate.
  - (* the tools were calibrated *)
    destruct (Hat TOOL_ROT) as (x & y & Hx & Hy & Hty & Htool & Hs);
      [unfold TOOL_ROT, MAX_DOF_PER_MECH; lia |].
    assert (Hsy : state y = jstate_homing1).
    { rewrite Hs. unfold set_reference. rewrite Htool. cbn. reflexivity. }
    assert (Hr' : tools_ready sv m' = false).
    { apply (tools_not_ready sv m' TOOL_ROT y tr Hy).
      - rewrite Hty, Htool. reflexivity.
      - rewrite Hsy. discriminate. }
    unfold mech_finished. rewrite Hr'. cbn [negb andb orb].
    rewrite (joint_state_is_false m' TOOL_ROT y jstate_hard_stop Hy); [reflexivity |].
    rewrite Hsy. discriminate.
Qed.

(** One tick on a device with one mechanism, without reset: the three
    cases of the settle timer. *)
Lemma tick_single_cases (t : tick_input num) (st : statics) w m :
  RICKS_TOOLS cfg = false ->
  in_init_mode cfg (ti_params t) = true ->
  ti_begin_homing t = 0 ->
  sense_ok (ti_sense t) ->
  ~ ulong cfg (ti_gTime t - delay st) < 1000 ->
  0 < ti_gTime t ->
  ti_gTime t + 200 < 2 ^ ULONG_BITS cfg ->
  0 <= delay2 st <= ti_gTime t ->
  homing_inited st <> 0 ->
  mech (w_dev w) = [m] ->
  tool_layout sv m ->
  (delay2 st <> 0 -> mech_finished sv m = true) ->
  homing_inited (fst (tick cfg sv t (st, w))) = homing_inited st
  /\ delay (fst (tick cfg sv t (st, w))) = delay st
  /\ exists m',
       mech (w_dev (snd (tick cfg sv t (st, w)))) = [m']
       /\ tool_layout sv m'
       /\ ((delay2 st = 0
            /\ calibrations (w_log (snd (tick cfg sv t (st, w)))) = []
            /\ ((mech_finished sv m' = true
                 /\ delay2 (fst (tick cfg sv t (st, w))) = ti_gTime t)
                \/ (mech_finished sv m' = false
                    /\ delay2 (fst (tick cfg sv t (st, w))) = 0)))
           \/ (delay2 st <> 0 /\ ti_gTime t <= delay2 st + 200
               /\ calibrations (w_log (snd (tick cfg sv t (st, w)))) = []
               /\ mech_finished sv m' = true
               /\ delay2 (fst (tick cfg sv t (st, w))) = delay2 st)
           \/ (delay2 st <> 0 /\ delay2 st + 200 < ti_gTime t
               /\ calibrations (w_log (snd (tick cfg sv t (st, w))))
                  = [Ev_calibrate 0 (negb (tools_ready sv m))]
               /\ mech_finished sv m' = false
               /\ delay2 (fst (tick cfg sv t (st, w))) = 0)).
Proof.
  intros Hricks Hmode Hb Hsense Hdelay Hg0 Hg Hd2 Hinit Hd Hlay Hfin.
  unfold tick. cbn [fst snd]. rewrite Hb.
  set (g := ti_gTime t) in *.
  set (ws := mkWorld (w_ext w) (ti_sense t (w_dev w)) []).
  rewrite (raven_homing_runs cfg sv g st ws (ti_params t) 0 Hmode Hdelay).
  rewrite (ricks_tools_pass_off cfg sv ws Hricks), (init_step_no_reset sv st ws Hinit).
  cbn [fst snd homing_inited delay delay2].
  split; [reflexivity |]. split; [reflexivity |].
  (* the sensor update *)
  pose proof (sense_ok_stable (ti_sense t) (w_dev w) Hsense) as Hrs.
  destruct (dev_rel_single _ _ _ _ Hrs Hd) as (ms & Hds & Hms).
  pose proof (tool_layout_mech_rel sv _ m ms Hms
                ltac:(intros ? ? ? [? _]; assumption) Hlay) as Hlays.
  (* the control step *)
  destruct (control_step_stable sv ok (ti_params t) ws) as [Hr5 Hl5].
  set (w5 := control_step sv (ti_params t) ws) in *.
  destruct (dev_rel_single _ _ _ _ Hr5 Hds) as (m5 & Hd5 & Hm5).
  pose proof (tool_layout_mech_rel sv _ ms m5 Hm5
                ltac:(intros ? ? ? [? _]; assumption) Hlays) as Hlay5.
  (* the hard-stop checks *)
  rewrite check_pass_mechs. cbn [snd]. rewrite Hd5. cbn [length seq foldl].
  destruct (detect_all_spec cfg sv ok 0 w5) as [Hr8 Hl8].
  set (w8 := detect_all cfg sv 0 w5) in *.
  assert (Hr8s : dev_rel (fun _ _ => stable_rel) (w_dev w5) (w_dev w8)).
  { eapply dev_rel_mono; [exact Hr8 |]. intros i j x y _. apply det_rel_stable. }
  destruct (dev_rel_single _ _ _ _ Hr8s Hd5) as (m8 & Hd8 & Hm8).
  pose proof (tool_layout_mech_rel sv _ m5 m8 Hm8
                ltac:(intros ? ? ? [? _]; assumption) Hlay5) as Hlay8.
  assert (Hlast : exists y, get_joint (w_dev w5) 0 (MAX_DOF_PER_MECH - 1) = Some y).
  { unfold get_joint. rewrite Hd5. cbn. apply lookup_lt_is_Some_2.
    destruct Hlay5 as [-> _]. unfold MAX_DOF_PER_MECH. lia. }
  destruct Hlast as [y7 Hy7].
  rewrite (check_mech_eq cfg sv ok g 0 (delay2 st, w5) y7 Hy7). cbn [fst snd].
  fold w8.
  assert (Hcal8 : calibrations (w_log w8) = []).
  { rewrite Hl8, Hl5. reflexivity. }
  assert (Hfix : forall d, 0 <= d <= g ->
                 (g > ulong cfg (d + 200)) <-> d + 200 < g).
  { intros d Hdr. unfold ulong. rewrite Z.mod_small by lia. lia. }
  assert (Hl0 : mech (w_dev w8) !! 0%nat = Some m8) by (rewrite Hd8; reflexivity).
  unfold synchronize. cbn [fst snd]. rewrite Hl0.
  destruct (decide (delay2 st = 0)) as [Hz | Hnz].
  - (* the timer is clear *)
    destruct (mech_finished sv m8) eqn:Hf8.
    + rewrite decide_False by (rewrite Hfix; lia). cbn [fst snd].
      exists m8. split; [exact Hd8 |]. split; [exact Hlay8 |].
      left. split; [exact Hz |]. split; [exact Hcal8 |]. left. auto.
    + cbn [fst snd]. exists m8. split; [exact Hd8 |]. split; [exact Hlay8 |].
      left. split; [exact Hz |]. split; [exact Hcal8 |]. right. auto.
  - (* the timer is set: the group is complete, and stays so *)
    pose proof (Hfin Hnz) as Hf.
    destruct (mech_finished_stable sv tr m ms Hms Hlay Hf) as [Hfs Htrs].
    destruct (mech_finished_stable sv tr ms m5 Hm5 Hlays Hfs) as [Hf5 Htr5].
    destruct (mech_finished_stable sv tr m5 m8 Hm8 Hlay5 Hf5) as [Hf8 Htr8].
    rewrite Hf8.
    destruct (decide (g > ulong cfg (delay2 st + 200))) as [Hgt | Hle].
    + apply Hfix in Hgt; [| lia].
      destruct (calibrated_not_finished (w_ext w8) m8 Hlay8) as [Hlay9 Hf9].
      destruct (set_joints_known_pos cfg sv (w_ext w8) m8 (negb (tools_ready sv m8)))
        as [e9 m9] eqn:Hskp.
      cbn [fst snd w_dev w_log] in *.
      exists m9. split; [unfold put_mech; rewrite Hd8; reflexivity |].
      split; [exact Hlay9 |]. right. right.
      split; [exact Hnz |]. split; [exact Hgt |].
      split; [| split; [exact Hf9 | reflexivity]].
      rewrite calibrations_app, Hcal8. cbn. congruence.
    + rewrite Hfix in Hle by lia. cbn [fst snd].
      exists m8. split; [exact Hd8 |]. split; [exact Hlay8 |].
      right. left. split; [exact Hnz |]. split; [lia |].
      split; [exact Hcal8 |]. split; [exact Hf8 | reflexivity].
Qed.


Lemma run_length (ts : list (tick_input num)) (s : statics * world num ext) :
  length (run cfg sv ts s) = length ts.
Proof. revert s. induction ts as [| t ts IH]; intros s; cbn; auto. Qed.

Lemma run_snoc (ts : list (tick_input num)) (t : tick_input num)
    (s : statics * world num ext) :
  run cfg sv (ts ++ [t]) s = run cfg sv ts s ++ [tick cfg sv t (run_end cfg sv ts s)].
Proof.
  revert s. induction ts as [| t0 ts IH]; intros s; cbn; [reflexivity |].
  rewrite IH. reflexivity.
Qed.

Lemma run_end_snoc (ts : list (tick_input num)) (t : tick_input num)
    (s : statics * world num ext) :
  run_end cfg sv (ts ++ [t]) s = tick cfg sv t (run_end cfg sv ts s).
Proof. unfold run_end. rewrite foldl_app. reflexivity. Qed.

Lemma run_last (ts : list (tick_input num)) (s : statics * world num ext) :
  (0 < length ts)%nat ->
  run cfg sv ts s !! (length ts - 1)%nat = Some (run_end cfg sv ts s).
Proof.
  destruct ts as [| t ts _] using rev_ind; [cbn; lia |]. intros _.
  rewrite run_snoc, run_end_snoc, length_app. cbn [length].
  replace (length ts + 1 - 1)%nat with (length (run cfg sv ts s) + 0)%nat
    by (rewrite run_length; lia).
  rewrite lookup_app_r by lia.
  replace (length (run cfg sv ts s) + 0 - length (run cfg sv ts s))%nat with 0%nat by lia.
  reflexivity.
Qed.

Lemma complete_after_app (l1 l2 : list (statics * world num ext)) (j : nat) :
  (j < length l1)%nat -> complete_after sv (l1 ++ l2) j = complete_after sv l1 j.
Proof. intros Hj. unfold complete_after. rewrite lookup_app_l by exact Hj. reflexivity. Qed.

Lemma complete_after_last (l : list (statics * world num ext))
    (sw : statics * world num ext) m :
  mech (w_dev (snd sw)) = [m] ->
  complete_after sv (l ++ [sw]) (length l) = mech_finished sv m.
Proof.
  intros Hm. unfold complete_after.
  replace (length l) with (length l + 0)%nat at 1 by lia.
  rewrite lookup_app_r by lia.
  replace (length l + 0 - length l)%nat with 0%nat by lia. cbn. rewrite Hm. reflexivity.
Qed.


(** The run of a device with one mechanism from a state with the settle
    timer clear: the timer is the tick from which the group has been
    complete without interruption, and a calibration call is made exactly
    when that was 201 ticks before. *)
Lemma single_run_inv (g0 : Z) (st0 : statics) (w0 : world num ext) m0
    (ts : list (tick_input num)) :
  RICKS_TOOLS cfg = false ->
  0 < g0 ->
  g0 + Z.of_nat (length ts) + 200 < 2 ^ ULONG_BITS cfg ->
  homing_inited st0 <> 0 ->
  delay2 st0 = 0 ->
  mech (w_dev w0) = [m0] ->
  tool_layout sv m0 ->
  (forall k t, ts !! k = Some t ->
     ti_gTime t = g0 + Z.of_nat k
     /\ in_init_mode cfg (ti_params t) = true
     /\ ti_begin_homing t = 0
     /\ sense_ok (ti_sense t)
     /\ ~ ulong cfg (ti_gTime t - delay st0) < 1000) ->
  (homing_inited (fst (run_end cfg sv ts (st0, w0))) <> 0
   /\ delay (fst (run_end cfg sv ts (st0, w0))) = delay st0
   /\ exists mE,
        mech (w_dev (snd (run_end cfg sv ts (st0, w0)))) = [mE]
        /\ tool_layout sv mE
        /\ ((delay2 (fst (run_end cfg sv ts (st0, w0))) = 0
             /\ (length ts = 0%nat
                 \/ complete_after sv (run cfg sv ts (st0, w0)) (length ts - 1) = false))
            \/ (exists s : nat,
                  (s < length ts)%nat
                  /\ delay2 (fst (run_end cfg sv ts (st0, w0))) = g0 + Z.of_nat s
                  /\ (length ts - s <= 201)%nat
                  /\ mech_finished sv mE = true
                  /\ (forall j, (s <= j < length ts)%nat ->
                                complete_after sv (run cfg sv ts (st0, w0)) j = true)
                  /\ (s = 0%nat
                      \/ complete_after sv (run cfg sv ts (st0, w0)) (s - 1) = false))))
  /\ forall k sw,
       run cfg sv ts (st0, w0) !! k = Some sw ->
       (calibrations (w_log (snd sw)) = []
        /\ ~ ((201 <= k)%nat
              /\ forall j, (k - 201 <= j < k)%nat ->
                           complete_after sv (run cfg sv ts (st0, w0)) j = true))
       \/ ((201 <= k)%nat
           /\ (forall j, (k - 201 <= j < k)%nat ->
                         complete_after sv (run cfg sv ts (st0, w0)) j = true)
           /\ exists sw' m',
                run cfg sv ts (st0, w0) !! (k - 1)%nat = Some sw'
                /\ mech (w_dev (snd sw')) = [m']
                /\ calibrations (w_log (snd sw))
                   = [Ev_calibrate 0 (negb (tools_ready sv m'))]).
Proof.
  intros Hricks Hg0 Hbound Hinit0 Hd20 Hd0 Hlay0.
  induction ts as [| t ts IH] using rev_ind; intros Hts.
  { split; [| intros k sw Hk; discriminate Hk].
    cbn. split; [exact Hinit0 |]. split; [reflexivity |].
    exists m0. split; [exact Hd0 |]. split; [exact Hlay0 |]. left. auto. }
  rewrite length_app in Hbound. cbn [length] in Hbound.
  destruct IH as [(HinitE & HdelE & mE & HdE & HlayE & Htimer) Hhist].
  { lia. }
  { intros k t0 Hk. apply Hts. apply lookup_app_l_Some. exact Hk. }
  destruct (Hts (length ts) t) as (Hgt & Hmode & Hb & Hsense & Hdelay).
  { replace (length ts) with (length ts + 0)%nat at 1 by lia.
    rewrite lookup_app_r by lia.
    replace (length ts + 0 - length ts)%nat with 0%nat by lia. reflexivity. }
  set (L := run cfg sv ts (st0, w0)) in *.
  assert (HlenL : length L = length ts) by apply run_length.
  remember (length ts) as n eqn:Hn.
  destruct (run_end cfg sv ts (st0, w0)) as [stE wE] eqn:HE.
  cbn [fst snd] in HinitE, HdelE, HdE, Htimer.
  assert (HlastL : (0 < n)%nat -> L !! (n - 1)%nat = Some (stE, wE)).
  { intros Hpos. unfold L. rewrite <- HE, Hn. apply run_last. lia. }
  destruct (tick_single_cases t stE wE mE Hricks Hmode Hb Hsense) as
    (Hinit' & Hdel' & m' & Hd' & Hlay' & Hcase).
  { rewrite HdelE. exact Hdelay. }
  { lia. }
  { lia. }
  { destruct Htimer as [[-> _] | (s & Hs & -> & _)]; lia. }
  { exact HinitE. }
  { exact HdE. }
  { exact HlayE. }
  { intros Hnz. destruct Htimer as [[Hz _] | (s & _ & _ & _ & Hf & _)];
      [contradiction | exact Hf]. }
  rewrite run_snoc, run_end_snoc, HE. fold L.
  set (sw1 := tick cfg sv t (stE, wE)) in *.
  rewrite length_app. cbn [length]. rewrite <- Hn.
  replace (n + 1 - 1)%nat with n by lia.
  assert (Hcn : complete_after sv (L ++ [sw1]) n = mech_finished sv m').
  { rewrite <- HlenL. apply complete_after_last. exact Hd'. }
  assert (Hold : forall j, (j < n)%nat ->
                 complete_after sv (L ++ [sw1]) j = complete_after sv L j).
  { intros j Hj. apply complete_after_app. lia. }
  (* the history of the ticks before this one *)
  assert (Hprev : forall k sw, (k < n)%nat -> (L ++ [sw1]) !! k = Some sw ->
            (calibrations (w_log (snd sw)) = []
             /\ ~ ((201 <= k)%nat
                   /\ forall j, (k - 201 <= j < k)%nat ->
                                complete_after sv (L ++ [sw1]) j = true))
            \/ ((201 <= k)%nat
                /\ (forall j, (k - 201 <= j < k)%nat ->
                              complete_after sv (L ++ [sw1]) j = true)
                /\ exists sw' m'0,
                     (L ++ [sw1]) !! (k - 1)%nat = Some sw'
                     /\ mech (w_dev (snd sw')) = [m'0]
                     /\ calibrations (w_log (snd sw))
                        = [Ev_calibrate 0 (negb (tools_ready sv m'0))])).
  { intros k sw Hk Hsw. rewrite lookup_app_l in Hsw by lia.
    destruct (Hhist k sw Hsw) as [[Hc Hno] | (Hk201 & Hall & sw' & m'0 & Hsw' & Hm'0 & Hc)].
    - left. split; [exact Hc |]. intros [Hk201 Hall]. apply Hno. split; [exact Hk201 |].
      intros j Hj. rewrite <- Hold by lia. apply Hall. exact Hj.
    - right. split; [exact Hk201 |]. split.
      + intros j Hj. rewrite Hold by lia. apply Hall. exact Hj.
      + exists sw', m'0. rewrite lookup_app_l by lia. auto. }
  assert (Hthis : forall k sw, (L ++ [sw1]) !! k = Some sw -> ~ (k < n)%nat ->
                  k = n /\ sw = sw1).
  { intros k sw Hsw Hk.
    assert (k < length (L ++ [sw1]))%nat by (eapply lookup_lt_Some; eauto).
    rewrite length_app in H. cbn in H.
    assert (k = n) as -> by lia. split; [reflexivity |].
    replace n with (length L + 0)%nat in Hsw by lia.
    rewrite lookup_app_r in Hsw by lia.
    replace (length L + 0 - length L)%nat with 0%nat in Hsw by lia.
    cbn in Hsw. congruence. }
  split.
  - (* the state after this tick *)
    split; [rewrite Hinit'; exact HinitE |]. split; [rewrite Hdel'; exact HdelE |].
    exists m'. split; [exact Hd' |]. split; [exact Hlay' |].
    destruct Hcase as [(Hz & _ & [[Hf Ht] | [Hf Ht]])
                      | [(Hnz & Hle & _ & Hf & Ht) | (Hnz & Hlt & _ & Hf & Ht)]].
    + right. exists n. split; [lia |]. split; [rewrite Ht; lia |].
      split; [lia |]. split; [exact Hf |]. split.
      * intros j Hj. assert (j = n) as -> by lia. rewrite Hcn. exact Hf.
      * destruct Htimer as [[_ [Hn0 | Hn0]] | (s & Hs & Hd2 & _)].
        -- left. exact Hn0.
        -- destruct (decide (n = 0%nat)) as [Hz0 | Hz0]; [left; exact Hz0 |].
           right. rewrite Hold by lia. exact Hn0.
        -- exfalso. rewrite Hd2 in Hz. lia.
    + left. split; [exact Ht |]. right. rewrite Hcn. exact Hf.
    + destruct Htimer as [[Hz _] | (s & Hs & Hd2 & Hlen & _ & Hall & Hbefore)];
        [contradiction |].
      right. exists s. split; [lia |]. split; [rewrite Ht; exact Hd2 |].
      split; [rewrite Hd2 in Hle; lia |]. split; [exact Hf |]. split.
      * intros j Hj. destruct (decide (j = n)) as [-> | Hne].
        -- rewrite Hcn. exact Hf.
        -- rewrite Hold by lia. apply Hall. lia.
      * destruct Hbefore as [Hs0 | Hs0]; [left; exact Hs0 |].
        right. rewrite Hold by lia. exact Hs0.
    + left. split; [exact Ht |]. right. rewrite Hcn. exact Hf.
  - (* the calibration calls *)
    intros k sw Hsw. destruct (decide (k < n)%nat) as [Hk | Hk];
      [apply Hprev; assumption |].
    destruct (Hthis k sw Hsw Hk) as [-> ->].
    destruct Hcase as [(Hz & Hc & _)
                      | [(Hnz & Hle & Hc & _) | (Hnz & Hlt & Hc & _)]].
    + left. split; [exact Hc |]. intros [Hn201 Hall].
      destruct Htimer as [[_ [Hn0 | Hn0]] | (s & Hs & Hd2 & _)].
      * lia.
      * specialize (Hall (n - 1)%nat ltac:(lia)). rewrite Hold in Hall by lia.
        congruence.
      * rewrite Hd2 in Hz. lia.
    + left. split; [exact Hc |]. intros [Hn201 Hall].
      destruct Htimer as [[Hz _] | (s & Hs & Hd2 & Hlen & _ & _ & Hbefore)];
        [contradiction |].
      rewrite Hd2 in Hle.
      destruct Hbefore as [-> | Hs0]; [lia |].
      specialize (Hall (s - 1)%nat ltac:(lia)). rewrite Hold in Hall by lia.
      congruence.
    + destruct Htimer as [[Hz _] | (s & Hs & Hd2 & Hlen & _ & Hall & _)];
        [contradiction |].
      rewrite Hd2 in Hlt.
      right. split; [lia |]. split.
      * intros j Hj. rewrite Hold by lia. apply Hall. lia.
      * exists (stE, wE), mE. rewrite lookup_app_l by lia.
        split; [apply HlastL; lia |]. split; [exact HdE | exact Hc].
Qed.

End SingleMechanism.

(** C2, amended.  Take a device with one mechanism, in the build without
    [RICKS_TOOLS], a state with the latch set and the settle timer clear,
    and consecutive ticks [g0], [g0+1], ... in init mode past the start
    delay, without [begin_homing], the sensor updates leaving the state
    and the type of the joints.  Then the tick of index [k] makes a
    calibration call if and only if the active group was complete at the
    end of each of the 201 ticks before it (indices [k-201] to [k-1]); it
    is then the only call of the tick, with [tool_only] telling whether
    the tools were not ready at the end of tick [k-1].  A group complete
    for the 200 ticks before is not calibrated. *)
Theorem C2_calibration_iff_complete_201_ticks {num ext : Type} {FO : FloatOps num}
    (cfg : config) (sv : services num ext) (g0 : Z) (ts : list (tick_input num))
    (st : statics) (w : world num ext) (m : mechanism num) :
  services_ok sv ->
  tools_ready_ok sv ->
  RICKS_TOOLS cfg = false ->
  0 < g0 ->
  g0 + Z.of_nat (length ts) + 200 < 2 ^ ULONG_BITS cfg ->
  homing_inited st <> 0 ->
  delay2 st = 0 ->
  mech (w_dev w) = [m] ->
  tool_layout sv m ->
  (forall k t, ts !! k = Some t ->
     ti_gTime t = g0 + Z.of_nat k
     /\ in_init_mode cfg (ti_params t) = true
     /\ ti_begin_homing t = 0
     /\ sense_ok (ti_sense t)
     /\ ~ ulong cfg (ti_gTime t - delay st) < 1000) ->
  forall k sw,
    run cfg sv ts (st, w) !! k = Some sw ->
    (calibrations (w_log (snd sw)) = []
     /\ ~ ((201 <= k)%nat
           /\ forall j, (k - 201 <= j < k)%nat ->
                        complete_after sv (run cfg sv ts (st, w)) j = true))
    \/ ((201 <= k)%nat
        /\ (forall j, (k - 201 <= j < k)%nat ->
                      complete_after sv (run cfg sv ts (st, w)) j = true)
        /\ exists sw' m',
             run cfg sv ts (st, w) !! (k - 1)%nat = Some sw'
             /\ mech (w_dev (snd sw')) = [m']
             /\ calibrations (w_log (snd sw))
                = [Ev_calibrate 0 (negb (tools_ready sv m'))]).
Proof.
  intros ok tr Hricks Hg0 Hbound Hinit Hd2 Hd Hlay Hts.
  exact (proj2 (single_run_inv cfg sv ok tr g0 st w m ts
                  Hricks Hg0 Hbound Hinit Hd2 Hd Hlay Hts)).
Qed.

Lemma bench_ticks_length (sense : Z -> device B32.float -> device B32.float)
    (n : nat) :
  forall b g, length (Bench.ticks sense b g n) = n.
Proof. induction n as [| n IH]; intros b g; cbn; [reflexivity |]. rewrite IH. reflexivity. Qed.

Lemma C2_calibration_iff_complete_201_ticks_witness :
  exists sw,
    run (Bench.cfg true) Bench.sv (Bench.ticks (fun _ => Bench.stalled) 0 1000 250)
      (mkStatics 1 0 0,
       mkWorld Bench.ext_init
         (mkDevice [Bench.mech2 0 GOLD_ARM jstate_hard_stop jstate_ready 5000]) [])
    !! 201%nat = Some sw
    /\ ((calibrations (w_log (snd sw)) = []
         /\ ~ ((201 <= 201)%nat
               /\ forall j, (201 - 201 <= j < 201)%nat ->
                    complete_after Bench.sv
                      (run (Bench.cfg true) Bench.sv (Bench.ticks (fun _ => Bench.stalled) 0 1000 250)
      (mkStatics 1 0 0,
       mkWorld Bench.ext_init
         (mkDevice [Bench.mech2 0 GOLD_ARM jstate_hard_stop jstate_ready 5000]) []))
                      j = true))
        \/ ((201 <= 201)%nat
            /\ (forall j, (201 - 201 <= j < 201)%nat ->
                   complete_after Bench.sv
                     (run (Bench.cfg true) Bench.sv (Bench.ticks (fun _ => Bench.stalled) 0 1000 250)
      (mkStatics 1 0 0,
       mkWorld Bench.ext_init
         (mkDevice [Bench.mech2 0 GOLD_ARM jstate_hard_stop jstate_ready 5000]) []))
                     j = true)
            /\ exists sw' m',
                 run (Bench.cfg true) Bench.sv (Bench.ticks (fun _ => Bench.stalled) 0 1000 250)
      (mkStatics 1 0 0,
       mkWorld Bench.ext_init
         (mkDevice [Bench.mech2 0 GOLD_ARM jstate_hard_stop jstate_ready 5000]) [])
                 !! (201 - 1)%nat = Some sw'
                 /\ mech (w_dev (snd sw')) = [m']
                 /\ calibrations (w_log (snd sw))
                    = [Ev_calibrate 0 (negb (tools_ready Bench.sv m'))])).
Proof.
  destruct (lookup_lt_is_Some_2
              (run (Bench.cfg true) Bench.sv (Bench.ticks (fun _ => Bench.stalled) 0 1000 250)
      (mkStatics 1 0 0,
       mkWorld Bench.ext_init
         (mkDevice [Bench.mech2 0 GOLD_ARM jstate_hard_stop jstate_ready 5000]) []))
              201%nat) as [sw Hsw].
  { rewrite run_length, bench_ticks_length. lia. }
  exists sw. split; [exact Hsw |].
  refine (C2_calibration_iff_complete_201_ticks (Bench.cfg true) Bench.sv 1000
           (Bench.ticks (fun _ => Bench.stalled) 0 1000 250)
           (mkStatics 1 0 0)
           (mkWorld Bench.ext_init
              (mkDevice [Bench.mech2 0 GOLD_ARM jstate_hard_stop jstate_ready 5000]) [])
           (Bench.mech2 0 GOLD_ARM jstate_hard_stop jstate_ready 5000)
           sv_ok sv_tools_ready_ok _ _ _ _ _ _ _ _ 201%nat sw Hsw).
  - reflexivity.
  - lia.
  - rewrite bench_ticks_length. cbn. lia.
  - cbn. discriminate.
  - reflexivity.
  - reflexivity.
  - apply bench_layout2.
  - intros k t Hk.
    assert (Hlt : (k < 250)%nat).
    { apply lookup_lt_Some in Hk. rewrite bench_ticks_length in Hk. exact Hk. }
    apply bench_ticks_lookup in Hk.
    destruct Hk as (Hg & Hp & Hb & Hs). rewrite Hg, Hp, Hs.
    split; [reflexivity |]. split; [reflexivity |].
    split; [destruct k; exact Hb |]. split; [apply bench_stalled_ok |].
    unfold ulong. cbn [delay ULONG_BITS Bench.cfg].
    rewrite Z.mod_small by lia. lia.
Defined.
